(* ===== verification/_CoqProject ===== *)
-Q . S2P
Prelude.v
Float.v
Utf8.v
Term.v
Arrow.v
FloatBits.v
ArrowRef.v
Compute.v
ComputeFacts.v
ComputeEval.v
ComputeTyped.v
ComputeThms.v
Cdi.v
CdiFacts.v
CdiThms.v
Stream.v
Parquet.v
ParquetFacts.v
ParquetPruning.v
ParquetThms.v
Ipc.v
IpcFacts.v
IpcThms.v
IpcRound.v
FromLists.v
FromListsFacts.v
FromListsThms.v
ParquetRows.v
Batch.v
BatchThms.v
ParquetRead.v
ParquetWrite.v
FlightServer.v
FlightClient.v
FlightFacts.v
FlightThms.v
FlightEnd.v
FlightLock.v
FlightSql.v
FlightSqlThms.v
SqlConc.v
SqlConcThms.v
Adbc.v
AdbcThms.v
Elixir.v
Expression.v
ParquetOpts.v
ScanPlan.v
ScanPlanFacts.v
ScanPlanThms.v
ExpressionThms.v
ParquetOptsThms.v
Paths.v
Hive.v
HiveThms.v
HiveRound.v
FileSystem.v
FileSystemFacts.v
ScanRows.v
Scanner.v
ScannerFacts.v
ScanRead.v
ScannerThms.v
ScanLimits.v
MultiStream.v
MultiStreamThms.v
Discovery.v
DiscoveryThms.v
DiscoveryRound.v
HiveScan.v
