(* ===== verification/Prelude.v ===== *)
(** * ExArrow: a verification development

    ExArrow gives Elixir access to Apache Arrow.  Its core is the Rust crate
    [src/native/ex_arrow_native/src/], a library of NIFs: functions that take
    Erlang terms and resource handles and answer [{:ok, v}], [{:error, e}], an
    atom or a bare value.  This development models every NIF of the crate and
    what they call, and proves what makes them correct.  Above the crate it
    models the Elixir modules with logic of their own (under
    [src/lib/ex_arrow/]), on top of the modelled NIFs: those that scan
    datasets, build and transform batches, and stream over files.

    ** Parts of the program and the files that model them

    - this file: outcomes of Rust functions ([res]: a value, an error or a
      panic), machine integers, the lemmas and tactics all files share;
    - [Float], [Utf8]: IEEE 754 binary64/binary32 values (exact conversions,
      the two orders of the code) and UTF-8 (validity, [from_utf8_lossy]);
    - [Term]: the NIF boundary.  [Rustler] is the interface of the term
      decoders and encoders, [RustlerLaws] their documented behaviour, [beam]
      an implementation; [Reply] is what a NIF returns (util.rs).  Lists are
      iterated ([ListIterator], [collect_list]): an improper tail panics when
      the iterator reaches it, and [proper_lists] are the terms without one;
    - [Arrow], [ArrowRef]: Arrow data (schemas, arrays as lists of optional
      values, record batches) and the kernels of the Arrow crates as the class
      [Arrow], with laws ([CmpLaws], [BoolLaws], [BatchLaws], [BuildLaws],
      [SortLaws]); [ArrowRef] is an executable implementation of all of them,
      so that no law is vacuous and witnesses evaluate;
    - [Stream]: mutexes, which a panic under the lock poisons ([release]), and
      readers behind one; [next_reply] is the shared body of
      [ipc_stream_next], [parquet_stream_next] and [flight_sql_stream_next];
    - [Compute] (compute.rs): expressions decoded from terms, typed literals,
      their evaluation to a boolean mask, and the filter, project and sort
      NIFs.  Facts in [ComputeFacts], [ComputeEval], [ComputeTyped];
    - [Cdi] (cdi.rs): the C data interface handle.  [step_pc] executes one
      atomic action (a swap of a pointer, a read, a free) of a call on a heap
      of boxes; [step] interleaves the calls of several threads, the drop of
      the handle, and an external consumer that releases what it was lent;
      importing a released struct is a fault, and [conform] are the steps of
      callers that mark the handle consumed first.  Facts in [CdiFacts];
    - [Parquet] (parquet.rs): options and filters, row-group pruning on
      statistics, row filters, readers, writers and metadata.  Facts in
      [ParquetFacts], [ParquetPruning] and [ParquetRows] (tables up to their
      cut into batches, an equivalence [same_table] with its [Proper]
      instances);
    - [Ipc] (ipc.rs, resources.rs): IPC streams and files, the schema and batch
      accessors, columns from and to raw binaries.  Facts in [IpcFacts];
    - [FlightServer], [FlightClient] (flight.rs): TLS options, the descriptor
      and FlightInfo codecs, the in-memory service as a state machine on its
      datasets, the life cycle of a server; the shared runtime, connecting and
      the seven calls of a client over the interface [FlightRpc], which
      [loopback] implements by the service.  A call takes and returns the
      handle, so that a poisoned lock is seen.  Facts in [FlightFacts];
    - [FlightSql] (flight_sql.rs): the error codec, queries and metadata calls,
      prepared statements, each a function of the handle and the server;
    - [SqlConc] (flight_sql.rs): the same calls as processes that lock, call
      and unlock where the NIFs do.  [step] interleaves any number of them on
      one connection; a process that runs alone is the NIF ([alone_nif]);
    - [Adbc] (adbc.rs): driver options, connections, statements, and result
      streams shared by concurrent callers.

    The Elixir side, from the values up to the scanner:

    - [Elixir]: scalars, calendar structs and the term order of the language;
    - [Expression] (compute/expression.ex, compute.ex): the expression tree,
      its validation, the split into a Parquet filter and a residual, and the
      term [compute_filter_expr] gets;
    - [ParquetOpts] (parquet/opts.ex, reader.ex, writer.ex): the options that
      are accepted and the terms the NIFs get;
    - [ScanPlan] (scanner/compile.ex, scanner/partition.ex): what of a filter
      goes to the reader and what is left, and pruning by partition values.
      Meanings and facts in [ScanPlanFacts];
    - [Scanner] (scanner.ex, dataset.ex, dataset/fragment.ex): building a
      scanner, and the stream as an Agent: [ensure_open], [take_inner_batch],
      [advance] and [finish_scan] are its atomic updates, [do_next] the call
      that composes them.  Facts in [ScanRows] (the rows an expression selects
      of a table up to its cut), [ScannerFacts] and [ScanRead].
    - [Paths], [Hive] (dataset/hive.ex): path strings, and the partition values
      of a path;
    - [FileSystem] (file_system.ex, file_system/memory.ex): the behaviour that
      discovery calls, as a class, with its laws in [FileSystemFacts]; globs,
      hidden names, and the file system in memory, which obeys the laws;
    - [Discovery] (dataset.ex): [Dataset.open], over any file system;
    - [FromLists] (record_batch.ex): batches from lists and maps of Elixir
      values, with the bit patterns of floats in [FloatBits].  Facts in
      [FromListsFacts];
    - [Batch] (batch.ex): [select], [drop], [rename] and [take];
    - [MultiStream] (stream.ex, gen_stage.ex): the stream over several Parquet
      files, an Agent beside the readers it opened, and the demand loop of the
      GenStage producers over the interface [NextStream].

    Definitions keep the names of the code.  A Rust [match] with an early
    return is a [res] bind or a [match] in the order of the code, error
    messages included.  Code that is not under [src/] (arrow-rs, parquet,
    arrow-flight, tonic, the ADBC driver manager, rustler, the operating
    system) is a type class; what the theorems rely on is a class of laws or a
    premise, and each has a concrete instance.

    ** The theorems

    - [ComputeThms]: a filter keeps exactly the rows on which the expression is
      true in a row-by-row semantics with three-valued logic, and what it
      returns is well formed; expressions survive encoding and decoding; a
      literal is compared at its exact value or refused (with the exceptions
      found for Float32 and nanoseconds); projection and sorting do what they
      say.
    - [CdiThms]: under every interleaving no box is freed twice or used after
      it was freed, and no struct is imported after its release where callers
      keep to the protocol ([conform]); without it that is the only fault.
      Calls one after the other neither leak nor fail; export then import is
      the identity; calls end; two racing imports can leak.
    - [ParquetThms]: the row filter is the row-by-row meaning of the filter;
      pruning never drops a matching row when leaf names are unambiguous and
      the float bounds are ordinary, and drops some otherwise; the selection
      of row groups and its counts; options round trip.
    - [ParquetRead], [ParquetWrite]: what the crate promises of readers and
      writers ([ReaderLaws], [WriterLaws]), and end to end: a read with options
      delivers exactly the rows that were asked for, of the file or of what
      was written to it.  For an [ordinary] filter (no float literal NaN or
      zero) and true statistics, pruning, chunks and row groups cannot be
      observed.  A projection selects a column by a name without dots.
    - [IpcThms]: the framing accepts exactly the encodings of lists of records;
      fixed-width columns need exactly their length; extracting a buffer and
      rebuilding the column is the identity; batches are built column by
      column; files are read by index.
    - [IpcRound]: with what the crate promises of its formats ([StreamLaws],
      [IpcFileLaws]), streams and files that were written read back.
    - [FlightThms], [FlightEnd]: the service refines the log of accepted
      uploads; tickets and listings lead to the datasets; a client gets back
      the rows it put, if all of them could be encoded (a truncated upload is
      reported as a success); [FlightLaws] promise the same table, not the same
      batches, since the encoder may cut them, and for columns that are neither
      nested nor dictionaries; a server handle is given exactly for a ready server, and
      stopping is idempotent; distinct descriptors can collide.
    - [FlightLock]: a panic under the client's lock loses the connection (every
      later call is [refused]), and nothing else does; all connections share one runtime.
    - [FlightSqlThms]: a status survives its detour through an Arrow error; a
      stream is opened exactly when every step succeeds; a closed statement
      stays closed; successful [bind] and [close] calls are not understood by
      their Elixir callers.
    - [SqlConcThms]: concurrent calls on a connection always finish; no RPC but
      those of prepared statements comes between the two of a query; queries,
      updates and prepares are serialised.
    - [AdbcThms]: concurrent readers of a result get each batch exactly once;
      results are all or nothing; what the options of a database mean.
    - [ExpressionThms]: an expression that is validated, with operands the
      kernels compare exactly, filters without an error by its row-by-row
      meaning; what validation accepts and the NIF refuses.
    - [ParquetOptsThms], [ScanRead]: accepted options are decoded to what they
      say, filter tuples and expressions mean the same to the reader and to
      [Compute.filter] where the literals are exact, and a read from Elixir
      delivers the rows of its filter.
    - [ScanPlanThms]: a plan loses no row and invents none, where [plannable]
      and [orders_alike] hold (no dates); and what it gets wrong where they do
      not, for every such filter and every fragment.
    - [ScannerThms]: a lazy scan of a Parquet dataset is the naive scan of all
      its rows ([dataset_scan_exact], which composes all of the above); the
      accounts of any scan.
    - [HiveThms], [HiveRound]: partition values have the keys and types of
      their schema, which the scanner relies on; a path written by the Hive
      convention reads back, for any root.
    - [DiscoveryThms], [DiscoveryRound], [HiveScan]: a directory opens as
      exactly its files, typed, in order; globs match what they say; what was
      laid out opens as it was laid out, and a filter over its partitions scans
      the files of which it is true ([truth], the filter's own meaning) whole
      ([hive_scan_selects_files], from the paths to the rows);
      hidden files that cannot be opened by name.
    - [ScanLimits]: filters that IPC datasets ignore, residuals that miss their
      columns, and two callers of one stream, who race at the end of every
      fragment.
    - [FromListsThms]: [from_lists] accepts exactly the columns whose cells have
      a meaning in their type, and the batch holds these meanings; inferred
      types; numbers that raise.  [FloatBits]: a float that rounding gives is
      read back from its bits.
    - [BatchThms]: [take] and [drop] keep the rows and columns they say,
      [rename] the cells of columns without nulls; the batches where they do
      not.
    - [MultiStreamThms]: a stream over several files delivers the batches of
      all of them, opening each file only when it is reached; a producer
      answers demands with its stream, once and in order; callers that race
      skip a file, and a file with other columns blocks the stream.

    ** Bounds and fuel

    [decode_expr] and [decode_filter_expr] recurse on terms with fuel, the
    NIFs giving the size of the term: by [tuple_smaller] and [list_smaller]
    this is enough, which the round-trip theorems use.  [Cdi.call] gives a
    call 8 steps, which [cdi_calls_terminate] proves enough.  [varlen_loop]
    has one unit of fuel more than the binary has bytes, and every record takes
    four ([varlen_loop_spec]).  A call of [SqlConc] takes at most six steps
    ([call_ends]).
    [do_next] takes a unit of fuel for every empty batch and every end of a
    fragment: one more than the batches and fragments of the dataset together
    are enough ([next_pending]), and [dataset_scan_exact] holds for every fuel
    from there on.
    [multi_next] takes a unit of fuel for every file that is used up: more
    than there are paths is enough ([multi_next_pending]); [to_list] takes one
    for every batch and one for the end.
    [strip_all] is given the length of its text.  Integers are [Z] with the
    width written where it matters ([wrap_s], [wrap_u], [try_from_s]);
    lengths of lists are [nat].  Sums of [usize] offsets cannot
    wrap, since they are bounded by the length of a binary.

    ** Not modelled

    The other Elixir modules under [src/lib/] (but for the two callers in
    [elixir_ok_or_error]): the clauses of a stream that call one NIF, bridges to
    other packages, starting and terminating GenStage producers, pools,
    telemetry.  The local file system is calls of the operating system:
    another instance of [FileSystem].  [Float.parse], for partition values of
    float types, is a parameter.  Of options and scalars the
    clauses that refuse values of another type are left out, since the model's
    are typed, and so is closing a stream, which ends its Agent.  Registration
    of the NIFs (lib.rs) and file I/O beyond the result of opening a file.  A statement prepared in a run of
    [SqlConc] is not used in that run: the calls of a run use the statements
    it starts with.  Dropping of resources by the garbage collector is modelled
    for the C data interface only, where it has an effect. *)

From stdpp Require Export base tactics numbers option list strings gmap.
From stdpp Require Export pretty relations.
From Stdlib Require Export ZArith Lia.

(** ** Outcomes of Rust functions

    [Ok] and [Err] are the constructors of [Result]; [Panic] is what an index
    out of range, [unreachable!], an [unwrap] on [None] or a capacity overflow
    does.  The string of [Panic] names the operation that panicked. *)
Inductive res (E A : Type) : Type :=
| Ok (a : A)
| Err (e : E)
| Panic (site : string).
Arguments Ok {E A} a.
Arguments Err {E A} e.
Arguments Panic {E A} site.

Section res_monad.
Context {E : Type}.

#[global] Instance res_ret : MRet (res E) := fun A a => Ok a.
#[global] Instance res_bind : MBind (res E) := fun A B f m =>
  match m with
  | Ok a => f a
  | Err e => Err e
  | Panic s => Panic s
  end.

End res_monad.

(** [Result::map_err]. *)
Definition map_err {E F A} (f : E -> F) (m : res E A) : res F A :=
  match m with
  | Ok a => Ok a
  | Err e => Err (f e)
  | Panic s => Panic s
  end.

(** [Result::map]. *)
Definition map_ok {E A B} (f : A -> B) (m : res E A) : res E B :=
  match m with
  | Ok a => Ok (f a)
  | Err e => Err e
  | Panic s => Panic s
  end.

(** [Option::ok_or_else]. *)
Definition ok_or {E A} (e : E) (o : option A) : res E A :=
  match o with
  | Some a => Ok a
  | None => Err e
  end.

(** [iter().map(f).collect::<Result<Vec<_>, _>>()]: stops at the first error. *)
Fixpoint collect {E A B} (f : A -> res E B) (l : list A) : res E (list B) :=
  match l with
  | [] => Ok []
  | x :: l' =>
      y ← f x;
      ys ← collect f l';
      Ok (y :: ys)
  end.

(** [iter().map(f).collect::<Option<Vec<_>>>()]. *)
Fixpoint collect_opt {A B} (f : A -> option B) (l : list A) : option (list B) :=
  match l with
  | [] => Some []
  | x :: l' =>
      match f x with
      | None => None
      | Some y => match collect_opt f l' with
                  | None => None
                  | Some ys => Some (y :: ys)
                  end
      end
  end.

(** [v[i]] on a slice: a panic when the index is out of range. *)
Definition index {E A} (l : list A) (i : nat) : res E A :=
  match l !! i with
  | Some a => Ok a
  | None => Panic "index out of bounds"
  end.

(** The predicate of a call that does not panic. *)
Definition no_panic {E A} (m : res E A) : Prop :=
  match m with Panic _ => False | _ => True end.

Definition is_ok {E A} (m : res E A) : Prop :=
  match m with Ok _ => True | _ => False end.

(** ** Machine integers *)

Open Scope Z_scope.

Definition u_range (w z : Z) : Prop := 0 <= z < 2 ^ w.
Definition s_range (w z : Z) : Prop := - 2 ^ (w - 1) <= z < 2 ^ (w - 1).
Definition in_u (w z : Z) : bool := (0 <=? z) && (z <? 2 ^ w).
Definition in_s (w z : Z) : bool := (- 2 ^ (w - 1) <=? z) && (z <? 2 ^ (w - 1)).

(** Wrap-around of a [w]-bit unsigned or two's complement result. *)
Definition wrap_u (w z : Z) : Z := z mod 2 ^ w.
Definition wrap_s (w z : Z) : Z := (z + 2 ^ (w - 1)) mod 2 ^ w - 2 ^ (w - 1).

(** [iN::try_from(v)] and [uN::try_from(v)]. *)
Definition try_from_s (w v : Z) : option Z := if in_s w v then Some v else None.
Definition try_from_u (w v : Z) : option Z := if in_u w v then Some v else None.

(** [i64::checked_mul]. *)
Definition checked_mul_i64 (a b : Z) : option Z := try_from_s 64 (a * b).

(** The Rust operators [%] and [/] on signed integers truncate toward zero. *)
Definition rust_rem (a b : Z) : Z := Z.rem a b.
Definition rust_div (a b : Z) : Z := Z.quot a b.

(** ** Lemmas *)

Create HintDb s2r discriminated.
Create HintDb res_rw.

Lemma bind_Ok {E A B} (f : A -> res E B) (m : res E A) (b : B) :
  m ≫= f = Ok b <-> exists a, m = Ok a /\ f a = Ok b.
Proof. destruct m; simpl; naive_solver. Qed.

Lemma bind_Err {E A B} (f : A -> res E B) (m : res E A) (e : E) :
  m ≫= f = Err e <-> m = Err e \/ exists a, m = Ok a /\ f a = Err e.
Proof. destruct m; simpl; naive_solver. Qed.

Lemma bind_no_panic {E A B} (f : A -> res E B) (m : res E A) :
  no_panic m -> (forall a, m = Ok a -> no_panic (f a)) -> no_panic (m ≫= f).
Proof. destruct m; simpl; auto. Qed.

Lemma map_err_Ok {E F A} (f : E -> F) (m : res E A) a :
  map_err f m = Ok a <-> m = Ok a.
Proof. destruct m; simpl; naive_solver. Qed.

Lemma map_err_no_panic {E F A} (f : E -> F) (m : res E A) :
  no_panic m -> no_panic (map_err f m).
Proof. by destruct m. Qed.

Lemma map_ok_Ok {E A B} (f : A -> B) (m : res E A) b :
  map_ok f m = Ok b <-> exists a, m = Ok a /\ f a = b.
Proof. destruct m; simpl; naive_solver. Qed.

Lemma map_ok_no_panic {E A B} (f : A -> B) (m : res E A) :
  no_panic m -> no_panic (map_ok f m).
Proof. by destruct m. Qed.

Lemma ok_or_Ok {E A} (e : E) (o : option A) a : ok_or e o = Ok a <-> o = Some a.
Proof. destruct o; simpl; naive_solver. Qed.

Lemma ok_or_no_panic {E A} (e : E) (o : option A) : no_panic (ok_or e o).
Proof. by destruct o. Qed.

Lemma is_ok_spec {E A} (m : res E A) : is_ok m <-> exists a, m = Ok a.
Proof. destruct m; simpl; naive_solver. Qed.

Lemma collect_Ok {E A B} (f : A -> res E B) l ys :
  collect f l = Ok ys <-> Forall2 (fun x y => f x = Ok y) l ys.
Proof.
  revert ys; induction l as [|x l IH]; intros ys; simpl.
  - split; [by intros [= <-]|]. by intros ->%Forall2_nil_inv_l.
  - rewrite bind_Ok. setoid_rewrite bind_Ok. setoid_rewrite IH. split.
    + intros (y & Hy & ys' & Hys & [= <-]). by constructor.
    + intros H. inversion H; subst. eauto 10.
Qed.

Lemma collect_length {E A B} (f : A -> res E B) l ys :
  collect f l = Ok ys -> length ys = length l.
Proof. intros H%collect_Ok. symmetry. by eapply Forall2_length. Qed.

Lemma collect_no_panic {E A B} (f : A -> res E B) l :
  Forall (fun x => no_panic (f x)) l -> no_panic (collect f l).
Proof.
  induction 1; simpl; [done|].
  apply bind_no_panic; [done|]. intros. by apply bind_no_panic.
Qed.

(** Extensionality on the elements the traversal visits. *)
Lemma collect_ext {E A B} (f g : A -> res E B) l :
  (forall x, In x l -> f x = g x) -> collect f l = collect g l.
Proof.
  induction l as [|x l IH]; simpl; intros H; [done|].
  rewrite (H x) by auto. by rewrite IH by auto.
Qed.

Lemma collect_map_Ok {E A B C} (g : C -> A) (f : A -> res E B) (h : C -> B) l :
  (forall x, In x l -> f (g x) = Ok (h x)) -> collect f (g <$> l) = Ok (h <$> l).
Proof.
  induction l as [|x l IH]; intros H; [done|].
  rewrite !fmap_cons. simpl. rewrite (H x) by (simpl; auto). simpl.
  rewrite IH; [done|]. simpl in *; auto.
Qed.

Lemma collect_opt_Some {A B} (f : A -> option B) l ys :
  collect_opt f l = Some ys <-> Forall2 (fun x y => f x = Some y) l ys.
Proof.
  revert ys; induction l as [|x l IH]; intros ys; simpl.
  - split; [by intros [= <-]|]. by intros ->%Forall2_nil_inv_l.
  - split.
    + repeat case_match; naive_solver.
    + intros H; inversion H as [|??? l' Hx Hl]; subst.
      apply IH in Hl. by rewrite Hx, Hl.
Qed.

Lemma collect_opt_fmap_Some {A B} (f : A -> option B) (g : A -> B) l :
  (forall x, In x l -> f x = Some (g x)) -> collect_opt f l = Some (g <$> l).
Proof.
  induction l as [|x l IH]; intros H; [done|].
  rewrite fmap_cons. simpl. rewrite (H x) by (simpl; auto).
  rewrite IH; [done|]. simpl in *; auto.
Qed.

Lemma index_Ok {E A} (l : list A) i (a : A) : @index E A l i = Ok a <-> l !! i = Some a.
Proof. unfold index. case_match; naive_solver. Qed.

Lemma in_s_true w z : in_s w z = true <-> s_range w z.
Proof. unfold in_s, s_range. lia. Qed.

Lemma in_u_true w z : in_u w z = true <-> u_range w z.
Proof. unfold in_u, u_range. lia. Qed.

Lemma try_from_s_Some w v x : try_from_s w v = Some x <-> x = v /\ s_range w v.
Proof.
  unfold try_from_s. rewrite <-in_s_true. destruct (in_s w v); naive_solver.
Qed.

Lemma try_from_s_None w v : try_from_s w v = None <-> ~ s_range w v.
Proof.
  unfold try_from_s. rewrite <-in_s_true. destruct (in_s w v); naive_solver.
Qed.

Lemma try_from_u_Some w v x : try_from_u w v = Some x <-> x = v /\ u_range w v.
Proof.
  unfold try_from_u. rewrite <-in_u_true. destruct (in_u w v); naive_solver.
Qed.

Lemma wrap_s_id w z : 0 < w -> s_range w z -> wrap_s w z = z.
Proof.
  intros Hw H. unfold wrap_s, s_range in *.
  assert (2 ^ w = 2 * 2 ^ (w - 1)) as E.
  { rewrite <-Z.pow_succ_r by lia. f_equal. lia. }
  rewrite Z.mod_small; lia.
Qed.

Lemma wrap_u_id w z : u_range w z -> wrap_u w z = z.
Proof. intros H. unfold wrap_u, u_range in *. by apply Z.mod_small. Qed.

Lemma wrap_u_range w z : 0 <= w -> u_range w (wrap_u w z).
Proof. intros. apply Z.mod_pos_bound. by apply Z.pow_pos_nonneg. Qed.

#[export] Hint Resolve ok_or_no_panic map_err_no_panic map_ok_no_panic : s2r.
#[export] Hint Rewrite @bind_Ok @map_err_Ok @map_ok_Ok @ok_or_Ok : res_rw.

(** ** Tactics *)

(** Splits an equation [do-block = Ok v] into the equations of its steps. *)
Ltac inv_ok H :=
  repeat first
    [ progress autorewrite with res_rw in H
    | match type of H with
      | exists _, _ => let x := fresh "x" in destruct H as [x H]
      | _ /\ _ => let H1 := fresh "Hok" in destruct H as [H1 H]
      end ].

(** Case analysis on every [match] of the goal, closing trivial cases. *)
Ltac crush_match := repeat (case_match; simplify_eq/=; try done).
