(* ===== verification/Float.v ===== *)
(** * IEEE 754 numbers

    Rust's [f64] and [f32] as the standard library's [spec_float]: [f64] with
    a precision of 53 bits and exponents below 1024, [f32] with 24 and 128.
    The [as] casts of the language round to nearest, ties to even, when the
    target is a float, and truncate and saturate when it is an integer.
    The comparison operators of [f64] are the IEEE ones ([SFcompare]);
    [total_cmp] is the [totalOrder] predicate, with one (positive) NaN. *)

From Stdlib Require Export SpecFloat.
From S2P Require Import Prelude.

Notation f64 := spec_float.
Notation f32 := spec_float.

(** ** Casts *)

(** [v as f64] and [v as f32] for an integer [v]. *)
Definition f64_of_int (v : Z) : f64 := binary_normalize 53 1024 v 0 false.
Definition f32_of_int (v : Z) : f32 := binary_normalize 24 128 v 0 false.

(** [x as f32] for an [f64], [f64::from(x)] and [x as f64] for an [f32]. *)
Definition f32_of_f64 (x : f64) : f32 :=
  match x with
  | S754_finite s m e => binary_round 24 128 s m e
  | _ => x
  end.

Definition f64_of_f32 (x : f32) : f64 :=
  match x with
  | S754_finite s m e => binary_round 53 1024 s m e
  | _ => x
  end.

(** The integer part of a float, toward zero. *)
Definition trunc (m : positive) (e : Z) : Z :=
  if 0 <=? e then Zpos m * 2 ^ e else Zpos m / 2 ^ (- e).

Definition clamp (lo hi z : Z) : Z := Z.max lo (Z.min hi z).

(** [x as iN] for a float [x]: NaN gives 0, the others saturate. *)
Definition int_of_float (w : Z) (x : spec_float) : Z :=
  let lo := - 2 ^ (w - 1) in
  let hi := 2 ^ (w - 1) - 1 in
  match x with
  | S754_zero _ | S754_nan => 0
  | S754_infinity s => if s then lo else hi
  | S754_finite s m e => clamp lo hi (cond_Zopp s (trunc m e))
  end.

(** ** Comparisons *)

Definition f_eq (x y : spec_float) : bool := SFeqb x y.
Definition f_ne (x y : spec_float) : bool := negb (SFeqb x y).
Definition f_lt (x y : spec_float) : bool := SFltb x y.
Definition f_le (x y : spec_float) : bool := SFleb x y.
Definition f_gt (x y : spec_float) : bool := SFltb y x.
Definition f_ge (x y : spec_float) : bool := SFleb y x.

Definition is_nan (x : spec_float) : bool :=
  match x with S754_nan => true | _ => false end.
Definition is_zero (x : spec_float) : bool :=
  match x with S754_zero _ => true | _ => false end.

(** IEEE 754 [totalOrder]: -0 before +0, NaN after everything. *)
Definition total_cmp (x y : spec_float) : comparison :=
  match x, y with
  | S754_nan, S754_nan => Eq
  | S754_nan, _ => Gt
  | _, S754_nan => Lt
  | S754_zero true, S754_zero false => Lt
  | S754_zero false, S754_zero true => Gt
  | _, _ => match SFcompare x y with Some c => c | None => Eq end
  end.

(** ** The exact value of a float *)

(** [denotes x z]: the value of [x] is exactly the integer [z]. *)
Definition denotes (x : spec_float) (z : Z) : Prop :=
  match x with
  | S754_zero _ => z = 0
  | S754_finite s m e =>
      if 0 <=? e then z = cond_Zopp s (Zpos m * 2 ^ e)
      else cond_Zopp s (Zpos m) = z * 2 ^ (- e)
  | _ => False
  end.

Definition integral (x : spec_float) : Prop :=
  match x with
  | S754_finite s m e => e < 0 -> (2 ^ (- e) | Zpos m)
  | _ => True
  end.

(** ** Rounding an integer gives an integer *)

Lemma digits2_pos_bound m : 2 ^ (Zpos (digits2_pos m) - 1) <= Zpos m.
Proof.
  induction m as [m IH|m IH|]; simpl digits2_pos; [| |simpl; lia].
  all: rewrite Pos2Z.inj_succ.
  all: replace (Z.succ (Zpos (digits2_pos m)) - 1) with (Z.succ (Zpos (digits2_pos m) - 1)) by lia.
  all: rewrite Z.pow_succ_r by lia; lia.
Qed.

Lemma digits2_pos_iter m k :
  Zpos (digits2_pos (Pos.iter xO m k)) = Zpos (digits2_pos m) + Zpos k.
Proof.
  induction k as [|k IH] using Pos.peano_ind; [simpl; lia|].
  rewrite Pos.iter_succ. simpl digits2_pos. lia.
Qed.

Lemma iter_xO m k : Zpos (Pos.iter xO m k) = Zpos m * 2 ^ Zpos k.
Proof.
  induction k as [|k IH] using Pos.peano_ind.
  - change (Zpos (Pos.iter xO m 1)) with (2 * Zpos m). lia.
  - rewrite Pos.iter_succ. rewrite Pos2Z.inj_succ, Z.pow_succ_r by lia. lia.
Qed.

Section round.
Context (prec emax : Z) (Hprec : 1 < prec) (Hemax : prec < emax).

(** A mantissa already at its canonical exponent is not changed. *)
Lemma round_aux_canonical s m e :
  fexp prec emax (Zpos (digits2_pos m) + e) = e -> e <= emax - prec ->
  binary_round_aux prec emax s (Zpos m) e loc_Exact = S754_finite s m e.
Proof.
  intros Hc He. unfold binary_round_aux, shr_fexp. simpl Zdigits2.
  rewrite Hc, Z.sub_diag. simpl. rewrite Hc, Z.sub_diag. simpl.
  destruct (Z.leb_spec e (emax - prec)); [done|lia].
Qed.

Lemma shr_exp mrs e n : snd (shr mrs e n) = e + Z.max 0 n.
Proof. destruct n; simpl; lia. Qed.

(** Rounding never lowers a nonnegative exponent. *)
Lemma round_aux_nonneg s m e :
  0 <= e -> integral (binary_round_aux prec emax s (Zpos m) e loc_Exact).
Proof.
  intros He. unfold binary_round_aux, shr_fexp.
  set (n1 := fexp prec emax _ - e).
  pose proof (shr_exp (shr_record_of_loc (Zpos m) loc_Exact) e n1) as H1.
  destruct (shr _ e n1) as [mrs1 e1]. simpl in H1.
  set (m1 := round_nearest_even _ _).
  set (n2 := fexp prec emax _ - e1).
  pose proof (shr_exp (shr_record_of_loc m1 loc_Exact) e1 n2) as H2.
  destruct (shr _ e1 n2) as [mrs2 e2]. simpl in H2.
  destruct (shr_m mrs2) as [|p|p]; simpl; [done| |done].
  destruct (e2 <=? emax - prec); simpl; [lia|done].
Qed.

Lemma binary_round_integral s m : integral (binary_round prec emax s m 0).
Proof.
  unfold binary_round, shl_align. set (f := fexp prec emax _).
  destruct (f - 0) as [|p|k] eqn:Ef.
  - by apply round_aux_nonneg.
  - by apply round_aux_nonneg.
  - rewrite round_aux_canonical.
    + simpl. intros _. rewrite iter_xO. exists (Zpos m). rewrite (Z.sub_0_r f) in Ef. by rewrite Ef.
    + rewrite digits2_pos_iter. transitivity f; [|lia]. unfold f. f_equal. lia.
    + lia.
Qed.

(** An integer whose digits fit the precision is represented exactly. *)
Lemma binary_round_exact s m :
  0 < Zpos m < 2 ^ prec -> denotes (binary_round prec emax s m 0) (cond_Zopp s (Zpos m)).
Proof.
  intros Hm. unfold binary_round, shl_align. set (f := fexp prec emax _).
  assert (f <= 0) as Hf.
  { unfold f, fexp, emin. pose proof (digits2_pos_bound m) as Hd.
    assert (2 ^ (Zpos (digits2_pos m) - 1) < 2 ^ prec) as Hlt by lia.
    apply Z.pow_lt_mono_r_iff in Hlt; lia. }
  destruct (f - 0) as [|p|k] eqn:Ef; [| lia |].
  - rewrite round_aux_canonical.
    + simpl. by rewrite Z.mul_1_r.
    + transitivity f; [done|lia].
    + lia.
  - rewrite round_aux_canonical.
    + rewrite Z.sub_0_r in Ef. rewrite Ef. unfold denotes.
      change (0 <=? Z.neg k) with false. change (- Z.neg k) with (Zpos k). cbv iota.
      rewrite iter_xO. destruct s; unfold cond_Zopp; lia.
    + rewrite digits2_pos_iter. transitivity f; [|lia]. unfold f. f_equal. lia.
    + lia.
Qed.

Lemma normalize_integral v : integral (binary_normalize prec emax v 0 false).
Proof. destruct v; simpl; [done|apply binary_round_integral..]. Qed.

Lemma normalize_exact v :
  - 2 ^ prec < v < 2 ^ prec -> denotes (binary_normalize prec emax v 0 false) v.
Proof.
  intros H. destruct v as [|m|m]; simpl; [done| |].
  - apply (binary_round_exact false m). lia.
  - apply (binary_round_exact true m). lia.
Qed.

End round.

(** Truncation of an integral float that does not saturate is its value. *)
Lemma int_of_float_integral w x v :
  integral x -> int_of_float w x = v -> v <> 0 ->
  - 2 ^ (w - 1) < v < 2 ^ (w - 1) - 1 -> denotes x v.
Proof.
  unfold int_of_float, clamp. destruct x as [s|s| |s m e]; simpl; intros Hi Hv H0 Hr.
  - done.
  - destruct s; lia.
  - done.
  - assert (cond_Zopp s (trunc m e) = v) as Ht by lia.
    unfold trunc in Ht. destruct (Z.leb_spec 0 e) as [He|He]; [done|].
    destruct (Hi He) as [k Hk]. rewrite Hk in Ht.
    rewrite Z.div_mul in Ht by (apply Z.pow_nonzero; lia).
    destruct s; simpl in *; rewrite Hk; nia.
Qed.

Lemma denotes_int_of_float w x v :
  denotes x v -> s_range w v -> int_of_float w x = v.
Proof.
  unfold denotes, int_of_float, s_range, clamp, trunc.
  destruct x as [s|s| |s m e]; try done.
  destruct (Z.leb_spec 0 e) as [He|He]; intros Hd Hr; [lia|].
  assert (2 ^ (- e) <> 0) as Hnz by (apply Z.pow_nonzero; lia).
  destruct s; simpl in *.
  - replace (Zpos m) with ((- v) * 2 ^ (- e)) by lia. rewrite Z.div_mul by done. lia.
  - rewrite Hd. rewrite Z.div_mul by done. lia.
Qed.

(** ** The order of floats

    [SFcompare] on numbers is the lexicographic order of a key of three
    integers, hence transitive. *)

Definition fkey (x : spec_float) : Z * Z * Z :=
  match x with
  | S754_zero _ => (0, 0, 0)
  | S754_infinity s => if s then (-2, 0, 0) else (2, 0, 0)
  | S754_nan => (9, 0, 0)
  | S754_finite s m e => if s then (-1, - e, - Zpos m) else (1, e, Zpos m)
  end.

Definition lex_cmp (a b : Z * Z * Z) : comparison :=
  let '(a1, a2, a3) := a in
  let '(b1, b2, b3) := b in
  match a1 ?= b1 with
  | Eq => match a2 ?= b2 with Eq => a3 ?= b3 | c => c end
  | c => c
  end.

Lemma SFcompare_key x y :
  is_nan x = false -> is_nan y = false -> SFcompare x y = Some (lex_cmp (fkey x) (fkey y)).
Proof.
  destruct x as [[]|[]| |[] m e], y as [[]|[]| |[] m' e']; simpl; try done; intros _ _.
  rewrite Z.compare_opp, (Z.compare_antisym e e'). by destruct (e ?= e').
Qed.

Lemma SFcompare_nan_l x y : is_nan x = true -> SFcompare x y = None.
Proof. by destruct x. Qed.

Lemma SFcompare_nan_r x y : is_nan y = true -> SFcompare x y = None.
Proof. destruct y; try done. by destruct x. Qed.

Ltac lex_cases :=
  repeat match goal with
         | H : context [?a ?= ?b] |- _ => destruct (Z.compare_spec a b); subst; try discriminate H
         | |- context [?a ?= ?b] => destruct (Z.compare_spec a b); subst; try lia
         end; try done.

Lemma lex_cmp_le_lt a b c :
  lex_cmp a b <> Gt -> lex_cmp b c = Lt -> lex_cmp a c = Lt.
Proof.
  destruct a as [[a1 a2] a3], b as [[b1 b2] b3], c as [[c1 c2] c3]. unfold lex_cmp.
  intros H1 H2. lex_cases.
Qed.

Lemma lex_cmp_lt_le a b c :
  lex_cmp a b = Lt -> lex_cmp b c <> Gt -> lex_cmp a c = Lt.
Proof.
  destruct a as [[a1 a2] a3], b as [[b1 b2] b3], c as [[c1 c2] c3]. unfold lex_cmp.
  intros H1 H2. lex_cases.
Qed.

Lemma lex_cmp_le_le a b c :
  lex_cmp a b <> Gt -> lex_cmp b c <> Gt -> lex_cmp a c <> Gt.
Proof.
  destruct a as [[a1 a2] a3], b as [[b1 b2] b3], c as [[c1 c2] c3]. unfold lex_cmp.
  intros H1 H2. lex_cases.
Qed.

Lemma lex_cmp_antisym a b : lex_cmp b a = CompOpp (lex_cmp a b).
Proof.
  destruct a as [[a1 a2] a3], b as [[b1 b2] b3]. unfold lex_cmp.
  rewrite (Z.compare_antisym a1 b1), (Z.compare_antisym a2 b2), (Z.compare_antisym a3 b3).
  by destruct (a1 ?= b1), (a2 ?= b2).
Qed.

Lemma f_lt_key x y :
  f_lt x y = true <-> is_nan x = false /\ is_nan y = false /\ lex_cmp (fkey x) (fkey y) = Lt.
Proof.
  unfold f_lt, SFltb. destruct (is_nan x) eqn:Ex.
  { rewrite SFcompare_nan_l by done. naive_solver. }
  destruct (is_nan y) eqn:Ey.
  { rewrite SFcompare_nan_r by done. naive_solver. }
  rewrite SFcompare_key by done. case_match; naive_solver.
Qed.

Lemma f_le_key x y :
  f_le x y = true <-> is_nan x = false /\ is_nan y = false /\ lex_cmp (fkey x) (fkey y) <> Gt.
Proof.
  unfold f_le, SFleb. destruct (is_nan x) eqn:Ex.
  { rewrite SFcompare_nan_l by done. naive_solver. }
  destruct (is_nan y) eqn:Ey.
  { rewrite SFcompare_nan_r by done. naive_solver. }
  rewrite SFcompare_key by done. case_match; naive_solver.
Qed.

Lemma f_le_lt_trans x y z : f_le x y = true -> f_lt y z = true -> f_lt x z = true.
Proof. rewrite f_le_key, !f_lt_key. intuition eauto using lex_cmp_le_lt. Qed.

Lemma f_lt_le_trans x y z : f_lt x y = true -> f_le y z = true -> f_lt x z = true.
Proof. rewrite f_le_key, !f_lt_key. intuition eauto using lex_cmp_lt_le. Qed.

Lemma f_le_trans x y z : f_le x y = true -> f_le y z = true -> f_le x z = true.
Proof. rewrite !f_le_key. intros (? & ? & ?) (? & ? & ?). eauto using lex_cmp_le_le. Qed.

(** The total order and the IEEE order agree on numbers when one is nonzero. *)
Lemma total_cmp_num x y :
  is_nan x = false -> is_nan y = false -> is_zero y = false ->
  total_cmp x y = lex_cmp (fkey x) (fkey y).
Proof.
  intros Hx Hy Hz. pose proof (SFcompare_key x y Hx Hy) as E.
  destruct x as [[]|[]| |[] m e], y as [[]|[]| |[] m' e']; try done; unfold total_cmp; by rewrite E.
Qed.

(** [totalOrder] is the lexicographic order of a refined key. *)
Definition tkey (x : spec_float) : Z * Z * Z :=
  match x with
  | S754_zero s => (0, 0, if s then -1 else 0)
  | _ => fkey x
  end.

Lemma total_cmp_key x y : total_cmp x y = lex_cmp (tkey x) (tkey y).
Proof.
  destruct x as [[]|[]| |[] m e], y as [[]|[]| |[] m' e']; try done.
  cbn. rewrite Z.compare_opp, (Z.compare_antisym e e'). by destruct (e ?= e').
Qed.

(** ** Widening [f32] to [f64] keeps the order *)

(** The canonical binary32 numbers, which are the values of [f32]. *)
Definition valid_f32 (x : f32) : bool := valid_binary 24 128 x.

Lemma digits2_pos_upper m : Zpos m < 2 ^ Zpos (digits2_pos m).
Proof.
  induction m as [m IH|m IH|]; simpl digits2_pos; [| |simpl; lia].
  all: rewrite Pos2Z.inj_succ, Z.pow_succ_r by lia; lia.
Qed.

Lemma canonical_f32 m e :
  bounded 24 128 m e = true ->
  Zpos (digits2_pos m) <= 24 /\ -149 <= e <= 104 /\ (Zpos (digits2_pos m) = 24 \/ e = -149).
Proof.
  unfold bounded, canonical_mantissa, fexp, emin. rewrite andb_true_iff, Z.leb_le.
  intros [Hc%Zeq_bool_eq He]. lia.
Qed.

Lemma widen_finite s m e :
  bounded 24 128 m e = true ->
  exists m', f64_of_f32 (S754_finite s m e) = S754_finite s m' (Zpos (digits2_pos m) + e - 53) /\
    Zpos m' = Zpos m * 2 ^ (53 - Zpos (digits2_pos m)).
Proof.
  intros Hb. pose proof (canonical_f32 _ _ Hb) as (Hd & He & _).
  cbn [f64_of_f32]. unfold binary_round, shl_align.
  assert (fexp 53 1024 (Zpos (digits2_pos m) + e) = Zpos (digits2_pos m) + e - 53) as Hf
    by (unfold fexp, emin; lia).
  rewrite Hf. destruct (Zpos (digits2_pos m) + e - 53 - e) as [|p|k] eqn:Ek; [lia|lia|].
  exists (Pos.iter xO m k). split.
  - rewrite round_aux_canonical; [done| |lia].
    rewrite digits2_pos_iter. unfold fexp, emin. lia.
  - rewrite iter_xO. do 2 f_equal. lia.
Qed.

Lemma canonical_compare m e m' e' :
  bounded 24 128 m e = true -> bounded 24 128 m' e' = true ->
  lex_cmp (1, Zpos (digits2_pos m) + e - 53, Zpos m * 2 ^ (53 - Zpos (digits2_pos m)))
          (1, Zpos (digits2_pos m') + e' - 53, Zpos m' * 2 ^ (53 - Zpos (digits2_pos m')))
  = lex_cmp (1, e, Zpos m) (1, e', Zpos m').
Proof.
  intros Hb Hb'. pose proof (canonical_f32 _ _ Hb). pose proof (canonical_f32 _ _ Hb').
  pose proof (digits2_pos_bound m). pose proof (digits2_pos_upper m).
  pose proof (digits2_pos_bound m'). pose proof (digits2_pos_upper m').
  unfold lex_cmp. rewrite Z.compare_refl.
  set (d := Zpos (digits2_pos m)) in *. set (d' := Zpos (digits2_pos m')) in *.
  destruct (Z.compare_spec e e') as [->|He|He].
  - destruct (Z.compare_spec (d + e' - 53) (d' + e' - 53)) as [Hd|Hd|Hd].
    + assert (d' = d) as -> by lia. symmetry. apply Zmult_compare_compat_r.
      apply Z.lt_gt, Z.pow_pos_nonneg; lia.
    + symmetry. apply Z.compare_lt_iff. assert (2 ^ d <= 2 ^ (d' - 1)) by (apply Z.pow_le_mono_r; lia). lia.
    + symmetry. apply Z.compare_gt_iff. assert (2 ^ d' <= 2 ^ (d - 1)) by (apply Z.pow_le_mono_r; lia). lia.
  - by rewrite (proj2 (Z.compare_lt_iff (d + e - 53) (d' + e' - 53))) by lia.
  - by rewrite (proj2 (Z.compare_gt_iff (d + e - 53) (d' + e' - 53))) by lia.
Qed.

Lemma lex_cmp_opp a b c a' b' c' :
  lex_cmp (- a, - b, - c) (- a', - b', - c') = lex_cmp (a', b', c') (a, b, c).
Proof. unfold lex_cmp. by rewrite !Z.compare_opp. Qed.

Lemma widen_key x y :
  valid_f32 x = true -> valid_f32 y = true ->
  lex_cmp (fkey (f64_of_f32 x)) (fkey (f64_of_f32 y)) = lex_cmp (fkey x) (fkey y).
Proof.
  intros Hx Hy.
  destruct x as [sx|sx| |sx mx ex], y as [sy|sy| |sy my ey]; try reflexivity;
    repeat match goal with
    | H : valid_f32 (S754_finite ?s ?m ?e) = true |- _ =>
        let m' := fresh "m'" in let E := fresh "E" in let Em := fresh "Em" in
        destruct (widen_finite s m e H) as (m' & E & Em); rewrite E; clear E; unfold valid_f32 in H; cbn in H
    end.
  all: try (by destruct sx, sy). all: try (by destruct sx). all: try (by destruct sy).
  cbn [fkey]. rewrite Em, Em0. destruct sx, sy; try done.
  - change (-1) with (- (1)). rewrite !lex_cmp_opp. by apply canonical_compare.
  - by apply canonical_compare.
Qed.

Lemma widen_nan x : valid_f32 x = true -> is_nan (f64_of_f32 x) = is_nan x.
Proof.
  destruct x as [| | |s m e]; try done. intros H. by destruct (widen_finite s m e H) as (m' & -> & _).
Qed.

Lemma widen_zero x : valid_f32 x = true -> is_zero (f64_of_f32 x) = is_zero x.
Proof.
  destruct x as [| | |s m e]; try done. intros H. by destruct (widen_finite s m e H) as (m' & -> & _).
Qed.
