(* ===== verification/Utf8.v ===== *)
(** * UTF-8 and strings

    [&[u8]] values are lists of bytes and Rust strings are strings of bytes.
    [from_utf8] and [from_utf8_lossy] follow the standard library's decoder:
    the input is cut into well-formed characters and maximal ill-formed
    prefixes, and the lossy conversion replaces each of the latter by U+FFFD.
    Comparison of [str] is the lexicographic order of the bytes. *)

From Stdlib Require Strings.Byte.
From Stdlib Require Import Strings.String.
From S2P Require Import Prelude.

Notation byte := Byte.byte.
Notation bytes := (list Byte.byte).

Definition bz (b : byte) : Z := Z.of_N (Byte.to_N b).

(** [s.as_bytes()], and the string with given bytes. *)
Definition as_bytes (s : string) : bytes := list_byte_of_string s.
Definition of_bytes (bs : bytes) : string := string_of_list_byte bs.

Definition between (lo hi : Z) (b : byte) : bool := (lo <=? bz b) && (bz b <=? hi).
Definition is_cont (b : byte) : bool := between 128 191 b.

(** The second byte of a three or four byte sequence. *)
Definition second3 (b0 b1 : byte) : bool :=
  (between 224 224 b0 && between 160 191 b1) || (between 225 236 b0 && between 128 191 b1)
  || (between 237 237 b0 && between 128 159 b1) || (between 238 239 b0 && between 128 191 b1).
Definition second4 (b0 b1 : byte) : bool :=
  (between 240 240 b0 && between 144 191 b1) || (between 241 243 b0 && between 128 191 b1)
  || (between 244 244 b0 && between 128 143 b1).

(** [Utf8Chunks]: the characters ([true]) and the ill-formed pieces ([false]). *)
Fixpoint utf8_chunks (bs : bytes) : list (bool * bytes) :=
  match bs with
  | [] => []
  | b0 :: r0 =>
      if between 0 127 b0 then (true, [b0]) :: utf8_chunks r0
      else if between 194 223 b0 then
        match r0 with
        | b1 :: r1 =>
            if is_cont b1 then (true, [b0; b1]) :: utf8_chunks r1
            else (false, [b0]) :: utf8_chunks r0
        | [] => [(false, [b0])]
        end
      else if between 224 239 b0 then
        match r0 with
        | b1 :: r1 =>
            if second3 b0 b1 then
              match r1 with
              | b2 :: r2 =>
                  if is_cont b2 then (true, [b0; b1; b2]) :: utf8_chunks r2
                  else (false, [b0; b1]) :: utf8_chunks r1
              | [] => [(false, [b0; b1])]
              end
            else (false, [b0]) :: utf8_chunks r0
        | [] => [(false, [b0])]
        end
      else if between 240 244 b0 then
        match r0 with
        | b1 :: r1 =>
            if second4 b0 b1 then
              match r1 with
              | b2 :: r2 =>
                  if is_cont b2 then
                    match r2 with
                    | b3 :: r3 =>
                        if is_cont b3 then (true, [b0; b1; b2; b3]) :: utf8_chunks r3
                        else (false, [b0; b1; b2]) :: utf8_chunks r2
                    | [] => [(false, [b0; b1; b2])]
                    end
                  else (false, [b0; b1]) :: utf8_chunks r1
              | [] => [(false, [b0; b1])]
              end
            else (false, [b0]) :: utf8_chunks r0
        | [] => [(false, [b0])]
        end
      else (false, [b0]) :: utf8_chunks r0
  end.

(** [std::str::from_utf8(bs).is_ok()]. *)
Definition valid_utf8 (bs : bytes) : bool := forallb fst (utf8_chunks bs).

Definition replacement : bytes := [Byte.xef; Byte.xbf; Byte.xbd].

Definition repair (c : bool * bytes) : bytes := if c.1 then c.2 else replacement.

(** [String::from_utf8_lossy(bs).into_owned()]. *)
Definition from_utf8_lossy (bs : bytes) : string := of_bytes (concat (map repair (utf8_chunks bs))).

(** A Rust [String] holds well-formed UTF-8. *)
Definition valid_str (s : string) : bool := valid_utf8 (as_bytes s).

(** [std::str::from_utf8]. *)
Definition from_utf8 (bs : bytes) : option string :=
  if valid_utf8 bs then Some (of_bytes bs) else None.

(** [parts.join(sep)]. *)
Fixpoint join (sep : string) (parts : list string) : string :=
  match parts with
  | [] => EmptyString
  | [p] => p
  | p :: ps => String.append p (String.append sep (join sep ps))
  end.

(** ** Comparison of [str] *)
Definition str_lt (a b : string) : bool := String.ltb a b.
Definition str_le (a b : string) : bool := String.leb a b.
Definition str_gt (a b : string) : bool := String.ltb b a.
Definition str_ge (a b : string) : bool := String.leb b a.

(** ** Bytes and strings *)

Lemma as_of_bytes bs : as_bytes (of_bytes bs) = bs.
Proof. apply list_byte_of_string_of_list_byte. Qed.

Lemma of_as_bytes s : of_bytes (as_bytes s) = s.
Proof. apply string_of_list_byte_of_string. Qed.

Lemma as_bytes_app s t : as_bytes (String.append s t) = as_bytes s ++ as_bytes t.
Proof.
  unfold as_bytes. induction s as [|a s IH]; [done|].
  change (list_byte_of_string (String.append (String a s) t))
    with (Ascii.byte_of_ascii a :: list_byte_of_string (String.append s t)).
  by rewrite IH.
Qed.

Lemma bz_bound b : 0 <= bz b < 256.
Proof. unfold bz. pose proof (Byte.to_N_bounded b). lia. Qed.

(** ** Characters *)

(** One complete well-formed character. *)
Definition wf_char (c : bytes) : bool :=
  match c with
  | [b0] => between 0 127 b0
  | [b0; b1] => between 194 223 b0 && is_cont b1
  | [b0; b1; b2] => between 224 239 b0 && second3 b0 b1 && is_cont b2
  | [b0; b1; b2; b3] => between 240 244 b0 && second4 b0 b1 && is_cont b2 && is_cont b3
  | _ => false
  end.

Ltac len_lia := cbn [length] in *; lia.

Lemma utf8_chunks_ind (P : bytes -> Prop) :
  P [] -> (forall b r, (forall r', (length r' <= length r)%nat -> P r') -> P (b :: r)) ->
  forall bs, P bs.
Proof.
  intros H0 H1 bs. remember (length bs) as n eqn:Hn.
  assert (length bs <= n)%nat as Hle by lia. clear Hn. revert bs Hle.
  induction n as [|n IH]; intros [|b r] Hle; try done; [len_lia|].
  apply H1. intros r' Hr'. apply IH. len_lia.
Qed.

(** The pieces are the input, cut. *)
Lemma utf8_chunks_concat bs : concat (map snd (utf8_chunks bs)) = bs.
Proof.
  induction bs as [|b r IH] using utf8_chunks_ind; [done|].
  cbn [utf8_chunks].
  repeat case_match; subst; cbn [map snd concat app]; try done; rewrite IH by len_lia; done.
Qed.

Lemma utf8_chunks_wf bs : Forall (fun c => c.1 = true -> wf_char c.2 = true) (utf8_chunks bs).
Proof.
  induction bs as [|b r IH] using utf8_chunks_ind; [constructor|].
  cbn [utf8_chunks].
  repeat case_match; subst;
    (apply Forall_cons; split;
     [ cbn [fst snd]; intros; try discriminate; cbn [wf_char];
       rewrite ?andb_true_iff; auto 10
     | first [apply IH; len_lia | apply Forall_nil; exact I] ]).
Qed.

Lemma utf8_chunks_char c bs :
  wf_char c = true -> utf8_chunks (c ++ bs) = (true, c) :: utf8_chunks bs.
Proof.
  assert (forall lo hi lo' hi' b, between lo hi b = true -> hi < lo' -> between lo' hi' b = false) as Hd.
  { unfold between. lia. }
  assert (forall lo hi lo' hi' b, between lo hi b = true -> hi' < lo -> between lo' hi' b = false) as Hd'.
  { unfold between. lia. }
  destruct c as [|b0 [|b1 [|b2 [|b3 [|]]]]]; try done; unfold wf_char; intros H;
    repeat (rewrite andb_true_iff in H; destruct H as [H ?]); cbn [app utf8_chunks];
    repeat first
      [ rewrite H | match goal with E : _ = true |- _ => rewrite E end
      | rewrite (Hd' _ _ 0 127 _ H) by lia | rewrite (Hd' _ _ 194 223 _ H) by lia
      | rewrite (Hd' _ _ 224 239 _ H) by lia ]; done.
Qed.

Lemma utf8_chunks_chars cs bs :
  Forall (fun c => wf_char c = true) cs ->
  utf8_chunks (concat cs ++ bs) = map (pair true) cs ++ utf8_chunks bs.
Proof.
  induction 1 as [|c cs Hc _ IH]; [done|].
  cbn [concat map app]. rewrite <-app_assoc, utf8_chunks_char by done. by rewrite IH.
Qed.

Lemma repair_wf c : (c.1 = true -> wf_char c.2 = true) -> wf_char (repair c) = true.
Proof. destruct c as [[] c]; simpl; auto. Qed.

Lemma valid_utf8_chars cs : Forall (fun c => wf_char c = true) cs -> valid_utf8 (concat cs) = true.
Proof.
  intros H. unfold valid_utf8. rewrite <-(app_nil_r (concat cs)), utf8_chunks_chars by done.
  rewrite app_nil_r. apply forallb_forall. intros x (y & <- & _)%in_map_iff. done.
Qed.

Lemma valid_utf8_inv bs :
  valid_utf8 bs = true -> exists cs, bs = concat cs /\ Forall (fun c => wf_char c = true) cs.
Proof.
  intros H. exists (map snd (utf8_chunks bs)). split; [by rewrite utf8_chunks_concat|].
  pose proof (proj1 (Forall_forall _ _) (utf8_chunks_wf bs)) as Hw.
  unfold valid_utf8 in H. rewrite forallb_forall in H.
  apply Forall_forall. intros x Hx.
  apply list_elem_of_In, in_map_iff in Hx as (c & <- & Hc).
  apply Hw; [by apply list_elem_of_In|by apply H].
Qed.

(** ** Lossy conversion *)

(** The lossy conversion of well-formed bytes changes nothing. *)
Lemma lossy_valid bs : valid_utf8 bs = true -> from_utf8_lossy bs = of_bytes bs.
Proof.
  intros H. unfold from_utf8_lossy. f_equal.
  rewrite <-(utf8_chunks_concat bs) at 2. f_equal.
  apply map_ext_in. intros [b c] Hin. unfold valid_utf8 in H. rewrite forallb_forall in H.
  specialize (H _ Hin). simpl in H. subst. done.
Qed.

Lemma lossy_of_str s : valid_str s = true -> from_utf8_lossy (as_bytes s) = s.
Proof. intros H. rewrite lossy_valid by done. apply of_as_bytes. Qed.

(** Its result is always well-formed. *)
Lemma lossy_is_valid bs : valid_str (from_utf8_lossy bs) = true.
Proof.
  unfold valid_str, from_utf8_lossy. rewrite as_of_bytes. apply valid_utf8_chars.
  pose proof (proj1 (Forall_forall _ _) (utf8_chunks_wf bs)) as Hw.
  apply Forall_forall. intros x Hx.
  apply list_elem_of_In, in_map_iff in Hx as (c & <- & Hc).
  apply repair_wf, Hw. by apply list_elem_of_In.
Qed.

Lemma valid_utf8_app a b : valid_utf8 a = true -> valid_utf8 b = true -> valid_utf8 (a ++ b) = true.
Proof.
  intros (ca & -> & Ha)%valid_utf8_inv (cb & -> & Hb)%valid_utf8_inv.
  rewrite <-concat_app. apply valid_utf8_chars, Forall_app; auto.
Qed.

Lemma valid_str_app s t : valid_str s = true -> valid_str t = true -> valid_str (String.append s t) = true.
Proof. intros. unfold valid_str. rewrite as_bytes_app. by apply valid_utf8_app. Qed.

Lemma valid_str_join sep ps :
  valid_str sep = true -> Forall (fun p => valid_str p = true) ps -> valid_str (join sep ps) = true.
Proof.
  intros Hsep. induction 1 as [|p ps Hp Hps IH]; [done|].
  destruct ps as [|q ps]; [done|].
  change (join sep (p :: q :: ps)) with (String.append p (String.append sep (join sep (q :: ps)))).
  auto using valid_str_app.
Qed.

#[export] Hint Resolve lossy_is_valid valid_str_app valid_str_join : s2r.

(** ** The order of strings *)

Lemma str_le_trans a b c : str_le a b = true -> str_le b c = true -> str_le a c = true.
Proof.
  unfold str_le. intros H1 H2.
  assert (String.le a c) as H.
  { transitivity b; [by apply Is_true_true_2|by apply Is_true_true_2]. }
  by apply Is_true_true_1 in H.
Qed.

Lemma str_lt_compare a b : str_lt a b = true <-> String.compare a b = Lt.
Proof. unfold str_lt, String.ltb. case_match; naive_solver. Qed.

Lemma str_lt_le a b : str_lt a b = negb (str_le b a).
Proof.
  unfold str_lt, str_le, String.ltb, String.leb. rewrite (String.compare_antisym a b).
  by destruct (String.compare b a).
Qed.

Lemma str_lt_le_trans a b c : str_lt a b = true -> str_le b c = true -> str_lt a c = true.
Proof.
  rewrite !str_lt_le, !negb_true_iff. intros H1 H2.
  destruct (str_le c a) eqn:E; [|done]. by rewrite (str_le_trans b c a) in H1.
Qed.

Lemma str_le_lt_trans a b c : str_le a b = true -> str_lt b c = true -> str_lt a c = true.
Proof.
  rewrite !str_lt_le, !negb_true_iff. intros H1 H2.
  destruct (str_le c a) eqn:E; [|done]. by rewrite (str_le_trans c a b) in H2.
Qed.
