(* ===== verification/Term.v ===== *)
(** * The NIF boundary: BEAM terms and replies

    The crate reads its arguments with rustler's decoders and answers with
    rustler's encoders.  [Rustler] is that interface: the operations the code
    calls, over an abstract type of terms; [RustlerLaws] states the documented
    behaviour the theorems rely on.  [beam] with [beam_rustler] is a concrete
    implementation: the term algebra of Erlang.

    [Reply] is what a NIF returns (src/native/ex_arrow_native/src/util.rs):
    [{:ok, v}], [{:error, e}], an atom, a bare value, or a raised exception
    (rustler turns a Rust panic into one). *)

From S2P Require Import Prelude Float Utf8.

(** A [ListIterator]: the elements of a list term, and whether the list ends in
    the empty list.  Decoding to one succeeds on any non-empty or empty list, and
    the iterator panics when it reaches the tail of an improper one. *)
Record ListIterator (Term : Type) := mkIter { list_items : list Term; list_proper : bool }.
Arguments mkIter {Term} list_items list_proper.
Arguments list_items {Term} l.
Arguments list_proper {Term} l.

Class Rustler (Term : Type) := {
  get_tuple : Term -> option (list Term);    (* types::tuple::get_tuple *)
  get_list : Term -> option (ListIterator Term);  (* decode::<ListIterator> *)
  get_atom : Term -> option string;          (* decode::<Atom>, the atom's name *)
  get_bool : Term -> option bool;            (* decode::<bool> *)
  get_i64 : Term -> option Z;                (* decode::<i64> *)
  get_f64 : Term -> option f64;              (* decode::<f64> *)
  get_string : Term -> option string;        (* decode::<String> *)
  get_binary : Term -> option bytes;         (* decode::<Binary> *)
  mk_tuple : list Term -> Term;
  mk_list : list Term -> Term;
  mk_atom : string -> Term;
  mk_int : Z -> Term;
  mk_float : f64 -> Term;
  mk_string : string -> Term;                (* String::encode *)
  mk_binary : bytes -> Term;                 (* an owned binary, released *)
  owned_binary_new : Z -> bool;              (* OwnedBinary::new(n).is_some() *)
  term_size : Term -> nat                    (* nesting measure *)
}.

Class RustlerLaws (Term : Type) `{Rustler Term} : Prop := {
  tuple_smaller t l x : get_tuple t = Some l -> x ∈ l -> (term_size x < term_size t)%nat;
  list_smaller t l x : get_list t = Some l -> x ∈ list_items l -> (term_size x < term_size t)%nat;
  get_mk_tuple l : get_tuple (mk_tuple l) = Some l;
  get_mk_list l : get_list (mk_list l) = Some (mkIter l true);
  get_mk_atom a : get_atom (mk_atom a) = Some a;
  get_mk_binary b : get_binary (mk_binary b) = Some b;
  get_mk_string s : valid_str s = true -> get_string (mk_string s) = Some s;
  get_mk_int v : s_range 64 v -> get_i64 (mk_int v) = Some v;
  get_mk_float x : get_f64 (mk_float x) = Some x;
  get_atom_tuple l : get_atom (mk_tuple l) = None;
  get_atom_list l : get_atom (mk_list l) = None;
  get_tuple_atom a : get_tuple (mk_atom a) = None;
  get_atom_spec t b : get_bool t = Some b <-> get_atom t = Some (if b then "true" else "false")%string;
  get_atom_int v : get_atom (mk_int v) = None;
  get_atom_float x : get_atom (mk_float x) = None;
  get_atom_string s : get_atom (mk_string s) = None;
  get_i64_float x : get_i64 (mk_float x) = None;
  get_i64_string s : get_i64 (mk_string s) = None;
  get_f64_string s : get_f64 (mk_string s) = None;
  get_i64_tuple l : get_i64 (mk_tuple l) = None;
  get_f64_tuple l : get_f64 (mk_tuple l) = None;
  get_string_tuple l : get_string (mk_tuple l) = None;
  get_string_list l : get_string (mk_list l) = None;
  get_i64_atom a : get_i64 (mk_atom a) = None;
  get_i64_range t v : get_i64 t = Some v -> s_range 64 v;
  get_string_valid t s : get_string t = Some s -> valid_str s = true
}.

(** ** Iterating over a list *)

(** The step of the iterator that finds no further element. *)
Definition list_end {E Term} (l : ListIterator Term) : res E unit :=
  if list_proper l then Ok () else Panic "list in ListIterator is not a proper list".

(** [list.map(f).collect::<Result<Vec<_>, _>>()]: stops at the first error. *)
Definition collect_list {E Term A} (f : Term -> res E A) (l : ListIterator Term) : res E (list A) :=
  xs ← collect f (list_items l);
  _ ← list_end l;
  Ok xs.

(** The terms below a term, and the terms whose lists are all proper. *)
Definition child `{Rustler Term} (t x : Term) : Prop :=
  (exists l, get_tuple t = Some l /\ x ∈ l) \/ (exists l, get_list t = Some l /\ x ∈ list_items l).

Definition proper_lists `{Rustler Term} (t : Term) : Prop :=
  forall x l, rtc child t x -> get_list x = Some l -> list_proper l = true.

(** ** Replies *)

(** The second element of an [{:error, _}] tuple: a message, or the triple of
    the Flight SQL NIFs. *)
Inductive NifError :=
| EMsg (msg : string)
| ESql (code : string) (grpc_status : Z) (msg : string).

Inductive Reply (V : Type) :=
| ROk (v : V)
| RErr (e : NifError)
| RAtom (a : string)
| RBare (v : V)
| RRaise (site : string).
Arguments ROk {V} v.
Arguments RErr {V} e.
Arguments RAtom {V} a.
Arguments RBare {V} v.
Arguments RRaise {V} site.

Definition ok_encode {V} (t : V) : Reply V := ROk t.
Definition err_encode {V} (msg : string) : Reply V := RErr (EMsg msg).

(** A NIF body that ends with [match r { Ok(v) => k(v), Err(e) => err_encode(e) }]. *)
Definition reply_with {A V} (r : res string A) (k : A -> Reply V) : Reply V :=
  match r with
  | Ok a => k a
  | Err e => err_encode e
  | Panic s => RRaise s
  end.

Definition reply {V} (r : res string V) : Reply V := reply_with r ok_encode.

Definition raises {V} (r : Reply V) : Prop :=
  match r with RRaise _ => True | _ => False end.

(** ** Erlang's term algebra *)

Inductive beam :=
| BAtom (a : string)
| BInt (v : Z)
| BFloat (x : f64)
| BBin (b : bytes)
| BList (l : list beam)
| BImproper (first : beam) (rest : list beam)   (* its last tail, not a list, is never read *)
| BTuple (l : list beam).

Fixpoint beam_size (t : beam) : nat :=
  match t with
  | BList l | BTuple l => S (foldr (fun x n => beam_size x + n)%nat 0%nat l)
  | BImproper x l => S (beam_size x + foldr (fun x n => beam_size x + n)%nat 0%nat l)
  | _ => 1%nat
  end.

#[export] Instance beam_rustler : Rustler beam := {|
  get_tuple t := match t with BTuple l => Some l | _ => None end;
  get_list t := match t with
                | BList l => Some (mkIter l true)
                | BImproper x l => Some (mkIter (x :: l) false)
                | _ => None
                end;
  get_atom t := match t with BAtom a => Some a | _ => None end;
  get_bool t := match t with
                | BAtom a => if String.eqb a "true" then Some true
                             else if String.eqb a "false" then Some false else None
                | _ => None
                end;
  get_i64 t := match t with BInt v => try_from_s 64 v | _ => None end;
  get_f64 t := match t with BFloat x => Some x | _ => None end;
  get_string t := match t with BBin b => from_utf8 b | _ => None end;
  get_binary t := match t with BBin b => Some b | _ => None end;
  mk_tuple := BTuple;
  mk_list := BList;
  mk_atom := BAtom;
  mk_int := BInt;
  mk_float := BFloat;
  mk_string s := BBin (as_bytes s);
  mk_binary := BBin;
  owned_binary_new _ := true;
  term_size := beam_size
|}.

Lemma beam_size_elem x l :
  x ∈ l -> (beam_size x <= foldr (fun x n => beam_size x + n)%nat 0%nat l)%nat.
Proof. induction 1; simpl; lia. Qed.

#[export] Instance beam_laws : RustlerLaws beam.
Proof.
  split; simpl; try done.
  - intros [] l' y [= <-] Hx%beam_size_elem. simpl. lia.
  - intros [] l' y [= <-] Hx%beam_size_elem; cbn in *; lia.
  - intros s Hs. unfold from_utf8. unfold valid_str in Hs. by rewrite Hs, of_as_bytes.
  - intros v Hv. by apply try_from_s_Some.
  - intros [] b'; try (split; [done|by destruct b']).
    destruct (String.eqb_spec a "true"), (String.eqb_spec a "false"), b'; naive_solver.
  - intros [] z; try done. intros [-> H]%try_from_s_Some. done.
  - intros [] s; try done. unfold from_utf8. case_match; intros [= <-].
    unfold valid_str. by rewrite as_of_bytes.
Qed.

(** ** Lemmas *)

Section laws.
Context `{RustlerLaws Term}.

Lemma get_bool_no_atom t : get_atom t = None -> get_bool t = None.
Proof.
  intros Ha. destruct (get_bool t) as [b|] eqn:E; [|done].
  apply get_atom_spec in E. congruence.
Qed.

End laws.

Lemma collect_list_proper {E Term A} (f : Term -> res E A) l : collect_list f (mkIter l true) = collect f l.
Proof. unfold collect_list. cbn [list_items]. by destruct (collect f l). Qed.

Lemma collect_list_Ok {E Term A} (f : Term -> res E A) l xs :
  collect_list f l = Ok xs -> collect f (list_items l) = Ok xs.
Proof. intros (ys & Hy & (? & _ & [= <-])%bind_Ok)%bind_Ok. done. Qed.

Lemma collect_list_no_panic {E Term A} (f : Term -> res E A) l :
  list_proper l = true -> Forall (fun x => no_panic (f x)) (list_items l) -> no_panic (collect_list f l).
Proof.
  intros Hp Hf. apply bind_no_panic; [by apply collect_no_panic|]. intros xs _. unfold list_end. by rewrite Hp.
Qed.

Lemma proper_child `{Rustler Term} (t x : Term) : proper_lists t -> child t x -> proper_lists x.
Proof. intros Ht Hx y l Hy. apply Ht. by eapply rtc_l. Qed.

Lemma proper_here `{Rustler Term} (t : Term) l : proper_lists t -> get_list t = Some l -> list_proper l = true.
Proof. intros Ht. apply Ht. apply rtc_refl. Qed.

Lemma reply_with_no_raise {A V} (r : res string A) (k : A -> Reply V) :
  no_panic r -> (forall a, r = Ok a -> ~ raises (k a)) -> ~ raises (reply_with r k).
Proof. destruct r; simpl; eauto. Qed.

Lemma reply_no_raise {V} (r : res string V) : no_panic r -> ~ raises (reply r).
Proof. destruct r; simpl; tauto. Qed.
