(* ===== verification/Arrow.v ===== *)
(** * The Arrow crates as an interface

    The data the native crate passes to and receives from the Arrow crates
    (types, arrays, schemas, record batches; resources.rs holds handles on
    them), and the Arrow operations the code calls as the class [Arrow].
    [CmpLaws], [BoolLaws] and [BatchLaws] state the documented behaviour of those
    operations that theorems rely on, with the logical content of an array
    ([cells]) as the common vocabulary.  [ref_arrow] is an implementation. *)

From S2P Require Import Prelude Float Utf8.

(** ** Data *)

Inductive TimeUnit := Second | Millisecond | Microsecond | Nanosecond.

Inductive DataType :=
| TNull | TBoolean
| TInt8 | TInt16 | TInt32 | TInt64
| TUInt8 | TUInt16 | TUInt32 | TUInt64
| TFloat16 | TFloat32 | TFloat64
| TTimestamp (u : TimeUnit) (tz : option string)
| TDate32 | TDate64
| TTime32 (u : TimeUnit) | TTime64 (u : TimeUnit) | TDuration (u : TimeUnit)
| TUtf8 | TLargeUtf8 | TBinary | TLargeBinary
| TList (f : Field) | TLargeList (f : Field) | TStruct (fs : list Field)
| TDecimal128 (p s : Z) | TDecimal256 (p s : Z)
| TDictionary (k v : DataType)
| TOther (name : string)          (* the variants the code does not name *)
with Field :=
| mkField (f_name : string) (f_type : DataType) (f_nullable : bool).

Definition field_name (f : Field) : string := let 'mkField n _ _ := f in n.
Definition field_type (f : Field) : DataType := let 'mkField _ t _ := f in t.
Definition field_nullable (f : Field) : bool := let 'mkField _ _ b := f in b.

#[export] Instance TimeUnit_eq_dec : EqDecision TimeUnit.
Proof. solve_decision. Defined.

(** The crate's array classes: booleans, primitives stored as integers (the
    integer widths, dates, timestamps, durations), floats, byte strings.
    [RawArray] is a primitive array without nulls given by its values buffer,
    one group of native little-endian bytes per element. *)
Inductive Array :=
| BooleanArray (v : list (option bool))
| IntArray (dt : DataType) (v : list (option Z))
| FloatArray (dt : DataType) (v : list (option f64))
| BytesArray (dt : DataType) (v : list (option string))
| RawArray (dt : DataType) (v : list bytes)
| OtherArray (dt : DataType) (n : nat).

Definition data_type (a : Array) : DataType :=
  match a with
  | BooleanArray _ => TBoolean
  | IntArray dt _ | FloatArray dt _ | BytesArray dt _ | RawArray dt _ | OtherArray dt _ => dt
  end.

Definition array_len (a : Array) : nat :=
  match a with
  | BooleanArray v => length v
  | IntArray _ v => length v
  | FloatArray _ v => length v
  | BytesArray _ v => length v
  | RawArray _ v => length v
  | OtherArray _ n => n
  end.

(** [as_any().downcast_ref::<BooleanArray>()]. *)
Definition downcast_boolean (a : Array) : option (list (option bool)) :=
  match a with BooleanArray v => Some v | _ => None end.

Record Schema := mkSchema { fields : list Field }.

(** [schema], [columns()], [num_rows()] of a record batch. *)
Record RecordBatch := mkBatch {
  rb_schema : Schema;
  rb_columns : list Array;
  rb_num_rows : nat
}.

Definition num_columns (b : RecordBatch) : nat := length (rb_columns b).

(** A right operand of a comparison kernel: an array, or a [Scalar] wrapping a
    one-element array. *)
Inductive Datum := DArray (a : Array) | DScalar (a : Array).

Inductive CmpOp := CEq | CNeq | CGt | CGtEq | CLt | CLtEq.

Record SortOptions := mkSortOptions { descending : bool; nulls_first : bool }.

Inductive ArrowError :=
| ComputeError (s : string)
| IpcError (s : string)
| OtherArrowError (s : string).

(** ** The operations of the Arrow crates *)

Class Arrow := {
  (* arrow_ord::cmp::{eq, neq, gt, gt_eq, lt, lt_eq} *)
  cmp : CmpOp -> Datum -> Datum -> res ArrowError (list (option bool));
  (* arrow_arith::boolean::{and, or, not} *)
  bool_and : list (option bool) -> list (option bool) -> res ArrowError (list (option bool));
  bool_or : list (option bool) -> list (option bool) -> res ArrowError (list (option bool));
  bool_not : list (option bool) -> res ArrowError (list (option bool));
  (* BooleanArray::value(i), whatever bit a null slot has *)
  bool_value : list (option bool) -> nat -> bool;
  (* arrow_select *)
  filter_record_batch : RecordBatch -> list (option bool) -> res ArrowError RecordBatch;
  arrow_take : Array -> list nat -> res ArrowError Array;
  sort_to_indices : Array -> SortOptions -> res ArrowError (list nat);
  concat_batches : Schema -> list RecordBatch -> res ArrowError RecordBatch;
  (* RecordBatch and Schema *)
  try_new : Schema -> list Array -> res ArrowError RecordBatch;
  project : RecordBatch -> list nat -> res ArrowError RecordBatch;
  column_by_name : RecordBatch -> string -> option Array;
  index_of : Schema -> string -> option nat;
  field_with_name : Schema -> string -> option Field;
  (* ArrayData::builder(dt).len(n).add_buffer(buf).build() and PrimitiveArray::from *)
  build_primitive : DataType -> Z -> bytes -> res ArrowError Array;
  (* the native values of a primitive array, as little-endian bytes *)
  native_values : Array -> list bytes;
  (* Display of an error; Debug of a type and of the scalars of error messages *)
  error_string : ArrowError -> string;
  debug_type : DataType -> string;
  debug_f64 : f64 -> string;
  display_f64 : f64 -> string;
  debug_str : string -> string
}.

(** ** Logical content *)

Inductive Cell :=
| CBool (b : bool)
| CInt (v : Z)
| CFloat (x : f64)
| CBytes (s : string).

(** Little-endian integers and IEEE 754 bit patterns. *)
Fixpoint le_unsigned (bs : bytes) : Z :=
  match bs with
  | [] => 0
  | b :: bs' => bz b + 256 * le_unsigned bs'
  end.

Definition le_signed (bs : bytes) : Z :=
  wrap_s (8 * Z.of_nat (length bs)) (le_unsigned bs).

Definition float_of_bits (prec emax z : Z) : spec_float :=
  let mbits := prec - 1 in
  let m := z mod 2 ^ mbits in
  let e := (z / 2 ^ mbits) mod (2 * emax) in
  let s := negb ((z / 2 ^ mbits) / (2 * emax) =? 0) in
  let finite m e := match m with Zpos p => S754_finite s p e | _ => S754_zero s end in
  if e =? 0 then finite m (3 - emax - prec)
  else if e =? 2 * emax - 1 then
    if m =? 0 then S754_infinity s else S754_nan
  else finite (m + 2 ^ mbits) (e + 2 - emax - prec).

Definition raw_cell (dt : DataType) (bs : bytes) : Cell :=
  match dt with
  | TUInt8 | TUInt16 | TUInt32 | TUInt64 => CInt (le_unsigned bs)
  | TFloat32 => CFloat (float_of_bits 24 128 (le_unsigned bs))
  | TFloat64 => CFloat (float_of_bits 53 1024 (le_unsigned bs))
  | _ => CInt (le_signed bs)
  end.

Definition cells (a : Array) : list (option Cell) :=
  match a with
  | BooleanArray v => map (option_map CBool) v
  | IntArray _ v => map (option_map CInt) v
  | FloatArray _ v => map (option_map CFloat) v
  | BytesArray _ v => map (option_map CBytes) v
  | RawArray dt v => map (fun b => Some (raw_cell dt b)) v
  | OtherArray _ n => replicate n None
  end.

(** The order of the comparison kernels: integers by value, booleans with
    false below true, bytes lexicographically, floats by [totalOrder]. *)
Definition cell_compare (a b : Cell) : option comparison :=
  match a, b with
  | CBool x, CBool y => Some (Z.b2z x ?= Z.b2z y)
  | CInt x, CInt y => Some (x ?= y)
  | CFloat x, CFloat y => Some (total_cmp x y)
  | CBytes x, CBytes y => Some (String.compare x y)
  | _, _ => None
  end.

Definition op_holds (op : CmpOp) (c : comparison) : bool :=
  match op, c with
  | CEq, Eq => true
  | CNeq, (Lt | Gt) => true
  | CGt, Gt => true
  | CGtEq, (Gt | Eq) => true
  | CLt, Lt => true
  | CLtEq, (Lt | Eq) => true
  | _, _ => false
  end.

(** One row of a comparison: null when an operand is null. *)
Definition cmp_cells (op : CmpOp) (a b : option Cell) : option bool :=
  match a, b with
  | Some x, Some y => option_map (op_holds op) (cell_compare x y)
  | _, _ => None
  end.

(** One row of [and], [or], [not] (the kernels without Kleene logic). *)
Definition and_cells (a b : option bool) : option bool :=
  match a, b with Some x, Some y => Some (x && y) | _, _ => None end.
Definition or_cells (a b : option bool) : option bool :=
  match a, b with Some x, Some y => Some (x || y) | _, _ => None end.
Definition not_cell (a : option bool) : option bool := option_map negb a.

(** The cells of the rows a mask selects. *)
Fixpoint select {A} (l : list A) (mask : list (option bool)) : list A :=
  match l, mask with
  | x :: l', Some true :: m' => x :: select l' m'
  | _ :: l', _ :: m' => select l' m'
  | _, _ => []
  end.

Fixpoint count_true (mask : list (option bool)) : nat :=
  match mask with
  | Some true :: m' => S (count_true m')
  | _ :: m' => count_true m'
  | [] => 0%nat
  end.

(** The kinds of column the comparison and sort kernels support. *)
Inductive kind := KBool | KInt | KFloat | KBytes | KNone.

Definition type_kind (dt : DataType) : kind :=
  match dt with
  | TBoolean => KBool
  | TFloat16 | TFloat32 | TFloat64 => KFloat
  | TUtf8 | TLargeUtf8 | TBinary | TLargeBinary => KBytes
  | TInt8 | TInt16 | TInt32 | TInt64 | TUInt8 | TUInt16 | TUInt32 | TUInt64
  | TTimestamp _ _ | TDate32 | TDate64 | TTime32 _ | TTime64 _ | TDuration _ => KInt
  | _ => KNone
  end.

Definition datum_array (d : Datum) : Array :=
  match d with DArray a | DScalar a => a end.

Definition datum_type (d : Datum) : DataType := data_type (datum_array d).

Definition datum_cells (d : Datum) : list (option Cell) := cells (datum_array d).

(** Arrays of one length; a scalar goes with anything. *)
Definition broadcastable (x y : Datum) : Prop :=
  let one d := exists c, datum_cells d = [c] in
  match x, y with
  | DArray l, DArray r => array_len l = array_len r
  | DArray _, DScalar _ => one y
  | DScalar _, DArray _ => one x
  | DScalar _, DScalar _ => one x /\ one y
  end.

(** ** Documented behaviour *)

(** [arrow_ord::cmp]: an element-wise comparison; a scalar is broadcast. *)
Class CmpLaws `{Arrow} : Prop := {
  cmp_arrays op l r m :
    cmp op (DArray l) (DArray r) = Ok m ->
    array_len l = array_len r /\ m = zip_with (cmp_cells op) (cells l) (cells r);
  cmp_array_scalar op l s m c :
    cmp op (DArray l) (DScalar s) = Ok m -> cells s = [c] ->
    m = map (fun x => cmp_cells op x c) (cells l);
  cmp_scalar_array op s r m c :
    cmp op (DScalar s) (DArray r) = Ok m -> cells s = [c] ->
    m = map (fun x => cmp_cells op c x) (cells r);
  cmp_scalars op s t m c d :
    cmp op (DScalar s) (DScalar t) = Ok m -> cells s = [c] -> cells t = [d] ->
    m = [cmp_cells op c d];
  cmp_no_panic op x y : no_panic (cmp op x y);
  cmp_ok op x y :
    datum_type x = datum_type y -> type_kind (datum_type x) <> KNone -> broadcastable x y ->
    is_ok (cmp op x y);
  cmp_types op x y m :
    cmp op x y = Ok m -> type_kind (datum_type x) <> KNone -> type_kind (datum_type y) <> KNone ->
    datum_type x = datum_type y
}.

(** [arrow_arith::boolean]: element-wise on arrays of one length. *)
Class BoolLaws `{Arrow} : Prop := {
  bool_and_spec l r m :
    bool_and l r = Ok m -> length l = length r /\ m = zip_with and_cells l r;
  bool_or_spec l r m :
    bool_or l r = Ok m -> length l = length r /\ m = zip_with or_cells l r;
  bool_not_spec l m : bool_not l = Ok m -> m = map not_cell l;
  bool_and_ok l r : length l = length r -> is_ok (bool_and l r);
  bool_or_ok l r : length l = length r -> is_ok (bool_or l r);
  bool_not_ok l : is_ok (bool_not l);
  bool_no_panic l r : no_panic (bool_and l r) /\ no_panic (bool_or l r);
  bool_value_spec l i b : l !! i = Some (Some b) -> bool_value l i = b
}.

(** [RecordBatch], [Schema] and the selection kernels. *)
Definition wf_batch (b : RecordBatch) : Prop :=
  length (rb_columns b) = length (fields (rb_schema b)) /\
  Forall (fun c => array_len c = rb_num_rows b) (rb_columns b) /\
  Forall2 (fun c f => data_type c = field_type f) (rb_columns b) (fields (rb_schema b)).

Class BatchLaws `{Arrow} : Prop := {
  index_of_spec s n i :
    index_of s n = Some i -> exists f, fields s !! i = Some f /\ field_name f = n;
  index_of_none s n : index_of s n = None -> forall f, f ∈ fields s -> field_name f <> n;
  column_by_name_index b n :
    column_by_name b n = (i ← index_of (rb_schema b) n; rb_columns b !! i);
  field_with_name_index s n :
    field_with_name s n = (i ← index_of s n; fields s !! i);
  filter_spec b mask b' :
    filter_record_batch b mask = Ok b' ->
    rb_schema b' = rb_schema b /\
    Forall2 (fun c' c => data_type c' = data_type c /\ cells c' = select (cells c) mask)
      (rb_columns b') (rb_columns b);
  filter_rows b mask b' : filter_record_batch b mask = Ok b' -> rb_num_rows b' = count_true mask;
  take_spec a idx a' :
    arrow_take a idx = Ok a' ->
    data_type a' = data_type a /\ Forall2 (fun i c => cells a !! i = Some c) idx (cells a');
  try_new_spec s cs b :
    try_new s cs = Ok b -> rb_schema b = s /\ rb_columns b = cs /\ wf_batch b;
  project_spec b idx b' :
    project b idx = Ok b' ->
    Forall2 (fun i c => rb_columns b !! i = Some c) idx (rb_columns b') /\
    Forall2 (fun i f => fields (rb_schema b) !! i = Some f) idx (fields (rb_schema b')) /\
    rb_num_rows b' = rb_num_rows b;
  batch_no_panic b mask a idx s cs :
    no_panic (filter_record_batch b mask) /\ no_panic (arrow_take a idx) /\
    no_panic (try_new s cs) /\ no_panic (project b idx);
  filter_ok b mask :
    wf_batch b -> length mask = rb_num_rows b -> is_ok (filter_record_batch b mask);
  project_ok b idx :
    wf_batch b -> Forall (fun i => (i < length (rb_columns b))%nat) idx -> is_ok (project b idx)
}.

(** The size of a primitive type's native value. *)
Definition native_width (dt : DataType) : option Z :=
  match dt with
  | TInt8 | TUInt8 => Some 1
  | TInt16 | TUInt16 | TFloat16 => Some 2
  | TInt32 | TUInt32 | TFloat32 | TDate32 | TTime32 _ => Some 4
  | TInt64 | TUInt64 | TFloat64 | TDate64 | TTime64 _ | TTimestamp _ _ | TDuration _ => Some 8
  | _ => None
  end.

(** [downcast_ref::<PrimitiveArray<T>>()] on an array of [T]'s data type. *)
Definition is_primitive (a : Array) : bool :=
  match a with IntArray _ _ | FloatArray _ _ | RawArray _ _ => true | _ => false end.

(** [ArrayData::builder(dt).len(n).add_buffer(buf).build()]: an array of the
    [n] values at the start of [buf], when the buffer is long enough. *)
Class BuildLaws `{Arrow} : Prop := {
  build_primitive_spec dt n bs a :
    build_primitive dt n bs = Ok a ->
    exists w, native_width dt = Some w /\ 0 <= n /\ n * w <= Z.of_nat (length bs) /\
      is_primitive a = true /\ data_type a = dt /\ Z.of_nat (array_len a) = n /\
      length (native_values a) = array_len a /\
      concat (native_values a) = take (Z.to_nat (n * w)) bs;
  build_primitive_ok dt n bs w :
    native_width dt = Some w -> 0 <= n -> n * w <= Z.of_nat (length bs) -> is_ok (build_primitive dt n bs);
  build_no_panic dt n bs : no_panic (build_primitive dt n bs)
}.

(** [sort_to_indices]: a permutation of the rows that sorts them. *)
Definition cell_le (opts : SortOptions) (a b : option Cell) : Prop :=
  match a, b with
  | None, None => True
  | None, Some _ => nulls_first opts = true
  | Some _, None => nulls_first opts = false
  | Some x, Some y =>
      match cell_compare x y with
      | Some c => if descending opts then c <> Lt else c <> Gt
      | None => False
      end
  end.

Class SortLaws `{Arrow} : Prop := {
  sort_permutation a opts idx :
    sort_to_indices a opts = Ok idx -> idx ≡ₚ seq 0 (array_len a);
  sort_sorted a opts idx i j ci cj p q :
    sort_to_indices a opts = Ok idx -> (p <= q)%nat ->
    idx !! p = Some i -> idx !! q = Some j ->
    cells a !! i = Some ci -> cells a !! j = Some cj -> cell_le opts ci cj;
  sort_no_panic a opts : no_panic (sort_to_indices a opts)
}.

(** ** Lemmas *)

Lemma cells_length a : length (cells a) = array_len a.
Proof. destruct a; simpl; by rewrite ?length_map, ?length_replicate. Qed.

Lemma downcast_boolean_Some a v : downcast_boolean a = Some v <-> a = BooleanArray v.
Proof. destruct a; naive_solver. Qed.

Lemma and_cells_true a b : and_cells a b = Some true <-> a = Some true /\ b = Some true.
Proof. destruct a as [[]|], b as [[]|]; naive_solver. Qed.

Lemma or_cells_true a b : or_cells a b = Some true -> a = Some true \/ b = Some true.
Proof. destruct a as [[]|], b as [[]|]; naive_solver. Qed.

Lemma cmp_cells_true op a b :
  cmp_cells op a b = Some true ->
  exists x y c, a = Some x /\ b = Some y /\ cell_compare x y = Some c /\ op_holds op c = true.
Proof.
  unfold cmp_cells. destruct a as [x|], b as [y|]; try done.
  destruct (cell_compare x y) as [c|] eqn:E; [|done]. simpl. intros [= H]. eauto 10.
Qed.

Lemma lookup_zip_with_full {A B C} (f : A -> B -> C) l k i c :
  zip_with f l k !! i = Some c -> exists a b, l !! i = Some a /\ k !! i = Some b /\ c = f a b.
Proof. rewrite lookup_zip_with_Some. naive_solver. Qed.

Lemma elem_zip_with {A B C} (f : A -> B -> C) l k c :
  c ∈ zip_with f l k -> exists a b, a ∈ l /\ b ∈ k /\ c = f a b.
Proof.
  intros [i Hi]%list_elem_of_lookup. apply lookup_zip_with_full in Hi as (a & b & Ha & Hb & ->).
  eauto 10 using list_elem_of_lookup_2.
Qed.

Lemma select_length {A} (l : list A) mask :
  length l = length mask -> length (select l mask) = count_true mask.
Proof.
  revert mask; induction l as [|x l IH]; intros [|[[]|] m]; simpl; try done; intros [= H];
    by rewrite IH.
Qed.
