(* ===== verification/FloatBits.v ===== *)
(** * Bit patterns of floats

    The IEEE 754 interchange format, as [<<x::float>>] of Elixir writes it, and
    that rounding gives canonical numbers: the ones whose bit pattern reads
    back. *)

From S2P Require Import Prelude Float Utf8 Arrow.

(** The bits of a float with [prec] bits of precision and exponents below
    [emax]: sign, biased exponent, fraction. *)
Definition bits_of_float (prec emax : Z) (x : spec_float) : Z :=
  let mbits := prec - 1 in
  let sign (s : bool) := if s then 2 * emax * 2 ^ mbits else 0 in
  match x with
  | S754_zero s => sign s
  | S754_infinity s => sign s + (2 * emax - 1) * 2 ^ mbits
  | S754_nan => (2 * emax - 1) * 2 ^ mbits + 2 ^ (mbits - 1)
  | S754_finite s m e =>
      if Zpos m <? 2 ^ mbits then sign s + Zpos m
      else sign s + (e + emax + prec - 2) * 2 ^ mbits + (Zpos m - 2 ^ mbits)
  end.

Definition is_finite (x : spec_float) : bool :=
  match x with S754_zero _ | S754_finite _ _ _ => true | _ => false end.

Section format.
Context (prec emax : Z) (Hprec : 1 < prec) (Hemax : prec < emax).

(** *** Canonical numbers *)

Lemma bounded_spec m e :
  bounded prec emax m e = true <->
  Zpos (digits2_pos m) <= prec /\ emin prec emax <= e <= emax - prec /\
  (Zpos (digits2_pos m) = prec \/ e = emin prec emax).
Proof.
  unfold bounded, canonical_mantissa, fexp. rewrite andb_true_iff, Z.eqb_eq, Z.leb_le. lia.
Qed.

Lemma digits_lt m n : 0 <= n -> Zpos (digits2_pos m) <= n <-> Zpos m < 2 ^ n.
Proof.
  intros Hn. pose proof (digits2_pos_bound m). pose proof (digits2_pos_upper m). split; intros Hd.
  - assert (2 ^ Zpos (digits2_pos m) <= 2 ^ n) by (apply Z.pow_le_mono_r; lia). lia.
  - destruct (Z.le_gt_cases (Zpos (digits2_pos m)) n); [done|].
    assert (2 ^ n <= 2 ^ (Zpos (digits2_pos m) - 1)) by (apply Z.pow_le_mono_r; lia). lia.
Qed.

(** *** The pattern of a canonical number reads back *)

Lemma decode_fields (s : bool) ef f :
  0 <= f < 2 ^ (prec - 1) -> 0 <= ef < 2 * emax ->
  let z := (if s then 2 * emax * 2 ^ (prec - 1) else 0) + ef * 2 ^ (prec - 1) + f in
  z mod 2 ^ (prec - 1) = f /\ (z / 2 ^ (prec - 1)) mod (2 * emax) = ef /\
  negb ((z / 2 ^ (prec - 1)) / (2 * emax) =? 0) = s.
Proof.
  intros Hf Hef. cbv zeta. set (p := 2 ^ (prec - 1)) in *.
  replace ((if s then 2 * emax * p else 0) + ef * p + f) with (((if s then 2 * emax else 0) + ef) * p + f)
    by (destruct s; lia).
  rewrite Z.div_add_l, Z.div_small, Z.add_0_r by lia.
  rewrite Z.add_comm, Z.mod_add, Z.mod_small by lia. split; [done|].
  destruct s.
  - replace (2 * emax + ef) with (ef + 1 * (2 * emax)) by lia.
    rewrite Z.mod_add, Z.mod_small, Z.div_add, Z.div_small by lia. done.
  - cbn [Z.add]. rewrite Z.mod_small, Z.div_small by lia. done.
Qed.

Lemma float_bits_roundtrip x :
  valid_binary prec emax x = true -> is_finite x = true ->
  float_of_bits prec emax (bits_of_float prec emax x) = x.
Proof.
  assert (0 < 2 ^ (prec - 1)) as Hp by (apply Z.pow_pos_nonneg; lia).
  destruct x as [s| | |s m e]; try done; intros Hv _; unfold float_of_bits, bits_of_float.
  - destruct (decode_fields s 0 0) as (E1 & E2 & E3); [lia..|]. rewrite Z.mul_0_l, !Z.add_0_r in *.
    by rewrite E1, E2, E3.
  - apply bounded_spec in Hv as (Hd & He & Hc). unfold emin in *.
    destruct (Z.ltb_spec (Zpos m) (2 ^ (prec - 1))) as [Hm|Hm].
    + destruct (decode_fields s 0 (Zpos m)) as (E1 & E2 & E3); [lia..|].
      rewrite Z.mul_0_l, Z.add_0_r in *. rewrite E1, E2, E3. cbn.
      apply digits_lt in Hm; [|lia]. f_equal. lia.
    + assert (2 ^ prec = 2 * 2 ^ (prec - 1)) as Hpow by (rewrite <-Z.pow_succ_r by lia; f_equal; lia).
      apply digits_lt in Hd as Hu; [|lia].
      destruct (decode_fields s (e + emax + prec - 2) (Zpos m - 2 ^ (prec - 1))) as (E1 & E2 & E3); [lia..|].
      rewrite E1, E2, E3.
      destruct (Z.eqb_spec (e + emax + prec - 2) 0); [lia|].
      destruct (Z.eqb_spec (e + emax + prec - 2) (2 * emax - 1)); [lia|].
      rewrite Z.sub_add. f_equal. lia.
Qed.

Lemma bits_of_float_range x :
  valid_binary prec emax x = true -> 0 <= bits_of_float prec emax x < 4 * emax * 2 ^ (prec - 1).
Proof.
  assert (0 < 2 ^ (prec - 1)) as Hp by (apply Z.pow_pos_nonneg; lia).
  assert (2 ^ (prec - 1) = 2 * 2 ^ (prec - 1 - 1)) as Hq by (rewrite <-Z.pow_succ_r by lia; f_equal; lia).
  assert (2 ^ prec = 2 * 2 ^ (prec - 1)) as Hpow by (rewrite <-Z.pow_succ_r by lia; f_equal; lia).
  destruct x as [s|s| |s m e]; unfold bits_of_float; [destruct s; nia..|nia|].
  intros (Hd & He & Hc)%bounded_spec. unfold emin in *. apply digits_lt in Hd; [|lia].
  destruct (Z.ltb_spec (Zpos m) (2 ^ (prec - 1))); destruct s; nia.
Qed.

(** *** Rounding is canonical *)

Lemma shr_1_half r : 0 <= shr_m r -> shr_m (shr_1 r) = shr_m r / 2.
Proof.
  destruct r as [[|[p|p|]|] b c]; intros Hr; try done; cbn [shr_1 shr_m] in *.
  - apply (Z.div_unique _ 2 _ 1); lia.
  - apply (Z.div_unique _ 2 _ 0); lia.
Qed.

Lemma iter_shr p : forall r, 0 <= shr_m r -> shr_m (iter_pos shr_1 p r) = shr_m r / 2 ^ Zpos p.
Proof.
  induction p as [p IH|p IH|]; intros r Hr; cbn [iter_pos].
  - assert (0 <= shr_m (shr_1 r)) as H1 by (rewrite shr_1_half by done; apply Z.div_pos; lia).
    rewrite !IH; [|done|rewrite IH by done; apply Z.div_pos; [done|by apply Z.pow_pos_nonneg]].
    rewrite shr_1_half by done. rewrite !Z.div_div by (try apply Z.pow_nonzero; try apply Z.mul_pos_pos; try apply Z.pow_pos_nonneg; lia).
    f_equal. replace (Zpos p~1) with (1 + Zpos p + Zpos p) by lia. rewrite !Z.pow_add_r by lia. lia.
  - rewrite !IH; [|done|rewrite IH by done; apply Z.div_pos; [done|by apply Z.pow_pos_nonneg]].
    rewrite Z.div_div by (try apply Z.pow_nonzero; try apply Z.pow_pos_nonneg; lia).
    rewrite <-Z.pow_add_r by lia. do 2 f_equal. lia.
  - by apply shr_1_half.
Qed.

Lemma shr_spec r e n :
  0 <= shr_m r -> 0 <= n -> shr_m (fst (shr r e n)) = shr_m r / 2 ^ n /\ snd (shr r e n) = e + n.
Proof.
  intros Hr Hn. destruct n as [|p|p]; cbn [shr fst snd]; [|split; [by apply iter_shr|done]|lia].
  by rewrite Z.pow_0_r, Z.div_1_r, Z.add_0_r.
Qed.

Lemma round_near m l : round_nearest_even m l = m \/ round_nearest_even m l = m + 1.
Proof. destruct l as [|[]]; cbn; try (destruct (Z.even m)); auto. Qed.

(** The second normalisation, of a rounded mantissa at its exponent. *)
Lemma renormalize_valid s r e :
  0 <= r <= 2 ^ prec -> emin prec emax <= e -> (2 ^ (prec - 1) <= r \/ e = emin prec emax) ->
  valid_binary prec emax
    (let '(mrs, e') := shr_fexp prec emax r e loc_Exact in
     match shr_m mrs with
     | Z0 => S754_zero s
     | Zpos m => if e' <=? emax - prec then S754_finite s m e' else S754_infinity s
     | _ => S754_nan
     end) = true.
Proof.
  intros Hr He Hc. unfold shr_fexp. cbn [shr_record_of_loc].
  assert (2 ^ prec = 2 * 2 ^ (prec - 1)) as Hpow by (rewrite <-Z.pow_succ_r by lia; f_equal; lia).
  destruct r as [|m|m]; [|clear Hpow|lia].
  { assert (shr_m (fst (shr {| shr_m := 0; shr_r := false; shr_s := false |} e
      (fexp prec emax (Zdigits2 0 + e) - e))) = 0) as Hz.
    { destruct (fexp prec emax (Zdigits2 0 + e) - e) eqn:En; cbn [shr fst]; try done.
      by rewrite iter_shr, Z.div_0_l by (try apply Z.pow_nonzero; done). }
    destruct (shr _ _ _) as [mrs e']. cbn [fst] in Hz. by rewrite Hz. }
  cbn [Zdigits2]. set (d := Zpos (digits2_pos m)).
  pose proof (digits2_pos_bound m) as Hlo. pose proof (digits2_pos_upper m) as Hup. fold d in Hlo, Hup.
  assert (2 ^ prec = 2 * 2 ^ (prec - 1)) as Hpow by (rewrite <-Z.pow_succ_r by lia; f_equal; lia).
  destruct (Z.eq_dec (Zpos m) (2 ^ prec)) as [Hm|Hm].
  - assert (d = prec + 1) as Hd.
    { assert (d <= prec + 1) by (apply digits_lt; [lia|]; rewrite Z.pow_add_r by lia; lia).
      destruct (Z.le_gt_cases d prec) as [Hle|]; [|lia]. apply digits_lt in Hle; lia. }
    assert (fexp prec emax (d + e) - e = 1) as -> by (unfold fexp; lia).
    cbn [shr iter_pos]. pose proof (shr_1_half {| shr_m := Zpos m; shr_r := false; shr_s := false |}) as Hh.
    cbn [shr_m] in Hh. rewrite Hh by lia. rewrite Hm, Hpow, Z.mul_comm, Z.div_mul by lia.
    destruct (2 ^ (prec - 1)) as [|q|q] eqn:Eq; [done| |done].
    destruct (Z.leb_spec (e + 1) (emax - prec)); [|done]. cbn [valid_binary]. apply bounded_spec.
    assert (Zpos (digits2_pos q) = prec); [|lia].
    pose proof (proj2 (digits_lt q prec ltac:(lia)) ltac:(lia)).
    destruct (Z.le_gt_cases (Zpos (digits2_pos q)) (prec - 1)) as [Hle|]; [|lia]. apply digits_lt in Hle; lia.
  - assert (d <= prec) as Hd by (apply digits_lt; lia).
    assert (d = prec \/ e = emin prec emax) as Hdc.
    { destruct Hc as [Hc|]; [left|by right]. destruct (Z.le_gt_cases d (prec - 1)) as [Hle|]; [|lia].
      apply digits_lt in Hle; lia. }
    assert (fexp prec emax (d + e) - e = 0) as -> by (unfold fexp; lia).
    cbn [shr shr_m]. destruct (Z.leb_spec e (emax - prec)); [|done]. cbn [valid_binary].
    apply bounded_spec. fold d. lia.
Qed.

Lemma round_aux_valid s m e :
  e <= fexp prec emax (Zpos (digits2_pos m) + e) ->
  valid_binary prec emax (binary_round_aux prec emax s (Zpos m) e loc_Exact) = true.
Proof.
  intros He. unfold binary_round_aux. unfold shr_fexp at 1. cbn [shr_record_of_loc Zdigits2].
  set (f := fexp prec emax _) in *. set (d := Zpos (digits2_pos m)) in *.
  destruct (shr_spec {| shr_m := Zpos m; shr_r := false; shr_s := false |} e (f - e)) as [Hm Hx];
    [cbn; lia|lia|].
  destruct (shr _ e (f - e)) as [mrs e1]. cbn [fst snd shr_m] in *.
  replace (e + (f - e)) with f in Hx by lia. subst e1.
  pose proof (digits2_pos_bound m) as Hlo. pose proof (digits2_pos_upper m) as Hup. fold d in Hlo, Hup.
  assert (f = Z.max (d + e - prec) (emin prec emax)) as Hf by done.
  assert (0 <= f - e) as Hn by lia.
  assert (0 < 2 ^ (f - e)) as Hpn by (apply Z.pow_pos_nonneg; lia).
  assert (0 <= shr_m mrs < 2 ^ prec) as Hr1.
  { rewrite Hm. split; [apply Z.div_pos; lia|]. apply Z.div_lt_upper_bound; [lia|].
    rewrite <-Z.pow_add_r by lia. assert (2 ^ d <= 2 ^ (f - e + prec)) by (apply Z.pow_le_mono_r; lia). lia. }
  assert (2 ^ (prec - 1) <= shr_m mrs \/ f = emin prec emax) as Hc.
  { destruct (Z.eq_dec f (emin prec emax)) as [|Hne]; [by right|left].
    rewrite Hm. apply Z.div_le_lower_bound; [lia|]. rewrite <-Z.pow_add_r by lia.
    replace (f - e + (prec - 1)) with (d - 1) by lia. done. }
  destruct (round_near (shr_m mrs) (loc_of_shr_record mrs)) as [Hround|Hround]; rewrite Hround;
    apply renormalize_valid; lia.
Qed.

Lemma binary_round_valid s m e : valid_binary prec emax (binary_round prec emax s m e) = true.
Proof.
  unfold binary_round, shl_align. set (f := fexp prec emax _).
  destruct (f - e) as [|p|k] eqn:Ef; apply round_aux_valid.
  - subst f. lia.
  - subst f. lia.
  - rewrite digits2_pos_iter. replace (Zpos (digits2_pos m) + Zpos k + f) with (Zpos (digits2_pos m) + e) by lia.
    done.
Qed.

Lemma binary_normalize_valid v : valid_binary prec emax (binary_normalize prec emax v 0 false) = true.
Proof. destruct v; [done|apply binary_round_valid..]. Qed.

End format.

Lemma f64_of_int_valid v : valid_binary 53 1024 (f64_of_int v) = true.
Proof. by apply binary_normalize_valid. Qed.

Lemma f32_of_f64_valid x : valid_binary 24 128 (f32_of_f64 x) = true.
Proof. destruct x; try done. by apply binary_round_valid. Qed.

Example bits_of_one_half : bits_of_float 53 1024 (S754_finite false 4503599627370496 (-53)) = 0x3fe0000000000000.
Proof. reflexivity. Qed.

Example bits_of_minus_two_f32 : bits_of_float 24 128 (f32_of_int (-2)) = 0xc0000000.
Proof. reflexivity. Qed.
