(* ===== verification/ArrowRef.v ===== *)
(** * A reference implementation of the Arrow interface

    Executable definitions of the operations of [Arrow] that satisfy the laws
    the theorems rely on: every theorem stated over the interface is applied
    at this implementation in its witness. *)

From Stdlib Require Import Sorted.
From S2P Require Import Prelude Float Utf8 Arrow.

(** ** Operations *)

Fixpoint type_eqb (a b : DataType) : bool :=
  match a, b with
  | TNull, TNull | TBoolean, TBoolean | TInt8, TInt8 | TInt16, TInt16 | TInt32, TInt32
  | TInt64, TInt64 | TUInt8, TUInt8 | TUInt16, TUInt16 | TUInt32, TUInt32
  | TUInt64, TUInt64 | TFloat16, TFloat16 | TFloat32, TFloat32 | TFloat64, TFloat64
  | TDate32, TDate32 | TDate64, TDate64 | TUtf8, TUtf8 | TLargeUtf8, TLargeUtf8
  | TBinary, TBinary | TLargeBinary, TLargeBinary => true
  | TTimestamp u tz, TTimestamp u' tz' => bool_decide (u = u') && bool_decide (tz = tz')
  | TTime32 u, TTime32 u' | TTime64 u, TTime64 u' | TDuration u, TDuration u' =>
      bool_decide (u = u')
  | TDictionary k v, TDictionary k' v' => type_eqb k k' && type_eqb v v'
  | _, _ => false
  end.

(** The kernels compare values of one type. *)
Definition same_type (a b : DataType) : bool :=
  match type_kind a with KNone => false | _ => type_eqb a b end.

Definition ref_cmp (op : CmpOp) (x y : Datum) : res ArrowError (list (option bool)) :=
  let l := datum_array x in
  let r := datum_array y in
  if negb (same_type (data_type l) (data_type r)) then
    Err (OtherArrowError "Invalid comparison operation")
  else
    match x, y with
    | DArray _, DArray _ =>
        if (array_len l =? array_len r)%nat
        then Ok (zip_with (cmp_cells op) (cells l) (cells r))
        else Err (OtherArrowError "Cannot compare arrays of different lengths")
    | DArray _, DScalar _ =>
        match cells r with
        | [c] => Ok (map (fun v => cmp_cells op v c) (cells l))
        | _ => Err (OtherArrowError "not a scalar")
        end
    | DScalar _, DArray _ =>
        match cells l with
        | [c] => Ok (map (fun v => cmp_cells op c v) (cells r))
        | _ => Err (OtherArrowError "not a scalar")
        end
    | DScalar _, DScalar _ =>
        match cells l, cells r with
        | [c], [d] => Ok [cmp_cells op c d]
        | _, _ => Err (OtherArrowError "not a scalar")
        end
    end.

Definition ref_zip (f : option bool -> option bool -> option bool) (l r : list (option bool))
    : res ArrowError (list (option bool)) :=
  if (length l =? length r)%nat then Ok (zip_with f l r)
  else Err (ComputeError "Cannot perform bitwise operation on arrays of different length").

(** Arrays of chosen rows. *)
Definition map_rows (f : forall A, list A -> list A) (a : Array) : Array :=
  match a with
  | BooleanArray v => BooleanArray (f _ v)
  | IntArray dt v => IntArray dt (f _ v)
  | FloatArray dt v => FloatArray dt (f _ v)
  | BytesArray dt v => BytesArray dt (f _ v)
  | RawArray dt v => RawArray dt (f _ v)
  | OtherArray dt n => OtherArray dt (length (f _ (replicate n ())))
  end.

Definition ref_filter (b : RecordBatch) (mask : list (option bool)) : res ArrowError RecordBatch :=
  if (rb_num_rows b =? length mask)%nat then
    Ok (mkBatch (rb_schema b)
          (map (map_rows (fun _ l => select l mask)) (rb_columns b)) (count_true mask))
  else Err (OtherArrowError "Filter predicate length").

Definition pick {A} (idx : list nat) (l : list A) : list A := omap (fun i => l !! i) idx.

Definition ref_take (a : Array) (idx : list nat) : res ArrowError Array :=
  if forallb (fun i => (i <? array_len a)%nat) idx
  then Ok (map_rows (fun _ l => pick idx l) a)
  else Err (ComputeError "Array index out of bounds").

Definition ref_index_of (s : Schema) (n : string) : option nat :=
  (fun '(i, _) => i) <$> list_find (fun f => field_name f = n) (fields s).

Definition ref_try_new (s : Schema) (cs : list Array) : res ArrowError RecordBatch :=
  match cs with
  | [] => Err (OtherArrowError "must either specify a row count or at least one column")
  | c :: _ =>
      if (length cs =? length (fields s))%nat
         && forallb (fun c' => (array_len c' =? array_len c)%nat) cs
         && forallb (fun '(c', f) => type_eqb (data_type c') (field_type f)) (zip cs (fields s))
      then Ok (mkBatch s cs (array_len c))
      else Err (OtherArrowError "column types must match schema types")
  end.

Definition ref_project (b : RecordBatch) (idx : list nat) : res ArrowError RecordBatch :=
  if forallb (fun i => (i <? length (rb_columns b))%nat && (i <? length (fields (rb_schema b)))%nat) idx
  then Ok (mkBatch (mkSchema (pick idx (fields (rb_schema b)))) (pick idx (rb_columns b)) (rb_num_rows b))
  else Err (OtherArrowError "project index out of bounds").

(** Groups of [w] bytes. *)
Fixpoint chunk (fuel w : nat) (bs : bytes) : list bytes :=
  match fuel with
  | O => []
  | S fuel' => take w bs :: chunk fuel' w (drop w bs)
  end.

Definition ref_build (dt : DataType) (n : Z) (bs : bytes) : res ArrowError Array :=
  match native_width dt with
  | Some w =>
      if (0 <=? n) && (n * w <=? Z.of_nat (length bs))
      then Ok (RawArray dt (chunk (Z.to_nat n) (Z.to_nat w) (take (Z.to_nat (n * w)) bs)))
      else Err (OtherArrowError "Need at least more bytes in buffers")
  | None => Err (OtherArrowError "not a primitive type")
  end.

(** Little-endian bytes of an integer. *)
Fixpoint int_bytes (w : nat) (v : Z) : bytes :=
  match w with
  | O => []
  | S w' => default Byte.x00 (Byte.of_N (Z.to_N (v mod 256))) :: int_bytes w' (v / 256)
  end.

Definition ref_native (a : Array) : list bytes :=
  match a with
  | RawArray _ v => v
  | IntArray dt v =>
      map (fun o => int_bytes (Z.to_nat (default 8 (native_width dt))) (default 0 o)) v
  | _ => []
  end.

(** Insertion sort of the row numbers. *)
Definition cell_leb (opts : SortOptions) (a b : option Cell) : bool :=
  match a, b with
  | None, None => true
  | None, Some _ => nulls_first opts
  | Some _, None => negb (nulls_first opts)
  | Some x, Some y =>
      match cell_compare x y with
      | Some Lt => negb (descending opts)
      | Some Eq => true
      | Some Gt => descending opts
      | None => false
      end
  end.

Fixpoint insert_row (opts : SortOptions) (cs : list (option Cell)) (i : nat) (l : list nat) : list nat :=
  match l with
  | [] => [i]
  | j :: l' =>
      match cs !! i, cs !! j with
      | Some x, Some y => if cell_leb opts x y then i :: l else j :: insert_row opts cs i l'
      | _, _ => i :: l
      end
  end.

Definition ref_sort (a : Array) (opts : SortOptions) : res ArrowError (list nat) :=
  match type_kind (data_type a) with
  | KNone => Err (OtherArrowError "Sort not supported for data type")
  | _ => Ok (foldr (insert_row opts (cells a)) [] (seq 0 (array_len a)))
  end.

Definition ref_append (a b : Array) : Array :=
  match a, b with
  | BooleanArray v, BooleanArray v' => BooleanArray (v ++ v')
  | IntArray dt v, IntArray _ v' => IntArray dt (v ++ v')
  | FloatArray dt v, FloatArray _ v' => FloatArray dt (v ++ v')
  | BytesArray dt v, BytesArray _ v' => BytesArray dt (v ++ v')
  | RawArray dt v, RawArray _ v' => RawArray dt (v ++ v')
  | OtherArray dt n, OtherArray _ n' => OtherArray dt (n + n')
  | _, _ => a
  end.

Definition ref_concat (s : Schema) (bs : list RecordBatch) : res ArrowError RecordBatch :=
  match bs with
  | [] => Err (OtherArrowError "no batches")
  | b :: bs' =>
      Ok (mkBatch s (foldl (fun cs b' => zip_with ref_append cs (rb_columns b')) (rb_columns b) bs')
            (foldr (fun b' n => rb_num_rows b' + n)%nat 0%nat bs))
  end.

Definition show_error (e : ArrowError) : string :=
  match e with
  | ComputeError s => "Compute error: " +:+ s
  | IpcError s => "Ipc error: " +:+ s
  | OtherArrowError s => s
  end.

#[export] Instance ref_arrow : Arrow := {|
  cmp := ref_cmp;
  bool_and := ref_zip and_cells;
  bool_or := ref_zip or_cells;
  bool_not l := Ok (map not_cell l);
  bool_value l i := match l !! i with Some (Some b) => b | _ => false end;
  filter_record_batch := ref_filter;
  arrow_take := ref_take;
  sort_to_indices := ref_sort;
  concat_batches := ref_concat;
  try_new := ref_try_new;
  project := ref_project;
  column_by_name b n := i ← ref_index_of (rb_schema b) n; rb_columns b !! i;
  index_of := ref_index_of;
  field_with_name s n := i ← ref_index_of s n; fields s !! i;
  build_primitive := ref_build;
  native_values := ref_native;
  error_string := show_error;
  debug_type _ := "DataType";
  debug_f64 _ := "f64";
  display_f64 _ := "f64";
  debug_str s := s
|}.

(** ** The laws hold *)

Lemma type_eqb_eq a : forall b, type_eqb a b = true -> a = b.
Proof.
  induction a; intros [] H; try discriminate H; try reflexivity; simpl in H;
    rewrite ?andb_true_iff, ?bool_decide_eq_true in H; naive_solver.
Qed.

Lemma same_type_refl dt : type_kind dt <> KNone -> same_type dt dt = true.
Proof. unfold same_type. destruct dt; try done; cbn; by rewrite ?(bool_decide_eq_true_2 _ eq_refl). Qed.

Lemma same_type_eq a b : same_type a b = true -> a = b.
Proof. unfold same_type. intros Hs. by destruct (type_kind a); [..|done]; apply type_eqb_eq. Qed.

#[export] Instance ref_cmp_laws : CmpLaws.
Proof.
  split; cbn.
  - unfold ref_cmp. intros op l r m. repeat case_match; try done. intros [= <-].
    split; [|done]. by apply Nat.eqb_eq.
  - unfold ref_cmp. intros op l s m c Hm Hc. cbn in Hm. rewrite Hc in Hm.
    case_match; naive_solver.
  - unfold ref_cmp. intros op s r m c Hm Hc. cbn in Hm. rewrite Hc in Hm.
    case_match; naive_solver.
  - unfold ref_cmp. intros op s t m c d Hm Hc Hd. cbn in Hm. rewrite Hc, Hd in Hm.
    case_match; naive_solver.
  - intros op x y. unfold ref_cmp. by repeat case_match.
  - intros op x y Ht Hk Hs. unfold ref_cmp. unfold datum_type in *. rewrite Ht, same_type_refl by congruence.
    cbn [negb]. destruct x as [l|l], y as [r|r]; unfold broadcastable, datum_cells in Hs; cbn [datum_array] in *.
    + rewrite (proj2 (Nat.eqb_eq _ _) Hs). done.
    + by destruct Hs as [c ->].
    + by destruct Hs as [c ->].
    + by destruct Hs as [[c ->] [d ->]].
  - intros op x y m Hm _ _. apply same_type_eq. unfold ref_cmp in Hm. by destruct (same_type _ _) eqn:E.
Qed.

Lemma ref_zip_spec f l r m : ref_zip f l r = Ok m -> length l = length r /\ m = zip_with f l r.
Proof. unfold ref_zip. destruct (Nat.eqb_spec (length l) (length r)); naive_solver. Qed.

Lemma ref_zip_ok f l r : length l = length r -> is_ok (ref_zip f l r).
Proof. unfold ref_zip. destruct (Nat.eqb_spec (length l) (length r)); done. Qed.

#[export] Instance ref_bool_laws : BoolLaws.
Proof.
  split; cbn; try (by apply ref_zip_spec); try (by apply ref_zip_ok); try done.
  - naive_solver.
  - intros l r. unfold ref_zip. split; by case_match.
  - intros l i b ->. by destruct b.
Qed.

Lemma select_map {A B} (f : A -> B) l mask : select (map f l) mask = map f (select l mask).
Proof.
  revert mask; induction l as [|x l IH]; intros [|[[]|] m]; simpl; try done; by rewrite IH.
Qed.

Lemma select_replicate {A} (x : A) n mask :
  select (replicate n x) mask = replicate (length (select (replicate n ()) mask)) x.
Proof.
  revert mask; induction n as [|n IH]; intros [|[[]|] m]; simpl; try done; by rewrite IH.
Qed.

Lemma pick_map {A B} (f : A -> B) idx l : pick idx (map f l) = map f (pick idx l).
Proof.
  unfold pick. induction idx as [|i idx IH]; [done|]. cbn.
  rewrite list_lookup_fmap. destruct (l !! i); simpl; by rewrite IH.
Qed.

Lemma pick_Forall2 {A} idx (l : list A) :
  Forall (fun i => (i < length l)%nat) idx -> Forall2 (fun i x => l !! i = Some x) idx (pick idx l).
Proof.
  induction 1 as [|i idx Hi _ IH]; [constructor|]. cbn.
  destruct (lookup_lt_is_Some_2 l i Hi) as [x Hx]. rewrite Hx. by constructor.
Qed.

Lemma forallb_Forall {A} (p : A -> bool) l : forallb p l = true <-> Forall (fun x => p x = true) l.
Proof.
  rewrite forallb_forall, Forall_forall. split; intros H x Hx; apply H; by apply list_elem_of_In.
Qed.

Lemma map_rows_type f a : data_type (map_rows f a) = data_type a.
Proof. by destruct a. Qed.

Lemma ref_index_of_Some s n i :
  ref_index_of s n = Some i <->
  exists f, list_find (fun f => field_name f = n) (fields s) = Some (i, f).
Proof.
  unfold ref_index_of. destruct (list_find _ _) as [[j f]|]; naive_solver.
Qed.

Lemma pick_replicate {A} idx n (x : A) :
  pick idx (replicate n x) = replicate (length (pick idx (replicate n ()))) x.
Proof.
  unfold pick. induction idx as [|i idx IH]; [done|]. cbn.
  destruct (decide (i < n)%nat) as [Hi|Hi].
  - rewrite !lookup_replicate_2 by done. cbn. by rewrite IH.
  - rewrite !(proj1 (lookup_replicate_None _ _ _)) by lia. done.
Qed.

Lemma map_rows_pick idx a : cells (map_rows (fun _ l => pick idx l) a) = pick idx (cells a).
Proof. destruct a; simpl; rewrite ?pick_map; try done. by rewrite <-pick_replicate. Qed.

Lemma map_rows_select mask a :
  cells (map_rows (fun _ l => select l mask) a) = select (cells a) mask.
Proof. destruct a; simpl; rewrite ?select_map; try done. by rewrite <-select_replicate. Qed.

Lemma ref_take_spec a idx a' :
  ref_take a idx = Ok a' ->
  data_type a' = data_type a /\ Forall2 (fun i c => cells a !! i = Some c) idx (cells a').
Proof.
  unfold ref_take. destruct (forallb _ idx) eqn:E; [|done]. intros [= <-].
  split; [apply map_rows_type|]. rewrite map_rows_pick. apply pick_Forall2.
  rewrite cells_length. apply forallb_Forall in E. eapply Forall_impl; [exact E|].
  cbn. intros i Hi. by apply Nat.ltb_lt.
Qed.

Lemma ref_try_new_spec s cs b :
  ref_try_new s cs = Ok b -> rb_schema b = s /\ rb_columns b = cs /\ wf_batch b.
Proof.
  unfold ref_try_new. destruct cs as [|c cs]; [done|]. case_match eqn:E; [|done].
  intros [= <-]. rewrite !andb_true_iff in E. destruct E as [[El En] Et].
  apply Nat.eqb_eq in El. split_and!; try done. split_and!; cbn [rb_schema rb_columns rb_num_rows].
  - done.
  - apply forallb_Forall in En. eapply Forall_impl; [exact En|]. intros c'. apply Nat.eqb_eq.
  - revert Et El. generalize (c :: cs) (fields s). clear.
    induction l as [|c cs IH]; intros [|f fs] Et El; try done. cbn in Et.
    apply andb_true_iff in Et as [Hc Et]. constructor; [by apply type_eqb_eq|].
    apply IH; [done|]. cbn in El. lia.
Qed.

#[export] Instance ref_batch_laws : BatchLaws.
Proof.
  split; cbn.
  - intros s n i (f & (Hf & Hn & _)%list_find_Some)%ref_index_of_Some. eauto.
  - intros s n Hn f Hf. unfold ref_index_of in Hn.
    destruct (list_find _ _) as [[]|] eqn:E; [done|].
    apply list_find_None in E. rewrite Forall_forall in E. by apply E.
  - done.
  - done.
  - unfold ref_filter. intros b mask b'. case_match; [|done]. intros [= <-]. cbn. split; [done|].
    rewrite Forall2_fmap_l. apply Forall_Forall2_diag, Forall_forall. intros c _. cbn.
    by rewrite map_rows_type, map_rows_select.
  - unfold ref_filter. intros b mask b'. case_match; [|done]. by intros [= <-].
  - apply ref_take_spec.
  - apply ref_try_new_spec.
  - unfold ref_project. intros b idx b'. case_match eqn:E; [|done]. intros [= <-]. cbn.
    apply forallb_Forall in E. split_and!; [apply pick_Forall2..|done].
    all: eapply Forall_impl; [exact E|]; cbn; intros i [H1 H2]%andb_true_iff; by apply Nat.ltb_lt.
  - intros b mask a idx s cs. unfold ref_filter, ref_take, ref_project, ref_try_new.
    split_and!; by repeat case_match.
  - intros b mask _ Hl. unfold ref_filter. by rewrite (proj2 (Nat.eqb_eq _ _) (eq_sym Hl)).
  - intros b idx Hb Hi. unfold ref_project.
    rewrite (proj2 (forallb_Forall _ idx)); [done|]. eapply Forall_impl; [exact Hi|].
    intros i Hlt. destruct Hb as [Hb _]. rewrite <-Hb.
    apply andb_true_iff. split; by apply Nat.ltb_lt.
Qed.

Lemma chunk_spec fuel w bs :
  length bs = (fuel * w)%nat -> length (chunk fuel w bs) = fuel /\ concat (chunk fuel w bs) = bs.
Proof.
  revert bs; induction fuel as [|fuel IH]; intros bs Hl; cbn.
  - by destruct bs.
  - destruct (IH (drop w bs)) as [H1 H2]; [rewrite length_drop; lia|].
    split; [by rewrite H1|]. by rewrite H2, take_drop.
Qed.

#[export] Instance ref_build_laws : BuildLaws.
Proof.
  split; cbn; unfold ref_build.
  - intros dt n bs a. destruct (native_width dt) as [w|] eqn:Ew; [|done].
    case_match eqn:E; [|done]. intros [= <-]. apply andb_true_iff in E as [H1 H2].
    apply Z.leb_le in H1. apply Z.leb_le in H2.
    assert (0 < w) by (by destruct dt; simplify_eq/=).
    destruct (chunk_spec (Z.to_nat n) (Z.to_nat w) (take (Z.to_nat (n * w)) bs)) as [Hc1 Hc2].
    { rewrite length_take. nia. }
    exists w. cbn. rewrite Hc1, Hc2. split_and!; done || lia.
  - intros dt n bs w -> Hn Hl. case_match eqn:E; [done|].
    apply andb_false_iff in E as [E|E]; lia.
  - intros. by repeat case_match.
Qed.

(** ** Sorting *)

Lemma cell_compare_antisym x y c :
  cell_compare x y = Some c -> cell_compare y x = Some (CompOpp c).
Proof.
  destruct x, y; cbn; try done; intros [= <-]; f_equal.
  - apply Z.compare_antisym.
  - apply Z.compare_antisym.
  - rewrite !total_cmp_key. apply lex_cmp_antisym.
  - apply String.compare_antisym.
Qed.

Lemma Zcompare_le_trans x y z : (x ?= y) <> Gt -> (y ?= z) <> Gt -> (x ?= z) <> Gt.
Proof. unfold not. rewrite !Z.compare_gt_iff. lia. Qed.

Lemma string_compare_le_trans x y z :
  String.compare x y <> Gt -> String.compare y z <> Gt -> String.compare x z <> Gt.
Proof.
  pose proof (str_le_trans x y z) as H. revert H. unfold str_le, String.leb.
  destruct (String.compare x y), (String.compare y z), (String.compare x z); naive_solver.
Qed.

Lemma cell_compare_trans x y z c1 c2 :
  cell_compare x y = Some c1 -> cell_compare y z = Some c2 -> c1 <> Gt -> c2 <> Gt ->
  exists c3, cell_compare x z = Some c3 /\ c3 <> Gt.
Proof.
  destruct x, y; try done; destruct z; cbn; try done; intros [= <-] [= <-] H1 H2;
    eexists; (split; [reflexivity|]).
  - by eapply Zcompare_le_trans.
  - by eapply Zcompare_le_trans.
  - rewrite !total_cmp_key in *. by eapply lex_cmp_le_le.
  - by eapply string_compare_le_trans.
Qed.

(** Cells of one array have one kind, so they compare. *)
Lemma cells_comparable a i j x y :
  cells a !! i = Some (Some x) -> cells a !! j = Some (Some y) ->
  exists c, cell_compare x y = Some c.
Proof.
  destruct a as [v|dt v|dt v|dt v|dt v|dt n]; cbn; rewrite ?list_lookup_fmap.
  1-4: destruct (v !! i) as [[]|], (v !! j) as [[]|]; cbn; try done;
    intros [= <-] [= <-]; cbn; eauto.
  - destruct (v !! i) as [bi|], (v !! j) as [bj|]; cbn; try done.
    intros [= <-] [= <-]. destruct dt; cbn; eauto.
  - intros [H _]%lookup_replicate. discriminate H.
Qed.

Section insertion.
Context (opts : SortOptions) (a : Array).

Definition row_le (i j : nat) : Prop :=
  exists x y, cells a !! i = Some x /\ cells a !! j = Some y /\ cell_leb opts x y = true.

Lemma cell_leb_total i j x y :
  cells a !! i = Some x -> cells a !! j = Some y ->
  cell_leb opts x y = false -> cell_leb opts y x = true.
Proof.
  intros Hi Hj. destruct x as [x|], y as [y|]; cbn; try done.
  - destruct (cells_comparable a i j x y Hi Hj) as [c Hc].
    rewrite Hc, (cell_compare_antisym _ _ _ Hc). by destruct c, (descending opts).
  - by destruct (nulls_first opts).
  - by destruct (nulls_first opts).
Qed.

Lemma cell_leb_Some x y :
  cell_leb opts (Some x) (Some y) = true <->
  exists c, (if descending opts then cell_compare y x else cell_compare x y) = Some c /\ c <> Gt.
Proof.
  cbn. destruct (cell_compare x y) as [c|] eqn:E.
  - rewrite (cell_compare_antisym _ _ _ E). destruct c, (descending opts); naive_solver.
  - destruct (cell_compare y x) as [c|] eqn:E'.
    + apply cell_compare_antisym in E'. congruence.
    + destruct (descending opts); naive_solver.
Qed.

Lemma cell_leb_trans x y z :
  cell_leb opts x y = true -> cell_leb opts y z = true -> cell_leb opts x z = true.
Proof.
  destruct x as [x|], y as [y|], z as [z|]; try done.
  - rewrite !cell_leb_Some. destruct (descending opts); intros (c1 & ? & ?) (c2 & ? & ?).
    + by eapply (cell_compare_trans z y x).
    + by eapply (cell_compare_trans x y z).
  - cbn. by destruct (nulls_first opts).
Qed.

Lemma row_le_trans i j k : row_le i j -> row_le j k -> row_le i k.
Proof.
  intros (x & y & ? & ? & ?) (y' & z & ? & ? & ?). simplify_eq.
  exists x, z. eauto using cell_leb_trans.
Qed.

Lemma insert_row_perm i l : insert_row opts (cells a) i l ≡ₚ i :: l.
Proof.
  induction l as [|j l IH]; cbn; [done|].
  repeat case_match; try done. rewrite IH. by constructor.
Qed.

Lemma insert_row_sorted i l :
  (i < array_len a)%nat -> Forall (fun j => (j < array_len a)%nat) l ->
  StronglySorted row_le l -> StronglySorted row_le (insert_row opts (cells a) i l).
Proof.
  intros Hi Hl. induction 1 as [|j l Hs IH Hj]; cbn; [by repeat constructor|].
  inversion Hl as [|?? Hjn Hln]; subst.
  destruct (lookup_lt_is_Some_2 (cells a) i) as [x Hx]; [by rewrite cells_length|].
  destruct (lookup_lt_is_Some_2 (cells a) j) as [y Hy]; [by rewrite cells_length|].
  rewrite Hx, Hy. destruct (cell_leb opts x y) eqn:E.
  - assert (row_le i j) as Hij by (exists x, y; auto).
    constructor; [by constructor|]. constructor; [done|].
    eapply Forall_impl; [exact Hj|]. intros k Hk. by eapply row_le_trans.
  - constructor; [by apply IH|]. rewrite insert_row_perm. constructor; [|done].
    exists y, x. split_and!; try done. by eapply (cell_leb_total i j).
Qed.

Lemma sort_rows_perm l : foldr (insert_row opts (cells a)) [] l ≡ₚ l.
Proof. induction l as [|i l IH]; cbn; [done|]. by rewrite insert_row_perm, IH. Qed.

Lemma sort_rows_sorted l :
  Forall (fun j => (j < array_len a)%nat) l ->
  StronglySorted row_le (foldr (insert_row opts (cells a)) [] l).
Proof.
  induction 1 as [|i l Hi Hl IH]; cbn; [constructor|].
  apply insert_row_sorted; [done| |done]. by rewrite sort_rows_perm.
Qed.

Lemma row_le_cell_le i j x y :
  row_le i j -> cells a !! i = Some x -> cells a !! j = Some y -> cell_le opts x y.
Proof.
  intros (x' & y' & Hx' & Hy' & E) Hx Hy.
  rewrite Hx in Hx'. rewrite Hy in Hy'. injection Hx' as <-. injection Hy' as <-. unfold cell_le.
  destruct x as [x|], y as [y|]; cbn in E; try done.
  - repeat case_match; by try destruct (descending opts).
  - by destruct (nulls_first opts).
Qed.

End insertion.

Lemma StronglySorted_lookup {A} (R : A -> A -> Prop) l p q x y :
  StronglySorted R l -> (p < q)%nat -> l !! p = Some x -> l !! q = Some y -> R x y.
Proof.
  intros Hs. revert p q. induction Hs as [|z l Hs IH Hz]; intros [|p] [|q] Hpq Hp Hq; try done; try lia.
  - cbn in *. simplify_eq. rewrite Forall_forall in Hz. eapply Hz, list_elem_of_lookup_2, Hq.
  - eapply (IH p q); [lia|done..].
Qed.

#[export] Instance ref_sort_laws : SortLaws.
Proof.
  split; cbn; unfold ref_sort.
  - intros a opts idx H. destruct (type_kind _); simplify_eq; apply sort_rows_perm.
  - intros a opts idx i j ci cj p q H Hpq Hp Hq Hi Hj.
    assert (StronglySorted (row_le opts a) idx) as Hs.
    { destruct (type_kind _); simplify_eq; apply sort_rows_sorted;
        apply Forall_seq; lia. }
    destruct (decide (p = q)) as [->|Hne].
    + simplify_eq. unfold cell_le. destruct ci as [x|]; [|done].
      destruct (cells_comparable a i i x x Hi Hi) as [c Hc].
      rewrite Hc. pose proof (cell_compare_antisym _ _ _ Hc) as Hc'.
      rewrite Hc in Hc'. destruct c; try discriminate Hc'. by destruct (descending opts).
    + eapply row_le_cell_le; [eapply StronglySorted_lookup; [exact Hs| |exact Hp|exact Hq]; lia|done..].
  - intros a opts. by destruct (type_kind _).
Qed.
