(* ===== verification/Compute.v ===== *)
(** * Compute kernels (compute.rs)

    The expression tree of [compute_filter_expr]: decoding from terms,
    evaluation to a boolean mask, coercion of literals to a column's type,
    and the NIFs [compute_filter], [compute_filter_expr], [compute_project]
    and [compute_sort]. *)

From S2P Require Import Prelude Float Utf8 Term Arrow.

(** ** Data *)

Inductive Op := OpEq | OpNe | OpGt | OpGte | OpLt | OpLte | OpAnd | OpOr | OpNot.

#[export] Instance Op_eq_dec : EqDecision Op.
Proof. solve_decision. Defined.

Inductive ScalarValue :=
| SBool (b : bool)
| SInt (v : Z)
| SFloat (x : f64)
| SUtf8 (s : string)
| SDate32 (d : Z)
| SDate64 (d : Z)
| STimestampMicros (v : Z)
| STimestampMillis (v : Z)
| STimestampSeconds (v : Z)
| STimestampNanos (v : Z).

Inductive Expr :=
| EField (name : string)
| EScalar (s : ScalarValue)
| ECall (op : Op) (args : list Expr).

Inductive Value :=
| VArray (a : Array)
| VLit (s : ScalarValue).

(** [#[derive(Debug)]] on [Op]. *)
Definition debug_op (op : Op) : string :=
  match op with
  | OpEq => "Eq" | OpNe => "Ne" | OpGt => "Gt" | OpGte => "Gte" | OpLt => "Lt"
  | OpLte => "Lte" | OpAnd => "And" | OpOr => "Or" | OpNot => "Not"
  end.

(** ** Decoding *)

Section decode.
Context `{Rustler Term}.

Definition decode_op (term : Term) : res string Op :=
  a ← ok_or "call op must be an atom" (get_atom term);
  if String.eqb a "eq" then Ok OpEq
  else if String.eqb a "ne" then Ok OpNe
  else if String.eqb a "gt" then Ok OpGt
  else if String.eqb a "gte" then Ok OpGte
  else if String.eqb a "lt" then Ok OpLt
  else if String.eqb a "lte" then Ok OpLte
  else if String.eqb a "and" then Ok OpAnd
  else if String.eqb a "or" then Ok OpOr
  else if String.eqb a "not" then Ok OpNot
  else Err "unsupported call op (eq ne gt gte lt lte and or not)".

Definition decode_scalar (term : Term) : res string ScalarValue :=
  match get_bool term with
  | Some b => Ok (SBool b)
  | None =>
  match get_i64 term with
  | Some i => Ok (SInt i)
  | None =>
  match get_f64 term with
  | Some f => Ok (SFloat f)
  | None =>
  match get_string term with
  | Some s => Ok (SUtf8 s)
  | None =>
    tuple ← ok_or "scalar must be bool, integer, float, UTF-8 string, or {:date32|:date64|:timestamp_*, i}"
      (get_tuple term);
    match tuple with
    | [t0; t1] =>
        unit ← ok_or "temporal scalar unit must be an atom" (get_atom t0);
        v ← ok_or "temporal scalar value must be an integer" (get_i64 t1);
        if String.eqb unit "date32" then
          d ← ok_or ("date32 value " +:+ pretty v +:+ " out of range") (try_from_s 32 v);
          Ok (SDate32 d)
        else if String.eqb unit "date64" then Ok (SDate64 v)
        else if String.eqb unit "timestamp_micros" then Ok (STimestampMicros v)
        else if String.eqb unit "timestamp_millis" then Ok (STimestampMillis v)
        else if String.eqb unit "timestamp_seconds" then Ok (STimestampSeconds v)
        else if String.eqb unit "timestamp_nanos" then Ok (STimestampNanos v)
        else Err "unsupported temporal scalar unit"
    | _ => Err "temporal scalar expects {:unit, integer}"
    end
  end
  end
  end
  end.

(** The arity check of [decode_expr]. *)
Definition check_arity (op : Op) (args : list Expr) : res string unit :=
  match op with
  | OpNot => if (length args =? 1)%nat then Ok () else Err ":not expects exactly one argument"
  | _ => if (length args =? 2)%nat then Ok ()
         else Err (debug_op op +:+ " expects exactly two arguments")
  end.

(** Recursion into the argument list is bounded by [fuel]; see
    [decode_expr_no_panic] for the fuel that always suffices. *)
Fixpoint decode_expr (fuel : nat) (term : Term) : res string Expr :=
  match fuel with
  | O => Panic "out of fuel"
  | S fuel' =>
    tuple ← ok_or "expression must be a tuple {:field|:scalar|:call, ...}" (get_tuple term);
    match tuple with
    | [] => Err "empty expression tuple"
    | t0 :: rest =>
      tag ← ok_or "expression tag must be an atom" (get_atom t0);
      if String.eqb tag "field" then
        match rest with
        | [t1] =>
            name ← ok_or "field name must be a UTF-8 string" (get_string t1);
            Ok (EField name)
        | _ => Err "{:field, name} expects exactly 2 elements"
        end
      else if String.eqb tag "scalar" then
        match rest with
        | [t1] =>
            s ← decode_scalar t1;
            Ok (EScalar s)
        | _ => Err "{:scalar, value} expects exactly 2 elements"
        end
      else if String.eqb tag "call" then
        match rest with
        | [t1; t2] =>
            op ← decode_op t1;
            list ← ok_or "call args must be a list" (get_list t2);
            args ← collect_list (decode_expr fuel') list;
            _ ← check_arity op args;
            Ok (ECall op args)
        | _ => Err "{:call, op, args} expects exactly 3 elements"
        end
      else Err "expression tag must be :field, :scalar, or :call"
    end
  end.

End decode.

(** ** Literals *)

Section scalars.
Context `{Arrow}.

(** [#[derive(Debug)]] on [ScalarValue]. *)
Definition debug_scalar (s : ScalarValue) : string :=
  match s with
  | SBool b => "Bool(" +:+ (if b then "true" else "false") +:+ ")"
  | SInt v => "Int(" +:+ pretty v +:+ ")"
  | SFloat x => "Float(" +:+ debug_f64 x +:+ ")"
  | SUtf8 s => "Utf8(" +:+ debug_str s +:+ ")"
  | SDate32 d => "Date32(" +:+ pretty d +:+ ")"
  | SDate64 d => "Date64(" +:+ pretty d +:+ ")"
  | STimestampMicros v => "TimestampMicros(" +:+ pretty v +:+ ")"
  | STimestampMillis v => "TimestampMillis(" +:+ pretty v +:+ ")"
  | STimestampSeconds v => "TimestampSeconds(" +:+ pretty v +:+ ")"
  | STimestampNanos v => "TimestampNanos(" +:+ pretty v +:+ ")"
  end.

Definition infer_lit_compare_type (l r : ScalarValue) : res string DataType :=
  match l, r with
  | SBool _, SBool _ => Ok TBoolean
  | SInt _, SInt _ => Ok TInt64
  | SFloat _, SFloat _ | SInt _, SFloat _ | SFloat _, SInt _ => Ok TFloat64
  | SUtf8 _, SUtf8 _ => Ok TUtf8
  | SDate32 _, SDate32 _ => Ok TDate32
  | SDate64 _, SDate64 _ | SDate32 _, SDate64 _ | SDate64 _, SDate32 _ => Ok TDate64
  | STimestampMicros _, _ | _, STimestampMicros _ => Ok (TTimestamp Microsecond None)
  | STimestampMillis _, _ | _, STimestampMillis _ => Ok (TTimestamp Millisecond None)
  | STimestampSeconds _, _ | _, STimestampSeconds _ => Ok (TTimestamp Second None)
  | STimestampNanos _, _ | _, STimestampNanos _ => Ok (TTimestamp Nanosecond None)
  | _, _ => Err ("cannot compare scalars " +:+ debug_scalar l +:+ " and " +:+ debug_scalar r)
  end.

Definition timestamp_array_from_ticks (ticks : Z) (unit : TimeUnit) (tz : option string)
    : res string Array :=
  match unit with
  | Second => Ok (IntArray (TTimestamp Second tz) [Some ticks])
  | Millisecond => Ok (IntArray (TTimestamp Millisecond tz) [Some ticks])
  | Microsecond => Ok (IntArray (TTimestamp Microsecond tz) [Some ticks])
  | Nanosecond => Ok (IntArray (TTimestamp Nanosecond tz) [Some ticks])
  end.

Definition micros_to_unit (micros : Z) (unit : TimeUnit) : res string Z :=
  match unit with
  | Microsecond => Ok micros
  | Millisecond =>
      if negb (rust_rem micros 1000 =? 0) then
        Err ("timestamp micros " +:+ pretty micros +:+ " is not an exact number of milliseconds")
      else Ok (rust_div micros 1000)
  | Second =>
      if negb (rust_rem micros 1000000 =? 0) then
        Err ("timestamp micros " +:+ pretty micros +:+ " is not an exact number of seconds")
      else Ok (rust_div micros 1000000)
  | Nanosecond =>
      ok_or ("timestamp micros " +:+ pretty micros +:+ " overflows nanos")
        (checked_mul_i64 micros 1000)
  end.

Definition make_timestamp_scalar (original : ScalarValue) (raw : Z) (unit : TimeUnit)
    (tz : option string) : res string Array :=
  let via_micros (m : res string Z) :=
    micros ← m;
    ticks ← micros_to_unit micros unit;
    timestamp_array_from_ticks ticks unit tz in
  match original with
  | STimestampMicros v => via_micros (Ok v)
  | STimestampMillis v =>
      via_micros (ok_or ("timestamp millis " +:+ pretty v +:+ " overflows micros")
                    (checked_mul_i64 v 1000))
  | STimestampSeconds v =>
      via_micros (ok_or ("timestamp seconds " +:+ pretty v +:+ " overflows micros")
                    (checked_mul_i64 v 1000000))
  | STimestampNanos v =>
      if negb (rust_rem v 1000 =? 0) then
        Err ("timestamp nanos " +:+ pretty v +:+ " is not an exact number of microseconds")
      else via_micros (Ok (rust_div v 1000))
  | SInt v => timestamp_array_from_ticks v unit tz
  | _ => via_micros (Ok raw)
  end.

Definition out_of_range (v : Z) (ty : string) : string :=
  "filter value " +:+ pretty v +:+ " out of range for " +:+ ty +:+ " column".
Definition not_exact (v ty : string) : string :=
  "filter value " +:+ v +:+ " is not exactly representable as " +:+ ty.

Definition make_scalar_array (value : ScalarValue) (dt : DataType) : res string Array :=
  match value, dt with
  | SInt v, TInt64 => Ok (IntArray TInt64 [Some v])
  | SInt v, TInt32 =>
      i ← ok_or (out_of_range v "Int32") (try_from_s 32 v); Ok (IntArray TInt32 [Some i])
  | SInt v, TInt16 =>
      i ← ok_or (out_of_range v "Int16") (try_from_s 16 v); Ok (IntArray TInt16 [Some i])
  | SInt v, TInt8 =>
      i ← ok_or (out_of_range v "Int8") (try_from_s 8 v); Ok (IntArray TInt8 [Some i])
  | SInt v, TUInt64 =>
      if v <? 0 then Err (out_of_range v "UInt64")
      else Ok (IntArray TUInt64 [Some (wrap_u 64 v)])
  | SInt v, TUInt32 =>
      i ← ok_or (out_of_range v "UInt32") (try_from_u 32 v); Ok (IntArray TUInt32 [Some i])
  | SInt v, TUInt16 =>
      i ← ok_or (out_of_range v "UInt16") (try_from_u 16 v); Ok (IntArray TUInt16 [Some i])
  | SInt v, TUInt8 =>
      i ← ok_or (out_of_range v "UInt8") (try_from_u 8 v); Ok (IntArray TUInt8 [Some i])
  | SFloat v, TFloat64 => Ok (FloatArray TFloat64 [Some v])
  | SInt v, TFloat64 =>
      let f := f64_of_int v in
      if negb (int_of_float 128 f =? v) then Err (not_exact (pretty v) "Float64")
      else Ok (FloatArray TFloat64 [Some f])
  | SFloat v, TFloat32 =>
      let f := f32_of_f64 v in
      if f_ne (f64_of_f32 f) v then Err (not_exact (display_f64 v) "Float32")
      else Ok (FloatArray TFloat32 [Some f])
  | SInt v, TFloat32 =>
      let f := f32_of_int v in
      if negb (int_of_float 64 f =? v) then Err (not_exact (pretty v) "Float32")
      else Ok (FloatArray TFloat32 [Some f])
  | SUtf8 s, TUtf8 => Ok (BytesArray TUtf8 [Some s])
  | SUtf8 s, TLargeUtf8 => Ok (BytesArray TLargeUtf8 [Some s])
  | SBool b, TBoolean => Ok (BooleanArray [Some b])
  | SDate32 d, TDate32 => Ok (IntArray TDate32 [Some d])
  | SDate32 d, TDate64 =>
      millis ← ok_or ("date32 " +:+ pretty d +:+ " overflows Date64 millis")
        (checked_mul_i64 d 86400000);
      Ok (IntArray TDate64 [Some millis])
  | SDate64 d, TDate64 => Ok (IntArray TDate64 [Some d])
  | SDate64 d, TDate32 =>
      if negb (rust_rem d 86400000 =? 0) then
        Err ("date64 value " +:+ pretty d +:+ " is not an exact number of days for Date32")
      else
        i ← ok_or ("date64 value " +:+ pretty d +:+ " out of range for Date32")
          (try_from_s 32 (rust_div d 86400000));
        Ok (IntArray TDate32 [Some i])
  | SInt v, TDate32 =>
      i ← ok_or (out_of_range v "Date32") (try_from_s 32 v); Ok (IntArray TDate32 [Some i])
  | SInt v, TDate64 => Ok (IntArray TDate64 [Some v])
  | STimestampMicros v, TTimestamp unit tz
  | STimestampMillis v, TTimestamp unit tz
  | STimestampSeconds v, TTimestamp unit tz
  | STimestampNanos v, TTimestamp unit tz
  | SInt v, TTimestamp unit tz => make_timestamp_scalar value v unit tz
  | _, _ => Err ("cannot compare filter value " +:+ debug_scalar value
                 +:+ " against column type " +:+ debug_type dt)
  end.

End scalars.

(** ** Evaluation *)

Section eval.
Context `{Arrow}.

Definition value_as_bool (value : Value) (len : nat) : res string (list (option bool)) :=
  match value with
  | VArray arr =>
      match downcast_boolean arr with
      | None => Err ("expected boolean expression result, got column type "
                     +:+ debug_type (data_type arr))
      | Some b =>
          if negb (length b =? len)%nat then
            Err ("boolean mask length " +:+ pretty (length b)
                 +:+ " does not match batch rows " +:+ pretty len)
          else Ok b
      end
  | VLit (SBool b) => Ok (replicate len (Some b))
  | VLit other => Err ("expected boolean expression result, got scalar " +:+ debug_scalar other)
  end.

(** The kernel of an operator; the boolean operators are [unreachable!]. *)
Definition cmp_op (op : Op) : res string CmpOp :=
  match op with
  | OpEq => Ok CEq
  | OpNe => Ok CNeq
  | OpGt => Ok CGt
  | OpGte => Ok CGtEq
  | OpLt => Ok CLt
  | OpLte => Ok CLtEq
  | OpAnd | OpOr | OpNot => Panic "boolean ops handled separately"
  end.

Definition apply_cmp_dyn (left right : Array) (op : Op) : res string (list (option bool)) :=
  k ← cmp_op op;
  map_err error_string (cmp k (DArray left) (DArray right)).

Definition eval_cmp (left right : Value) (op : Op) (len : nat)
    : res string (list (option bool)) :=
  match left, right with
  | VArray l, VArray r =>
      if negb (array_len l =? array_len r)%nat then
        Err ("cannot compare arrays of lengths " +:+ pretty (array_len l)
             +:+ " and " +:+ pretty (array_len r))
      else apply_cmp_dyn l r op
  | VArray l, VLit s =>
      scalar ← make_scalar_array s (data_type l);
      k ← cmp_op op;
      map_err error_string (cmp k (DArray l) (DScalar scalar))
  | VLit s, VArray r =>
      scalar ← make_scalar_array s (data_type r);
      k ← cmp_op op;
      map_err error_string (cmp k (DScalar scalar) (DArray r))
  | VLit l, VLit r =>
      dt ← infer_lit_compare_type l r;
      la ← make_scalar_array l dt;
      ra ← make_scalar_array r dt;
      k ← cmp_op op;
      one ← map_err error_string (cmp k (DScalar la) (DScalar ra));
      _ ← index one 0;
      let flag := bool_value one 0 in
      Ok (replicate len (Some flag))
  end.

(** [args[0]] and [args[1]] are indexed in evaluation order: a missing second
    argument panics only after the first has been evaluated. *)
Fixpoint eval_value (batch : RecordBatch) (expr : Expr) : res string Value :=
  let n := rb_num_rows batch in
  let as_bool e := v ← eval_value batch e; value_as_bool v n in
  match expr with
  | EField name =>
      col ← ok_or ("column '" +:+ name +:+ "' not found") (column_by_name batch name);
      Ok (VArray col)
  | EScalar s => Ok (VLit s)
  | ECall op args =>
      match op, args with
      | _, [] => Panic "index out of bounds"
      | OpAnd, a0 :: rest =>
          left ← as_bool a0;
          match rest with
          | [] => Panic "index out of bounds"
          | a1 :: _ =>
              right ← as_bool a1;
              m ← map_err error_string (bool_and left right);
              Ok (VArray (BooleanArray m))
          end
      | OpOr, a0 :: rest =>
          left ← as_bool a0;
          match rest with
          | [] => Panic "index out of bounds"
          | a1 :: _ =>
              right ← as_bool a1;
              m ← map_err error_string (bool_or left right);
              Ok (VArray (BooleanArray m))
          end
      | OpNot, a0 :: _ =>
          inner ← as_bool a0;
          m ← map_err error_string (bool_not inner);
          Ok (VArray (BooleanArray m))
      | _, a0 :: rest =>
          left ← eval_value batch a0;
          match rest with
          | [] => Panic "index out of bounds"
          | a1 :: _ =>
              right ← eval_value batch a1;
              m ← eval_cmp left right op n;
              Ok (VArray (BooleanArray m))
          end
      end
  end.

Definition eval_to_bool (batch : RecordBatch) (expr : Expr) : res string (list (option bool)) :=
  value ← eval_value batch expr;
  value_as_bool value (rb_num_rows batch).

(** ** NIFs *)

Definition compute_filter (batch predicate : RecordBatch) : Reply RecordBatch :=
  match rb_columns predicate with
  | [] => err_encode "predicate batch must have at least one column"
  | bool_col :: _ =>
      match downcast_boolean bool_col with
      | None => err_encode "predicate first column must be boolean"
      | Some bool_array =>
          reply (map_err error_string (filter_record_batch batch bool_array))
      end
  end.

Definition compute_filter_expr `{Rustler Term} (batch : RecordBatch) (encoded : Term)
    : Reply RecordBatch :=
  reply (
    expr ← decode_expr (S (term_size encoded)) encoded;
    mask ← eval_to_bool batch expr;
    map_err error_string (filter_record_batch batch mask)).

Definition compute_project (batch : RecordBatch) (column_names : list string)
    : Reply RecordBatch :=
  reply (
    indices ← collect (fun name =>
        ok_or ("column '" +:+ name +:+ "' not found") (index_of (rb_schema batch) name))
      column_names;
    map_err error_string (project batch indices)).

Definition compute_sort (batch : RecordBatch) (column_name : string) (ascending : bool)
    : Reply RecordBatch :=
  reply (
    col_idx ← ok_or ("column '" +:+ column_name +:+ "' not found")
      (index_of (rb_schema batch) column_name);
    column ← index (rb_columns batch) col_idx;
    let sort_opts := mkSortOptions (negb ascending) true in
    indices ← map_err error_string (sort_to_indices column sort_opts);
    new_columns ← collect (fun col => map_err error_string (arrow_take col indices))
      (rb_columns batch);
    map_err error_string (try_new (rb_schema batch) new_columns)).

End eval.
