(* ===== verification/ComputeFacts.v ===== *)
(** * Properties of the compute kernels

    Totality of decoding and evaluation, exactness of literal coercion,
    the mask evaluator against a row-wise reference semantics, and the
    functional behaviour of the four NIFs of compute.rs. *)

From S2P Require Import Prelude Float Utf8 Term Arrow ArrowRef Compute.

(** ** Well-formed expressions *)

(** The trees [decode_expr] builds: the arity of each operator is respected. *)
Inductive wf_expr : Expr -> Prop :=
| wf_field n : wf_expr (EField n)
| wf_scalar s : wf_expr (EScalar s)
| wf_not a : wf_expr a -> wf_expr (ECall OpNot [a])
| wf_binary op a b : op <> OpNot -> wf_expr a -> wf_expr b -> wf_expr (ECall op [a; b]).

Lemma check_arity_wf op args :
  check_arity op args = Ok () -> Forall wf_expr args -> wf_expr (ECall op args).
Proof.
  unfold check_arity. intros Ha Hw.
  destruct args as [|a [|b [|c l]]]; destruct op; try discriminate Ha;
    repeat match goal with H : Forall _ (_ :: _) |- _ => inversion H; clear H; subst end;
    by constructor.
Qed.

Lemma wf_check_arity op args : wf_expr (ECall op args) -> check_arity op args = Ok ().
Proof. inversion 1; subst; [done|]. by destruct op. Qed.

Lemma check_arity_no_panic op args : no_panic (check_arity op args).
Proof. unfold check_arity. by repeat case_match. Qed.

(** ** Decoding *)

Section decode.
Context `{RustlerLaws Term}.

Lemma decode_op_no_panic (t : Term) : no_panic (decode_op t).
Proof.
  unfold decode_op. apply bind_no_panic; [apply ok_or_no_panic|]. intros.
  by repeat case_match.
Qed.

Lemma decode_scalar_no_panic (t : Term) : no_panic (decode_scalar t).
Proof.
  unfold decode_scalar. repeat case_match; try done.
  apply bind_no_panic; [apply ok_or_no_panic|]. intros tuple _.
  repeat case_match; try done.
  repeat (apply bind_no_panic; [apply ok_or_no_panic|]; intros).
  repeat case_match; try done.
  by apply bind_no_panic; [apply ok_or_no_panic|].
Qed.

(** Fuel above the nesting of the term is enough, and only an improper list
    makes the decoder panic. *)
Lemma decode_expr_no_panic fuel (t : Term) :
  (term_size t < fuel)%nat -> proper_lists t -> no_panic (decode_expr fuel t).
Proof.
  revert t; induction fuel as [|fuel IH]; intros t Ht Hp; [lia|]. cbn [decode_expr].
  apply bind_no_panic; [apply ok_or_no_panic|]. intros tuple Hl%ok_or_Ok.
  destruct tuple as [|t0 rest]; [done|].
  apply bind_no_panic; [apply ok_or_no_panic|]. intros tag _.
  case_match.
  { destruct rest as [|t1 []]; try done.
    by apply bind_no_panic; [apply ok_or_no_panic|]. }
  case_match.
  { destruct rest as [|t1 []]; try done.
    by apply bind_no_panic; [apply decode_scalar_no_panic|]. }
  case_match; [|done]. destruct rest as [|t1 [|t2 []]]; try done.
  apply bind_no_panic; [apply decode_op_no_panic|]. intros op _.
  apply bind_no_panic; [apply ok_or_no_panic|]. intros l Hl2%ok_or_Ok.
  apply bind_no_panic.
  - assert (proper_lists t2) as Hp2 by (apply (proper_child t); [done|left; eexists; split; [exact Hl|set_solver]]).
    apply collect_list_no_panic; [by apply (proper_here t2)|]. apply Forall_forall. intros x Hx. apply IH.
    + pose proof (tuple_smaller t _ t2 Hl ltac:(set_solver)).
      pose proof (list_smaller t2 _ x Hl2 Hx). lia.
    + apply (proper_child t2); [done|right; eauto].
  - intros args _. by apply bind_no_panic; [apply check_arity_no_panic|].
Qed.

Lemma decode_expr_wf fuel (t : Term) e : decode_expr fuel t = Ok e -> wf_expr e.
Proof.
  revert t e; induction fuel as [|fuel IH]; intros t e Hd; [done|].
  cbn [decode_expr] in Hd.
  apply bind_Ok in Hd as (tuple & _ & Hd).
  destruct tuple as [|t0 rest]; [done|].
  apply bind_Ok in Hd as (tag & _ & Hd).
  case_match.
  { destruct rest as [|t1 []]; try done. apply bind_Ok in Hd as (s & _ & [= <-]). constructor. }
  case_match.
  { destruct rest as [|t1 []]; try done. apply bind_Ok in Hd as (s & _ & [= <-]). constructor. }
  case_match; [|done]. destruct rest as [|t1 [|t2 []]]; try done.
  apply bind_Ok in Hd as (op & _ & Hd). apply bind_Ok in Hd as (l & _ & Hd).
  apply bind_Ok in Hd as (args & Hargs%collect_list_Ok%collect_Ok & Hd).
  apply bind_Ok in Hd as ([] & Ha & [= <-]).
  apply check_arity_wf; [done|].
  eapply Forall2_Forall_r; [exact Hargs|]. apply Forall_forall. eauto.
Qed.

End decode.

(** ** Literals *)

Section literals.
Context `{Arrow}.

(** A coerced literal is one non-null cell of the column's type. *)
Lemma make_scalar_cell s dt a :
  make_scalar_array s dt = Ok a -> data_type a = dt /\ exists c, cells a = [Some c].
Proof.
  assert (forall ticks u tz a, timestamp_array_from_ticks ticks u tz = Ok a ->
    data_type a = TTimestamp u tz /\ exists c, cells a = [Some c]) as Hts.
  { intros ticks [] tz a' [= <-]; cbn; eauto. }
  unfold make_scalar_array. intros Ha.
  destruct s, dt; try discriminate Ha; unfold make_timestamp_scalar in Ha;
    repeat match type of Ha with context [if ?c then _ else _] => destruct c; try discriminate Ha end;
    repeat (apply bind_Ok in Ha as (? & _ & Ha)); try injection Ha as <-; cbn; eauto.
Qed.

(** Two literals coerced to one type have comparable cells. *)
Definition cell_kind (c : Cell) : kind :=
  match c with
  | CBool _ => KBool | CInt _ => KInt | CFloat _ => KFloat | CBytes _ => KBytes
  end.

Lemma make_scalar_kind s dt a c :
  make_scalar_array s dt = Ok a -> cells a = [Some c] -> cell_kind c = type_kind dt.
Proof.
  assert (forall ticks u tz a c, timestamp_array_from_ticks ticks u tz = Ok a ->
    cells a = [Some c] -> cell_kind c = KInt) as Hts.
  { intros ticks [] tz a' c' [= <-] [= <-]; done. }
  unfold make_scalar_array. intros Ha Hc.
  destruct s, dt; try discriminate Ha; unfold make_timestamp_scalar in Ha;
    repeat match type of Ha with context [if ?c then _ else _] => destruct c; try discriminate Ha end;
    repeat (apply bind_Ok in Ha as (? & _ & Ha)); try injection Ha as <-;
    try (injection Hc as <-); cbn; eauto.
Qed.

Lemma cell_compare_kind c d : cell_kind c = cell_kind d -> exists x, cell_compare c d = Some x.
Proof. destruct c, d; try done; cbn; eauto. Qed.

Lemma micros_to_unit_no_panic m u : no_panic (micros_to_unit m u).
Proof. destruct u; cbn; repeat case_match; try done. apply ok_or_no_panic. Qed.

Lemma make_timestamp_no_panic s v u tz : no_panic (make_timestamp_scalar s v u tz).
Proof.
  unfold make_timestamp_scalar. destruct s; repeat case_match; try done;
    repeat (apply bind_no_panic;
      [first [apply ok_or_no_panic | apply micros_to_unit_no_panic | done]|intros]);
    by destruct u.
Qed.

Lemma make_scalar_no_panic s dt : no_panic (make_scalar_array s dt).
Proof.
  unfold make_scalar_array. destruct s, dt; try exact I;
    try apply make_timestamp_no_panic; repeat case_match; try exact I;
    by apply bind_no_panic; [apply ok_or_no_panic|].
Qed.

(** The integer column types: signedness and width. *)
Definition int_type (dt : DataType) : option (bool * Z) :=
  match dt with
  | TInt8 => Some (true, 8) | TInt16 => Some (true, 16)
  | TInt32 | TDate32 => Some (true, 32) | TInt64 | TDate64 => Some (true, 64)
  | TUInt8 => Some (false, 8) | TUInt16 => Some (false, 16)
  | TUInt32 => Some (false, 32) | TUInt64 => Some (false, 64)
  | _ => None
  end.

Definition fits (t : bool * Z) (v : Z) : Prop :=
  if t.1 then s_range t.2 v else u_range t.2 v.

Lemma int_literal_spec v dt t a :
  int_type dt = Some t -> s_range 64 v ->
  (make_scalar_array (SInt v) dt = Ok a <-> fits t v /\ a = IntArray dt [Some v]).
Proof.
  intros Ht Hv. destruct dt; try discriminate Ht; injection Ht as <-; unfold fits; cbn [fst snd];
    unfold make_scalar_array.
  all: try (rewrite bind_Ok; setoid_rewrite ok_or_Ok;
            first [setoid_rewrite try_from_s_Some | setoid_rewrite try_from_u_Some]; naive_solver).
  1,3: naive_solver.
  assert (v < 0 \/ u_range 64 v) as [Hn|Hu] by (unfold s_range, u_range in *; lia).
  - rewrite (proj2 (Z.ltb_lt v 0) Hn). split; [done|]. unfold u_range. lia.
  - rewrite (proj2 (Z.ltb_ge v 0)) by (unfold u_range in Hu; lia).
    rewrite wrap_u_id by done. naive_solver.
Qed.

Lemma s_range_64_128 v : s_range 64 v -> s_range 128 v.
Proof. unfold s_range. cbn. lia. Qed.

Lemma f64_literal_spec v a :
  s_range 64 v ->
  (make_scalar_array (SInt v) TFloat64 = Ok a <->
   a = FloatArray TFloat64 [Some (f64_of_int v)] /\ denotes (f64_of_int v) v).
Proof.
  intros Hv. unfold make_scalar_array.
  assert (int_of_float 128 (f64_of_int v) = v <-> denotes (f64_of_int v) v) as E.
  { split; [|intros; apply denotes_int_of_float; auto using s_range_64_128].
    intros Hi. destruct (decide (v = 0)) as [->|Hne]; [done|].
    eapply int_of_float_integral; [by apply normalize_integral|exact Hi|done|].
    unfold s_range in Hv. cbn in *. lia. }
  destruct (Z.eqb_spec (int_of_float 128 (f64_of_int v)) v); cbn [negb]; naive_solver.
Qed.

Lemma f32_literal_spec v a :
  s_range 64 v ->
  (make_scalar_array (SInt v) TFloat32 = Ok a <->
   a = FloatArray TFloat32 [Some (f32_of_int v)] /\
   (denotes (f32_of_int v) v \/ v = 2 ^ 63 - 1)).
Proof.
  intros Hv. unfold make_scalar_array.
  assert (int_of_float 64 (f32_of_int v) = v <-> denotes (f32_of_int v) v \/ v = 2 ^ 63 - 1) as E.
  { split.
    - intros Hi. destruct (decide (v = 2 ^ 63 - 1)) as [->|Hmax]; [by right|left].
      destruct (decide (v = - 2 ^ 63)) as [->|Hmin]; [by vm_compute|].
      destruct (decide (v = 0)) as [->|Hne]; [done|].
      eapply int_of_float_integral; [by apply normalize_integral|exact Hi|done|].
      unfold s_range in Hv. cbn in *. lia.
    - intros [Hd | ->]; [by apply denotes_int_of_float|by vm_compute]. }
  destruct (Z.eqb_spec (int_of_float 64 (f32_of_int v)) v); cbn [negb]; naive_solver.
Qed.

(** *** Timestamps *)

Definition unit_nanos (u : TimeUnit) : Z :=
  match u with
  | Second => 1000000000
  | Millisecond => 1000000
  | Microsecond => 1000
  | Nanosecond => 1
  end.

(** The tick count of a timestamp literal and its unit. *)
Definition timestamp_literal (s : ScalarValue) : option (Z * TimeUnit) :=
  match s with
  | STimestampSeconds v => Some (v, Second)
  | STimestampMillis v => Some (v, Millisecond)
  | STimestampMicros v => Some (v, Microsecond)
  | STimestampNanos v => Some (v, Nanosecond)
  | _ => None
  end.

Lemma rem_zero_iff a b : 0 < b -> (rust_rem a b = 0 <-> exists q, a = q * b /\ rust_div a b = q).
Proof.
  intros Hb. unfold rust_rem, rust_div. split.
  - intros Hr. exists (Z.quot a b). split; [|done]. pose proof (Z.quot_rem' a b). lia.
  - intros (q & -> & _). apply Z.rem_mul. lia.
Qed.

Lemma quot_mul_exact q b : b <> 0 -> rust_div (q * b) b = q.
Proof. intros. unfold rust_div. by apply Z.quot_mul. Qed.

Lemma checked_mul_Some a b c : checked_mul_i64 a b = Some c <-> c = a * b /\ s_range 64 (a * b).
Proof. apply try_from_s_Some. Qed.

Lemma micros_to_unit_spec m u t :
  s_range 64 m ->
  (micros_to_unit m u = Ok t <-> t * unit_nanos u = m * 1000 /\ s_range 64 t).
Proof.
  intros Hm. destruct u; cbn [micros_to_unit unit_nanos].
  - pose proof (rem_zero_iff m 1000000 ltac:(lia)) as E.
    destruct (Z.eqb_spec (rust_rem m 1000000) 0) as [Hr|Hr]; cbn [negb].
    + apply E in Hr as (q & -> & ->). unfold s_range in *. cbn in *. split; [intros [= <-]; lia|].
      intros [Ht _]. f_equal. lia.
    + split; [done|]. intros [Ht _]. exfalso. apply Hr, E. exists t. split; [lia|].
      replace m with (t * 1000000) by lia. by apply quot_mul_exact.
  - pose proof (rem_zero_iff m 1000 ltac:(lia)) as E.
    destruct (Z.eqb_spec (rust_rem m 1000) 0) as [Hr|Hr]; cbn [negb].
    + apply E in Hr as (q & -> & ->). unfold s_range in *. cbn in *. split; [intros [= <-]; lia|].
      intros [Ht _]. f_equal. lia.
    + split; [done|]. intros [Ht _]. exfalso. apply Hr, E. exists t. split; [lia|].
      replace m with (t * 1000) by lia. by apply quot_mul_exact.
  - split; [intros [= <-]; auto|]. intros [Ht _]. f_equal. lia.
  - rewrite ok_or_Ok, checked_mul_Some. split; intros [Ht Hr]; subst; split; try lia; try done.
    by replace (m * 1000) with t by lia.
Qed.

End literals.

Section timestamps.
Context `{Arrow}.

Lemma ticks_array ticks u tz :
  timestamp_array_from_ticks ticks u tz = Ok (IntArray (TTimestamp u tz) [Some ticks]).
Proof. by destruct u. Qed.

Lemma via_micros_spec m u tz a :
  s_range 64 m ->
  ((ticks ← micros_to_unit m u; timestamp_array_from_ticks ticks u tz) = Ok a <->
   exists t, t * unit_nanos u = m * 1000 /\ s_range 64 t /\ a = IntArray (TTimestamp u tz) [Some t]).
Proof.
  intros Hm. rewrite bind_Ok. setoid_rewrite ticks_array.
  split.
  - intros (t & Ht%micros_to_unit_spec & [= <-]); [|done]. naive_solver.
  - intros (t & Ht & Hr & ->). exists t. split; [|done]. by apply micros_to_unit_spec.
Qed.

(** When a timestamp literal is accepted against a timestamp column, and as
    what: it must be a whole, representable number of microseconds [m]. *)
Definition timestamp_coerces (v : Z) (lu u : TimeUnit) (t : Z) : Prop :=
  exists m, m * 1000 = v * unit_nanos lu /\ s_range 64 m /\
    t * unit_nanos u = v * unit_nanos lu /\ s_range 64 t.

Lemma timestamp_coerces_via m v lu u t :
  m * 1000 = v * unit_nanos lu -> s_range 64 m ->
  (timestamp_coerces v lu u t <-> t * unit_nanos u = m * 1000 /\ s_range 64 t).
Proof.
  intros Hm Hr. unfold timestamp_coerces. split.
  - intros (m' & ? & ? & ? & ?). split; [lia|done].
  - intros [? ?]. exists m. split_and!; try done. lia.
Qed.

Lemma timestamp_literal_coerces s v lu u tz a :
  timestamp_literal s = Some (v, lu) -> s_range 64 v ->
  (make_scalar_array s (TTimestamp u tz) = Ok a <->
   exists t, timestamp_coerces v lu u t /\ a = IntArray (TTimestamp u tz) [Some t]).
Proof.
  assert (forall m, s_range 64 m -> m * 1000 = v * unit_nanos lu ->
    ((ticks ← micros_to_unit m u; timestamp_array_from_ticks ticks u tz) = Ok a <->
     exists t, timestamp_coerces v lu u t /\ a = IntArray (TTimestamp u tz) [Some t])) as Hvia.
  { intros m Hm Hv. rewrite via_micros_spec by done.
    setoid_rewrite (timestamp_coerces_via m); [|done..]. naive_solver. }
  assert (forall k e, v * k * 1000 = v * unit_nanos lu ->
    ((micros ← ok_or e (checked_mul_i64 v k);
      ticks ← micros_to_unit micros u; timestamp_array_from_ticks ticks u tz) = Ok a <->
     exists t, timestamp_coerces v lu u t /\ a = IntArray (TTimestamp u tz) [Some t])) as Hmul.
  { intros k e Hk. rewrite bind_Ok. setoid_rewrite ok_or_Ok. setoid_rewrite checked_mul_Some.
    split.
    - intros (m & [-> Hm] & Hx). by apply Hvia in Hx.
    - intros (t & Ht & ->). destruct Ht as (m & Hm1 & Hm2 & Ht).
      assert (m = v * k) as -> by lia. exists (v * k). split; [done|]. apply Hvia; [done..|].
      exists t. split; [|done]. by exists (v * k). }
  intros Hl Hv. destruct s; try discriminate Hl; injection Hl as -> <-;
    cbn [make_scalar_array]; unfold make_timestamp_scalar.
  - apply (Hvia v); cbn in *; lia || done.
  - apply Hmul. cbn. lia.
  - apply Hmul. cbn. lia.
  - pose proof (rem_zero_iff v 1000 ltac:(lia)) as E.
    destruct (Z.eqb_spec (rust_rem v 1000) 0) as [Hr|Hr]; cbn [negb].
    + apply E in Hr as (q & -> & ->). apply (Hvia q); unfold s_range in *; cbn in *; lia.
    + split; [done|]. intros (t & (m & Hm & _) & _). exfalso. apply Hr, E. exists m.
      cbn in Hm. split; [lia|]. replace v with (m * 1000) by lia. by apply quot_mul_exact.
Qed.

(** *** Dates *)

Lemma date32_date64 d :
  s_range 32 d -> make_scalar_array (SDate32 d) TDate64 = Ok (IntArray TDate64 [Some (d * 86400000)]).
Proof.
  intros Hd. cbn [make_scalar_array]. unfold checked_mul_i64.
  rewrite (proj2 (try_from_s_Some 64 (d * 86400000) (d * 86400000))); [done|].
  split; [done|]. unfold s_range in *. cbn in *. lia.
Qed.

Lemma date64_date32 ms a :
  make_scalar_array (SDate64 ms) TDate32 = Ok a <->
  exists d, ms = d * 86400000 /\ s_range 32 d /\ a = IntArray TDate32 [Some d].
Proof.
  cbn [make_scalar_array]. pose proof (rem_zero_iff ms 86400000 ltac:(lia)) as E.
  destruct (Z.eqb_spec (rust_rem ms 86400000) 0) as [Hr|Hr]; cbn [negb].
  - apply E in Hr as (q & -> & ->). rewrite bind_Ok. setoid_rewrite ok_or_Ok.
    setoid_rewrite try_from_s_Some. split.
    + intros (x & [-> Hx] & [= <-]). eauto.
    + intros (d & Hd & Hr & ->). assert (d = q) as -> by lia. eauto.
  - split; [done|]. intros (d & -> & _). exfalso. apply Hr, E. exists d.
    split; [done|]. by apply quot_mul_exact.
Qed.

End timestamps.
