(* ===== verification/ComputeEval.v ===== *)
(** * Evaluation of filter expressions

    A row-wise reference semantics of expressions ([row_bool]) and the
    equivalence of compute.rs's vectorised evaluator with it; the behaviour
    of the NIFs follows. *)

From S2P Require Import Prelude Float Utf8 Term Arrow ArrowRef Compute ComputeFacts.

(** ** Reference semantics *)

Section reference.
Context `{Arrow}.

Definition kernel (op : Op) : option CmpOp :=
  match op with
  | OpEq => Some CEq | OpNe => Some CNeq | OpGt => Some CGt
  | OpGte => Some CGtEq | OpLt => Some CLt | OpLte => Some CLtEq
  | _ => None
  end.

(** The type a comparison's other operand imposes on a literal. *)
Definition operand_type (b : RecordBatch) (e : Expr) : option DataType :=
  match e with
  | EField n => data_type <$> column_by_name b n
  | EScalar _ => None
  | ECall _ _ => Some TBoolean
  end.

Definition lit_type (b : RecordBatch) (s : ScalarValue) (other : Expr) : option DataType :=
  match other with
  | EScalar t =>
      match infer_lit_compare_type s t with Ok dt => Some dt | _ => None end
  | _ => operand_type b other
  end.

Definition literal_cell (s : ScalarValue) (dt : option DataType) : option Cell :=
  match dt with
  | Some dt =>
      match make_scalar_array s dt with Ok a => mjoin (head (cells a)) | _ => None end
  | None => None
  end.

Definition field_cell (b : RecordBatch) (n : string) (i : nat) : option Cell :=
  c ← column_by_name b n; mjoin (cells c !! i).

Definition cell_bool (c : option Cell) : option bool :=
  match c with Some (CBool b) => Some b | _ => None end.

(** The value of a boolean expression at row [i]; [None] is null.  [and], [or]
    and comparisons are null as soon as an operand is. *)
Fixpoint row_bool (b : RecordBatch) (e : Expr) (i : nat) : option bool :=
  match e with
  | EField n => cell_bool (field_cell b n i)
  | EScalar (SBool v) => Some v
  | EScalar _ => None
  | ECall OpNot [x] => not_cell (row_bool b x i)
  | ECall OpAnd [x; y] => and_cells (row_bool b x i) (row_bool b y i)
  | ECall OpOr [x; y] => or_cells (row_bool b x i) (row_bool b y i)
  | ECall op [x; y] =>
      let operand e other :=
        match e with
        | EField n => field_cell b n i
        | EScalar s => literal_cell s (lit_type b s other)
        | ECall _ _ => CBool <$> row_bool b e i
        end in
      k ← kernel op; cmp_cells k (operand x y) (operand y x)
  | ECall _ _ => None
  end.

(** The operand of a comparison at row [i]. *)
Definition operand_cell (b : RecordBatch) (e other : Expr) (i : nat) : option Cell :=
  match e with
  | EField n => field_cell b n i
  | EScalar s => literal_cell s (lit_type b s other)
  | ECall _ _ => CBool <$> row_bool b e i
  end.

Lemma row_bool_cmp b op k x y i :
  kernel op = Some k ->
  row_bool b (ECall op [x; y]) i = cmp_cells k (operand_cell b x y i) (operand_cell b y x i).
Proof. destruct op; try done; intros [= <-]; by destruct x, y. Qed.

(** The mask the reference semantics gives. *)
Definition row_mask (b : RecordBatch) (e : Expr) : list (option bool) :=
  map (row_bool b e) (seq 0 (rb_num_rows b)).

End reference.

(** ** The evaluator computes the reference mask *)

Section equivalence.
Context `{Arrow, !CmpLaws, !BoolLaws, !BatchLaws}.
Context (b : RecordBatch) (Hwf : wf_batch b).

Notation n := (rb_num_rows b).

Definition value_is (e : Expr) (v : Value) : Prop :=
  match e, v with
  | EScalar s, VLit s' => s = s'
  | EField _, VArray a =>
      array_len a = n /\ operand_type b e = Some (data_type a) /\
      forall other i, (i < n)%nat -> cells a !! i = Some (operand_cell b e other i)
  | ECall _ _, VArray a => a = BooleanArray (row_mask b e)
  | _, _ => False
  end.

Lemma map_seq_ext {A} (l : list A) (f : nat -> A) :
  length l = n -> (forall i, (i < n)%nat -> l !! i = Some (f i)) -> l = map f (seq 0 n).
Proof.
  intros Hl Hf. apply list_eq. intros i. rewrite list_lookup_fmap.
  destruct (decide (i < n)%nat) as [Hi|Hi].
  - rewrite Hf, lookup_seq_lt by done. done.
  - rewrite !(proj2 (lookup_ge_None _ _)); [done| |]; rewrite ?length_seq; lia.
Qed.

Lemma row_mask_length e : length (row_mask b e) = n.
Proof. unfold row_mask. by rewrite length_map, length_seq. Qed.

Lemma row_mask_lookup e i : (i < n)%nat -> row_mask b e !! i = Some (row_bool b e i).
Proof. intros Hi. unfold row_mask. by rewrite list_lookup_fmap, lookup_seq_lt. Qed.

Lemma zip_with_masks (f : option bool -> option bool -> option bool) x y :
  zip_with f (row_mask b x) (row_mask b y) =
  map (fun i => f (row_bool b x i) (row_bool b y i)) (seq 0 n).
Proof.
  apply map_seq_ext.
  - rewrite length_zip_with, !row_mask_length. lia.
  - intros i Hi. by rewrite lookup_zip_with, !row_mask_lookup.
Qed.

Lemma column_len name c : column_by_name b name = Some c -> array_len c = n.
Proof.
  rewrite column_by_name_index. intros (i & _ & Hc)%bind_Some.
  destruct Hwf as (_ & Hl & _). rewrite Forall_forall in Hl.
  eapply Hl, list_elem_of_lookup_2, Hc.
Qed.

(** A value used as a boolean is the reference mask. *)
Lemma value_as_bool_is e v m :
  value_is e v -> value_as_bool v n = Ok m -> m = row_mask b e.
Proof.
  destruct e as [name|s|op args], v as [a|s']; try done; cbn [value_is].
  - intros (Hl & _ & Hc) Hm. cbn in Hm. destruct (downcast_boolean a) as [v|] eqn:E; [|done].
    apply downcast_boolean_Some in E as ->. case_match; [done|]. injection Hm as <-.
    apply map_seq_ext; [done|]. intros i Hi. specialize (Hc (EField name) i Hi). cbn in Hc.
    rewrite list_lookup_fmap in Hc. cbn. destruct (v !! i) as [x|]; [|done].
    cbn in Hc. injection Hc as Hc. rewrite <-Hc. by destruct x.
  - intros <-. cbn. destruct s; try done. intros [= <-].
    apply map_seq_ext; [by rewrite length_replicate|]. intros i Hi. by rewrite lookup_replicate_2.
  - intros -> Hm. cbn in Hm. by case_match; [|injection Hm as <-].
Qed.

(** Cells of an operand that evaluates to an array. *)
Lemma value_array_cells e a other i :
  value_is e (VArray a) -> (i < n)%nat -> cells a !! i = Some (operand_cell b e other i).
Proof.
  destruct e as [name|s|op args]; [|done|].
  - intros (_ & _ & Hc) Hi. by apply Hc.
  - intros -> Hi. cbn [value_is cells operand_cell].
    rewrite list_lookup_fmap, row_mask_lookup by done. done.
Qed.

Lemma value_array_len e a : value_is e (VArray a) -> array_len a = n.
Proof.
  destruct e as [name|s|op args]; [|done|].
  - by intros (? & _).
  - intros ->. apply row_mask_length.
Qed.

Lemma value_array_type e a :
  value_is e (VArray a) -> operand_type b e = Some (data_type a).
Proof.
  destruct e as [name|s|op args]; [|done|].
  - by intros (_ & ? & _).
  - by intros ->.
Qed.

Lemma lit_type_array s e a : value_is e (VArray a) -> lit_type b s e = Some (data_type a).
Proof. intros Hv. rewrite <-(value_array_type _ _ Hv). by destruct e. Qed.

Lemma kernel_cmp_op op k : cmp_op op = Ok k -> kernel op = Some k.
Proof. by destruct op; cbn; intros [= <-]. Qed.

Lemma literal_cell_scalar s dt arr :
  make_scalar_array s dt = Ok arr -> cells arr = [literal_cell s (Some dt)].
Proof.
  intros Ha. destruct (make_scalar_cell _ _ _ Ha) as [_ [c Hc]].
  cbn. by rewrite Ha, Hc.
Qed.

Lemma infer_symmetric s t dt :
  infer_lit_compare_type s t = Ok dt -> infer_lit_compare_type t s = Ok dt.
Proof. by destruct s, t. Qed.

(** A comparison computes the comparison of its operands row by row. *)
Lemma cmp_rows op k x y m :
  kernel op = Some k -> length m = n ->
  (forall i, (i < n)%nat -> m !! i = Some (cmp_cells k (operand_cell b x y i) (operand_cell b y x i))) ->
  m = row_mask b (ECall op [x; y]).
Proof.
  intros Hk Hl Hc. apply map_seq_ext; [done|]. intros i Hi.
  rewrite Hc by done. by rewrite (row_bool_cmp _ _ _ _ _ _ Hk).
Qed.

Lemma eval_cmp_is op x y v w m :
  value_is x v -> value_is y w -> eval_cmp v w op n = Ok m -> m = row_mask b (ECall op [x; y]).
Proof.
  intros Hx Hy Hm. destruct v as [l|s], w as [r|t].
  - cbn in Hm. case_match; [done|]. unfold apply_cmp_dyn in Hm.
    apply bind_Ok in Hm as (k & Hk%kernel_cmp_op & Hm). rewrite map_err_Ok in Hm.
    apply cmp_arrays in Hm as [Hlen ->]. apply (cmp_rows op k); [done| |].
    + rewrite length_zip_with, !cells_length, <-Hlen, (value_array_len _ _ Hx). lia.
    + intros i Hi. rewrite lookup_zip_with.
      rewrite (value_array_cells x l y i), (value_array_cells y r x i) by done. done.
  - cbn in Hm. apply bind_Ok in Hm as (sc & Hs & Hm). apply bind_Ok in Hm as (k & Hk%kernel_cmp_op & Hm).
    rewrite map_err_Ok in Hm. eapply cmp_array_scalar in Hm; [|by eapply literal_cell_scalar].
    subst m. destruct y as [|t'|]; try done. cbn in Hy. subst t'.
    apply (cmp_rows op k); [done|by rewrite length_map, cells_length; eapply value_array_len|].
    intros i Hi. rewrite list_lookup_fmap, (value_array_cells x l (EScalar t) i) by done.
    cbn [operand_cell fmap option_fmap option_map]. by rewrite (lit_type_array t x l) by done.
  - cbn in Hm. apply bind_Ok in Hm as (sc & Hs & Hm). apply bind_Ok in Hm as (k & Hk%kernel_cmp_op & Hm).
    rewrite map_err_Ok in Hm. eapply cmp_scalar_array in Hm; [|by eapply literal_cell_scalar].
    subst m. destruct x as [|s'|]; try done. cbn in Hx. subst s'.
    apply (cmp_rows op k); [done|by rewrite length_map, cells_length; eapply value_array_len|].
    intros i Hi. rewrite list_lookup_fmap, (value_array_cells y r (EScalar s) i) by done.
    cbn [operand_cell fmap option_fmap option_map]. by rewrite (lit_type_array s y r) by done.
  - destruct x as [|s'|]; try done. destruct y as [|t'|]; try done. cbn in Hx, Hy. subst s' t'.
    cbn in Hm. apply bind_Ok in Hm as (dt & Hdt & Hm). apply bind_Ok in Hm as (la & Hla & Hm).
    apply bind_Ok in Hm as (ra & Hra & Hm). apply bind_Ok in Hm as (k & Hk%kernel_cmp_op & Hm).
    apply bind_Ok in Hm as (one & Hone & Hm). apply bind_Ok in Hm as (? & _ & [= <-]).
    rewrite map_err_Ok in Hone.
    eapply cmp_scalars in Hone; [|by eapply literal_cell_scalar..].
    apply (cmp_rows op k); [done|by rewrite length_replicate|].
    intros i Hi. rewrite lookup_replicate_2 by done. subst one. f_equal.
    cbn [operand_cell lit_type]. rewrite Hdt, (infer_symmetric _ _ _ Hdt).
    destruct (make_scalar_cell _ _ _ Hla) as [_ [c Hc]].
    destruct (make_scalar_cell _ _ _ Hra) as [_ [d Hd]].
    pose proof (literal_cell_scalar _ _ _ Hla) as Hl'. pose proof (literal_cell_scalar _ _ _ Hra) as Hr'.
    assert (literal_cell s (Some dt) = Some c) as -> by congruence.
    assert (literal_cell t (Some dt) = Some d) as -> by congruence.
    destruct (cell_compare_kind c d) as [o Ho].
    { by rewrite (make_scalar_kind _ _ _ _ Hla Hc), (make_scalar_kind _ _ _ _ Hra Hd). }
    cbn [cmp_cells]. rewrite Ho. cbn [option_map]. f_equal. by apply bool_value_spec.
Qed.

Lemma eval_value_is e v : wf_expr e -> eval_value b e = Ok v -> value_is e v.
Proof.
  intros He. revert v. induction He as [name|s|x Hx IHx|op x y Hop Hx IHx Hy IHy]; intros v Hv.
  - cbn in Hv. apply bind_Ok in Hv as (c & Hc%ok_or_Ok & [= <-]).
    cbn. split_and!; [by eapply column_len|by rewrite Hc|].
    intros other i Hi. unfold field_cell. rewrite Hc. cbn.
    destruct (lookup_lt_is_Some_2 (cells c) i) as [z Hz].
    { by rewrite cells_length, (column_len _ _ Hc). }
    by rewrite Hz.
  - by injection Hv as <-.
  - cbn in Hv. apply bind_Ok in Hv as (m & Hm & Hv). apply bind_Ok in Hv as (m' & Hm' & [= <-]).
    rewrite map_err_Ok in Hm'. apply bool_not_spec in Hm' as ->.
    apply bind_Ok in Hm as (w & Hw & Hm). rewrite (value_as_bool_is _ _ _ (IHx _ Hw) Hm).
    cbn. f_equal. unfold row_mask. by rewrite map_map.
  - assert (forall f F, (forall i, row_bool b (ECall op [x; y]) i = F (row_bool b x i) (row_bool b y i)) ->
        (forall l r m, f l r = Ok m -> length l = length r /\ m = zip_with F l r) ->
        (left ← (v ← eval_value b x; value_as_bool v n);
         right ← (v ← eval_value b y; value_as_bool v n);
         m ← map_err error_string (f left right); Ok (VArray (BooleanArray m))) = Ok v ->
        value_is (ECall op [x; y]) v) as Hbool.
    { intros f F HF Hf Hv'. apply bind_Ok in Hv' as (l & Hl & Hv').
      apply bind_Ok in Hv' as (r & Hr & Hv'). apply bind_Ok in Hv' as (m & Hm & [= <-]).
      apply bind_Ok in Hl as (vl & Hvl & Hl). apply bind_Ok in Hr as (vr & Hvr & Hr).
      rewrite map_err_Ok in Hm. apply Hf in Hm as [_ ->].
      rewrite (value_as_bool_is _ _ _ (IHx _ Hvl) Hl), (value_as_bool_is _ _ _ (IHy _ Hvr) Hr).
      cbn. f_equal. rewrite zip_with_masks. unfold row_mask. apply map_ext. intros i. by rewrite HF. }
    destruct op; try done; cbn [eval_value] in Hv.
    7: by apply (Hbool bool_and and_cells); [|apply bool_and_spec|].
    7: by apply (Hbool bool_or or_cells); [|apply bool_or_spec|].
    all: apply bind_Ok in Hv as (vl & Hvl & Hv); apply bind_Ok in Hv as (vr & Hvr & Hv);
      apply bind_Ok in Hv as (m & Hm & [= <-]); cbn [value_is]; f_equal;
      eapply eval_cmp_is; [by apply IHx|by apply IHy|exact Hm].
Qed.

(** The mask of a well-formed expression is the reference mask. *)
Lemma eval_to_bool_is e m : wf_expr e -> eval_to_bool b e = Ok m -> m = row_mask b e.
Proof.
  intros He Hm. apply bind_Ok in Hm as (v & Hv & Hm).
  eapply value_as_bool_is; [|exact Hm]. by apply eval_value_is.
Qed.

End equivalence.

(** ** Evaluation does not panic *)

Section no_panic.
Context `{Arrow, !CmpLaws, !BoolLaws}.

Lemma cmp_op_no_panic op k : kernel op = Some k -> cmp_op op = Ok k.
Proof. by destruct op; intros [= <-]. Qed.

Lemma value_as_bool_no_panic v len : no_panic (value_as_bool v len).
Proof. unfold value_as_bool. by repeat case_match. Qed.

Lemma eval_cmp_no_panic v w op k len : kernel op = Some k -> no_panic (eval_cmp v w op len).
Proof.
  intros Hk%cmp_op_no_panic. unfold eval_cmp, apply_cmp_dyn. destruct v as [l|s], w as [r|t].
  - case_match; [done|]. rewrite Hk. cbn. apply map_err_no_panic, cmp_no_panic.
  - apply bind_no_panic; [apply make_scalar_no_panic|]. intros. rewrite Hk. cbn.
    apply map_err_no_panic, cmp_no_panic.
  - apply bind_no_panic; [apply make_scalar_no_panic|]. intros. rewrite Hk. cbn.
    apply map_err_no_panic, cmp_no_panic.
  - apply bind_no_panic; [by unfold infer_lit_compare_type; repeat case_match|]. intros dt _.
    apply bind_no_panic; [apply make_scalar_no_panic|]. intros la Hla.
    apply bind_no_panic; [apply make_scalar_no_panic|]. intros ra Hra. rewrite Hk. cbn.
    apply bind_no_panic; [apply map_err_no_panic, cmp_no_panic|]. intros one Hone.
    destruct (make_scalar_cell _ _ _ Hla) as [_ [c Hc]].
    destruct (make_scalar_cell _ _ _ Hra) as [_ [d Hd]].
    rewrite map_err_Ok in Hone. eapply cmp_scalars in Hone; [|done..]. by subst one.
Qed.

(** [args[0]], [args[1]] and [unreachable!] are never hit on a tree that
    [decode_expr] built. *)
Lemma eval_value_no_panic b e : wf_expr e -> no_panic (eval_value b e).
Proof.
  induction 1 as [name|s|x Hx IHx|op x y Hop Hx IHx Hy IHy]; cbn [eval_value].
  - apply bind_no_panic; [apply ok_or_no_panic|done].
  - done.
  - repeat (apply bind_no_panic; [|intros]); try done; try apply value_as_bool_no_panic.
    apply map_err_no_panic. pose proof (bool_not_ok a). by destruct (bool_not a).
  - destruct op; try done.
    7,8: repeat (apply bind_no_panic; [|intros]); try done; try apply value_as_bool_no_panic;
      apply map_err_no_panic, bool_no_panic.
    all: repeat (apply bind_no_panic; [|intros]); try done; by eapply eval_cmp_no_panic.
Qed.

Lemma eval_to_bool_no_panic b e : wf_expr e -> no_panic (eval_to_bool b e).
Proof.
  intros. apply bind_no_panic; [by apply eval_value_no_panic|]. intros.
  apply value_as_bool_no_panic.
Qed.

End no_panic.

(** ** Encoding of expressions

    The term tree documented at [compute_filter_expr]. *)

Section encode.
Context `{Rustler Term}.

Definition op_atom (op : Op) : string :=
  match op with
  | OpEq => "eq" | OpNe => "ne" | OpGt => "gt" | OpGte => "gte" | OpLt => "lt"
  | OpLte => "lte" | OpAnd => "and" | OpOr => "or" | OpNot => "not"
  end.

Definition encode_scalar (s : ScalarValue) : Term :=
  match s with
  | SBool b => mk_atom (if b then "true" else "false")
  | SInt v => mk_int v
  | SFloat x => mk_float x
  | SUtf8 s => mk_string s
  | SDate32 d => mk_tuple [mk_atom "date32"; mk_int d]
  | SDate64 d => mk_tuple [mk_atom "date64"; mk_int d]
  | STimestampMicros v => mk_tuple [mk_atom "timestamp_micros"; mk_int v]
  | STimestampMillis v => mk_tuple [mk_atom "timestamp_millis"; mk_int v]
  | STimestampSeconds v => mk_tuple [mk_atom "timestamp_seconds"; mk_int v]
  | STimestampNanos v => mk_tuple [mk_atom "timestamp_nanos"; mk_int v]
  end.

Fixpoint encode_expr (e : Expr) : Term :=
  match e with
  | EField n => mk_tuple [mk_atom "field"; mk_string n]
  | EScalar s => mk_tuple [mk_atom "scalar"; encode_scalar s]
  | ECall op args =>
      mk_tuple [mk_atom "call"; mk_atom (op_atom op); mk_list (map encode_expr args)]
  end.

(** Literals the Rust types hold. *)
Definition scalar_in_range (s : ScalarValue) : Prop :=
  match s with
  | SInt v | SDate64 v | STimestampMicros v | STimestampMillis v
  | STimestampSeconds v | STimestampNanos v => s_range 64 v
  | SDate32 d => s_range 32 d
  | SUtf8 s => valid_str s = true
  | _ => True
  end.

Fixpoint expr_in_range (e : Expr) : Prop :=
  match e with
  | EField n => valid_str n = true
  | EScalar s => scalar_in_range s
  | ECall _ args => foldr (fun a P => expr_in_range a /\ P) True args
  end.

End encode.

Section roundtrip.
Context `{RustlerLaws Term}.

Lemma s_range_32_64 d : s_range 32 d -> s_range 64 d.
Proof. unfold s_range. cbn. lia. Qed.

Lemma decode_temporal tag v (k : ScalarValue) :
  s_range 64 v ->
  decode_scalar (mk_tuple [mk_atom tag; mk_int v]) =
  (if String.eqb tag "date32" then
     d ← ok_or ("date32 value " +:+ pretty v +:+ " out of range") (try_from_s 32 v); Ok (SDate32 d)
   else if String.eqb tag "date64" then Ok (SDate64 v)
   else if String.eqb tag "timestamp_micros" then Ok (STimestampMicros v)
   else if String.eqb tag "timestamp_millis" then Ok (STimestampMillis v)
   else if String.eqb tag "timestamp_seconds" then Ok (STimestampSeconds v)
   else if String.eqb tag "timestamp_nanos" then Ok (STimestampNanos v)
   else Err "unsupported temporal scalar unit").
Proof.
  intros Hv. unfold decode_scalar.
  rewrite get_bool_no_atom by apply get_atom_tuple.
  rewrite get_i64_tuple, get_f64_tuple, get_string_tuple, get_mk_tuple. cbn [ok_or mbind res_bind].
  rewrite get_mk_atom, get_mk_int by done. done.
Qed.

Lemma decode_encode_scalar s : scalar_in_range s -> decode_scalar (encode_scalar s) = Ok s.
Proof.
  intros Hs. destruct s; cbn [encode_scalar scalar_in_range] in *;
    try (rewrite decode_temporal by (done || exact (SBool true)); done).
  - unfold decode_scalar.
    rewrite (proj2 (get_atom_spec _ b)); [done|]. rewrite get_mk_atom. by destruct b.
  - unfold decode_scalar. rewrite get_bool_no_atom, get_mk_int; [done..|apply get_atom_int].
  - unfold decode_scalar. rewrite get_bool_no_atom, get_i64_float, get_mk_float; [done|apply get_atom_float].
  - unfold decode_scalar.
    rewrite get_bool_no_atom, get_i64_string, get_f64_string, get_mk_string; [done..|apply get_atom_string].
  - rewrite decode_temporal; [|exact (SBool true)|by apply s_range_32_64].
    cbn [String.eqb Ascii.eqb Bool.eqb]. by rewrite (proj2 (try_from_s_Some 32 d d)).
Qed.

Lemma decode_op_atom op : decode_op (mk_atom (op_atom op)) = Ok op.
Proof. unfold decode_op. rewrite get_mk_atom. by destruct op. Qed.

Lemma decode_encode_expr e fuel :
  wf_expr e -> expr_in_range e -> (term_size (encode_expr e) < fuel)%nat ->
  decode_expr fuel (encode_expr e) = Ok e.
Proof.
  intros He. revert fuel.
  assert (forall op args fuel,
    Forall (fun a => forall fuel, expr_in_range a -> (term_size (encode_expr a) < fuel)%nat ->
                                  decode_expr fuel (encode_expr a) = Ok a) args ->
    check_arity op args = Ok () -> expr_in_range (ECall op args) ->
    (term_size (encode_expr (ECall op args)) < fuel)%nat ->
    decode_expr fuel (encode_expr (ECall op args)) = Ok (ECall op args)) as Hcall.
  { intros op args fuel IH Har Hr Hf. destruct fuel as [|fuel]; [lia|]. cbn [decode_expr encode_expr].
    rewrite get_mk_tuple. cbn [ok_or mbind res_bind]. rewrite get_mk_atom. cbn [ok_or mbind res_bind].
    cbn [String.eqb Ascii.eqb Bool.eqb]. rewrite decode_op_atom. cbn [ok_or mbind res_bind].
    rewrite get_mk_list. cbn [ok_or mbind res_bind]. rewrite collect_list_proper.
    assert (collect (decode_expr fuel) (map encode_expr args) = Ok args) as ->; [|cbn; by rewrite Har].
    apply collect_Ok. rewrite Forall2_fmap_l. apply Forall_Forall2_diag.
    cbn [encode_expr] in Hf.
    pose proof (tuple_smaller _ _ (mk_list (map encode_expr args))
      (get_mk_tuple [mk_atom "call"; mk_atom (op_atom op); mk_list (map encode_expr args)])
      ltac:(apply list_elem_of_In; simpl; auto)) as H1.
    assert (Forall expr_in_range args) as Hra.
    { clear -Hr. cbn in Hr. induction args; constructor; naive_solver. }
    apply Forall_forall. intros a Ha. rewrite Forall_forall in IH, Hra. apply IH; [done|by apply Hra|].
    pose proof (list_smaller _ _ (encode_expr a) (get_mk_list (map encode_expr args))) as H2.
    assert (encode_expr a ∈ map encode_expr args) as Hin by (by apply list_elem_of_fmap_2).
    specialize (H2 Hin). lia. }
  induction He as [name|s|x Hx IHx|op x y Hop Hx IHx Hy IHy]; intros fuel Hr Hf.
  - destruct fuel; [lia|]. cbn [decode_expr encode_expr]. rewrite get_mk_tuple. cbn [ok_or mbind res_bind].
    rewrite get_mk_atom. cbn. by rewrite get_mk_string.
  - destruct fuel; [lia|]. cbn [decode_expr encode_expr]. rewrite get_mk_tuple. cbn [ok_or mbind res_bind].
    rewrite get_mk_atom. cbn [ok_or mbind res_bind String.eqb Ascii.eqb Bool.eqb].
    by rewrite decode_encode_scalar.
  - apply Hcall; auto.
  - apply Hcall; auto. by destruct op.
Qed.

End roundtrip.
