(* ===== verification/ComputeTyped.v ===== *)
(** * Well-typed filter expressions evaluate

    compute.rs reports ill-typed expressions at run time.  [well_typed] is the
    condition, read off the evaluator, under which it reports nothing, and
    [well_typed_eval] shows that evaluation then succeeds. *)

From S2P Require Import Prelude Float Utf8 Term Arrow ArrowRef Compute ComputeFacts ComputeEval.

(** Induction on expressions with the induction hypothesis on the arguments. *)
Section induction.
Context (P : Expr -> Prop).
Context (Hfield : forall n, P (EField n)).
Context (Hscalar : forall s, P (EScalar s)).
Context (Hcall : forall op args, Forall P args -> P (ECall op args)).

Fixpoint expr_ind (e : Expr) : P e :=
  match e with
  | EField n => Hfield n
  | EScalar s => Hscalar s
  | ECall op args =>
      Hcall op args
        ((fix go l : Forall P l :=
            match l with
            | [] => Forall_nil_2 P
            | x :: l' => Forall_cons_2 P x l' (expr_ind x) (go l')
            end) args)
  end.

End induction.

Section typing.
Context `{Arrow}.

Definition comparable (dt : DataType) : bool :=
  match type_kind dt with KNone => false | _ => true end.

(** The type an operand has in a comparison with [other]. *)
Definition operand_dt (wt : Expr -> bool) (b : RecordBatch) (e other : Expr) : option DataType :=
  match e with
  | EField n => data_type <$> column_by_name b n
  | EScalar s =>
      dt ← lit_type b s other;
      match make_scalar_array s dt with Ok _ => Some dt | _ => None end
  | ECall _ _ => if wt e then Some TBoolean else None
  end.

Definition same_comparable (s t : option DataType) : bool :=
  match s, t with
  | Some s, Some t => type_eqb s t && comparable s
  | _, _ => false
  end.

Fixpoint well_typed (b : RecordBatch) (e : Expr) : bool :=
  match e with
  | EField n =>
      match column_by_name b n with Some (BooleanArray _) => true | _ => false end
  | EScalar (SBool _) => true
  | EScalar _ => false
  | ECall OpNot [x] => well_typed b x
  | ECall OpNot _ => false
  | ECall OpAnd [x; y] | ECall OpOr [x; y] => well_typed b x && well_typed b y
  | ECall _ [x; y] =>
      same_comparable (operand_dt (well_typed b) b x y) (operand_dt (well_typed b) b y x)
  | ECall _ _ => false
  end.

Lemma same_comparable_spec s t :
  same_comparable s t = true -> exists dt, s = Some dt /\ t = Some dt /\ type_kind dt <> KNone.
Proof.
  destruct s as [s|], t as [t|]; try done. cbn.
  intros [->%type_eqb_eq Hc]%andb_true_iff. exists t. split_and!; try done.
  unfold comparable in Hc. by destruct (type_kind t).
Qed.

(** Well-typed calls are a negation, a connective or a comparison. *)
Lemma well_typed_call b op args :
  well_typed b (ECall op args) = true ->
  (exists x, op = OpNot /\ args = [x] /\ well_typed b x = true) \/
  (exists x y, args = [x; y] /\ op <> OpNot /\
     ((kernel op = None /\ well_typed b x = true /\ well_typed b y = true) \/
      (exists k, kernel op = Some k /\
         same_comparable (operand_dt (well_typed b) b x y) (operand_dt (well_typed b) b y x) = true))).
Proof.
  destruct args as [|x [|y [|z l]]]; [by destruct op| |..|by destruct op].
  - destruct op; try done. intros Hx. left. by exists x.
  - intros Hw. right. exists x, y. destruct op; cbn [well_typed] in Hw; try done;
      (split_and!; [done..|]); try apply andb_true_iff in Hw as [? ?];
      first [by left | right; by eexists].
Qed.

Lemma well_typed_wf b e : well_typed b e = true -> wf_expr e.
Proof.
  revert e.
  assert (forall x y, (well_typed b x = true -> wf_expr x) ->
            operand_dt (well_typed b) b x y <> None -> wf_expr x) as Hop.
  { intros [n|s|op args] y IH Hx; [constructor..|]. apply IH. cbn [operand_dt] in Hx. by case_match. }
  induction e as [n|s|op args IH] using expr_ind; intros Hw; [constructor..|].
  rewrite Forall_forall in IH.
  apply well_typed_call in Hw as [(x & -> & -> & Hx)|(x & y & -> & Hne & Hw)].
  - constructor. apply IH; [by left|done].
  - assert (wf_expr x /\ wf_expr y) as [? ?]; [|by constructor].
    destruct Hw as [(_ & Hx & Hy)|(k & _ & Hd)].
    + split; apply IH; try done; set_solver.
    + apply same_comparable_spec in Hd as (dt & Hx & Hy & _).
      split; [apply (Hop x y)|apply (Hop y x)]; rewrite ?Hx, ?Hy; try done; apply IH; set_solver.
Qed.

End typing.

Section evaluation.
Context `{Arrow, !CmpLaws, !BoolLaws, !BatchLaws}.
Context (b : RecordBatch) (Hwf : wf_batch b).

Notation n := (rb_num_rows b).

Lemma mask_as_bool e : value_as_bool (VArray (BooleanArray (row_mask b e))) n = Ok (row_mask b e).
Proof. cbn. by rewrite row_mask_length, Nat.eqb_refl. Qed.

(** The values operands take, and the type [operand_dt] gives them. *)
Lemma operand_value e other dt :
  (well_typed b e = true -> eval_to_bool b e = Ok (row_mask b e)) ->
  wf_expr e -> operand_dt (well_typed b) b e other = Some dt ->
  exists v, eval_value b e = Ok v /\ value_is b e v /\
    match v with
    | VArray a => data_type a = dt /\ array_len a = n
    | VLit s => lit_type b s other = Some dt /\ is_ok (make_scalar_array s dt)
    end.
Proof.
  intros IH He Hd.
  assert (exists v, eval_value b e = Ok v) as [v Hv].
  { destruct e as [name|s|op args]; cbn [operand_dt] in Hd.
    - cbn. destruct (column_by_name b name); [cbn; eauto|done].
    - cbn; eauto.
    - case_match; [|done]. specialize (IH eq_refl). apply bind_Ok in IH as (v & Hv & _). eauto. }
  exists v. assert (value_is b e v) as Hi by (eapply eval_value_is; eauto).
  split_and!; try done.
  destruct v as [a|s].
  - split; [|by eapply value_array_len].
    destruct e as [name|s|op args]; [|done|]; cbn [operand_dt value_is] in *.
    + destruct Hi as (_ & Ht & _). cbn in Ht. destruct (column_by_name b name); [|done].
      cbn in *. congruence.
    + case_match; [|done]. by simplify_eq.
  - destruct e as [name|s'|op args]; try done. cbn in Hi. subst s'. cbn [operand_dt] in Hd.
    apply bind_Some in Hd as (dt' & Hl & Hd). destruct (make_scalar_array s dt') as [arr| |] eqn:Ea; try done.
    injection Hd as <-. by rewrite Ea.
Qed.

Lemma is_ok_map_err {E F A} (f : E -> F) (m : res E A) : is_ok m -> exists a, map_err f m = Ok a.
Proof. destruct m; try done. cbn. eauto. Qed.

Lemma scalar_one s dt a : make_scalar_array s dt = Ok a -> exists c, datum_cells (DScalar a) = [c].
Proof. intros (_ & c & Hc)%make_scalar_cell. unfold datum_cells. cbn. eauto. Qed.

(** Operands of one comparable type compare. *)
Lemma eval_cmp_ok op k x y v w dt :
  kernel op = Some k -> type_kind dt <> KNone ->
  value_is b x v -> value_is b y w ->
  match v with
  | VArray a => data_type a = dt /\ array_len a = n
  | VLit s => lit_type b s y = Some dt /\ is_ok (make_scalar_array s dt)
  end ->
  match w with
  | VArray a => data_type a = dt /\ array_len a = n
  | VLit s => lit_type b s x = Some dt /\ is_ok (make_scalar_array s dt)
  end ->
  exists m, eval_cmp v w op n = Ok m.
Proof.
  intros Hk Hdt Hx Hy Hv Hw. pose proof (cmp_op_no_panic _ _ Hk) as Hk'.
  destruct v as [l|s], w as [r|t]; cbn [eval_cmp].
  - destruct Hv as [<- Hll], Hw as [Hr Hlr]. rewrite Hll, Hlr, Nat.eqb_refl. cbn [negb].
    unfold apply_cmp_dyn. rewrite Hk'. cbn. apply is_ok_map_err, cmp_ok; [by symmetry|done|].
    cbn. congruence.
  - destruct Hv as [<- _], Hw as [_ (a & Ha)%is_ok_spec]. rewrite Ha, Hk'. cbn.
    destruct (make_scalar_cell _ _ _ Ha) as [Ht _].
    apply is_ok_map_err, cmp_ok; [by symmetry|done|]. by eapply scalar_one.
  - destruct Hw as [<- _], Hv as [_ (a & Ha)%is_ok_spec]. rewrite Ha, Hk'. cbn.
    destruct (make_scalar_cell _ _ _ Ha) as [Ht _].
    apply is_ok_map_err, cmp_ok; [done|by unfold datum_type; cbn; rewrite Ht|]. by eapply scalar_one.
  - destruct Hv as [Hl (la & Hla)%is_ok_spec], Hw as [_ (ra & Hra)%is_ok_spec].
    destruct x as [|s'|], y as [|t'|]; try done. cbn in Hx, Hy. subst s' t'. cbn [lit_type] in Hl.
    destruct (infer_lit_compare_type s t) as [dt'| |]; try done. injection Hl as ->. cbn.
    rewrite Hla, Hra, Hk'. cbn.
    destruct (make_scalar_cell _ _ _ Hla) as [Htl [c Hc]]. destruct (make_scalar_cell _ _ _ Hra) as [Htr [d Hd]].
    destruct (is_ok_map_err error_string (cmp k (DScalar la) (DScalar ra))) as [one Hone].
    { apply cmp_ok; unfold datum_type; cbn; [congruence|by rewrite Htl|].
      split; by eapply scalar_one. }
    rewrite Hone. cbn. rewrite map_err_Ok in Hone. eapply cmp_scalars in Hone; [|done..]. subst one.
    cbn. eauto.
Qed.

(** A well-typed expression evaluates, to the reference mask. *)
Lemma well_typed_eval e : well_typed b e = true -> eval_to_bool b e = Ok (row_mask b e).
Proof.
  induction e as [name|s|op args IH] using expr_ind; intros Hw;
    pose proof (well_typed_wf _ _ Hw) as He.
  - assert (exists m, eval_to_bool b (EField name) = Ok m) as [m Hm].
    { unfold eval_to_bool. cbn [eval_value]. cbn [well_typed] in Hw.
      destruct (column_by_name b name) as [c|] eqn:Ec; [|done].
      pose proof (column_len b Hwf _ _ Ec) as Hl. destruct c; try done. cbn in *.
      rewrite Hl, Nat.eqb_refl. cbn. eauto. }
    rewrite Hm. f_equal. by eapply eval_to_bool_is.
  - destruct s as [v| | | | | | | | |]; try done.
    assert (eval_to_bool b (EScalar (SBool v)) = Ok (replicate n (Some v))) as Hm by done.
    rewrite Hm. f_equal. by eapply eval_to_bool_is.
  - assert (exists m, eval_to_bool b (ECall op args) = Ok m) as [m Hm];
      [|rewrite Hm; f_equal; by eapply eval_to_bool_is].
    rewrite Forall_forall in IH.
    assert (exists m', eval_value b (ECall op args) = Ok (VArray (BooleanArray m'))) as [m' Hm'].
    2:{ unfold eval_to_bool. rewrite Hm'.
        pose proof (eval_value_is b Hwf _ _ He Hm') as Hi. cbn [value_is] in Hi. injection Hi as ->.
        exists (row_mask b (ECall op args)). apply mask_as_bool. }
    apply well_typed_call in Hw as [(x & -> & -> & Hx)|(x & y & -> & Hne & [(Hk & Hx & Hy)|(k & Hk & Hd)])].
    + pose proof (IH x ltac:(by left) Hx) as Hex. unfold eval_to_bool in Hex.
      cbn [eval_value]. rewrite Hex. cbn [mbind res_bind].
      destruct (is_ok_map_err error_string _ (bool_not_ok (row_mask b x))) as [m Hm].
      rewrite Hm. cbn. eauto.
    + pose proof (IH x ltac:(set_solver) Hx) as Hex. pose proof (IH y ltac:(set_solver) Hy) as Hey.
      unfold eval_to_bool in Hex, Hey.
      assert (length (row_mask b x) = length (row_mask b y)) as Hlen by (by rewrite !row_mask_length).
      destruct op; try done; cbn [eval_value]; rewrite Hex; cbn [mbind res_bind]; rewrite Hey;
        cbn [mbind res_bind].
      * destruct (is_ok_map_err error_string _ (bool_and_ok _ _ Hlen)) as [m Hm]. rewrite Hm. cbn. eauto.
      * destruct (is_ok_map_err error_string _ (bool_or_ok _ _ Hlen)) as [m Hm]. rewrite Hm. cbn. eauto.
    + apply same_comparable_spec in Hd as (dt & Hdx & Hdy & Hdt).
      inversion He as [| | |? ? ? _ Hwx Hwy]; subst.
      destruct (operand_value x y dt) as (v & Hv & Hiv & Hsv); [apply IH; set_solver|done..|].
      destruct (operand_value y x dt) as (w & Hw & Hiw & Hsw); [apply IH; set_solver|done..|].
      destruct (eval_cmp_ok op k x y v w dt) as [m Hm]; [done..|].
      destruct op; try done; cbn [eval_value]; rewrite Hv; cbn [mbind res_bind]; rewrite Hw;
        cbn [mbind res_bind]; rewrite Hm; cbn; eauto.
Qed.

End evaluation.
