(* ===== verification/ComputeThms.v ===== *)
(** * The compute NIFs

    The theorems about compute.rs, each with a concrete instance at Erlang
    terms ([beam]) and the reference Arrow implementation ([ref_arrow]). *)

From S2P Require Import Prelude Float Utf8 Term Arrow ArrowRef Compute ComputeFacts ComputeEval ComputeTyped.

(** A batch of four rows: [x] Int64, [y] Float64, [ok] Boolean, [s] Utf8. *)
Definition sample_schema : Schema :=
  mkSchema [mkField "x" TInt64 true; mkField "y" TFloat64 true; mkField "ok" TBoolean true;
            mkField "s" TUtf8 true].

Definition sample_batch : RecordBatch :=
  mkBatch sample_schema
    [IntArray TInt64 [Some 3; Some (-1); None; Some 7];
     FloatArray TFloat64 [Some (f64_of_int 1); None; Some (f64_of_int 2); Some (f64_of_int 9)];
     BooleanArray [Some true; Some true; Some false; None];
     BytesArray TUtf8 [Some "a"; Some "b"; None; Some "d"]]
    4.

Lemma sample_wf : wf_batch sample_batch.
Proof. split_and!; repeat constructor. Defined.

(** [(x > 0) and not (s == "d")]. *)
Definition sample_expr : Expr :=
  ECall OpAnd [ECall OpGt [EField "x"; EScalar (SInt 0)];
               ECall OpNot [ECall OpEq [EField "s"; EScalar (SUtf8 "d")]]].

Section filter_expr.
Context `{RustlerLaws Term}.
Context `{Arrow, !CmpLaws, !BoolLaws, !BatchLaws}.

(** A well-typed expression is decoded, evaluated and filters. *)
Lemma filter_expr_selects b e :
  wf_batch b -> well_typed b e = true -> expr_in_range e ->
  exists b', compute_filter_expr b (encode_expr (Term := Term) e) = ROk b' /\
    rb_num_rows b' = count_true (row_mask b e) /\ rb_schema b' = rb_schema b /\
    Forall2 (fun c' c => data_type c' = data_type c /\ cells c' = select (cells c) (row_mask b e))
      (rb_columns b') (rb_columns b).
Proof.
  intros Hwf Ht Hr. unfold compute_filter_expr, reply.
  rewrite decode_encode_expr by (lia || done || by eapply well_typed_wf). cbn [mbind res_bind].
  rewrite well_typed_eval by done. cbn [mbind res_bind].
  destruct (is_ok_map_err error_string _ (filter_ok b (row_mask b e) Hwf (row_mask_length b e))) as [b' Hb'].
  rewrite Hb'. exists b'. split; [done|]. rewrite map_err_Ok in Hb'.
  split; [by eapply filter_rows|by apply filter_spec].
Qed.

(** C22: The expression filter end to end.  The term of a well-typed
    expression is decoded and evaluated, and the reply is the batch with the
    same schema whose every column holds the rows for which the row-by-row
    meaning of the expression is true (null and false rows are dropped). *)
Theorem compute_filter_expr_well_typed b e :
  wf_batch b -> well_typed b e = true -> expr_in_range e ->
  exists b', compute_filter_expr b (encode_expr (Term := Term) e) = ROk b' /\
    rb_schema b' = rb_schema b /\
    Forall2 (fun c' c => data_type c' = data_type c /\ cells c' = select (cells c) (row_mask b e))
      (rb_columns b') (rb_columns b).
Proof.
  intros Hwf Ht Hr. destruct (filter_expr_selects b e Hwf Ht Hr) as (b' & Hb & _ & Hs). by exists b'.
Qed.

(** C3: The expression filter on any term: a batch it returns is the selection
    of the rows for which the decoded expression is true; anything else is an
    [{:error, message}], except that a term with an improper list in it may
    raise.  On a term whose lists are proper it never raises. *)
Theorem compute_filter_expr_sound b (t : Term) :
  wf_batch b ->
  match compute_filter_expr b t with
  | ROk b' =>
      exists e, decode_expr (S (term_size t)) t = Ok e /\ wf_expr e /\
        rb_schema b' = rb_schema b /\
        Forall2 (fun c' c => cells c' = select (cells c) (row_mask b e)) (rb_columns b') (rb_columns b)
  | RErr _ => True
  | RRaise _ => ~ proper_lists t
  | _ => False
  end.
Proof.
  intros Hwf. unfold compute_filter_expr, reply.
  pose proof (decode_expr_no_panic (S (term_size t)) t ltac:(lia)) as Hnp.
  destruct (decode_expr _ t) as [e| |] eqn:Ed; [|done|by intros ?%Hnp]. cbn [mbind res_bind].
  pose proof (decode_expr_wf _ _ _ Ed) as He.
  pose proof (eval_to_bool_no_panic b e He) as Hnp'.
  destruct (eval_to_bool b e) as [m| |] eqn:Em; try done. cbn [mbind res_bind].
  apply eval_to_bool_is in Em as ->; [|done..].
  pose proof (proj1 (batch_no_panic b (row_mask b e) (BooleanArray []) [] (rb_schema b) [])) as Hnp''.
  destruct (filter_record_batch b _) as [b'| |] eqn:Ef; try done. cbn.
  exists e. apply filter_spec in Ef as [Hs Hc]. split_and!; try done.
  eapply Forall2_impl; [exact Hc|]. by intros c' c [_ ?].
Qed.

End filter_expr.

Lemma compute_filter_expr_well_typed_witness :
  exists b', compute_filter_expr sample_batch (encode_expr (Term := beam) sample_expr) = ROk b' /\
    rb_schema b' = sample_schema /\
    Forall2 (fun c' c => data_type c' = data_type c /\
                         cells c' = select (cells c) [Some true; Some false; None; Some false])
      (rb_columns b') (rb_columns sample_batch).
Proof.
  assert (row_mask sample_batch sample_expr = [Some true; Some false; None; Some false]) as <-
    by (vm_compute; reflexivity).
  apply (compute_filter_expr_well_typed (Term := beam) sample_batch sample_expr);
    [exact sample_wf|by vm_compute|by vm_compute].
Defined.

Lemma compute_filter_expr_sound_witness :
  exists b', compute_filter_expr sample_batch (encode_expr (Term := beam) sample_expr) = ROk b' /\
    exists e, decode_expr (S (term_size (encode_expr (Term := beam) sample_expr)))
                (encode_expr (Term := beam) sample_expr) = Ok e /\ wf_expr e /\
      rb_schema b' = sample_schema /\
      Forall2 (fun c' c => cells c' = select (cells c) (row_mask sample_batch e))
        (rb_columns b') (rb_columns sample_batch).
Proof.
  pose proof (compute_filter_expr_sound (Term := beam) sample_batch
    (encode_expr (Term := beam) sample_expr) sample_wf) as H.
  let r := eval vm_compute in (compute_filter_expr sample_batch (encode_expr (Term := beam) sample_expr)) in
  match r with
  | ROk ?b =>
      assert (compute_filter_expr sample_batch (encode_expr (Term := beam) sample_expr) = ROk b) as E
        by (vm_compute; reflexivity);
      rewrite E in H; exists b; split; [exact E|exact H]
  end.
Defined.

(** Arguments that decode, in a list that is not proper: the call raises, where
    every other malformed expression is an error. *)
Lemma improper_args_raise `{RustlerLaws Term} fuel op t2 l args :
  get_list t2 = Some (mkIter l false) -> collect (decode_expr fuel) l = Ok args ->
  decode_expr (S fuel) (mk_tuple [mk_atom "call"; mk_atom (op_atom op); t2])
    = Panic "list in ListIterator is not a proper list".
Proof.
  intros Hl Ha. cbn [decode_expr]. rewrite get_mk_tuple. cbn [ok_or mbind res_bind]. rewrite get_mk_atom.
  cbn [ok_or mbind res_bind String.eqb Ascii.eqb Bool.eqb]. rewrite decode_op_atom, Hl.
  cbn [ok_or mbind res_bind]. unfold collect_list. cbn [list_items]. by rewrite Ha.
Qed.

Example improper_not_raises :
  compute_filter_expr sample_batch
    (BTuple [BAtom "call"; BAtom "not"; BImproper (BTuple [BAtom "scalar"; BAtom "true"]) []])
  = RRaise "list in ListIterator is not a proper list".
Proof. vm_compute. reflexivity. Qed.

(** The term tree documented for [compute_filter_expr] is decoded to the
    expression it encodes, for every expression whose operators have their
    arity and whose literals fit the Rust types. *)
Theorem decode_expr_roundtrip `{RustlerLaws Term} e :
  wf_expr e -> expr_in_range e ->
  decode_expr (S (term_size (encode_expr (Term := Term) e))) (encode_expr (Term := Term) e) = Ok e.
Proof. intros. apply decode_encode_expr; [done..|lia]. Qed.

Lemma decode_expr_roundtrip_witness :
  wf_expr sample_expr /\
  decode_expr (S (term_size (encode_expr (Term := beam) sample_expr))) (encode_expr (Term := beam) sample_expr)
  = Ok sample_expr.
Proof.
  assert (wf_expr sample_expr) as Hw by (repeat constructor; done).
  split; [done|]. apply (decode_expr_roundtrip (Term := beam) sample_expr Hw).
  by vm_compute.
Defined.

(** An integer literal is accepted against an integer, Date32 or Date64
    column exactly when its value fits the column's width and signedness, and
    then it is that value: no wrap-around. *)
Theorem int_literal_exact `{Arrow} v dt t a :
  int_type dt = Some t -> s_range 64 v ->
  (make_scalar_array (SInt v) dt = Ok a <-> fits t v /\ a = IntArray dt [Some v]).
Proof. apply int_literal_spec. Qed.

Lemma int_literal_exact_witness :
  make_scalar_array (SInt 200) TUInt8 = Ok (IntArray TUInt8 [Some 200]) /\
  make_scalar_array (SInt 200) TInt8 <> Ok (IntArray TInt8 [Some 200]).
Proof.
  split.
  - apply (int_literal_exact 200 TUInt8 (false, 8)); [done|by vm_compute|by vm_compute].
  - intros Ha. apply (int_literal_exact 200 TInt8 (true, 8)) in Ha as [Hf _]; [|done|by vm_compute].
    unfold fits, s_range in Hf. cbn in Hf. lia.
Defined.

(** An integer literal against a Float64 column is accepted exactly when
    the rounded float denotes the integer; the check goes through i128, so it
    does not saturate. *)
Theorem f64_literal_exact `{Arrow} v a :
  s_range 64 v ->
  (make_scalar_array (SInt v) TFloat64 = Ok a <->
   a = FloatArray TFloat64 [Some (f64_of_int v)] /\ denotes (f64_of_int v) v).
Proof. apply f64_literal_spec. Qed.

Lemma f64_literal_exact_witness :
  make_scalar_array (SInt (2 ^ 53 + 1)) TFloat64
    <> Ok (FloatArray TFloat64 [Some (f64_of_int (2 ^ 53 + 1))]) /\
  make_scalar_array (SInt (2 ^ 63 - 1)) TFloat64
    <> Ok (FloatArray TFloat64 [Some (f64_of_int (2 ^ 63 - 1))]).
Proof.
  split; intros Ha; apply f64_literal_exact in Ha as [_ Hd];
    first [by vm_compute | by vm_compute in Hd].
Defined.

(** An integer literal against a Float32 column is accepted when the
    rounded float denotes the integer, and in one more case: [i64::MAX], whose
    rounding 2^63 passes the check because [f as i64] saturates. *)
Theorem f32_literal_exact_or_max `{Arrow} v a :
  s_range 64 v ->
  (make_scalar_array (SInt v) TFloat32 = Ok a <->
   a = FloatArray TFloat32 [Some (f32_of_int v)] /\
   (denotes (f32_of_int v) v \/ v = 2 ^ 63 - 1)).
Proof. apply f32_literal_spec. Qed.

Lemma f32_literal_exact_or_max_witness :
  make_scalar_array (SInt (2 ^ 63 - 1)) TFloat32
    = Ok (FloatArray TFloat32 [Some (f32_of_int (2 ^ 63 - 1))]) /\
  ~ denotes (f32_of_int (2 ^ 63 - 1)) (2 ^ 63 - 1).
Proof.
  split; [|by vm_compute].
  apply f32_literal_exact_or_max; [by vm_compute|]. split; [done|by right].
Defined.

(** C37: A timestamp literal of any unit against a timestamp column of any
    unit: the accepted tick count denotes the same instant, and the literal is
    accepted exactly when both that count and the instant in microseconds are
    whole 64-bit numbers.  (So a nanosecond literal that is not a multiple of
    1000 is refused even against a nanosecond column.) *)
Theorem timestamp_literal_exact `{Arrow} s v lu u tz a :
  timestamp_literal s = Some (v, lu) -> s_range 64 v ->
  (make_scalar_array s (TTimestamp u tz) = Ok a <->
   exists t, timestamp_coerces v lu u t /\ a = IntArray (TTimestamp u tz) [Some t]).
Proof. apply timestamp_literal_coerces. Qed.

Lemma timestamp_literal_exact_witness :
  make_scalar_array (STimestampMillis 1500) (TTimestamp Microsecond None)
    = Ok (IntArray (TTimestamp Microsecond None) [Some 1500000]) /\
  forall a, make_scalar_array (STimestampNanos 1001) (TTimestamp Nanosecond None) <> Ok a.
Proof.
  split.
  - apply (timestamp_literal_exact (STimestampMillis 1500) 1500 Millisecond Microsecond);
      [done|by vm_compute|].
    exists 1500000. split; [|done]. exists 1500000. by vm_compute.
  - intros a Ha.
    apply (timestamp_literal_exact (STimestampNanos 1001) 1001 Nanosecond Nanosecond) in Ha
      as (t & (m & Hm & _) & _); [|done|by vm_compute].
    cbn [unit_nanos] in Hm. lia.
Defined.

(** Date32 and Date64 literals convert into each other exactly: every
    32-bit day count is accepted as its midnight in milliseconds, and a
    millisecond count is accepted as a Date32 exactly when it is such a
    midnight. *)
Theorem date_literals_exact `{Arrow} d ms a :
  s_range 32 d ->
  make_scalar_array (SDate32 d) TDate64 = Ok (IntArray TDate64 [Some (d * 86400000)]) /\
  (make_scalar_array (SDate64 ms) TDate32 = Ok a <->
   exists day, ms = day * 86400000 /\ s_range 32 day /\ a = IntArray TDate32 [Some day]).
Proof. intros Hd. split; [by apply date32_date64|apply date64_date32]. Qed.

Lemma date_literals_exact_witness :
  make_scalar_array (SDate32 (-1)) TDate64 = Ok (IntArray TDate64 [Some (-86400000)]) /\
  (make_scalar_array (SDate64 (-86400000)) TDate32 = Ok (IntArray TDate32 [Some (-1)])).
Proof.
  destruct (date_literals_exact (-1) (-86400000) (IntArray TDate32 [Some (-1)])) as [H1 H2];
    [by vm_compute|].
  split; [exact H1|]. apply H2. exists (-1). by vm_compute.
Defined.

(** ** Projection and sorting *)

Section batches.
Context `{Arrow, !BatchLaws, !SortLaws}.

Lemma index_of_lt b name i :
  wf_batch b -> index_of (rb_schema b) name = Some i -> (i < length (rb_columns b))%nat.
Proof.
  intros (Hl & _) (f & Hf & _)%index_of_spec. rewrite Hl. by eapply lookup_lt_Some.
Qed.

Lemma collect_index_of b names :
  Forall (fun n => index_of (rb_schema b) n <> None) names ->
  exists idx, collect (fun name => ok_or ("column '" +:+ name +:+ "' not found")
                 (index_of (rb_schema b) name)) names = Ok idx /\
    Forall2 (fun n i => index_of (rb_schema b) n = Some i) names idx.
Proof.
  induction 1 as [|n names Hn _ (idx & Hc & Hf)]; [by exists []|].
  destruct (index_of (rb_schema b) n) as [i|] eqn:E; [|done].
  exists (i :: idx). cbn. rewrite E. cbn. rewrite Hc. split; [done|by constructor].
Qed.

Lemma collect_index_of_missing b pre n post :
  Forall (fun n => index_of (rb_schema b) n <> None) pre -> index_of (rb_schema b) n = None ->
  collect (fun name => ok_or ("column '" +:+ name +:+ "' not found")
             (index_of (rb_schema b) name)) (pre ++ n :: post)
  = Err ("column '" +:+ n +:+ "' not found").
Proof.
  intros Hp Hn. induction Hp as [|m pre Hm _ IH]; cbn.
  - by rewrite Hn.
  - destruct (index_of (rb_schema b) m); [|done]. cbn. by rewrite IH.
Qed.

(** Projection returns the named columns with their fields, in the order
    of the names (repetitions included) and with the row count kept; the
    first unknown name is reported. *)
Theorem compute_project_columns b names :
  wf_batch b ->
  (Forall (fun n => index_of (rb_schema b) n <> None) names ->
   exists b', compute_project b names = ROk b' /\ rb_num_rows b' = rb_num_rows b /\
     Forall2 (fun n c => column_by_name b n = Some c) names (rb_columns b') /\
     Forall2 (fun n f => field_with_name (rb_schema b) n = Some f) names (fields (rb_schema b'))) /\
  (forall pre n post, names = pre ++ n :: post ->
   Forall (fun n => index_of (rb_schema b) n <> None) pre -> index_of (rb_schema b) n = None ->
   compute_project b names = RErr (EMsg ("column '" +:+ n +:+ "' not found"))).
Proof.
  intros Hwf. split.
  - intros (idx & Hc & Hidx)%collect_index_of. unfold compute_project, reply. rewrite Hc.
    cbn [mbind res_bind].
    assert (Forall (fun i => (i < length (rb_columns b))%nat) idx) as Hlt.
    { eapply Forall2_Forall_r; [exact Hidx|]. apply Forall_forall. intros n _ i Hi. by eapply index_of_lt. }
    destruct (is_ok_map_err error_string _ (project_ok b idx Hwf Hlt)) as [b' Hb'].
    rewrite Hb'. exists b'. split; [done|]. rewrite map_err_Ok in Hb'.
    apply project_spec in Hb' as (Hcs & Hfs & Hn). split; [done|].
    assert (forall A B (R : string -> A -> Prop) (S : A -> B -> Prop) (T : string -> B -> Prop) ns xs ys,
      (forall n x y, R n x -> S x y -> T n y) ->
      Forall2 R ns xs -> Forall2 S xs ys -> Forall2 T ns ys) as Htr.
    { intros A B R S T ns xs ys HRS Hr. revert ys.
      induction Hr; intros ys Hs; inversion Hs; subst; constructor; eauto. }
    split; (eapply Htr; [|exact Hidx|eassumption]); cbn; intros n i x Hi Hx.
    + by rewrite column_by_name_index, Hi.
    + by rewrite field_with_name_index, Hi.
  - intros pre n post -> Hp Hn. unfold compute_project.
    by rewrite collect_index_of_missing.
Qed.

Lemma index_lookup b i :
  (i < length (rb_columns b))%nat -> exists c, rb_columns b !! i = Some c.
Proof. intros Hi. by apply lookup_lt_is_Some_2 in Hi as [c ?]; eauto. Qed.

(** C38: Sorting never raises, and a batch it returns has every column
    permuted by one permutation of the rows, which orders the sort column
    (ascending or descending, nulls first in both directions). *)
Theorem compute_sort_sorts b name ascending :
  wf_batch b ->
  match compute_sort b name ascending with
  | ROk b' =>
      exists i col col' idx,
        index_of (rb_schema b) name = Some i /\ rb_columns b !! i = Some col /\
        rb_columns b' !! i = Some col' /\ rb_schema b' = rb_schema b /\
        idx ≡ₚ seq 0 (rb_num_rows b) /\
        Forall2 (fun c c' => Forall2 (fun j x => cells c !! j = Some x) idx (cells c'))
          (rb_columns b) (rb_columns b') /\
        forall p q x y, (p <= q)%nat -> cells col' !! p = Some x -> cells col' !! q = Some y ->
          cell_le (mkSortOptions (negb ascending) true) x y
  | RErr _ => True
  | _ => False
  end.
Proof.
  intros Hwf. unfold compute_sort, reply.
  destruct (index_of (rb_schema b) name) as [i|] eqn:Ei; [|done]. cbn [ok_or mbind res_bind].
  destruct (index_lookup b i) as [col Hcol]; [by eapply index_of_lt|].
  rewrite (proj2 (index_Ok _ _ _) Hcol). cbn [mbind res_bind].
  set (opts := mkSortOptions (negb ascending) true).
  pose proof (sort_no_panic col opts) as Hnp.
  destruct (sort_to_indices col opts) as [idx| |] eqn:Es; try done. cbn [map_err mbind res_bind].
  pose proof (collect_no_panic (fun c => map_err error_string (arrow_take c idx)) (rb_columns b)) as Hnp2.
  destruct (collect _ (rb_columns b)) as [cs| |] eqn:Ec; cbn [mbind res_bind].
  3:{ apply Hnp2, Forall_forall. intros c _. apply map_err_no_panic.
      by destruct (batch_no_panic b [] c idx (rb_schema b) []) as (_ & ? & _). }
  2: done.
  pose proof (batch_no_panic b [] col idx (rb_schema b) cs) as (_ & _ & Hnp3 & _).
  destruct (try_new (rb_schema b) cs) as [b'| |] eqn:Et; try done. cbn.
  apply try_new_spec in Et as (Hs & Hcs & _). apply collect_Ok in Ec. subst cs.
  assert (Forall2 (fun c c' => Forall2 (fun j x => cells c !! j = Some x) idx (cells c'))
            (rb_columns b) (rb_columns b')) as Hrows.
  { eapply Forall2_impl; [exact Ec|]. intros c c' Hc%map_err_Ok. by apply take_spec in Hc as [_ ?]. }
  destruct (Forall2_lookup_l _ _ _ _ _ Hrows Hcol) as (col' & Hcol' & Hr).
  exists i, col, col', idx. split_and!; try done.
  - rewrite (sort_permutation _ _ _ Es). destruct Hwf as (_ & Hlen & _).
    rewrite Forall_forall in Hlen. by rewrite (Hlen col) by (by eapply list_elem_of_lookup_2).
  - intros p q x y Hpq Hx Hy.
    destruct (Forall2_lookup_r _ _ _ _ _ Hr Hx) as (j & Hj & Hjx).
    destruct (Forall2_lookup_r _ _ _ _ _ Hr Hy) as (k & Hk & Hky).
    by eapply sort_sorted.
Qed.

End batches.

Lemma compute_project_columns_witness :
  exists b', compute_project sample_batch ["s"; "x"; "s"] = ROk b' /\ rb_num_rows b' = 4%nat /\
    Forall2 (fun n c => column_by_name sample_batch n = Some c) ["s"; "x"; "s"] (rb_columns b') /\
    Forall2 (fun n f => field_with_name sample_schema n = Some f) ["s"; "x"; "s"]
      (fields (rb_schema b')).
Proof.
  apply (compute_project_columns sample_batch ["s"; "x"; "s"] sample_wf).
  repeat constructor; by vm_compute.
Defined.

Lemma compute_sort_sorts_witness :
  exists b' col', compute_sort sample_batch "x" false = ROk b' /\
    rb_columns b' !! 0%nat = Some col' /\
    forall p q x y, (p <= q)%nat -> cells col' !! p = Some x -> cells col' !! q = Some y ->
      cell_le (mkSortOptions true true) x y.
Proof.
  pose proof (compute_sort_sorts sample_batch "x" false sample_wf) as H.
  let r := eval vm_compute in (compute_sort sample_batch "x" false) in
  match r with
  | ROk ?b =>
      assert (compute_sort sample_batch "x" false = ROk b) as E by (vm_compute; reflexivity);
      rewrite E in H; exists b
  end.
  destruct H as (i & col & col' & idx & Hi & _ & Hc & _ & _ & _ & Hs).
  vm_compute in Hi. injection Hi as <-. exists col'. split; [exact E|]. split; [exact Hc|exact Hs].
Defined.
