(* ===== verification/Cdi.v ===== *)
(** * The C Data Interface handle (cdi.rs)

    A handle owns two heap boxes through two atomic pointers.  Each NIF is a
    small state machine ([Pc]) whose transitions are the atomic accesses and
    heap operations of its body in program order, so that calls of several
    schedulers can be interleaved at every one of them; running one machine
    alone to the end is the sequential call.

    The heap is explicit: reading or freeing an address that holds no box of
    the expected kind has no successor ([step_pc] is [None]), and so has
    importing a struct whose release callback has run, since what it points to
    is gone.  That is the undefined behaviour the safety comments of the code
    rule out.  Release callbacks are counted. *)

From S2P Require Import Prelude Term Arrow.

(** The FFI layer of the arrow crate and the struct-array conversions. *)
Class CArrow := {
  StructArray : Type;
  ArrayData : Type;
  FFI_ArrowArray : Type;
  FFI_ArrowSchema : Type;
  struct_from_batch : RecordBatch -> StructArray;
  into_data : StructArray -> ArrayData;
  to_ffi : ArrayData -> res ArrowError (FFI_ArrowArray * FFI_ArrowSchema);
  from_ffi : FFI_ArrowArray -> FFI_ArrowSchema -> res ArrowError ArrayData;
  struct_from_data : ArrayData -> res string StructArray;
  batch_from_struct : StructArray -> res string RecordBatch;
  ffi_error_string : ArrowError -> string
}.

(** Export and import are inverse; from_ffi reports failures as errors. *)
Class CArrowLaws `{CArrow} : Prop := {
  from_to_ffi d a s : to_ffi d = Ok (a, s) -> from_ffi a s = Ok d;
  to_ffi_no_panic d : no_panic (to_ffi d);
  struct_into_data s : struct_from_data (into_data s) = Ok s;
  batch_struct b : batch_from_struct (struct_from_batch b) = Ok b
}.

Section cdi.
Context `{CArrow}.

(** ** Data *)

(** A heap box; [release] tells whether its release callback is non-null. *)
Inductive CBox :=
| SchemaBox (v : FFI_ArrowSchema) (release : bool)
| ArrayBox (v : FFI_ArrowArray) (release : bool).

(** The handle's two pointers, the boxes on the heap, how often each release
    callback has run, and how many imported batches own the exported buffers. *)
Record Shared := mkShared {
  schema_ptr : Z;
  array_ptr : Z;
  boxes : gmap Z CBox;
  schema_releases : nat;
  array_releases : nat;
  imported : nat
}.

Inductive CdiValue :=
| VBatch (b : RecordBatch)
| VPointers (s a : Z).

Inductive Freer := MarkConsumed | DropHandle.

(** Program counters with the locals that are live there. *)
Inductive Pc :=
(* cdi_import *)
| ImportSwapSchema
| ImportSwapArray (schema_raw : Z)
| ImportCheck (schema_raw array_raw : Z)
| ImportTakeRead (schema_raw array_raw : Z)
| ImportTakeDealloc (schema_raw array_raw : Z) (v : FFI_ArrowArray) (release : bool)
| ImportFromFfi (schema_raw : Z) (v : FFI_ArrowArray) (release : bool)
| ImportFreeSchema (schema_raw : Z) (result : res ArrowError ArrayData)
(* cdi_mark_consumed and Drop *)
| FreeSwapSchema (k : Freer)
| FreeSwapArray (k : Freer) (schema_raw : Z)
| FreeArray (k : Freer) (schema_raw array_raw : Z)
| FreeSchema (k : Freer) (schema_raw : Z)
(* cdi_pointers *)
| LoadSchema
| LoadArray (schema_raw : Z)
| Done (r : Reply CdiValue).

(** ** Heap operations *)

(** [schema_ptr.swap(0)] and [array_ptr.swap(0)]. *)
Definition swap_schema (m : Shared) : Z * Shared :=
  (schema_ptr m, mkShared 0 (array_ptr m) (boxes m) (schema_releases m) (array_releases m) (imported m)).
Definition swap_array (m : Shared) : Z * Shared :=
  (array_ptr m, mkShared (schema_ptr m) 0 (boxes m) (schema_releases m) (array_releases m) (imported m)).

Definition set_boxes (f : gmap Z CBox -> gmap Z CBox) (m : Shared) : Shared :=
  mkShared (schema_ptr m) (array_ptr m) (f (boxes m)) (schema_releases m) (array_releases m) (imported m).
Definition add_schema_releases (n : nat) (m : Shared) : Shared :=
  mkShared (schema_ptr m) (array_ptr m) (boxes m) (schema_releases m + n) (array_releases m) (imported m).
Definition add_array_releases (n : nat) (m : Shared) : Shared :=
  mkShared (schema_ptr m) (array_ptr m) (boxes m) (schema_releases m) (array_releases m + n) (imported m).
Definition add_imported (n : nat) (m : Shared) : Shared :=
  mkShared (schema_ptr m) (array_ptr m) (boxes m) (schema_releases m) (array_releases m) (imported m + n).

(** [drop(Box::from_raw(p))]: runs the release callback when it is non-null,
    then frees the box. *)
Definition drop_schema_box (p : Z) (m : Shared) : option Shared :=
  match boxes m !! p with
  | Some (SchemaBox _ rel) => Some (add_schema_releases (Nat.b2n rel) (set_boxes (delete p) m))
  | _ => None
  end.
Definition drop_array_box (p : Z) (m : Shared) : option Shared :=
  match boxes m !! p with
  | Some (ArrayBox _ rel) => Some (add_array_releases (Nat.b2n rel) (set_boxes (delete p) m))
  | _ => None
  end.

(** ** The NIFs *)

(** The tail of [cdi_import] after [from_ffi]. *)
Definition import_reply (result : res ArrowError ArrayData) : Reply CdiValue :=
  match result with
  | Err e => err_encode (ffi_error_string e)
  | Panic s => RRaise s
  | Ok data =>
      reply_with (struct_array ← struct_from_data data; batch_from_struct struct_array)
        (fun b => ok_encode (VBatch b))
  end.

(** One transition of a call; [None] is undefined behaviour. *)
Definition step_pc (pc : Pc) (m : Shared) : option (Pc * Shared) :=
  match pc with
  | ImportSwapSchema => let '(s, m') := swap_schema m in Some (ImportSwapArray s, m')
  | ImportSwapArray s => let '(a, m') := swap_array m in Some (ImportCheck s a, m')
  | ImportCheck s a =>
      if (a =? 0) || (s =? 0)
      then Some (Done (err_encode "CDI handle already consumed"), m)
      else Some (ImportTakeRead s a, m)
  | ImportTakeRead s a =>
      match boxes m !! a with
      | Some (ArrayBox v rel) => Some (ImportTakeDealloc s a v rel, m)
      | _ => None
      end
  | ImportTakeDealloc s a v rel =>
      match boxes m !! a with
      | Some (ArrayBox _ _) => Some (ImportFromFfi s v rel, set_boxes (delete a) m)
      | _ => None
      end
  | ImportFromFfi s v rel =>
      match boxes m !! s, rel with
      | Some (SchemaBox sv true), true =>
          let result := from_ffi v sv in
          (* the value moves into the data, or is dropped with the error; a
             panic unwinds past the raw pointer of the schema *)
          match result with
          | Ok _ => Some (ImportFreeSchema s result, add_imported 1 m)
          | Err _ => Some (ImportFreeSchema s result, add_array_releases 1 m)
          | Panic site => Some (Done (RRaise site), add_array_releases 1 m)
          end
      | _, _ => None (* the buffers, or the children, of a released struct *)
      end
  | ImportFreeSchema s result =>
      m' ← drop_schema_box s m;
      Some (Done (import_reply result), m')
  | FreeSwapSchema k => let '(s, m') := swap_schema m in Some (FreeSwapArray k s, m')
  | FreeSwapArray k s => let '(a, m') := swap_array m in Some (FreeArray k s a, m')
  | FreeArray k s a =>
      if negb (a =? 0) then m' ← drop_array_box a m; Some (FreeSchema k s, m')
      else Some (FreeSchema k s, m)
  | FreeSchema k s =>
      if negb (s =? 0) then m' ← drop_schema_box s m; Some (Done (RAtom "ok"), m')
      else Some (Done (RAtom "ok"), m)
  | LoadSchema => Some (LoadArray (schema_ptr m), m)
  | LoadArray s => Some (Done (RBare (VPointers s (array_ptr m))), m)
  | Done r => Some (Done r, m)
  end.

Definition is_done (pc : Pc) : bool := match pc with Done _ => true | _ => false end.

(** The calls of lib/ex_arrow/cdi.ex on a handle. *)
Inductive Call := CallImport | CallMarkConsumed | CallPointers.

Definition cdi_import : Pc := ImportSwapSchema.
Definition cdi_mark_consumed : Pc := FreeSwapSchema MarkConsumed.
Definition cdi_pointers : Pc := LoadSchema.
Definition drop_handle : Pc := FreeSwapSchema DropHandle.

Definition start (c : Call) : Pc :=
  match c with
  | CallImport => cdi_import
  | CallMarkConsumed => cdi_mark_consumed
  | CallPointers => cdi_pointers
  end.

(** [cdi_export]: [schema_at] and [array_at] are the addresses the allocator
    returns for the two boxes. *)
Definition cdi_export (schema_at array_at : Z) (batch : RecordBatch) : res string Shared :=
  let struct_array := struct_from_batch batch in
  let array_data := into_data struct_array in
  '(ffi_array, ffi_schema) ← map_err ffi_error_string (to_ffi array_data);
  Ok (mkShared schema_at array_at
        (<[array_at := ArrayBox ffi_array true]> (<[schema_at := SchemaBox ffi_schema true]> ∅))
        0 0 0).

(** A call run alone. *)
Fixpoint run (fuel : nat) (pc : Pc) (m : Shared) : option (Reply CdiValue * Shared) :=
  match fuel with
  | O => None
  | S fuel' =>
      match pc with
      | Done r => Some (r, m)
      | _ => '(pc', m') ← step_pc pc m; run fuel' pc' m'
      end
  end.

(** A call makes at most seven transitions. *)
Definition call (pc : Pc) (m : Shared) : option (Reply CdiValue * Shared) := run 8 pc m.

(** ** Interleavings *)

(** The calls in progress, and whether the garbage collector has started to
    drop the handle. *)
Record State := mkState { mem : Shared; threads : list Pc; dropping : bool }.

(** [External] is a conformant consumer of the raw pointers: it takes over an
    array (or schema) that the handle still owns and runs its callback. *)
Inductive step : State -> State -> Prop :=
| step_spawn m ts c :
    step (mkState m ts false) (mkState m (ts ++ [start c]) false)
| step_run m ts d i pc pc' m' :
    ts !! i = Some pc -> is_done pc = false -> step_pc pc m = Some (pc', m') ->
    step (mkState m ts d) (mkState m' (<[i := pc']> ts) d)
| step_external_array m ts d v :
    array_ptr m <> 0 -> boxes m !! array_ptr m = Some (ArrayBox v true) ->
    step (mkState m ts d)
      (mkState (add_array_releases 1 (set_boxes (<[array_ptr m := ArrayBox v false]>) m)) ts d)
| step_external_schema m ts d v :
    schema_ptr m <> 0 -> boxes m !! schema_ptr m = Some (SchemaBox v true) ->
    step (mkState m ts d)
      (mkState (add_schema_releases 1 (set_boxes (<[schema_ptr m := SchemaBox v false]>) m)) ts d)
| step_drop m ts :
    forallb is_done ts = true ->
    step (mkState m ts false) (mkState m (ts ++ [drop_handle]) true).

(** The protocol that the documentation asks of the callers: an external
    consumer's release is followed by [cdi_mark_consumed], so that no import
    is in progress while a struct the consumer released is still allocated. *)
Definition importing (pc : Pc) : bool :=
  match pc with
  | ImportSwapSchema | ImportSwapArray _ | ImportCheck _ _ | ImportTakeRead _ _ | ImportTakeDealloc _ _ _ _
  | ImportFromFfi _ _ _ => true
  | _ => false
  end.

Definition released_box (b : CBox) : bool :=
  match b with SchemaBox _ release | ArrayBox _ release => negb release end.

Definition respects (st : State) : Prop :=
  forall p b pc, boxes (mem st) !! p = Some b -> released_box b = true -> pc ∈ threads st -> importing pc = false.

Definition conform (st st' : State) : Prop := step st st' /\ respects st'.

(** Some call in progress is about to touch memory it must not. *)
Definition faulty (st : State) : Prop :=
  exists i pc, threads st !! i = Some pc /\ step_pc pc (mem st) = None.

Definition imports_ok (pc : Pc) : nat :=
  match pc with Done (ROk (VBatch _)) => 1%nat | _ => 0%nat end.

End cdi.
