(* ===== verification/CdiFacts.v ===== *)
(** * Memory safety of the CDI handle

    The ownership invariant of cdi.rs: every non-null pointer value is held by
    the handle or by one call in progress, whatever the interleaving; release
    callbacks are neither lost nor run twice.  Then the sequential behaviour of
    the NIFs, and the race in which two imports each take one pointer. *)

From S2P Require Import Prelude Term Arrow ArrowRef Cdi.

(** ** Ownership *)

Section ownership.
Context `{CArrow}.
Context (S A : Z) (HS : S <> 0) (HA : A <> 0) (HSA : S <> A).

Definition one (z : Z) : nat := if z =? 0 then 0%nat else 1%nat.

(** The pointers a call in progress has taken out of the handle. *)
Definition hold_s (pc : Pc) : Z :=
  match pc with
  | ImportSwapArray s | ImportCheck s _ | ImportTakeRead s _ | ImportTakeDealloc s _ _ _
  | ImportFromFfi s _ _ | ImportFreeSchema s _ | FreeSwapArray _ s | FreeArray _ s _
  | FreeSchema _ s => s
  | _ => 0
  end.

Definition hold_a (pc : Pc) : Z :=
  match pc with
  | ImportCheck _ a | ImportTakeRead _ a | ImportTakeDealloc _ a _ _ | FreeArray _ _ a => a
  | _ => 0
  end.

(** Calls that hold the array, or have turned it into a batch. *)
Definition tok_a (pc : Pc) : nat :=
  match pc with
  | ImportFromFfi _ _ _ | ImportFreeSchema _ _ => 1
  | _ => one (hold_a pc) + imports_ok pc
  end.

(** A release callback held by value, between [take_raw] and [from_ffi]. *)
Definition val_rel (pc : Pc) : nat :=
  match pc with ImportFromFfi _ _ rel => Nat.b2n rel | _ => 0 end.

Definition box_rel (b : option CBox) : nat :=
  match b with Some (SchemaBox _ rel) | Some (ArrayBox _ rel) => Nat.b2n rel | None => 0 end.

Definition is_schema_box (b : option CBox) : Prop :=
  match b with Some (SchemaBox _ _) => True | _ => False end.
Definition is_array_box (b : option CBox) : Prop :=
  match b with Some (ArrayBox _ _) => True | _ => False end.

Definition null_or (p z : Z) : Prop := z = 0 \/ z = p.

Definition pc_ok (m : Shared) (pc : Pc) : Prop :=
  null_or S (hold_s pc) /\ null_or A (hold_a pc) /\
  match pc with
  | ImportTakeRead s a => s = S /\ a = A
  | ImportTakeDealloc s a v rel => s = S /\ a = A /\ boxes m !! A = Some (ArrayBox v rel)
  | ImportFromFfi s _ _ | ImportFreeSchema s _ => s = S
  | _ => True
  end.

Notation sum f ts := (sum_list_with f ts).

Definition inv (st : State) : Prop :=
  let m := mem st in
  let ts := threads st in
  null_or S (schema_ptr m) /\ null_or A (array_ptr m) /\
  Forall (pc_ok m) ts /\
  (one (schema_ptr m) + sum (fun t => one (hold_s t)) ts <= 1)%nat /\
  (one (array_ptr m) + sum tok_a ts <= 1)%nat /\
  ((one (schema_ptr m) + sum (fun t => one (hold_s t)) ts = 1)%nat -> is_schema_box (boxes m !! S)) /\
  ((one (array_ptr m) + sum (fun t => one (hold_a t)) ts = 1)%nat -> is_array_box (boxes m !! A)) /\
  (schema_releases m + box_rel (boxes m !! S) = 1)%nat /\
  (array_releases m + imported m + box_rel (boxes m !! A) + sum val_rel ts = 1)%nat.

Lemma hold_le_tok pc : (one (hold_a pc) <= tok_a pc)%nat.
Proof. destruct pc; cbn; lia. Qed.

Lemma sum_hold_le_tok ts : (sum (fun t => one (hold_a t)) ts <= sum tok_a ts)%nat.
Proof. induction ts as [|t ts IH]; cbn; [lia|]. pose proof (hold_le_tok t). lia. Qed.

Lemma tok_done r : (tok_a (Done r) <= 1)%nat.
Proof. cbn. repeat case_match; lia. Qed.

Lemma one_zero z : one z = 0%nat -> z = 0.
Proof. unfold one. by destruct (Z.eqb_spec z 0). Qed.

Lemma one_nonzero z : z <> 0 -> one z = 1%nat.
Proof. intros Hz. unfold one. by rewrite (proj2 (Z.eqb_neq z 0)). Qed.

(** A call that does not hold the array does not depend on its box. *)
Lemma pc_ok_frame m m' pc :
  tok_a pc = 0%nat \/ boxes m' !! A = boxes m !! A -> pc_ok m pc -> pc_ok m' pc.
Proof.
  intros Hor (Hs & Ha & Hpc). split_and!; [done..|].
  destruct pc; try done. destruct Hpc as (-> & -> & Hb). split_and!; try done.
  destruct Hor as [Ht|Hb']; [|congruence].
  cbn in Ht. rewrite (one_nonzero A) in Ht by done. lia.
Qed.

Lemma pc_ok_frames m m' ts :
  sum tok_a ts = 0%nat \/ boxes m' !! A = boxes m !! A -> Forall (pc_ok m) ts -> Forall (pc_ok m') ts.
Proof.
  intros Hor. induction 1 as [|t ts Ht _ IH]; [done|]. cbn in Hor.
  constructor; [|apply IH; destruct Hor; [left; lia|by right]].
  apply (pc_ok_frame m); [|done]. destruct Hor; [left; lia|by right].
Qed.

Lemma split_thread (ts : list Pc) i pc pc' :
  ts !! i = Some pc -> exists l r, ts = l ++ pc :: r /\ <[i := pc']> ts = l ++ pc' :: r.
Proof.
  intros Hi. exists (take i ts), (drop (Datatypes.S i) ts). split.
  - symmetry. by apply take_drop_middle.
  - apply insert_take_drop. by eapply lookup_lt_Some.
Qed.

(** An import of a struct that has been released. *)
Definition released_import (m : Shared) (pc : Pc) : Prop :=
  exists s v rel, pc = ImportFromFfi s v rel /\ (rel = false \/ exists sv, boxes m !! s = Some (SchemaBox sv false)).

(** A reachable call touches no memory it must not, unless it imports what has
    been released. *)
Lemma inv_step_defined st i pc :
  inv st -> threads st !! i = Some pc -> (exists r, step_pc pc (mem st) = Some r) \/ released_import (mem st) pc.
Proof.
  intros (_ & _ & Hpc & Hos & Hta & Hbs & Hba & _) Hi.
  destruct (split_thread _ _ _ pc Hi) as (l & r & Hts & _). rewrite Hts in *.
  rewrite Forall_app, Forall_cons in Hpc. destruct Hpc as (_ & (Hs & Ha & Hx) & _).
  rewrite !sum_list_with_app in *. cbn [sum_list_with] in *.
  pose proof (sum_hold_le_tok l). pose proof (sum_hold_le_tok r). pose proof (hold_le_tok pc).
  assert (hold_s pc = S -> is_schema_box (boxes (mem st) !! S)) as Hs'.
  { intros E. apply Hbs. rewrite E, (one_nonzero S) in * by done. lia. }
  assert (hold_a pc = A -> is_array_box (boxes (mem st) !! A)) as Ha'.
  { intros E. apply Hba. rewrite E, (one_nonzero A) in * by done. lia. }
  unfold drop_schema_box, drop_array_box, is_schema_box, is_array_box in *.
  destruct pc; cbn [step_pc hold_s hold_a swap_schema swap_array] in *;
    lazymatch goal with |- _ \/ released_import _ (ImportFromFfi _ _ _) => idtac | _ => left end; eauto.
  - repeat case_match; eauto.
  - destruct Hx as [-> ->]. specialize (Ha' eq_refl). repeat case_match; try done; eauto.
  - destruct Hx as (-> & -> & ->). eauto.
  - subst. specialize (Hs' eq_refl). destruct (boxes (mem st) !! S) as [[sv [|]|]|] eqn:Eb; try done; [|right; eexists _, _, _; eauto].
    destruct release; [left; destruct (from_ffi v sv); eauto|right; eexists _, _, _; eauto].
  - subst. specialize (Hs' eq_refl). unfold drop_schema_box. repeat case_match; try done; cbn; eauto.
  - destruct Ha as [-> | ->]; [cbn; eauto|]. rewrite (proj2 (Z.eqb_neq A 0)) by done. cbn [negb].
    specialize (Ha' eq_refl). unfold drop_array_box. repeat case_match; try done; cbn; eauto.
  - destruct Hs as [-> | ->]; [cbn; eauto|]. rewrite (proj2 (Z.eqb_neq S 0)) by done. cbn [negb].
    specialize (Hs' eq_refl). unfold drop_schema_box. repeat case_match; try done; cbn; eauto.
Qed.

(** The other calls' share of the invariant, with the running call taken out. *)
Definition inv_at (m : Shared) (pc : Pc) (l r : list Pc) : Prop :=
  inv (mkState m (l ++ pc :: r) false).

Ltac split_inv H :=
  destruct H as (Hsp & Hap & Hpc & Hos & Hta & Hbs & Hba & Hrs & Hra);
  cbn [mem threads] in Hsp, Hap, Hpc, Hos, Hta, Hbs, Hba, Hrs, Hra;
  rewrite ?sum_list_with_app in Hos, Hta, Hbs, Hba, Hra;
  cbn [sum_list_with] in Hos, Hta, Hbs, Hba, Hra;
  rewrite Forall_app, Forall_cons in Hpc; destruct Hpc as (Hpl & (Hs & Ha & Hx) & Hpr).

Ltac close_inv :=
  unfold inv; cbn [mem threads]; rewrite !sum_list_with_app; cbn [sum_list_with];
  rewrite Forall_app, Forall_cons.

Lemma one_le z : (one z <= 1)%nat.
Proof. unfold one. case_match; lia. Qed.

Lemma inv_swap_schema m pc pc' l r :
  inv_at m pc l r ->
  hold_s pc = 0 -> hold_s pc' = schema_ptr m -> hold_a pc' = hold_a pc -> tok_a pc' = tok_a pc ->
  val_rel pc' = val_rel pc -> pc_ok (snd (swap_schema m)) pc' ->
  inv_at (snd (swap_schema m)) pc' l r.
Proof.
  intros Hi E1 E2 E3 E4 E5 Hok. unfold inv_at in *. split_inv Hi. close_inv.
  rewrite E1 in *. rewrite E2, E3, E4, E5.
  cbn [swap_schema snd schema_ptr array_ptr boxes schema_releases array_releases imported] in *.
  cbn [one] in *. change (one 0) with 0%nat in *. split_and!; try done; try lia.
  intros. apply Hbs. lia.
Qed.

Lemma inv_swap_array m pc pc' l r :
  inv_at m pc l r ->
  hold_a pc = 0 -> tok_a pc = 0%nat -> hold_a pc' = array_ptr m -> hold_s pc' = hold_s pc ->
  tok_a pc' = one (array_ptr m) -> val_rel pc' = val_rel pc -> pc_ok (snd (swap_array m)) pc' ->
  inv_at (snd (swap_array m)) pc' l r.
Proof.
  intros Hi E1 E2 E3 E4 E5 E6 Hok. unfold inv_at in *. split_inv Hi. close_inv.
  rewrite E1, E2 in *. rewrite E3, E4, E5, E6.
  cbn [swap_array snd schema_ptr array_ptr boxes schema_releases array_releases imported] in *.
  change (one 0) with 0%nat in *. split_and!; try done; try lia.
  intros. apply Hba. lia.
Qed.

(** Transitions that touch no memory may only give up what the call holds. *)
Lemma inv_local m pc pc' l r :
  inv_at m pc l r ->
  (one (hold_s pc') <= one (hold_s pc))%nat -> (one (hold_a pc') <= one (hold_a pc))%nat ->
  (tok_a pc' <= tok_a pc)%nat -> val_rel pc' = val_rel pc -> pc_ok m pc' ->
  inv_at m pc' l r.
Proof.
  intros Hi E1 E2 E3 E4 Hok. unfold inv_at in *. split_inv Hi. close_inv. rewrite E4.
  pose proof (sum_hold_le_tok l). pose proof (sum_hold_le_tok r). pose proof (hold_le_tok pc).
  split_and!; try done; try lia.
  - intros. apply Hbs. lia.
  - intros. apply Hba. lia.
Qed.

(** Freeing the schema box, by the call that holds it. *)
Lemma inv_drop_schema m m' pc pc' l r :
  inv_at m pc l r -> hold_s pc = S -> drop_schema_box S m = Some m' ->
  hold_s pc' = 0 -> hold_a pc' = hold_a pc -> (tok_a pc' <= tok_a pc)%nat ->
  val_rel pc' = val_rel pc -> pc_ok m' pc' -> inv_at m' pc' l r.
Proof.
  intros Hi E1 Hd E2 E3 E4 E5 Hok. unfold inv_at in *. split_inv Hi. close_inv.
  rewrite E1, (one_nonzero S) in Hos, Hbs by done. rewrite E2, E3, E5. change (one 0) with 0%nat.
  unfold drop_schema_box in Hd. destruct (boxes m !! S) as [[v rel|]|] eqn:Eb; try done.
  injection Hd as <-.
  cbn [set_boxes add_schema_releases schema_ptr array_ptr boxes schema_releases array_releases imported] in *.
  rewrite lookup_delete_eq, lookup_delete_ne by done. cbn [box_rel] in *.
  split_and!; try done; try lia.
  - eapply pc_ok_frames; [|exact Hpl]. right. cbn. by rewrite lookup_delete_ne.
  - eapply pc_ok_frames; [|exact Hpr]. right. cbn. by rewrite lookup_delete_ne.
Qed.

(** Taking the array box off the heap, by the call that holds it: its release
    callback is run ([n = 1]) or kept by value. *)
Lemma inv_free_array m v rel pc pc' l r n :
  inv_at m pc l r -> hold_a pc = A -> boxes m !! A = Some (ArrayBox v rel) ->
  hold_s pc' = hold_s pc -> hold_a pc' = 0 -> (tok_a pc' <= tok_a pc)%nat ->
  (val_rel pc' + n = val_rel pc + Nat.b2n rel)%nat ->
  pc_ok (add_array_releases n (set_boxes (delete A) m)) pc' ->
  inv_at (add_array_releases n (set_boxes (delete A) m)) pc' l r.
Proof.
  intros Hi E1 Eb E2 E3 E4 E5 Hok. unfold inv_at in *. split_inv Hi. close_inv.
  pose proof (hold_le_tok pc) as Hle. rewrite E1, (one_nonzero A) in Hba, Hle by done.
  rewrite Eb in *. rewrite E2, E3. change (one 0) with 0%nat.
  cbn [set_boxes add_array_releases schema_ptr array_ptr boxes schema_releases array_releases imported] in *.
  rewrite lookup_delete_eq, lookup_delete_ne by done. cbn [box_rel] in *.
  pose proof (sum_hold_le_tok l). pose proof (sum_hold_le_tok r).
  split_and!; try done; try lia.
  - eapply pc_ok_frames; [|exact Hpl]. left. lia.
  - eapply pc_ok_frames; [|exact Hpr]. left. lia.
Qed.

Lemma add_array_releases_0 m : add_array_releases 0 m = m.
Proof. destruct m. unfold add_array_releases. cbn. by rewrite Nat.add_0_r. Qed.

(** [from_ffi] consumes the value: into a batch, or with its callback run. *)
Lemma inv_from_ffi m s v rel r' l r m' :
  inv_at m (ImportFromFfi s v rel) l r ->
  m' = add_imported (Nat.b2n rel) m \/ m' = add_array_releases (Nat.b2n rel) m ->
  inv_at m' (ImportFreeSchema s r') l r.
Proof.
  intros Hi Hm. unfold inv_at in *. split_inv Hi. close_inv. cbn [hold_s hold_a tok_a val_rel] in *.
  assert (boxes m' = boxes m /\ schema_ptr m' = schema_ptr m /\ array_ptr m' = array_ptr m /\
    schema_releases m' = schema_releases m /\
    (array_releases m' + imported m' = array_releases m + imported m + Nat.b2n rel)%nat)
    as (-> & -> & -> & -> & Hc) by (destruct Hm as [-> | ->]; cbn; split_and!; try done; lia).
  split_and!; try done; try lia.
  - eapply pc_ok_frames; [|exact Hpl]. right. by destruct Hm as [-> | ->].
  - eapply pc_ok_frames; [|exact Hpr]. right. by destruct Hm as [-> | ->].
Qed.

(** Every transition of a call preserves the invariant. *)
Lemma inv_run m l r pc pc' m' :
  inv_at m pc l r -> is_done pc = false -> step_pc pc m = Some (pc', m') -> inv_at m' pc' l r.
Proof.
  intros Hi Hnd Hst. pose proof Hi as Hi'. unfold inv_at in Hi'. split_inv Hi'.
  unfold null_or in *.
  destruct pc; try done; cbn [step_pc hold_s hold_a] in *.
  - injection Hst as <- <-. eapply inv_swap_schema; [exact Hi|done..|]. unfold pc_ok, null_or; cbn; auto.
  - injection Hst as <- <-. eapply inv_swap_array; [exact Hi|try done..].
  - destruct (Z.eqb_spec array_raw 0) as [|Hn1], (Z.eqb_spec schema_raw 0) as [|Hn2]; cbn [orb] in Hst;
      injection Hst as <- <-; (eapply inv_local; [exact Hi|cbn; unfold one; repeat case_match; lia..|done|]);
      unfold pc_ok, null_or; cbn; naive_solver.
  - destruct Hx as [-> ->]. destruct (boxes m !! A) as [[|v rel]|] eqn:Eb; try done.
    injection Hst as <- <-. eapply inv_local; [exact Hi|done..|]. unfold pc_ok, null_or. cbn. naive_solver.
  - destruct Hx as (-> & -> & Hb). rewrite Hb in Hst. injection Hst as <- <-.
    rewrite <-(add_array_releases_0 (set_boxes _ m)).
    eapply inv_free_array; [exact Hi|done|exact Hb|done|done|by cbn; rewrite one_nonzero by done; lia|cbn; lia|
      unfold pc_ok, null_or; cbn; naive_solver].
  - subst schema_raw. destruct (boxes m !! S) as [[sv []|]|] eqn:Eb; try done. destruct release; [|done].
    destruct (from_ffi v sv) as [d|e|p] eqn:Ef; injection Hst as <- <-; [eapply inv_from_ffi; [exact Hi|auto]..|].
    eapply inv_local; [eapply (inv_from_ffi m S v true (Panic p)); [exact Hi|by right]|cbn; lia..|done|].
    unfold pc_ok, null_or. cbn. auto.
  - subst schema_raw. apply bind_Some in Hst as (m1 & Hd & [= <- <-]).
    eapply inv_drop_schema; [exact Hi|done|exact Hd|done|done|apply tok_done|done|].
    unfold pc_ok, null_or; cbn; auto.
  - injection Hst as <- <-. eapply inv_swap_schema; [exact Hi|done..|]. unfold pc_ok, null_or; cbn; auto.
  - injection Hst as <- <-. eapply inv_swap_array; [exact Hi|done|done|done|done|by cbn; rewrite Nat.add_0_r|done|done].
  - destruct (Z.eqb_spec array_raw 0) as [->|Hne]; cbn [negb] in Hst.
    + injection Hst as <- <-. eapply inv_local; [exact Hi|done..|]. unfold pc_ok, null_or. cbn. naive_solver.
    + destruct Ha as [?| ->]; [done|]. apply bind_Some in Hst as (m1 & Hd & [= <- <-]).
      unfold drop_array_box in Hd. destruct (boxes m !! A) as [[|v rel]|] eqn:Eb; try done.
      injection Hd as <-. eapply inv_free_array; [exact Hi|done|exact Eb|done|done|cbn; lia|cbn; lia|].
      unfold pc_ok, null_or; cbn; naive_solver.
  - destruct (Z.eqb_spec schema_raw 0) as [->|Hne]; cbn [negb] in Hst.
    + injection Hst as <- <-. eapply inv_local; [exact Hi|done..|]. unfold pc_ok, null_or. cbn. naive_solver.
    + destruct Hs as [?| ->]; [done|]. apply bind_Some in Hst as (m1 & Hd & [= <- <-]).
      eapply inv_drop_schema; [exact Hi|done|exact Hd|done..|by unfold pc_ok, null_or; cbn; auto].
  - injection Hst as <- <-. eapply inv_local; [exact Hi|done..|]. unfold pc_ok, null_or. cbn. naive_solver.
  - injection Hst as <- <-. eapply inv_local; [exact Hi|done..|]. unfold pc_ok, null_or. cbn. naive_solver.
Qed.

Lemma inv_spawn m ts d d' pc :
  inv (mkState m ts d) -> hold_s pc = 0 -> hold_a pc = 0 -> tok_a pc = 0%nat -> val_rel pc = 0%nat ->
  pc_ok m pc -> inv (mkState m (ts ++ [pc]) d').
Proof.
  intros (Hsp & Hap & Hpc & Hos & Hta & Hbs & Hba & Hrs & Hra) E1 E2 E3 E4 Hok.
  close_inv. cbn [mem threads] in *. rewrite E1, E2, E3, E4. change (one 0) with 0%nat.
  split_and!; try done; try lia; intros; [apply Hbs|apply Hba]; lia.
Qed.

Lemma inv_external_array m ts d v :
  inv (mkState m ts d) -> array_ptr m <> 0 -> boxes m !! array_ptr m = Some (ArrayBox v true) ->
  inv (mkState (add_array_releases 1 (set_boxes (<[array_ptr m := ArrayBox v false]>) m)) ts d).
Proof.
  intros (Hsp & Hap & Hpc & Hos & Hta & Hbs & Hba & Hrs & Hra) Hne Hb.
  cbn [mem threads] in *. destruct Hap as [?|HapA]; [done|]. rewrite HapA, (one_nonzero A) in * by done.
  rewrite Hb in *. unfold inv.
  cbn [mem threads set_boxes add_array_releases schema_ptr array_ptr boxes schema_releases array_releases
       imported box_rel Nat.b2n] in *.
  rewrite HapA, lookup_insert_eq, lookup_insert_ne, (one_nonzero A) by done. cbn [box_rel].
  split_and!; try done; try (cbn; lia).
  - by right.
  - eapply pc_ok_frames; [|exact Hpc]. left. lia.
Qed.

Lemma inv_external_schema m ts d v :
  inv (mkState m ts d) -> schema_ptr m <> 0 -> boxes m !! schema_ptr m = Some (SchemaBox v true) ->
  inv (mkState (add_schema_releases 1 (set_boxes (<[schema_ptr m := SchemaBox v false]>) m)) ts d).
Proof.
  intros (Hsp & Hap & Hpc & Hos & Hta & Hbs & Hba & Hrs & Hra) Hne Hb.
  cbn [mem threads] in *. destruct Hsp as [?|HspS]; [done|]. rewrite HspS, (one_nonzero S) in * by done.
  rewrite Hb in *. unfold inv.
  cbn [mem threads set_boxes add_schema_releases schema_ptr array_ptr boxes schema_releases array_releases
       imported box_rel Nat.b2n] in *.
  rewrite HspS, lookup_insert_eq, lookup_insert_ne, (one_nonzero S) by done. cbn [box_rel].
  split_and!; try done; try (cbn; lia).
  - by right.
  - eapply pc_ok_frames; [|exact Hpc]. right. cbn. by rewrite lookup_insert_ne.
Qed.

Lemma inv_step st st' : inv st -> step st st' -> inv st'.
Proof.
  intros Hi Hst. destruct Hst as [m ts c|m ts d i pc pc' m' Hlk Hnd Hs|m ts d v Hn Hb|m ts d v Hn Hb|m ts Hd].
  - eapply inv_spawn; [exact Hi|by destruct c..|].
    destruct c; cbn; unfold pc_ok, null_or; cbn; auto.
  - destruct (split_thread _ _ _ pc' Hlk) as (l & r & -> & ->).
    exact (inv_run m l r pc pc' m' Hi Hnd Hs).
  - by apply inv_external_array.
  - by apply inv_external_schema.
  - eapply inv_spawn; [exact Hi|done..|]. unfold pc_ok, null_or; cbn; auto.
Qed.

Lemma inv_reachable st st' : inv st -> rtc step st st' -> inv st'.
Proof. intros Hi. induction 1; eauto using inv_step. Qed.

Lemma inv_export b m ts d : cdi_export S A b = Ok m -> ts = [] -> inv (mkState m ts d).
Proof.
  intros Hx ->. unfold cdi_export in Hx. apply bind_Ok in Hx as ([fa fs] & _ & [= <-]).
  unfold inv, null_or. cbn. rewrite !(one_nonzero) by done.
  rewrite lookup_insert_eq, lookup_insert_ne, lookup_insert_eq by done. cbn.
  split_and!; auto.
Qed.

(** ** Callers that keep to the protocol *)

(** What a call in progress has read was not released. *)
Definition fresh (pc : Pc) : Prop :=
  match pc with ImportTakeDealloc _ _ _ rel | ImportFromFfi _ _ rel => rel = true | _ => True end.

Definition protocol_inv (st : State) : Prop := inv st /\ respects st /\ Forall fresh (threads st).

Lemma fresh_step st pc pc' m' :
  respects st -> pc ∈ threads st -> fresh pc -> step_pc pc (mem st) = Some (pc', m') -> fresh pc'.
Proof.
  intros Hr Hin Hf Hs. destruct pc; cbn [step_pc swap_schema swap_array] in Hs; try by injection Hs as <- <-.
  - case_match; by injection Hs as <- <-.
  - destruct (boxes (mem st) !! array_raw) as [[|v rel]|] eqn:Eb; try done. injection Hs as <- <-. cbn.
    destruct rel; [done|]. by specialize (Hr _ _ _ Eb eq_refl Hin).
  - destruct (boxes (mem st) !! array_raw) as [[]|]; try done. by injection Hs as <- <-.
  - destruct (boxes (mem st) !! schema_raw) as [[? []|]|]; try done. destruct release; [|done].
    case_match; by injection Hs as <- <-.
  - by apply bind_Some in Hs as (? & _ & [= <- <-]).
  - case_match; [apply bind_Some in Hs as (? & _ & Hs)|]; by injection Hs as <- <-.
  - case_match; [apply bind_Some in Hs as (? & _ & Hs)|]; by injection Hs as <- <-.
Qed.

Lemma protocol_step st st' : protocol_inv st -> conform st st' -> protocol_inv st'.
Proof.
  intros (Hi & Hr & Hf) [Hs Hr']. split; [by eapply inv_step|]. split; [done|]. clear Hi Hr'.
  destruct Hs as [m ts c|m ts d i pc pc' m' Hlk Hnd Hs|m ts d v Hn Hb|m ts d v Hn Hb|m ts Hd]; cbn [threads] in *; try done.
  - apply Forall_app. split; [done|]. constructor; [|constructor]. by destruct c.
  - apply Forall_insert; [done|]. eapply fresh_step; [exact Hr|by eapply list_elem_of_lookup_2| |exact Hs].
    by eapply Forall_lookup_1.
  - apply Forall_app. split; [done|]. by repeat constructor.
Qed.

Lemma protocol_safe st : protocol_inv st -> ~ faulty st.
Proof.
  intros (Hi & Hr & Hf) (i & pc & Hl & Hn).
  destruct (inv_step_defined st i pc Hi Hl) as [[r Hs]|(s & v & rel & -> & Hrel)]; [congruence|].
  destruct Hrel as [->|[sv Hb]]; [by apply (Forall_lookup_1 _ _ _ _ Hf) in Hl|].
  specialize (Hr _ _ (ImportFromFfi s v rel) Hb eq_refl). cbn in Hr. discriminate Hr. by eapply list_elem_of_lookup_2.
Qed.

Lemma protocol_export b m d : cdi_export S A b = Ok m -> protocol_inv (mkState m [] d).
Proof.
  intros Hx. split; [by eapply inv_export|]. split; [|constructor]. by intros p bx pc _ _ ?%elem_of_nil.
Qed.

Lemma protocol_reachable st st' : protocol_inv st -> rtc conform st st' -> protocol_inv st'.
Proof. intros Hi. induction 1; eauto using protocol_step. Qed.

End ownership.
