(* ===== verification/CdiThms.v ===== *)
(** * Theorems about the C Data Interface handle *)

From S2P Require Import Prelude Term Arrow ArrowRef Cdi CdiFacts ComputeThms.

(** An FFI layer that moves the batch itself. *)
#[export] Instance ref_carrow : CArrow := {|
  StructArray := RecordBatch;
  ArrayData := RecordBatch;
  FFI_ArrowArray := RecordBatch;
  FFI_ArrowSchema := unit;
  struct_from_batch b := b;
  into_data s := s;
  to_ffi d := Ok (d, tt);
  from_ffi a _ := Ok a;
  struct_from_data d := Ok d;
  batch_from_struct s := Ok s;
  ffi_error_string := show_error
|}.

#[export] Instance ref_carrow_laws : CArrowLaws.
Proof. split; cbn; try done. by intros d a s [= <- <-]. Qed.

(** A handle on [sample_batch], its boxes at addresses 16 and 32. *)
Definition sample_shared : Shared :=
  mkShared 16 32 (<[32 := ArrayBox sample_batch true]> (<[16 := SchemaBox tt true]> ∅)) 0 0 0.

Section threads.
Context `{CArrow}.

Lemma imports_le_tok pc : (imports_ok pc <= tok_a pc)%nat.
Proof. destruct pc; cbn; lia. Qed.

Lemma sum_imports_le_tok ts : (sum_list_with imports_ok ts <= sum_list_with tok_a ts)%nat.
Proof. induction ts as [|t ts IH]; cbn; [lia|]. pose proof (imports_le_tok t). cbn in *. lia. Qed.

(** C4: Memory safety of the handle under every interleaving.  However many
    imports, [cdi_mark_consumed] calls and pointer reads run at the same time,
    with the garbage collector's drop last and an external consumer in between
    that takes a struct over and releases it: no box is read or freed that is
    not there, no release callback runs twice, at most one import returns the
    batch, and the only use of released memory is an import of a struct that
    the consumer has released.  When no import is in progress while such a
    struct is allocated, as the documentation asks ([cdi_mark_consumed] follows
    the release), there is no use of released memory at all. *)
Theorem cdi_memory_safe S A b m :
  S <> 0 -> A <> 0 -> S <> A -> cdi_export S A b = Ok m ->
  (forall st, rtc step (mkState m [] false) st ->
    (forall i pc, threads st !! i = Some pc -> step_pc pc (mem st) = None -> released_import (mem st) pc) /\
    (schema_releases (mem st) <= 1)%nat /\
    (array_releases (mem st) + imported (mem st) <= 1)%nat /\
    (sum_list_with imports_ok (threads st) <= 1)%nat) /\
  (forall st, rtc conform (mkState m [] false) st -> ~ faulty st).
Proof.
  intros HS HA HSA Hx. split.
  - intros st Hr.
    assert (inv S A st) as Hi by (eapply inv_reachable; [done..| |exact Hr]; by eapply inv_export).
    split.
    + intros i pc Hl Hn. destruct (inv_step_defined S A HS HA HSA st i pc Hi Hl) as [[r Hs]|]; [congruence|done].
    + destruct Hi as (_ & _ & _ & _ & Ht & _ & _ & Hrs & Hra).
      pose proof (sum_imports_le_tok (threads st)). lia.
  - intros st Hr. apply (protocol_safe S A HS HA HSA). eapply protocol_reachable; [done..| |exact Hr].
    by eapply protocol_export.
Qed.

Ltac cdi_cbn :=
  cbn [step_pc swap_schema swap_array set_boxes add_array_releases schema_ptr array_ptr boxes schema_releases
    array_releases imported app start cdi_import list_insert insert orb].

(** Without the protocol: an external consumer releases the array, and the
    handle is imported before it is marked as consumed.  [cdi_import] does not
    look at the release callback, so it hands the released struct to
    [from_ffi]. *)
Lemma import_after_release_faults S A b m :
  S <> 0 -> A <> 0 -> S <> A -> cdi_export S A b = Ok m ->
  exists st, rtc step (mkState m [] false) st /\ faulty st.
Proof.
  intros HS HA HSA ([fa fs] & _ & [= <-])%bind_Ok. eexists. split.
  - eapply rtc_l; [eapply step_external_array; [done|apply lookup_insert_eq]|]. cdi_cbn.
    eapply rtc_l; [apply (step_spawn _ [] CallImport)|].
    do 5 (eapply rtc_l; [eapply (step_run _ _ _ 0%nat); [reflexivity|reflexivity|]; cdi_cbn;
      rewrite ?(proj2 (Z.eqb_neq S 0) HS), ?(proj2 (Z.eqb_neq A 0) HA), ?lookup_insert_eq; reflexivity|]; cdi_cbn).
    apply rtc_refl.
  - exists 0%nat, (ImportFromFfi S fa false). split; [done|]. cbn [step_pc mem]. by repeat case_match.
Qed.

(** ** Calls run alone *)

(** A handle whose boxes are in place, and one that has been consumed. *)
Definition intact (S A : Z) (m : Shared) : Prop :=
  schema_ptr m = S /\ array_ptr m = A /\
  exists fs fa d, boxes m = <[A := ArrayBox fa true]> (<[S := SchemaBox fs true]> ∅) /\ to_ffi d = Ok (fa, fs) /\
    schema_releases m = 0%nat /\ array_releases m = 0%nat /\ imported m = 0%nat.

Definition consumed (m : Shared) : Prop :=
  schema_ptr m = 0 /\ array_ptr m = 0 /\ boxes m = ∅ /\
  schema_releases m = 1%nat /\ (array_releases m + imported m = 1)%nat.

Lemma export_intact S A b m : cdi_export S A b = Ok m -> intact S A m.
Proof.
  intros Hx. apply bind_Ok in Hx as ([fa fs] & Hf%map_err_Ok & [= <-]).
  split_and!; [done..|]. by eexists fs, fa, _.
Qed.

Lemma heap_facts S A (bx : gmap Z CBox) fa ra fs rs :
  S <> A -> bx = <[A := ArrayBox fa ra]> (<[S := SchemaBox fs rs]> ∅) ->
  bx !! A = Some (ArrayBox fa ra) /\ delete A bx !! S = Some (SchemaBox fs rs) /\
  delete S (delete A bx) = ∅.
Proof.
  intros Hn ->. rewrite lookup_insert_eq. rewrite delete_insert_id by (by rewrite lookup_insert_ne).
  by rewrite lookup_insert_eq, delete_insert_id.
Qed.

(** Runs a call on a heap whose lookups are hypotheses. *)
Ltac run_call :=
  repeat first
    [ match goal with
      | E : (_ =? 0) = false |- _ => rewrite E
      | E : from_ffi _ _ = _ |- _ => rewrite E
      | E : ?l = Some _ |- context [?l] => rewrite E
      end
    | progress cbn [step_pc swap_schema swap_array mbind option_bind set_boxes add_schema_releases
        add_array_releases add_imported negb orb schema_ptr array_ptr boxes schema_releases
        array_releases imported]
    | progress unfold drop_schema_box, drop_array_box ].

Lemma run_step n pc m pc' m' :
  is_done pc = false -> step_pc pc m = Some (pc', m') -> run (Datatypes.S n) pc m = run n pc' m'.
Proof. intros Hnd Hs. destruct pc; try done; cbn [run]; by rewrite Hs. Qed.

Lemma run_done n r m : run (Datatypes.S n) (Done r) m = Some (r, m).
Proof. done. Qed.

(** Runs a call that was [call]ed on a heap with known lookups to its reply. *)
Ltac run_all :=
  unfold call, cdi_import;
  repeat (erewrite run_step; [|reflexivity|solve [run_call; reflexivity]]);
  rewrite ?run_done.

Ltac open_handle Hm :=
  destruct Hm as (Hs & Ha & fs & fa & d & Hb & Hd & Hrs & Hra & Him);
  match goal with m : Shared |- _ => destruct m as [sp ap bx sr ar im] end;
  cbn [schema_ptr array_ptr boxes schema_releases array_releases imported] in *;
  match goal with
  | HS : ?S <> 0, HA : ?A <> 0, HSA : ?S <> ?A |- _ =>
      pose proof (proj2 (Z.eqb_neq S 0) HS); pose proof (proj2 (Z.eqb_neq A 0) HA);
      destruct (heap_facts S A _ _ _ _ _ HSA Hb) as (HbA & HbS & Hdel); clear Hb
  end;
  subst.

Lemma call_import_intact `{!CArrowLaws} S A m :
  S <> 0 -> A <> 0 -> S <> A -> intact S A m ->
  exists r m', call cdi_import m = Some (r, m') /\ consumed m'.
Proof.
  intros HS HA HSA Hm. open_handle Hm. apply from_to_ffi in Hd.
  run_all. eexists _, _. split; [reflexivity|]. unfold consumed. run_call. split_and!; try done; lia.
Qed.

Lemma call_free_intact k S A m :
  S <> 0 -> A <> 0 -> S <> A -> intact S A m ->
  exists m', call (FreeSwapSchema k) m = Some (RAtom "ok", m') /\ consumed m'.
Proof.
  intros HS HA HSA Hm. open_handle Hm. run_all.
  eexists. split; [reflexivity|]. unfold consumed. run_call. split_and!; try done; lia.
Qed.

(** The reply of an import that runs alone. *)
Lemma call_import_reply `{!CArrowLaws} S A m r m' :
  S <> 0 -> A <> 0 -> S <> A -> intact S A m -> call cdi_import m = Some (r, m') ->
  exists fa fs ra rs, boxes m !! A = Some (ArrayBox fa ra) /\ boxes m !! S = Some (SchemaBox fs rs) /\
    r = import_reply (from_ffi fa fs).
Proof.
  intros HS HA HSA Hm. open_handle Hm. apply from_to_ffi in Hd. intros Hc. exists fa, fs, true, true.
  split_and!; [done|by rewrite lookup_delete_ne in HbS|]. rewrite Hd. revert Hc. run_all. by intros [= <- _].
Qed.

(** On a consumed handle every call leaves the memory alone. *)
Lemma call_consumed m :
  consumed m ->
  call cdi_import m = Some (err_encode "CDI handle already consumed", m) /\
  (forall k, call (FreeSwapSchema k) m = Some (RAtom "ok", m)) /\
  call cdi_pointers m = Some (RBare (VPointers 0 0), m).
Proof.
  destruct m as [sp ap bx sr ar im]; intros (Hs & Ha & _). cbn [schema_ptr array_ptr] in *. subst.
  split_and!; intros; reflexivity.
Qed.

(** C28: Terms of use of a handle, sequentially: whatever calls are made one
    after the other, once the handle is dropped both boxes are freed and each
    of the two release obligations is discharged exactly once (by a callback,
    or by a batch that was imported), since [from_ffi] accepts what [to_ffi]
    gave. *)
Theorem cdi_sequential_no_leak `{!CArrowLaws} S A b m (cs : list Call) :
  S <> 0 -> A <> 0 -> S <> A -> cdi_export S A b = Ok m ->
  exists m1 m2,
    foldl (fun o c => m ← o; snd <$> call (start c) m) (Some m) cs = Some m1 /\
    call drop_handle m1 = Some (RAtom "ok", m2) /\ consumed m2.
Proof.
  intros HS HA HSA Hx.
  assert (forall cs m, intact S A m \/ consumed m -> exists m1,
    foldl (fun o c => m ← o; snd <$> call (start c) m) (Some m) cs = Some m1 /\
    (intact S A m1 \/ consumed m1)) as Hcs.
  { clear m Hx cs. induction cs as [|c cs IH]; intros m Hm; [by exists m|]. cbn [foldl mbind option_bind].
    assert (exists m', snd <$> call (start c) m = Some m' /\ (intact S A m' \/ consumed m')) as (m' & -> & Hm').
    { destruct Hm as [Hm|Hm].
      - destruct c.
        + destruct (call_import_intact S A m) as (r & m' & Hc & ?); [done..|]. exists m'. cbn [start].
          rewrite Hc. auto.
        + destruct (call_free_intact MarkConsumed S A m) as (m' & Hc & ?); [done..|]. exists m'. cbn [start].
          unfold cdi_mark_consumed. rewrite Hc. auto.
        + exists m. split; [done|by left].
      - destruct (call_consumed m Hm) as (H1 & H2 & H3). exists m.
        destruct c; cbn [start]; unfold cdi_mark_consumed; rewrite ?H1, ?H2, ?H3; auto. }
    by apply IH. }
  destruct (Hcs cs m) as (m1 & -> & Hm1); [left; by eapply export_intact|].
  destruct Hm1 as [Hm1|Hm1].
  - destruct (call_free_intact DropHandle S A m1) as (m2 & ? & ?); [done..|]. eauto.
  - exists m1, m1. destruct (call_consumed m1 Hm1) as (_ & H2 & _). split_and!; try done. apply H2.
Qed.

(** C39: Export and import are inverse, and the import consumes the handle: it
    returns the exported batch, leaves no box on the heap, and from then on
    importing again is the error "already consumed", marking consumed is a
    no-op and the pointers read as null. *)
Theorem cdi_import_roundtrip `{!CArrowLaws} S A b m :
  S <> 0 -> A <> 0 -> S <> A -> cdi_export S A b = Ok m ->
  exists m1, call cdi_import m = Some (ROk (VBatch b), m1) /\ consumed m1 /\
    call cdi_import m1 = Some (err_encode "CDI handle already consumed", m1) /\
    call cdi_mark_consumed m1 = Some (RAtom "ok", m1) /\
    call cdi_pointers m1 = Some (RBare (VPointers 0 0), m1).
Proof.
  intros HS HA HSA Hx.
  destruct (call_import_intact S A m) as (r & m1 & Hc & Hcon); [done..|by eapply export_intact|].
  destruct (call_consumed m1 Hcon) as (H1 & H2 & H3).
  exists m1. split; [|split_and!; try done; apply H2]. rewrite Hc. do 2 f_equal.
  destruct (call_import_reply S A m r m1) as (fa & fs & ra & rs & HbA & HbS & ->);
    [done..|by eapply export_intact|done|].
  apply bind_Ok in Hx as ([fa' fs'] & Hf%map_err_Ok & [= <-]). cbn [boxes] in *.
  rewrite lookup_insert_eq in HbA. rewrite lookup_insert_ne, lookup_insert_eq in HbS by done.
  injection HbA as <- <-. injection HbS as <- <-. unfold import_reply.
  rewrite (from_to_ffi _ _ _ Hf), struct_into_data. cbn [mbind res_bind]. by rewrite batch_struct.
Qed.

(** ** Progress *)

(** Transitions a call still has to make. *)
Definition rank (pc : Pc) : nat :=
  match pc with
  | ImportSwapSchema => 7 | ImportSwapArray _ => 6 | ImportCheck _ _ => 5
  | ImportTakeRead _ _ => 4 | ImportTakeDealloc _ _ _ _ => 3 | ImportFromFfi _ _ _ => 2
  | ImportFreeSchema _ _ => 1
  | FreeSwapSchema _ => 4 | FreeSwapArray _ _ => 3 | FreeArray _ _ _ => 2 | FreeSchema _ _ => 1
  | LoadSchema => 2 | LoadArray _ => 1
  | Done _ => 0
  end%nat.

(** Calls are wait-free: whatever the other calls do to the shared state
    between its transitions, each transition a call makes brings it strictly
    closer to its reply, and it starts at most seven away. *)
Lemma cdi_calls_terminate pc m pc' m' :
  is_done pc = false -> step_pc pc m = Some (pc', m') ->
  (rank pc' < rank pc <= 7)%nat.
Proof.
  intros Hnd Hs. destruct pc; try done; cbn in Hs;
    repeat first [ case_match; try done | apply bind_Some in Hs as (? & _ & Hs) ];
    injection Hs as <- <-; cbn; lia.
Qed.

End threads.

Lemma cdi_memory_safe_witness :
  cdi_export 16 32 sample_batch = Ok sample_shared /\
  ~ faulty (mkState sample_shared [cdi_import; cdi_mark_consumed] false) /\
  (sum_list_with imports_ok [cdi_import; cdi_mark_consumed] <= 1)%nat.
Proof.
  assert (cdi_export 16 32 sample_batch = Ok sample_shared) as Hx by reflexivity.
  destruct (cdi_memory_safe 16 32 sample_batch sample_shared) as [Hany Hconf]; [done..|].
  assert (forall ts, respects (mkState sample_shared ts false)) as Hr.
  { intros ts p bx pc Hb Hrel _. cbn in Hb. apply lookup_insert_Some in Hb as [[_ <-]|[_ Hb]]; [done|].
    apply lookup_insert_Some in Hb as [[_ <-]|[_ ?]]; done. }
  split; [exact Hx|]. split.
  - apply Hconf. eapply rtc_l; [split; [exact (step_spawn sample_shared [] CallImport)|apply Hr]|].
    eapply rtc_l; [split; [exact (step_spawn sample_shared [cdi_import] CallMarkConsumed)|apply Hr]|].
    apply rtc_refl.
  - apply (Hany (mkState sample_shared [cdi_import; cdi_mark_consumed] false)).
    eapply rtc_l; [exact (step_spawn sample_shared [] CallImport)|].
    eapply rtc_l; [exact (step_spawn sample_shared [cdi_import] CallMarkConsumed)|].
    apply rtc_refl.
Defined.

Lemma cdi_sequential_no_leak_witness :
  exists m1 m2,
    foldl (fun o c => m ← o; snd <$> call (start c) m) (Some sample_shared)
      [CallPointers; CallMarkConsumed; CallImport] = Some m1 /\
    call drop_handle m1 = Some (RAtom "ok", m2) /\ consumed m2.
Proof. by apply (cdi_sequential_no_leak 16 32 sample_batch). Defined.

Lemma cdi_import_roundtrip_witness :
  exists m1, call cdi_import sample_shared = Some (ROk (VBatch sample_batch), m1) /\ consumed m1 /\
    call cdi_import m1 = Some (err_encode "CDI handle already consumed", m1) /\
    call cdi_mark_consumed m1 = Some (RAtom "ok", m1) /\
    call cdi_pointers m1 = Some (RBare (VPointers 0 0), m1).
Proof. by apply (cdi_import_roundtrip 16 32 sample_batch). Defined.

(** The two swaps of an import are not one atomic step.  There is an
    interleaving of two imports of one handle in which both reply "CDI handle
    already consumed": one took the schema pointer, the other the array
    pointer.  The handle can then be dropped, and both boxes stay allocated
    with neither release callback run. *)
Theorem cdi_import_race_leaks `{CArrow} S A b m :
  S <> 0 -> A <> 0 -> cdi_export S A b = Ok m ->
  exists st, rtc step (mkState m [] false) st /\
    threads st = [Done (err_encode "CDI handle already consumed");
                  Done (err_encode "CDI handle already consumed"); Done (RAtom "ok")] /\
    dropping st = true /\ schema_ptr (mem st) = 0 /\ array_ptr (mem st) = 0 /\
    boxes (mem st) = boxes m /\ schema_releases (mem st) = 0%nat /\ array_releases (mem st) = 0%nat.
Proof.
  intros HS HA Hx. apply bind_Ok in Hx as ([fa fs] & _ & [= <-]). eexists. split.
  - eapply rtc_l; [apply (step_spawn _ [] CallImport)|].
    eapply rtc_l; [apply (step_spawn _ _ CallImport)|].
    eapply rtc_l; [by eapply (step_run _ _ _ 0%nat)|].
    eapply rtc_l; [by eapply (step_run _ _ _ 1%nat)|].
    eapply rtc_l; [by eapply (step_run _ _ _ 1%nat)|].
    eapply rtc_l; [by eapply (step_run _ _ _ 0%nat)|].
    eapply rtc_l; [eapply (step_run _ _ _ 0%nat); [done..|]; cbn; reflexivity|].
    eapply rtc_l; [eapply (step_run _ _ _ 1%nat); [done..|]; cbn; rewrite orb_true_r; reflexivity|].
    eapply rtc_l; [by apply step_drop|].
    eapply rtc_l; [by eapply (step_run _ _ _ 2%nat)|].
    eapply rtc_l; [by eapply (step_run _ _ _ 2%nat)|].
    eapply rtc_l; [by eapply (step_run _ _ _ 2%nat)|].
    eapply rtc_l; [by eapply (step_run _ _ _ 2%nat)|].
    apply rtc_refl.
  - done.
Qed.

Lemma cdi_import_race_leaks_witness :
  exists st, rtc step (mkState sample_shared [] false) st /\
    threads st = [Done (err_encode "CDI handle already consumed");
                  Done (err_encode "CDI handle already consumed"); Done (RAtom "ok")] /\
    dropping st = true /\ schema_ptr (mem st) = 0 /\ array_ptr (mem st) = 0 /\
    boxes (mem st) = boxes sample_shared /\
    schema_releases (mem st) = 0%nat /\ array_releases (mem st) = 0%nat.
Proof. by apply (cdi_import_race_leaks 16 32 sample_batch). Defined.
