(* ===== verification/Stream.v ===== *)
(** * Locked readers

    The stream resources of the crate keep a reader (an iterator of batches)
    behind a [Mutex].  A [Mutex] that was held while its holder panicked is
    poisoned, and locking it again fails.  [next_reply] is the common body of
    [ipc_stream_next], [parquet_stream_next] and [flight_sql_stream_next]. *)

From S2P Require Import Prelude Term Arrow.

Record Mutex (A : Type) := mkMutex { m_value : A; m_poisoned : bool }.
Arguments mkMutex {A} m_value m_poisoned.
Arguments m_value {A} m.
Arguments m_poisoned {A} m.

Definition new_mutex {A} (a : A) : Mutex A := mkMutex a false.

(** [mutex.lock()]. *)
Definition lock {A} (m : Mutex A) : option A := if m_poisoned m then None else Some (m_value m).

(** What the guard of a locked value leaves behind when it is dropped: a panic
    that unwinds through it poisons. *)
Definition poison {A} (v : A) : Mutex A := mkMutex v true.

Definition release {E A T} (r : res E A) (v : T) : Mutex T :=
  mkMutex v (match r with Panic _ => true | _ => false end).

Lemma release_quiet {E A T} (r : res E A) (v : T) : no_panic r -> release r v = new_mutex v.
Proof. by destruct r. Qed.

Lemma lock_Some {A} (m : Mutex A) g : lock m = Some g -> m = new_mutex g.
Proof. destruct m as [v []]; [done|]. by intros [= ->]. Qed.

(** The reader's [Iterator]: each call gives an item or the end, and the
    reader's next state. *)
Class BatchIter (It Fault : Type) := {
  iter_next : It -> option (res Fault RecordBatch) * It
}.

Section stream.
Context {It Fault : Type} `{BatchIter It Fault}.

(** [guard.next()] and the reply: the item is consumed, a panic poisons. *)
Definition next_reply (poisoned_error : Reply RecordBatch) (fail : Fault -> Reply RecordBatch)
    (m : Mutex It) : Reply RecordBatch * Mutex It :=
  match lock m with
  | None => (poisoned_error, m)
  | Some i =>
      let '(item, i') := iter_next i in
      match item with
      | None => (RAtom "done", mkMutex i' false)
      | Some (Ok b) => (ok_encode b, mkMutex i' false)
      | Some (Err e) => (fail e, mkMutex i' false)
      | Some (Panic s) => (RRaise s, mkMutex i' true)
      end
  end.

(** [n] calls, whoever makes them: the lock orders them. *)
Fixpoint drain (next : Mutex It -> Reply RecordBatch * Mutex It) (n : nat) (m : Mutex It)
    : list (Reply RecordBatch) :=
  match n with
  | O => []
  | S n' => let '(r, m') := next m in r :: drain next n' m'
  end.

End stream.

(** The iterator of a list of items. *)
#[export] Instance list_iter {Fault} : BatchIter (list (res Fault RecordBatch)) Fault := {
  iter_next l := match l with [] => (None, []) | x :: l' => (Some x, l') end
}.

(** The replies to the items of a reader, until one of them panics. *)
(** The reply to an Arrow error. *)
Definition arrow_fail `{Arrow} {V} (e : ArrowError) : Reply V := err_encode (error_string e).

Section replies.
Context {Fault : Type}.

Definition item_reply (fail : Fault -> Reply RecordBatch) (x : res Fault RecordBatch)
    : Reply RecordBatch :=
  match x with
  | Ok b => ok_encode b
  | Err e => fail e
  | Panic s => RRaise s
  end.

(** The items an iterator gives within [n] calls. *)
Fixpoint items `{BatchIter It Fault} (n : nat) (i : It) : list (res Fault RecordBatch) :=
  match n with
  | O => []
  | S n' => match iter_next i with (Some x, i') => x :: items n' i' | (None, _) => [] end
  end.

(** An iterator that ends within [n] calls and stays at its end. *)
Fixpoint ends_within `{BatchIter It Fault} (n : nat) (i : It) : Prop :=
  match iter_next i with
  | (None, i') => iter_next i' = (None, i') /\ i' = i
  | (Some _, i') => match n with O => False | S n' => ends_within n' i' end
  end.

Lemma drain_done `{BatchIter It Fault} pe fail k (i : It) :
  iter_next i = (None, i) ->
  drain (next_reply pe fail) k (mkMutex i false) = replicate k (RAtom "done").
Proof. intros Hi. induction k as [|k IH]; [done|]. cbn. rewrite Hi. by rewrite IH. Qed.

(** Every item is delivered once, in order, and then [:done] for ever. *)
Lemma drain_items `{BatchIter It Fault} pe fail n k (i : It) :
  ends_within n i -> Forall no_panic (items n i) ->
  drain (next_reply pe fail) (length (items n i) + k) (new_mutex i)
  = map (item_reply fail) (items n i) ++ replicate k (RAtom "done").
Proof.
  unfold new_mutex. revert i. induction n as [|n IH]; intros i He Hn; cbn [items ends_within] in *.
  - destruct (iter_next i) as [[x|] i'] eqn:Ei; [done|]. destruct He as [_ ->].
    cbn. by apply drain_done.
  - destruct (iter_next i) as [[x|] i'] eqn:Ei.
    + inversion Hn as [|? ? Hx Hn']; subst. cbn [length plus drain map app].
      unfold next_reply at 1. cbn [lock m_poisoned m_value]. rewrite Ei.
      destruct x; try done; cbn [item_reply]; f_equal; by apply IH.
    + destruct He as [_ ->]. cbn. by apply drain_done.
Qed.

(** A panic in the reader poisons the stream: every later call is an error. *)
Lemma drain_poisoned `{BatchIter It Fault} pe fail k (i : It) :
  drain (next_reply pe fail) k (mkMutex i true) = replicate k pe.
Proof. induction k as [|k IH]; [done|]. cbn. by rewrite IH. Qed.

Lemma ends_within_list (l : list (res Fault RecordBatch)) n :
  (length l <= n)%nat -> ends_within n l /\ items n l = l.
Proof.
  revert l. induction n as [|n IH]; intros [|x l] Hl; cbn in *; try done; try lia.
  destruct (IH l) as [? ->]; [lia|done].
Qed.

End replies.
