(* ===== verification/Parquet.v ===== *)
(** * Parquet (parquet.rs)

    Read and write options, the row filter and its type check, row-group
    pruning by column statistics, the reader built from the options, streams,
    writers and the footer metadata. *)

From S2P Require Import Prelude Float Utf8 Term Arrow Stream.

(** ** The parquet crate *)

Inductive Statistics :=
| StInt64 (min max : option Z)
| StInt32 (min max : option Z)
| StDouble (min max : option f64)
| StFloat (min max : option f32)
| StBoolean (min max : option bool)
| StByteArray (min max : option bytes)
| StOther.

Inductive Compression :=
| UNCOMPRESSED | SNAPPY | ZSTD (level : Z) | LZ4_RAW | GZIP (level : Z) | OtherCodec (name : string).

(** A leaf column of the file schema: its own name and its path. *)
Record ColumnDescr := mkColumnDescr { leaf_name : string; leaf_path : list string }.

Record ColumnChunk := mkChunk {
  cc_path : list string;
  cc_compression : Compression;
  cc_statistics : option Statistics;
  cc_encodings : list string;          (* Debug names *)
  cc_num_values : Z
}.

Record RowGroupMeta := mkRowGroup {
  rg_columns : list ColumnChunk;
  rg_num_rows : Z;
  rg_total_byte_size : Z
}.

Record ParquetMetaData := mkMetaData {
  pm_columns : list ColumnDescr;       (* file_metadata().schema_descr().columns() *)
  pm_row_groups : list RowGroupMeta;
  pm_num_rows : Z;
  pm_created_by : option string;
  pm_key_values : option (list (string * option string))
}.

Definition num_row_groups (m : ParquetMetaData) : nat := length (pm_row_groups m).

(** [ColumnPath::string]: the parts joined with dots. *)
Definition path_string (p : list string) : string := join "." p.

(** ** Data *)

Inductive FilterValue :=
| FInt (v : Z)
| FFloat (x : f64)
| FUtf8 (s : string)
| FBool (b : bool).

Inductive FilterExpr :=
| FEq (col : string) (v : FilterValue)
| FNe (col : string) (v : FilterValue)
| FGt (col : string) (v : FilterValue)
| FGte (col : string) (v : FilterValue)
| FLt (col : string) (v : FilterValue)
| FLte (col : string) (v : FilterValue)
| FAnd (children : list FilterExpr)
| FOr (children : list FilterExpr).

Record ReadOpts := mkReadOpts {
  ro_columns : option (list string);
  ro_row_groups : option (list Z);
  ro_filter : option FilterExpr
}.

Definition ReadOpts_default : ReadOpts := mkReadOpts None None None.

Record WriteOpts := mkWriteOpts {
  wo_compression : option Compression;
  wo_row_group_size : option Z;
  wo_dictionary : option bool
}.

Definition WriteOpts_default : WriteOpts := mkWriteOpts None None None.

(** The reader builder of the crate, as the options configure it. *)
Record Builder (Mask : Type) := mkBuilder {
  b_metadata : ParquetMetaData;
  b_schema : Schema;
  b_source : bytes;
  b_row_groups : option (list Z);
  b_projection : option Mask;
  b_row_filter : option (Mask * FilterExpr)
}.
Arguments mkBuilder {Mask} _ _ _ _ _ _.
Arguments b_metadata {Mask} b.
Arguments b_schema {Mask} b.
Arguments b_source {Mask} b.
Arguments b_row_groups {Mask} b.
Arguments b_projection {Mask} b.
Arguments b_row_filter {Mask} b.

Class ParquetCrate := {
  Mask : Type;
  Reader : Type;
  WriterProps : Type;
  Writer : Type;
  reader_iter : BatchIter Reader ArrowError;
  projection_columns : list ColumnDescr -> list string -> Mask;
  builder_try_new : bytes -> res string (Builder Mask);
  builder_build : Builder Mask -> res string (Schema * Reader);
  parse_metadata : bytes -> res string ParquetMetaData;
  zstd_try_new : Z -> res string Z;
  zstd_default : Z;
  gzip_default : Z;
  props_builder : WriterProps;
  set_compression : Compression -> WriterProps -> WriterProps;
  set_max_row_group_row_count : option Z -> WriterProps -> WriterProps;
  set_dictionary_enabled : bool -> WriterProps -> WriterProps;
  writer_try_new : Schema -> WriterProps -> res string Writer;
  writer_write : Writer -> RecordBatch -> res string Writer;
  writer_close : Writer -> res string bytes;
  display_compression : Compression -> string;
  display_f32 : f32 -> string;
  debug_atom : string -> string
}.
#[export] Existing Instance reader_iter.

(** ** Options *)

Section decode.
Context `{Rustler Term}.

Definition decode_string_list (term : Term) : res string (list string) :=
  list ← ok_or "columns must be a list of strings" (get_list term);
  collect_list (fun t => ok_or "column name must be a string" (get_string t)) list.

Definition decode_usize_list (term : Term) : res string (list Z) :=
  list ← ok_or "row_groups must be a list of non-neg integers" (get_list term);
  collect_list (fun t =>
    n ← ok_or "row_group index must be an integer" (get_i64 t);
    if n <? 0 then Err "row_group index must be non-negative" else Ok n) list.

Definition decode_filter_value (term : Term) : res string FilterValue :=
  match get_bool term with
  | Some b => Ok (FBool b)
  | None =>
  match get_i64 term with
  | Some i => Ok (FInt i)
  | None =>
  match get_f64 term with
  | Some f => Ok (FFloat f)
  | None =>
  match get_string term with
  | Some s => Ok (FUtf8 s)
  | None => Err "filter value must be integer, float, string, or boolean"
  end
  end
  end
  end.

Fixpoint decode_filter_expr (fuel : nat) (term : Term) : res string FilterExpr :=
  match fuel with
  | O => Panic "out of fuel"
  | S fuel' =>
    tuple ← ok_or "filter must be a tuple like {:gt, col, value}" (get_tuple term);
    match tuple with
    | [] => Err "empty filter tuple"
    | t0 :: rest =>
      op_atom ← ok_or "filter op must be an atom" (get_atom t0);
      if String.eqb op_atom "and" || String.eqb op_atom "or" then
        match rest with
        | [t1] =>
            list ← ok_or ":and/:or expects a list of filters" (get_list t1);
            children ← collect_list (decode_filter_expr fuel') list;
            match children with
            | [] => Err ":and/:or filter list must not be empty"
            | _ => Ok (if String.eqb op_atom "and" then FAnd children else FOr children)
            end
        | _ => Err ":{and|or} filter expects {:and|:or, [filters]}"
        end
      else
        match rest with
        | [t1; t2] =>
            col ← ok_or "filter column must be a string" (get_string t1);
            val ← decode_filter_value t2;
            if String.eqb op_atom "eq" then Ok (FEq col val)
            else if String.eqb op_atom "ne" then Ok (FNe col val)
            else if String.eqb op_atom "gt" then Ok (FGt col val)
            else if String.eqb op_atom "gte" then Ok (FGte col val)
            else if String.eqb op_atom "lt" then Ok (FLt col val)
            else if String.eqb op_atom "lte" then Ok (FLte col val)
            else Err "unsupported filter op (supported: eq ne gt gte lt lte and or)"
        | _ => Err "comparison filter expects {:op, column, value}"
        end
    end
  end.

Context `{ParquetCrate}.

(** A keyword list: every item is a 2-tuple with an atom key, processed in
    order, so that the last entry of a key wins. *)
Definition is_nil (term : Term) : bool :=
  match get_atom term with Some a => String.eqb a "nil" | None => false end.

Definition keyword_item (item : Term) : res string (string * Term) :=
  tuple ← ok_or "opt must be {key, value}" (get_tuple item);
  match tuple with
  | [k; v] => key ← ok_or "opt key must be atom" (get_atom k); Ok (key, v)
  | _ => Err "opt must be a 2-tuple"
  end.

Definition set_read_opt (opts : ReadOpts) (key : string) (v : Term) : res string ReadOpts :=
  if String.eqb key "columns" then
    l ← decode_string_list v; Ok (mkReadOpts (Some l) (ro_row_groups opts) (ro_filter opts))
  else if String.eqb key "row_groups" then
    l ← decode_usize_list v; Ok (mkReadOpts (ro_columns opts) (Some l) (ro_filter opts))
  else if String.eqb key "filters" then
    f ← decode_filter_expr (S (term_size v)) v;
    Ok (mkReadOpts (ro_columns opts) (ro_row_groups opts) (Some f))
  else Err ("unknown read option: " +:+ debug_atom key).

Fixpoint read_items (list : list Term) (opts : ReadOpts) : res string ReadOpts :=
  match list with
  | [] => Ok opts
  | item :: rest =>
      '(key, v) ← keyword_item item;
      opts' ← set_read_opt opts key v;
      read_items rest opts'
  end.

Definition decode_read_opts (term : Term) : res string ReadOpts :=
  if is_nil term then Ok ReadOpts_default
  else
    list ← ok_or "read opts must be a keyword list" (get_list term);
    opts ← read_items (list_items list) ReadOpts_default;
    _ ← list_end list;
    Ok opts.

Definition decode_compression (term : Term) : res string Compression :=
  let by_atom :=
    atom ← ok_or "compression must be an atom or {:zstd, level}" (get_atom term);
    if String.eqb atom "none" || String.eqb atom "uncompressed" then Ok UNCOMPRESSED
    else if String.eqb atom "snappy" then Ok SNAPPY
    else if String.eqb atom "zstd" then Ok (ZSTD zstd_default)
    else if String.eqb atom "lz4" then Ok LZ4_RAW
    else if String.eqb atom "gzip" then Ok (GZIP gzip_default)
    else Err "unsupported compression (supported: :none :snappy :zstd :lz4 :gzip)" in
  match get_tuple term with
  | Some [t0; t1] =>
      tag ← ok_or "compression tuple tag must be atom" (get_atom t0);
      if String.eqb tag "zstd" then
        level ← ok_or "zstd level must be an integer" (get_i64 t1);
        level_i32 ← ok_or ("zstd level " +:+ pretty level +:+ " out of range") (try_from_s 32 level);
        z ← map_err (fun e => "invalid zstd level: " +:+ e) (zstd_try_new level_i32);
        Ok (ZSTD z)
      else Err "unsupported compression tuple (only {:zstd, level})"
  | _ => by_atom
  end.

Definition set_write_opt (opts : WriteOpts) (key : string) (v : Term) : res string WriteOpts :=
  if String.eqb key "compression" then
    c ← decode_compression v; Ok (mkWriteOpts (Some c) (wo_row_group_size opts) (wo_dictionary opts))
  else if String.eqb key "row_group_size" then
    n ← ok_or "row_group_size must be a positive integer" (get_i64 v);
    if n <=? 0 then Err "row_group_size must be positive"
    else Ok (mkWriteOpts (wo_compression opts) (Some n) (wo_dictionary opts))
  else if String.eqb key "dictionary" then
    b ← ok_or "dictionary must be a boolean" (get_bool v);
    Ok (mkWriteOpts (wo_compression opts) (wo_row_group_size opts) (Some b))
  else Err ("unknown write option: " +:+ debug_atom key).

Fixpoint write_items (list : list Term) (opts : WriteOpts) : res string WriteOpts :=
  match list with
  | [] => Ok opts
  | item :: rest =>
      '(key, v) ← keyword_item item;
      opts' ← set_write_opt opts key v;
      write_items rest opts'
  end.

Definition decode_write_opts (term : Term) : res string WriteOpts :=
  if is_nil term then Ok WriteOpts_default
  else
    list ← ok_or "write opts must be a keyword list" (get_list term);
    opts ← write_items (list_items list) WriteOpts_default;
    _ ← list_end list;
    Ok opts.

Definition build_writer_props (opts : WriteOpts) : WriterProps :=
  let b := props_builder in
  let b := match wo_compression opts with Some c => set_compression c b | None => b end in
  let b := match wo_row_group_size opts with
           | Some n => set_max_row_group_row_count (Some n) b | None => b end in
  match wo_dictionary opts with Some d => set_dictionary_enabled d b | None => b end.

End decode.

(** ** The row filter *)

Section filter.
Context `{Arrow}.

(** [#[derive(Debug)]] on [FilterValue]. *)
Definition debug_filter_value (v : FilterValue) : string :=
  match v with
  | FInt v => "Int(" +:+ pretty v +:+ ")"
  | FFloat x => "Float(" +:+ debug_f64 x +:+ ")"
  | FUtf8 s => "Utf8(" +:+ debug_str s +:+ ")"
  | FBool b => "Bool(" +:+ (if b then "true" else "false") +:+ ")"
  end.

Definition make_scalar (value : FilterValue) (dt : DataType) : res string Array :=
  match value, dt with
  | FInt v, TInt64 => Ok (IntArray TInt64 [Some v])
  | FInt v, TInt32 =>
      i ← ok_or ("filter value " +:+ pretty v +:+ " out of range for Int32 column") (try_from_s 32 v);
      Ok (IntArray TInt32 [Some i])
  | FFloat v, TFloat64 => Ok (FloatArray TFloat64 [Some v])
  | FFloat v, TFloat32 =>
      let f := f32_of_f64 v in
      if f_ne (f64_of_f32 f) v then
        Err ("filter value " +:+ display_f64 v +:+ " is not exactly representable as Float32")
      else Ok (FloatArray TFloat32 [Some f])
  | FUtf8 s, TUtf8 => Ok (BytesArray TUtf8 [Some s])
  | FBool b, TBoolean => Ok (BooleanArray [Some b])
  | FInt v, TFloat64 => Ok (FloatArray TFloat64 [Some (f64_of_int v)])
  | _, _ => Err ("cannot compare filter value " +:+ debug_filter_value value
                 +:+ " against column type " +:+ debug_type dt)
  end.

(** The kernel of an operator name. *)
Definition cmp_of_name (op : string) : option CmpOp :=
  if String.eqb op "eq" then Some CEq
  else if String.eqb op "ne" then Some CNeq
  else if String.eqb op "gt" then Some CGt
  else if String.eqb op "gte" then Some CGtEq
  else if String.eqb op "lt" then Some CLt
  else if String.eqb op "lte" then Some CLtEq
  else None.

Definition eval_cmp (array : Array) (value : FilterValue) (op : string)
    : res ArrowError (list (option bool)) :=
  scalar_arr ← map_err ComputeError (make_scalar value (data_type array));
  match cmp_of_name op with
  | Some k => cmp k (DArray array) (DScalar scalar_arr)
  | None => Err (ComputeError ("unknown op " +:+ op))
  end.

(** The loop of [And] and [Or]; [acc] is the [Option<BooleanArray>] it updates. *)
Definition fold_masks (eval : FilterExpr -> res ArrowError (list (option bool)))
    (kernel : list (option bool) -> list (option bool) -> res ArrowError (list (option bool))) :=
  fix go (acc : option (list (option bool))) (children : list FilterExpr)
      : res ArrowError (option (list (option bool))) :=
    match children with
    | [] => Ok acc
    | child :: rest =>
        mask ← eval child;
        acc' ← match acc with None => Ok mask | Some prev => kernel prev mask end;
        go (Some acc') rest
    end.

Fixpoint eval_filter_on_batch (batch : RecordBatch) (expr : FilterExpr)
    : res ArrowError (list (option bool)) :=
  let compare col v op :=
    arr ← ok_or (ComputeError ("column '" +:+ col +:+ "' not found")) (column_by_name batch col);
    eval_cmp arr v op in
  match expr with
  | FEq col v => compare col v "eq"
  | FNe col v => compare col v "ne"
  | FGt col v => compare col v "gt"
  | FGte col v => compare col v "gte"
  | FLt col v => compare col v "lt"
  | FLte col v => compare col v "lte"
  | FAnd children =>
      acc ← fold_masks (eval_filter_on_batch batch) bool_and None children;
      ok_or (ComputeError "empty and") acc
  | FOr children =>
      acc ← fold_masks (eval_filter_on_batch batch) bool_or None children;
      ok_or (ComputeError "empty or") acc
  end.

Definition push_column (c : string) (out : list string) : list string :=
  if existsb (String.eqb c) out then out else out ++ [c].

Fixpoint collect_filter_columns (expr : FilterExpr) (out : list string) : list string :=
  match expr with
  | FEq c _ | FNe c _ | FGt c _ | FGte c _ | FLt c _ | FLte c _ => push_column c out
  | FAnd xs | FOr xs => foldl (fun o x => collect_filter_columns x o) out xs
  end.

Fixpoint validate_filter_types (schema : Schema) (expr : FilterExpr) : res string unit :=
  match expr with
  | FAnd xs | FOr xs =>
      _ ← collect (validate_filter_types schema) xs;
      Ok ()
  | FEq col v | FNe col v | FGt col v | FGte col v | FLt col v | FLte col v =>
      field ← ok_or ("filter column '" +:+ col +:+ "' not found in schema")
        (field_with_name schema col);
      _ ← make_scalar v (field_type field);
      Ok ()
  end.

End filter.

(** ** Pruning by statistics *)

Section pruning.

Definition parquet_leaf_index (schema_descr : list ColumnDescr) (name : string) : option nat :=
  fst <$> list_find (fun c => String.eqb (leaf_name c) name
                              || String.eqb (path_string (leaf_path c)) name) schema_descr.

(** The comparison operators match on the constructor only. *)
Definition int_range_may_match (expr : FilterExpr) (min max val : Z) : bool :=
  match expr with
  | FEq _ _ => (min <=? val) && (val <=? max)
  | FNe _ _ => true
  | FGt _ _ => val <? max
  | FGte _ _ => val <=? max
  | FLt _ _ => min <? val
  | FLte _ _ => min <=? val
  | _ => true
  end.

Definition float_range_may_match (expr : FilterExpr) (min max val : f64) : bool :=
  match expr with
  | FEq _ _ => f_ge val min && f_le val max
  | FNe _ _ => true
  | FGt _ _ => f_gt max val
  | FGte _ _ => f_ge max val
  | FLt _ _ => f_lt min val
  | FLte _ _ => f_le min val
  | _ => true
  end.

Definition bytes_range_may_match (expr : FilterExpr) (min_s max_s val : string) : bool :=
  match expr with
  | FEq _ _ => str_ge val min_s && str_le val max_s
  | FNe _ _ => true
  | FGt _ _ => str_gt max_s val
  | FGte _ _ => str_ge max_s val
  | FLt _ _ => str_lt min_s val
  | FLte _ _ => str_le min_s val
  | _ => true
  end.

Definition stats_may_match (stats : Statistics) (expr : FilterExpr) (v : FilterValue) : bool :=
  match stats, v with
  | StInt64 (Some min) (Some max), FInt val => int_range_may_match expr min max val
  | StInt32 (Some min) (Some max), FInt val => int_range_may_match expr min max val
  | StDouble (Some min) (Some max), FFloat val => float_range_may_match expr min max val
  | StFloat (Some min) (Some max), FFloat val =>
      float_range_may_match expr (f64_of_f32 min) (f64_of_f32 max) val
  | StBoolean (Some min) (Some max), FBool val =>
      int_range_may_match expr (Z.b2z min) (Z.b2z max) (Z.b2z val)
  | StByteArray (Some min) (Some max), FUtf8 val =>
      bytes_range_may_match expr (from_utf8_lossy min) (from_utf8_lossy max) val
  | _, _ => true
  end.

(** The caller passes a valid [rg_idx]: [metadata.row_group] panics otherwise. *)
Fixpoint row_group_may_match (rg : RowGroupMeta) (schema_descr : list ColumnDescr)
    (expr : FilterExpr) : bool :=
  match expr with
  | FAnd xs => forallb (row_group_may_match rg schema_descr) xs
  | FOr xs => existsb (row_group_may_match rg schema_descr) xs
  | FEq col v | FNe col v | FGt col v | FGte col v | FLt col v | FLte col v =>
      match parquet_leaf_index schema_descr col with
      | None => true
      | Some leaf_idx =>
          match rg_columns rg !! leaf_idx with
          | None => true
          | Some chunk =>
              match cc_statistics chunk with
              | None => true
              | Some stats => stats_may_match stats expr v
              end
          end
      end
  end.

End pruning.

(** ** Readers *)

Section readers.
Context `{Arrow, ParquetCrate}.

(** [selected.retain(|&i| row_group_may_match(&metadata, i, ..))]; an index
    past the end of the metadata panics. *)
Fixpoint retain_groups (metadata : ParquetMetaData) (filter : FilterExpr) (sel : list Z)
    : res string (list Z) :=
  match sel with
  | [] => Ok []
  | i :: rest =>
      rg ← index (pm_row_groups metadata) (Z.to_nat i);
      rest' ← retain_groups metadata filter rest;
      Ok (if row_group_may_match rg (pm_columns metadata) filter then i :: rest' else rest')
  end.

Fixpoint check_row_groups (total : Z) (rg : list Z) : res string unit :=
  match rg with
  | [] => Ok ()
  | i :: rest =>
      if total <=? i then
        Err ("row_group index " +:+ pretty i +:+ " out of range (file has " +:+ pretty total
             +:+ " row groups)")
      else check_row_groups total rest
  end.

Definition saturating_sub (a b : Z) : Z := Z.max 0 (a - b).

(** Returns the configured builder with [(total, selected, skipped)]. *)
Definition apply_read_opts (builder : Builder Mask) (opts : ReadOpts)
    : res string (Builder Mask * Z * Z * Z) :=
  let metadata := b_metadata builder in
  let total := Z.of_nat (num_row_groups metadata) in
  _ ← match ro_filter opts with
      | Some filter => validate_filter_types (b_schema builder) filter
      | None => Ok ()
      end;
  selected ← match ro_row_groups opts with
             | Some rg => _ ← check_row_groups total rg; Ok rg
             | None => Ok (seqZ 0 total)
             end;
  selected ← match ro_filter opts with
             | Some filter => retain_groups metadata filter selected
             | None => Ok selected
             end;
  let selected_count := Z.of_nat (length selected) in
  let skipped := saturating_sub total selected_count in
  let column_mask := projection_columns (pm_columns metadata) <$> ro_columns opts in
  let filter_mask_and_expr :=
    (fun filter => (projection_columns (pm_columns metadata) (collect_filter_columns filter []), filter))
      <$> ro_filter opts in
  let b := mkBuilder metadata (b_schema builder) (b_source builder) (Some selected)
             (match column_mask with Some mask => Some mask | None => b_projection builder end)
             (match filter_mask_and_expr with Some pf => Some pf | None => b_row_filter builder end) in
  Ok (b, total, selected_count, skipped).

Record ExArrowParquetStream := mkParquetStream {
  ps_schema : Schema;
  ps_reader : Mutex Reader;
  row_groups_total : Z;
  row_groups_selected : Z;
  row_groups_skipped : Z
}.

Definition build_stream (builder : Builder Mask) (opts : ReadOpts) : Reply ExArrowParquetStream :=
  reply (
    '(builder, total, selected, skipped) ← apply_read_opts builder opts;
    '(schema, reader) ← builder_build builder;
    Ok (mkParquetStream schema (new_mutex reader) total selected skipped)).

(** [file] is the result of [File::open] with the contents read through it. *)
Definition parquet_reader_from_file `{Rustler Term} (file : res string bytes) (opts : Term)
    : Reply ExArrowParquetStream :=
  reply_with (decode_read_opts opts) (fun read_opts =>
  reply_with file (fun contents =>
  reply_with (builder_try_new contents) (fun builder =>
  build_stream builder read_opts))).

Definition parquet_reader_from_binary `{Rustler Term} (binary : bytes) (opts : Term)
    : Reply ExArrowParquetStream :=
  reply_with (decode_read_opts opts) (fun read_opts =>
  reply_with (builder_try_new binary) (fun builder =>
  build_stream builder read_opts)).

Definition parquet_stream_schema (stream : ExArrowParquetStream) : Reply Schema :=
  RBare (ps_schema stream).

(** The map [%{row_groups_total, row_groups_selected, row_groups_skipped}]. *)
Definition parquet_stream_read_stats (stream : ExArrowParquetStream) : Reply (list (string * Z)) :=
  RBare [("row_groups_total", row_groups_total stream);
         ("row_groups_selected", row_groups_selected stream);
         ("row_groups_skipped", row_groups_skipped stream)].

Definition parquet_stream_next (m : Mutex Reader) : Reply RecordBatch * Mutex Reader :=
  next_reply (err_encode "parquet stream lock poisoned") arrow_fail m.

(** ** Writers *)

Fixpoint write_all (writer : Writer) (batches : list RecordBatch) : res string Writer :=
  match batches with
  | [] => Ok writer
  | b :: rest => w ← writer_write writer b; write_all w rest
  end.

(** The bytes of a written file; the NIF to a file leaves them at the path. *)
Definition write_parquet (schema : Schema) (batches : list RecordBatch) (opts : WriteOpts)
    : res string bytes :=
  let props := build_writer_props opts in
  writer ← writer_try_new schema props;
  writer ← write_all writer batches;
  writer_close writer.

(** [file] is the result of [File::create]. *)
Definition parquet_writer_to_file `{Rustler Term} (file : res string unit) (schema : Schema)
    (batches : list RecordBatch) (opts : Term) : Reply bytes :=
  reply_with (decode_write_opts opts) (fun write_opts =>
  reply_with file (fun _ =>
  reply_with (write_parquet schema batches write_opts) (fun _ => RAtom "ok"))).

Definition parquet_writer_to_binary `{Rustler Term} (schema : Schema) (batches : list RecordBatch)
    (opts : Term) : Reply bytes :=
  reply_with (decode_write_opts opts) (fun write_opts =>
  reply_with (write_parquet schema batches write_opts) (fun buf =>
  if owned_binary_new (Z.of_nat (length buf)) then ok_encode buf else err_encode "binary alloc")).

End readers.

(** ** Footer metadata *)

Section metadata.
Context `{Arrow, ParquetCrate}.

(** The terms of the metadata map. *)
Inductive MetaTerm :=
| MInt (v : Z)
| MString (s : string)
| MNil
| MList (l : list MetaTerm)
| MPair (a b : MetaTerm)
| MMap (entries : list (string * MetaTerm)).

(** [map_put]: replaces the key's value or adds the key; it fails on a term
    that is not a map, and then the term is kept. *)
Fixpoint assoc_put (key : string) (value : MetaTerm) (entries : list (string * MetaTerm))
    : list (string * MetaTerm) :=
  match entries with
  | [] => [(key, value)]
  | (k, v) :: rest =>
      if String.eqb k key then (key, value) :: rest else (k, v) :: assoc_put key value rest
  end.

Definition put_atom_key (map : MetaTerm) (key : string) (value : MetaTerm) : MetaTerm :=
  match map with
  | MMap entries => MMap (assoc_put key value entries)
  | _ => map
  end.

Definition bool_string (b : bool) : string := if b then "true" else "false".

Definition min_max_strings (stats : option Statistics) : option string * option string :=
  match stats with
  | Some (StInt64 mn mx) | Some (StInt32 mn mx) => (option_map pretty mn, option_map pretty mx)
  | Some (StDouble mn mx) => (option_map display_f64 mn, option_map display_f64 mx)
  | Some (StFloat mn mx) => (option_map display_f32 mn, option_map display_f32 mx)
  | Some (StByteArray mn mx) => (option_map from_utf8_lossy mn, option_map from_utf8_lossy mx)
  | Some (StBoolean mn mx) => (option_map bool_string mn, option_map bool_string mx)
  | _ => (None, None)
  end.

Definition optional_string (s : option string) : MetaTerm :=
  match s with Some s => MString s | None => MNil end.

Definition encode_column (col : ColumnChunk) : MetaTerm :=
  let '(min_s, max_s) := min_max_strings (cc_statistics col) in
  let m := MMap [] in
  let m := put_atom_key m "path" (MString (path_string (cc_path col))) in
  let m := put_atom_key m "compression" (MString (display_compression (cc_compression col))) in
  let m := put_atom_key m "encodings" (MList (map MString (cc_encodings col))) in
  let m := put_atom_key m "num_values" (MInt (cc_num_values col)) in
  let m := put_atom_key m "min" (optional_string min_s) in
  put_atom_key m "max" (optional_string max_s).

Definition encode_row_group (i : nat) (rg : RowGroupMeta) : MetaTerm :=
  let m := MMap [] in
  let m := put_atom_key m "index" (MInt (Z.of_nat i)) in
  let m := put_atom_key m "num_rows" (MInt (rg_num_rows rg)) in
  let m := put_atom_key m "total_byte_size" (MInt (rg_total_byte_size rg)) in
  put_atom_key m "columns" (MList (map encode_column (rg_columns rg))).

Definition encode_metadata (metadata : ParquetMetaData) : Reply MetaTerm :=
  let kv := match pm_key_values metadata with
            | Some l => map (fun '(k, v) => MPair (MString k) (MString (default EmptyString v))) l
            | None => []
            end in
  let m := MMap [] in
  let m := put_atom_key m "num_rows" (MInt (pm_num_rows metadata)) in
  let m := put_atom_key m "num_row_groups" (MInt (Z.of_nat (num_row_groups metadata))) in
  let m := put_atom_key m "created_by" (MString (default EmptyString (pm_created_by metadata))) in
  let m := put_atom_key m "row_groups" (MList (imap encode_row_group (pm_row_groups metadata))) in
  ok_encode (put_atom_key m "key_value_metadata" (MList kv)).

Definition parquet_metadata_from_file (file : res string bytes) : Reply MetaTerm :=
  reply_with file (fun contents => reply_with (parse_metadata contents) encode_metadata).

Definition parquet_metadata_from_binary (binary : bytes) : Reply MetaTerm :=
  reply_with (parse_metadata binary) encode_metadata.

End metadata.
