(* ===== verification/ParquetFacts.v ===== *)
(** * Facts about Parquet reading

    The row filter against a row-by-row semantics, its type check, and the
    soundness of row-group pruning. *)

From S2P Require Import Prelude Float Utf8 Term Arrow ArrowRef Stream Parquet.

(** ** Structure of filters *)

Section induction.
Context (P : FilterExpr -> Prop).
Context (Hcmp : forall e, (match e with FAnd _ | FOr _ => False | _ => True end) -> P e).
Context (Hand : forall xs, Forall P xs -> P (FAnd xs)).
Context (Hor : forall xs, Forall P xs -> P (FOr xs)).

Fixpoint filter_ind (e : FilterExpr) : P e :=
  let go := fix go l : Forall P l :=
    match l with
    | [] => Forall_nil_2 P
    | x :: l' => Forall_cons_2 P x l' (filter_ind x) (go l')
    end in
  match e with
  | FAnd xs => Hand xs (go xs)
  | FOr xs => Hor xs (go xs)
  | e => Hcmp e I
  end.

End induction.

(** The column, literal and kernel of a comparison. *)
Definition comparison_parts (e : FilterExpr) : option (string * FilterValue * CmpOp) :=
  match e with
  | FEq c v => Some (c, v, CEq)
  | FNe c v => Some (c, v, CNeq)
  | FGt c v => Some (c, v, CGt)
  | FGte c v => Some (c, v, CGtEq)
  | FLt c v => Some (c, v, CLt)
  | FLte c v => Some (c, v, CLtEq)
  | _ => None
  end.

(** The filters [decode_filter_expr] builds: no empty conjunction. *)
Inductive wf_filter : FilterExpr -> Prop :=
| wf_cmp e : comparison_parts e <> None -> wf_filter e
| wf_and x xs : Forall wf_filter (x :: xs) -> wf_filter (FAnd (x :: xs))
| wf_or x xs : Forall wf_filter (x :: xs) -> wf_filter (FOr (x :: xs)).

Fixpoint filter_columns (e : FilterExpr) : list string :=
  match e with
  | FEq c _ | FNe c _ | FGt c _ | FGte c _ | FLt c _ | FLte c _ => [c]
  | FAnd xs | FOr xs => concat (map filter_columns xs)
  end.

Lemma push_column_elem c out x : x ∈ push_column c out <-> x = c \/ x ∈ out.
Proof.
  unfold push_column. destruct (existsb (String.eqb c) out) eqn:E; [|set_solver].
  apply existsb_exists in E as (y & Hy & ->%String.eqb_eq). apply list_elem_of_In in Hy. set_solver.
Qed.

Lemma push_column_nodup c out : NoDup out -> NoDup (push_column c out).
Proof.
  unfold push_column. destruct (existsb (String.eqb c) out) eqn:E; [done|]. intros Hn.
  apply NoDup_app. split_and!; [done| |apply NoDup_singleton].
  intros x Hx ->%list_elem_of_singleton. assert (existsb (String.eqb c) out = true); [|congruence].
  apply existsb_exists. exists c. split; [by apply list_elem_of_In|apply String.eqb_refl].
Qed.

(** [collect_filter_columns] adds each column of the filter once. *)
Lemma collect_filter_columns_spec e out :
  (forall x, x ∈ collect_filter_columns e out <-> x ∈ out \/ x ∈ filter_columns e) /\
  (NoDup out -> NoDup (collect_filter_columns e out)).
Proof.
  revert out. assert (forall xs, Forall (fun e => forall out,
      (forall x, x ∈ collect_filter_columns e out <-> x ∈ out \/ x ∈ filter_columns e) /\
      (NoDup out -> NoDup (collect_filter_columns e out))) xs -> forall out,
      (forall x, x ∈ foldl (fun o x => collect_filter_columns x o) out xs <->
                 x ∈ out \/ x ∈ concat (map filter_columns xs)) /\
      (NoDup out -> NoDup (foldl (fun o x => collect_filter_columns x o) out xs))) as Hl.
  { induction 1 as [|y xs He _ IH]; intros out; cbn; [set_solver|].
    destruct (He out) as [He1 He2], (IH (collect_filter_columns y out)) as [IH1 IH2].
    split; [|auto]. intros x. rewrite IH1, He1, elem_of_app. tauto. }
  induction e as [e He|xs IH|xs IH] using filter_ind; intros out.
  - destruct e; try done; cbn; (split; [intros x; rewrite push_column_elem; set_solver|apply push_column_nodup]).
  - by apply Hl.
  - by apply Hl.
Qed.

(** ** Row-by-row meaning *)

Section rows.
Context `{Arrow}.

Definition value_cell (v : FilterValue) (dt : DataType) : option Cell :=
  match make_scalar v dt with Ok a => mjoin (head (cells a)) | _ => None end.

(** Conjunction and disjunction are null as soon as one operand is. *)
Fixpoint filter_row (b : RecordBatch) (e : FilterExpr) (i : nat) : option bool :=
  match e with
  | FAnd (x :: xs) => foldl and_cells (filter_row b x i) (map (fun c => filter_row b c i) xs)
  | FOr (x :: xs) => foldl or_cells (filter_row b x i) (map (fun c => filter_row b c i) xs)
  | FAnd [] | FOr [] => None
  | _ =>
      '(col, v, k) ← comparison_parts e;
      arr ← column_by_name b col;
      x ← cells arr !! i;
      cmp_cells k x (value_cell v (data_type arr))
  end.

Definition filter_mask (b : RecordBatch) (e : FilterExpr) : list (option bool) :=
  map (filter_row b e) (seq 0 (rb_num_rows b)).

Lemma filter_row_cmp b e col v k i :
  comparison_parts e = Some (col, v, k) ->
  filter_row b e i = (arr ← column_by_name b col; x ← cells arr !! i;
                      cmp_cells k x (value_cell v (data_type arr))).
Proof. by destruct e; intros [= <- <- <-]. Qed.

Lemma make_scalar_one v dt a :
  make_scalar v dt = Ok a -> data_type a = dt /\ exists c, cells a = [Some c] /\ value_cell v dt = Some c.
Proof.
  intros Ha. assert (data_type a = dt /\ exists c, cells a = [Some c]) as [Ht [c Hc]].
  { unfold make_scalar in Ha. destruct v, dt; try discriminate Ha;
      repeat match type of Ha with context [if ?c then _ else _] => destruct c; try discriminate Ha end;
      repeat (apply bind_Ok in Ha as (? & _ & Ha)); injection Ha as <-; cbn; eauto. }
  split; [done|]. exists c. split; [done|]. unfold value_cell. by rewrite Ha, Hc.
Qed.

Lemma make_scalar_comparable v dt a : make_scalar v dt = Ok a -> type_kind dt <> KNone.
Proof. unfold make_scalar. by destruct v, dt. Qed.

Lemma filter_scalar_no_panic v dt : no_panic (make_scalar v dt).
Proof.
  unfold make_scalar. destruct v, dt; try done; repeat case_match; try done.
  by apply bind_no_panic; [apply ok_or_no_panic|].
Qed.

(** The kernel name [eval_cmp] is called with. *)
Definition op_name (k : CmpOp) : string :=
  match k with
  | CEq => "eq" | CNeq => "ne" | CGt => "gt" | CGtEq => "gte" | CLt => "lt" | CLtEq => "lte"
  end.

Lemma eval_comparison b e col v k :
  comparison_parts e = Some (col, v, k) ->
  eval_filter_on_batch b e =
  (arr ← ok_or (ComputeError ("column '" +:+ col +:+ "' not found")) (column_by_name b col);
   eval_cmp arr v (op_name k)).
Proof. by destruct e; intros [= <- <- <-]. Qed.

Lemma cmp_of_op_name k : cmp_of_name (op_name k) = Some k.
Proof. by destruct k. Qed.

Context {Hcmp : CmpLaws} {Hbool : BoolLaws} {Hbatch : BatchLaws}.
Context (b : RecordBatch) (Hwf : wf_batch b).

Notation n := (rb_num_rows b).

Lemma batch_column_len name c : column_by_name b name = Some c -> array_len c = n.
Proof.
  rewrite column_by_name_index. intros (i & _ & Hc)%bind_Some.
  destruct Hwf as (_ & Hl & _). rewrite Forall_forall in Hl.
  eapply Hl, list_elem_of_lookup_2, Hc.
Qed.

Lemma map_seq_zip (cell : option bool -> option bool -> option bool) f g :
  zip_with cell (map f (seq 0 n)) (map g (seq 0 n)) = map (fun i => cell (f i) (g i)) (seq 0 n).
Proof. generalize (seq 0 n). induction l as [|i l IH]; [done|]. cbn. by rewrite IH. Qed.

Lemma fold_masks_is kernel cell :
  (forall l r m, kernel l r = Ok m -> m = zip_with cell l r) ->
  forall xs f r,
  Forall (fun x => forall m, eval_filter_on_batch b x = Ok m -> m = filter_mask b x) xs ->
  fold_masks (eval_filter_on_batch b) kernel (Some (map f (seq 0 n))) xs = Ok r ->
  r = Some (map (fun i => foldl cell (f i) (map (fun c => filter_row b c i) xs)) (seq 0 n)).
Proof.
  intros Hk xs. induction xs as [|x xs IH]; intros f r Hx Hr; cbn in Hr; [by injection Hr as <-|].
  inversion Hx as [|? ? Hx1 Hx2]; subst.
  apply bind_Ok in Hr as (m & Hm%Hx1 & Hr). apply bind_Ok in Hr as (acc & Hacc%Hk & Hr).
  subst m acc. unfold filter_mask in Hr. rewrite map_seq_zip in Hr. by apply IH in Hr.
Qed.

(** The vectorised filter computes the row-by-row mask. *)
Lemma eval_filter_is e m : eval_filter_on_batch b e = Ok m -> m = filter_mask b e.
Proof.
  revert m. induction e as [e He|xs IH|xs IH] using filter_ind; intros m Hm.
  - destruct (comparison_parts e) as [[[col v] k]|] eqn:Ep; [|by destruct e].
    rewrite (eval_comparison _ _ _ _ _ Ep) in Hm.
    apply bind_Ok in Hm as (arr & Harr%ok_or_Ok & Hm). apply bind_Ok in Hm as (s & Hs%map_err_Ok & Hm).
    rewrite cmp_of_op_name in Hm. destruct (make_scalar_one _ _ _ Hs) as (_ & c & Hc & Hv).
    eapply cmp_array_scalar in Hm; [|exact Hc]. subst m.
    pose proof (batch_column_len _ _ Harr) as Hl. rewrite <-cells_length in Hl.
    unfold filter_mask. apply list_eq. intros i. rewrite !list_lookup_fmap.
    destruct (decide (i < n)%nat) as [Hi|Hi].
    + rewrite lookup_seq_lt by done. destruct (lookup_lt_is_Some_2 (cells arr) i) as [x Hx]; [lia|].
      rewrite Hx. cbn [fmap option_fmap option_map]. f_equal.
      rewrite (filter_row_cmp _ _ _ _ _ _ Ep), Harr. cbn. by rewrite Hx, Hv.
    + by rewrite !(proj2 (lookup_ge_None _ _)) by (rewrite ?length_seq; lia).
  - cbn in Hm. apply bind_Ok in Hm as (acc & Hacc & Hm%ok_or_Ok). subst acc.
    destruct xs as [|x xs]; [done|]. inversion IH as [|? ? Hx Hxs]; subst. cbn in Hacc.
    apply bind_Ok in Hacc as (mx & Hmx%Hx & Hacc). subst mx.
    apply (fold_masks_is bool_and and_cells) in Hacc; [by injection Hacc|by intros ??? [_ ?]%bool_and_spec|done].
  - cbn in Hm. apply bind_Ok in Hm as (acc & Hacc & Hm%ok_or_Ok). subst acc.
    destruct xs as [|x xs]; [done|]. inversion IH as [|? ? Hx Hxs]; subst. cbn in Hacc.
    apply bind_Ok in Hacc as (mx & Hmx%Hx & Hacc). subst mx.
    apply (fold_masks_is bool_or or_cells) in Hacc; [by injection Hacc|by intros ??? [_ ?]%bool_or_spec|done].
Qed.

(** *** The type check *)

Lemma filter_mask_length e : length (filter_mask b e) = n.
Proof. unfold filter_mask. by rewrite length_map, length_seq. Qed.

Lemma fold_masks_ok kernel :
  (forall l r, length l = length r -> exists m, kernel l r = Ok m /\ length m = length l) ->
  forall xs acc,
  Forall (fun x => eval_filter_on_batch b x = Ok (filter_mask b x)) xs -> length acc = n ->
  exists m, fold_masks (eval_filter_on_batch b) kernel (Some acc) xs = Ok (Some m).
Proof.
  intros Hk xs. induction xs as [|x xs IH]; intros acc Hx Hl; [by exists acc|].
  inversion Hx as [|? ? Hx1 Hx2]; subst. cbn. rewrite Hx1. cbn.
  destruct (Hk acc (filter_mask b x)) as (m & Hm & Hlm); [by rewrite filter_mask_length|].
  rewrite Hm. cbn. apply IH; [done|congruence].
Qed.

Lemma kernels_ok l r :
  length l = length r ->
  (exists m, bool_and l r = Ok m /\ length m = length l) /\
  (exists m, bool_or l r = Ok m /\ length m = length l).
Proof.
  intros Hl. split.
  - destruct (proj1 (is_ok_spec _) (bool_and_ok l r Hl)) as [m Hm]. exists m. split; [done|].
    apply bool_and_spec in Hm as [_ ->]. rewrite length_zip_with. lia.
  - destruct (proj1 (is_ok_spec _) (bool_or_ok l r Hl)) as [m Hm]. exists m. split; [done|].
    apply bool_or_spec in Hm as [_ ->]. rewrite length_zip_with. lia.
Qed.

(** A filter that passes [validate_filter_types] against the file's schema
    evaluates on every batch that has the filter's columns of that schema. *)
Lemma validated_filter_eval schema e :
  wf_filter e -> validate_filter_types schema e = Ok () ->
  (forall col, col ∈ filter_columns e ->
     field_with_name (rb_schema b) col = field_with_name schema col) ->
  eval_filter_on_batch b e = Ok (filter_mask b e).
Proof.
  assert (forall e, (exists m, eval_filter_on_batch b e = Ok m) ->
            eval_filter_on_batch b e = Ok (filter_mask b e)) as Hex.
  { intros e' [m Hm]. rewrite Hm. f_equal. by apply eval_filter_is. }
  assert (forall kernel x xs,
    (forall l r, length l = length r -> exists m, kernel l r = Ok m /\ length m = length l) ->
    Forall (fun e => wf_filter e -> validate_filter_types schema e = Ok () ->
       (forall col, col ∈ filter_columns e -> field_with_name (rb_schema b) col = field_with_name schema col) ->
       eval_filter_on_batch b e = Ok (filter_mask b e)) (x :: xs) ->
    Forall wf_filter (x :: xs) ->
    (_ ← collect (validate_filter_types schema) (x :: xs); Ok ()) = Ok () ->
    (forall col, col ∈ concat (map filter_columns (x :: xs)) ->
       field_with_name (rb_schema b) col = field_with_name schema col) ->
    exists m, fold_masks (eval_filter_on_batch b) kernel None (x :: xs) = Ok (Some m)) as Hlist.
  { intros kernel x xs Hk IH Hwf' Hv Hcols. apply bind_Ok in Hv as (us & Hus%collect_Ok & _).
    assert (Forall (fun x => eval_filter_on_batch b x = Ok (filter_mask b x)) (x :: xs)) as Hall.
    { rewrite Forall_forall in IH, Hwf' |- *. intros y Hy. apply IH; [done|by apply Hwf'| |].
      - apply list_elem_of_lookup in Hy as [i Hi].
        destruct (Forall2_lookup_l _ _ _ _ _ Hus Hi) as ([] & _ & ?). done.
      - intros col Hc. apply Hcols. apply list_elem_of_In, in_concat.
        exists (filter_columns y). split; [|by apply list_elem_of_In].
        apply in_map. by apply list_elem_of_In. }
    inversion Hall as [|? ? Hx Hxs]; subst. cbn [fold_masks]. rewrite Hx. cbn [mbind res_bind].
    apply fold_masks_ok; [done..|by rewrite filter_mask_length]. }
  intros Hw. induction e as [e He|xs IH|xs IH] using filter_ind; intros Hv Hcols; apply Hex.
  - destruct (comparison_parts e) as [[[col v] k]|] eqn:Ep; [|by destruct e].
    rewrite (eval_comparison _ _ _ _ _ Ep).
    assert (exists f s, field_with_name schema col = Some f /\ make_scalar v (field_type f) = Ok s)
      as (f & s & Hf & Hs).
    { destruct e; try done; injection Ep as <- <- <-; cbn in Hv;
        apply bind_Ok in Hv as (f & Hf%ok_or_Ok & Hv); apply bind_Ok in Hv as (s & Hs & _); eauto. }
    assert (field_with_name (rb_schema b) col = Some f) as Hf'.
    { rewrite Hcols; [done|]. destruct e; try done; injection Ep as <- <- <-; set_solver. }
    rewrite field_with_name_index in Hf'. apply bind_Some in Hf' as (i & Hi & Hfi).
    rewrite column_by_name_index, Hi. cbn [mbind option_bind].
    destruct Hwf as (Hlen & _ & Ht). destruct (Forall2_lookup_r _ _ _ _ _ Ht Hfi) as (arr & Harr & Hty).
    rewrite Harr. cbn [ok_or mbind res_bind]. unfold eval_cmp. rewrite Hty, Hs. cbn [map_err mbind res_bind].
    rewrite cmp_of_op_name. destruct (make_scalar_one _ _ _ Hs) as (Hds & c & Hc & _).
    apply is_ok_spec, cmp_ok; unfold datum_type; cbn; [congruence|rewrite Hty; by eapply make_scalar_comparable|].
    exists (Some c). exact Hc.
  - inversion Hw as [? Hc| |]; subst; [done|]. cbn in Hv, Hcols |- *.
    destruct (Hlist bool_and x xs0) as [m Hm]; try done; [by intros; apply kernels_ok|].
    cbn in Hm. rewrite Hm. cbn. eauto.
  - inversion Hw as [? Hc| |]; subst; [done|]. cbn in Hv, Hcols |- *.
    destruct (Hlist bool_or x xs0) as [m Hm]; try done; [by intros; apply kernels_ok|].
    cbn in Hm. rewrite Hm. cbn. eauto.
Qed.

End rows.
