(* ===== verification/ParquetPruning.v ===== *)
(** * Row-group pruning (parquet.rs)

    When the statistics of a row group describe its data, a group that
    [row_group_may_match] drops has no row for which the filter is true. *)

From S2P Require Import Prelude Float Utf8 Term Arrow ArrowRef Stream Parquet ParquetFacts.

(** ** Ranges over a total order *)

Section range.
Context {K : Type} (c : K -> K -> comparison).
Context (anti : forall x y, c y x = CompOpp (c x y)).
Context (trans : forall x y z, c x y <> Gt -> c y z <> Gt -> c x z <> Gt).

(** Whether some value between [mn] and [mx] may compare with [v]. *)
Definition range_may_match (k : CmpOp) (mn mx v : K) : bool :=
  match k with
  | CEq => negb (op_holds CGt (c mn v)) && negb (op_holds CGt (c v mx))
  | CNeq => true
  | CGt => op_holds CGt (c mx v)
  | CGtEq => op_holds CGtEq (c mx v)
  | CLt => op_holds CLt (c mn v)
  | CLtEq => op_holds CLtEq (c mn v)
  end.

Lemma range_sound k mn mx v x :
  c mn x <> Gt -> c x mx <> Gt -> op_holds k (c x v) = true -> range_may_match k mn mx v = true.
Proof.
  intros Hmn Hmx Hk.
  assert (c x v <> Gt -> c mn v <> Gt) as Hlow by eauto.
  assert (c x v <> Lt -> c mx v <> Lt) as Hhigh.
  { intros H1 H2. assert (c v x <> Gt) as Hvx by (rewrite anti; by destruct (c x v)).
    pose proof (trans v x mx Hvx Hmx) as Hvm. rewrite anti, H2 in Hvm. done. }
  assert (c x v = Lt -> c mn v = Lt) as Hlow'.
  { intros H1. destruct (c mn v) eqn:E; try done; exfalso.
    - assert (c v mn <> Gt) as Hvm by (rewrite anti, E; done).
      pose proof (trans _ _ _ Hvm Hmn) as Hvx. by rewrite anti, H1 in Hvx.
    - apply Hlow; [congruence|done]. }
  assert (c x v = Gt -> c mx v = Gt) as Hhigh'.
  { intros H1. destruct (c mx v) eqn:E; try done; exfalso.
    - assert (c mx v <> Gt) as Hmv by congruence. pose proof (trans _ _ _ Hmx Hmv). congruence.
    - apply Hhigh; congruence. }
  destruct k; cbn in *; destruct (c x v) eqn:E; try done; cbn.
  - assert (c v mx <> Gt) as H1 by (rewrite anti; destruct (c mx v); naive_solver).
    assert (c mn v <> Gt) as H2 by (apply Hlow; congruence).
    by destruct (c mn v), (c v mx).
  - by rewrite Hhigh'.
  - destruct (c mx v); try done. exfalso. by apply Hhigh.
  - by rewrite Hhigh'.
  - by rewrite Hlow'.
  - destruct (c mn v); try done. exfalso. by apply Hlow.
  - by rewrite Hlow'.
Qed.

End range.

Lemma int_range_is e col v k mn mx x :
  comparison_parts e = Some (col, v, k) ->
  int_range_may_match e mn mx x = range_may_match Z.compare k mn mx x.
Proof.
  destruct e; intros [= <- <- <-]; cbn; unfold op_holds.
  - rewrite Z.leb_compare. destruct (Z.leb_spec x mx) as [H|H], (Z.compare_spec x mx);
      destruct (mn ?= x); try done; lia.
  - done.
  - destruct (Z.ltb_spec x mx), (Z.compare_spec mx x); try done; lia.
  - destruct (Z.leb_spec x mx), (Z.compare_spec mx x); try done; lia.
  - destruct (Z.ltb_spec mn x), (Z.compare_spec mn x); try done; lia.
  - destruct (Z.leb_spec mn x), (Z.compare_spec mn x); try done; lia.
Qed.

Lemma f_le_lex x y :
  is_nan x = false -> is_nan y = false -> f_le x y = negb (op_holds CGt (lex_cmp (fkey x) (fkey y))).
Proof.
  intros Hx Hy. destruct (f_le x y) eqn:E.
  - apply f_le_key in E as (_ & _ & E). by destruct (lex_cmp _ _).
  - assert (~ f_le x y = true) as Hn by congruence. rewrite f_le_key in Hn.
    destruct (lex_cmp _ _); cbn; naive_solver.
Qed.

Lemma f_lt_lex x y :
  is_nan x = false -> is_nan y = false -> f_lt x y = op_holds CLt (lex_cmp (fkey x) (fkey y)).
Proof.
  intros Hx Hy. destruct (f_lt x y) eqn:E.
  - apply f_lt_key in E as (_ & _ & E). by rewrite E.
  - assert (~ f_lt x y = true) as Hn by congruence. rewrite f_lt_key in Hn.
    destruct (lex_cmp _ _); cbn; naive_solver.
Qed.

Lemma float_range_is e col v k mn mx x :
  comparison_parts e = Some (col, v, k) ->
  is_nan mn = false -> is_nan mx = false -> is_nan x = false ->
  float_range_may_match e mn mx x
  = range_may_match lex_cmp k (fkey mn) (fkey mx) (fkey x).
Proof.
  intros Hp Hmn Hmx Hx. destruct e; try discriminate Hp; injection Hp as <- <- <-; cbn;
    unfold f_ge, f_gt; fold (f_le mn x) (f_lt x mx) (f_le x mx);
    change (SFleb mn x) with (f_le mn x); change (SFltb x mx) with (f_lt x mx);
    change (SFleb x mx) with (f_le x mx); rewrite ?f_le_lex, ?f_lt_lex by done; try done;
    first [ rewrite (lex_cmp_antisym (fkey mx) (fkey x)); by destruct (lex_cmp (fkey mx) (fkey x))
          | by destruct (lex_cmp (fkey mn) (fkey x)) ].
Qed.

Lemma bytes_range_is e col v k mn mx x :
  comparison_parts e = Some (col, v, k) ->
  bytes_range_may_match e mn mx x = range_may_match String.compare k mn mx x.
Proof.
  assert (forall a b, String.leb a b = negb (op_holds CGt (String.compare a b))) as Hle.
  { intros a b. unfold String.leb. by destruct (String.compare a b). }
  assert (forall a b, String.ltb a b = op_holds CLt (String.compare a b)) as Hlt.
  { intros a b. unfold String.ltb. by destruct (String.compare a b). }
  intros Hp. destruct e; try discriminate Hp; injection Hp as <- <- <-; cbn;
    unfold str_ge, str_le, str_gt, str_lt; rewrite ?Hle, ?Hlt; try done;
    first [ rewrite (String.compare_antisym mx x); by destruct (String.compare x mx)
          | by destruct (String.compare mn x) ].
Qed.

(** ** Statistics that describe a column *)

(** Every value of the column lies between the statistics' bounds: integers
    and booleans by value, floats as numbers (there is no NaN), strings by
    their bytes, with bounds that are UTF-8. *)
Definition between_cells (P : Cell -> Prop) (col : Array) : Prop :=
  Forall (fun c => forall x, c = Some x -> P x) (cells col).

Definition stats_describe (st : Statistics) (col : Array) : Prop :=
  match st with
  | StInt64 (Some mn) (Some mx) | StInt32 (Some mn) (Some mx) =>
      between_cells (fun x => exists v, x = CInt v /\ mn <= v <= mx) col
  | StDouble (Some mn) (Some mx) =>
      data_type col = TFloat64 /\
      between_cells (fun x => exists v, x = CFloat v /\ f_le mn v = true /\ f_le v mx = true) col
  | StFloat (Some mn) (Some mx) =>
      data_type col = TFloat32 /\ valid_f32 mn = true /\ valid_f32 mx = true /\
      between_cells (fun x => exists v, x = CFloat v /\ valid_f32 v = true /\
                                f_le mn v = true /\ f_le v mx = true) col
  | StBoolean (Some mn) (Some mx) =>
      between_cells (fun x => exists v, x = CBool v /\ Z.b2z mn <= Z.b2z v <= Z.b2z mx) col
  | StByteArray (Some mn) (Some mx) =>
      valid_utf8 mn = true /\ valid_utf8 mx = true /\
      between_cells (fun x => exists s, x = CBytes s /\
        str_le (of_bytes mn) s = true /\ str_le s (of_bytes mx) = true) col
  | _ => True
  end.

(** Literals for which the IEEE comparison of the statistics and the total
    order of the kernels agree: neither NaN nor a zero.  The rounding of a
    literal to binary32 is a binary32 number. *)
Definition literal_ok (v : FilterValue) : Prop :=
  match v with
  | FFloat x => is_nan x = false /\ is_zero x = false /\ valid_f32 (f32_of_f64 x) = true
  | _ => True
  end.

Section soundness.
Context `{Arrow}.

Lemma str_le_compare a b : str_le a b = true <-> String.compare a b <> Gt.
Proof. unfold str_le, String.leb. by destruct (String.compare a b). Qed.

Lemma num_of_le a b : f_le a b = true -> is_nan a = false /\ is_nan b = false /\ lex_cmp (fkey a) (fkey b) <> Gt.
Proof. apply f_le_key. Qed.

(** A float comparison that holds on a value between the bounds. *)
Lemma float_prune_sound e col v k mn mx x y :
  comparison_parts e = Some (col, v, k) ->
  is_nan y = false -> is_zero y = false -> f_le mn x = true -> f_le x mx = true ->
  op_holds k (total_cmp x y) = true -> float_range_may_match e mn mx y = true.
Proof.
  intros Hp Hn Hz (Hmn & Hx & H1)%num_of_le (_ & Hmx & H2)%num_of_le Ho.
  rewrite (float_range_is _ _ _ _ _ _ _ Hp) by done.
  rewrite total_cmp_num in Ho by done.
  eapply range_sound; [apply lex_cmp_antisym|apply lex_cmp_le_le|exact H1|exact H2|exact Ho].
Qed.

Lemma int_scalar v dt s y : make_scalar (FInt v) dt = Ok s -> cells s = [Some (CInt y)] -> y = v.
Proof.
  destruct dt; try done; cbn [make_scalar].
  - intros (? & [-> _]%ok_or_Ok%try_from_s_Some & [= <-])%bind_Ok. cbn. congruence.
  - intros [= <-]. cbn. congruence.
  - intros [= <-]. done.
Qed.

Lemma bool_scalar v dt s y : make_scalar (FBool v) dt = Ok s -> cells s = [Some (CBool y)] -> y = v.
Proof. destruct dt; try done; intros [= <-]; cbn; congruence. Qed.

Lemma bytes_scalar v dt s y : make_scalar (FUtf8 v) dt = Ok s -> cells s = [Some (CBytes y)] -> y = v.
Proof. destruct dt; try done; intros [= <-]; cbn; congruence. Qed.

Lemma lex_cmp_eq a b : lex_cmp a b = Eq -> a = b.
Proof.
  destruct a as [[a1 a2] a3], b as [[b1 b2] b3]. unfold lex_cmp.
  destruct (Z.compare_spec a1 b1), (Z.compare_spec a2 b2), (Z.compare_spec a3 b3); try done. congruence.
Qed.

(** Statistics that rule a comparison out are right about every value. *)
Lemma stats_sound st e col_name v k col s x y :
  stats_describe st col -> literal_ok v -> comparison_parts e = Some (col_name, v, k) ->
  make_scalar v (data_type col) = Ok s -> cells s = [Some y] ->
  Some x ∈ cells col -> cmp_cells k (Some x) (Some y) = Some true ->
  stats_may_match st e v = true.
Proof.
  intros Hst Hlit Hp Hs Hy Hx Hc.
  destruct (cmp_cells_true _ _ _ Hc) as (x' & y' & c & [= <-] & [= <-] & Hcc & Hop).
  assert (forall P, between_cells P col -> P x) as Hb.
  { intros P HP. unfold between_cells in HP. rewrite Forall_forall in HP. by apply (HP (Some x)). }
  destruct st as [[mn|] [mx|]|[mn|] [mx|]|[mn|] [mx|]|[mn|] [mx|]|[mn|] [mx|]|[mn|] [mx|]|];
    try (by destruct v); destruct v as [z|f|str|bb]; try done; cbn [stats_may_match stats_describe] in *.
  1,2: apply Hb in Hst as (w & -> & Hw); rewrite (int_range_is _ _ _ _ _ _ _ Hp);
    destruct y as [|yz| |]; try done;
    pose proof (int_scalar _ _ _ _ Hs Hy) as ->;
    cbn in Hcc; injection Hcc as <-;
    eapply (range_sound Z.compare Z.compare_antisym Zcompare_le_trans); [| |exact Hop]; rewrite Z.compare_gt_iff; lia.
  - destruct Hst as [Hdt Hst]. apply Hb in Hst as (w & -> & H1 & H2). destruct Hlit as (Hn & Hz & _).
    rewrite Hdt in Hs. injection Hs as <-. injection Hy as <-. cbn in Hcc. injection Hcc as <-.
    by eapply float_prune_sound.
  - destruct Hst as (Hdt & Hvn & Hvx & Hst). apply Hb in Hst as (w & -> & Hvw & H1 & H2).
    destruct Hlit as (Hn & Hz & Hvf). rewrite Hdt in Hs. cbn in Hs.
    destruct (f_ne (f64_of_f32 (f32_of_f64 f)) f) eqn:Ene; [done|]. injection Hs as <-. injection Hy as <-.
    cbn in Hcc. injection Hcc as <-.
    apply num_of_le in H1 as (Nmn & Nw & H1). apply num_of_le in H2 as (_ & Nmx & H2).
    (* the literal and its binary32 rounding are equal as numbers *)
    set (r := f32_of_f64 f) in *.
    assert (SFeqb (f64_of_f32 r) f = true) as Eeq by (unfold f_ne in Ene; by apply negb_false_iff in Ene).
    assert (is_nan (f64_of_f32 r) = false) as Nr64.
    { unfold SFeqb in Eeq. destruct (is_nan (f64_of_f32 r)) eqn:E; [|done].
      by rewrite SFcompare_nan_l in Eeq. }
    assert (lex_cmp (fkey (f64_of_f32 r)) (fkey f) = Eq) as Er.
    { unfold SFeqb in Eeq. rewrite SFcompare_key in Eeq by done. revert Eeq. by destruct (lex_cmp (fkey (f64_of_f32 r)) (fkey f)). }
    assert (is_nan r = false) as Nr by (by rewrite <-(widen_nan r)).
    assert (is_zero r = false) as Zr.
    { rewrite <-(widen_zero r) by done. destruct (is_zero (f64_of_f32 r)) eqn:E; [|done]. exfalso.
      destruct (f64_of_f32 r) as [| | |]; try done. destruct f as [|[]| |[]]; done. }
    rewrite total_cmp_num in Hop by done.
    rewrite (float_range_is _ _ _ _ _ _ _ Hp) by (rewrite ?widen_nan by done; done).
    rewrite <-(widen_key mn w) in H1 by done. rewrite <-(widen_key w mx) in H2 by done.
    rewrite <-(widen_key w r), (lex_cmp_eq _ _ Er) in Hop by done.
    eapply range_sound; [apply lex_cmp_antisym|apply lex_cmp_le_le|exact H1|exact H2|exact Hop].
  - apply Hb in Hst as (w & -> & Hw). rewrite (int_range_is _ _ _ _ _ _ _ Hp).
    destruct y as [yb| | |]; try done.
    pose proof (bool_scalar _ _ _ _ Hs Hy) as ->.
    cbn in Hcc. injection Hcc as <-.
    eapply (range_sound Z.compare Z.compare_antisym Zcompare_le_trans); [| |exact Hop]; rewrite Z.compare_gt_iff; lia.
  - destruct Hst as (Hv1 & Hv2 & Hst). apply Hb in Hst as (w & -> & H1%str_le_compare & H2%str_le_compare).
    rewrite (bytes_range_is _ _ _ _ _ _ _ Hp), !lossy_valid by done.
    destruct y as [| | |ys]; try done.
    pose proof (bytes_scalar _ _ _ _ Hs Hy) as ->.
    cbn in Hcc. injection Hcc as <-.
    eapply (range_sound String.compare (fun a b => String.compare_antisym b a) string_compare_le_trans); [exact H1|exact H2|exact Hop].
Qed.

(** *** Filters *)

Fixpoint filter_values (e : FilterExpr) : list FilterValue :=
  match e with
  | FEq _ v | FNe _ v | FGt _ v | FGte _ v | FLt _ v | FLte _ v => [v]
  | FAnd xs | FOr xs => concat (map filter_values xs)
  end.

Definition literals_ok (e : FilterExpr) : Prop := Forall literal_ok (filter_values e).

(** The statistics that pruning consults for a column of the filter describe
    the column the filter reads. *)
Definition stats_correct (rg : RowGroupMeta) (descr : list ColumnDescr) (b : RecordBatch)
    (cols : list string) : Prop :=
  forall col idx chunk st arr,
    col ∈ cols -> parquet_leaf_index descr col = Some idx -> rg_columns rg !! idx = Some chunk ->
    cc_statistics chunk = Some st -> column_by_name b col = Some arr -> stats_describe st arr.

Lemma foldl_and_true a l : foldl and_cells a l = Some true -> a = Some true /\ Forall (.= Some true) l.
Proof.
  revert a. induction l as [|x l IH]; intros a Ha; cbn in *; [done|].
  apply IH in Ha as [Ha Hl]. apply and_cells_true in Ha as [-> ->]. auto.
Qed.

Lemma foldl_or_true a l : foldl or_cells a l = Some true -> a = Some true \/ Exists (.= Some true) l.
Proof.
  revert a. induction l as [|x l IH]; intros a Ha; cbn in *; [by left|].
  apply IH in Ha as [Ha|Ha]; [|by right; constructor].
  apply or_cells_true in Ha as [->| ->]; [by left|by right; constructor].
Qed.

Lemma stats_correct_app rg descr b l r :
  stats_correct rg descr b (l ++ r) <-> stats_correct rg descr b l /\ stats_correct rg descr b r.
Proof. unfold stats_correct. setoid_rewrite elem_of_app. naive_solver. Qed.

(** A row for which the filter is true is in a group that is kept. *)
Lemma may_match_sound rg descr b e i :
  stats_correct rg descr b (filter_columns e) -> literals_ok e ->
  filter_row b e i = Some true -> row_group_may_match rg descr e = true.
Proof.
  assert (forall xs, Forall (fun e => stats_correct rg descr b (filter_columns e) -> literals_ok e ->
      filter_row b e i = Some true -> row_group_may_match rg descr e = true) xs ->
    stats_correct rg descr b (concat (map filter_columns xs)) ->
    Forall literal_ok (concat (map filter_values xs)) ->
    Forall (fun e => filter_row b e i = Some true -> row_group_may_match rg descr e = true) xs) as Hl.
  { induction 1 as [|x xs Hx _ IH]; cbn; [constructor|].
    intros [Hs1 Hs2]%stats_correct_app [Hl1 Hl2]%Forall_app. constructor; auto. }
  induction e as [e He|xs IH|xs IH] using filter_ind; intros Hst Hlit Hrow.
  - destruct (comparison_parts e) as [[[col v] k]|] eqn:Ep; [|by destruct e].
    rewrite (filter_row_cmp _ _ _ _ _ _ Ep) in Hrow.
    apply bind_Some in Hrow as (arr & Harr & Hrow). apply bind_Some in Hrow as (x & Hx & Hcmp).
    destruct (cmp_cells_true _ _ _ Hcmp) as (x' & y & c & -> & Hy & _).
    assert (row_group_may_match rg descr e =
      match parquet_leaf_index descr col with
      | None => true
      | Some l => match rg_columns rg !! l with
                  | None => true
                  | Some chunk => match cc_statistics chunk with
                                  | None => true
                                  | Some stats => stats_may_match stats e v
                                  end
                  end
      end) as -> by (destruct e; try discriminate Ep; by injection Ep as <- <- <-).
    destruct (parquet_leaf_index descr col) as [l|] eqn:El; [|done].
    destruct (rg_columns rg !! l) as [chunk|] eqn:Ech; [|done].
    destruct (cc_statistics chunk) as [st|] eqn:Est; [|done].
    assert (col ∈ filter_columns e /\ v ∈ filter_values e) as [Hc Hv]
      by (destruct e; try discriminate Ep; injection Ep as <- <- <-; cbn; set_solver).
    unfold literals_ok in Hlit. rewrite Forall_forall in Hlit.
    unfold value_cell in Hy. destruct (make_scalar v (data_type arr)) as [s| |] eqn:Es; try done.
    destruct (make_scalar_one _ _ _ Es) as (_ & y' & Hy' & _). rewrite Hy' in Hy. cbn in Hy. injection Hy as ->.
    eapply stats_sound; [by eapply Hst|by apply Hlit|exact Ep|exact Es|exact Hy'| |].
    + by eapply list_elem_of_lookup_2.
    + unfold value_cell in Hcmp. rewrite Es, Hy' in Hcmp. exact Hcmp.
  - destruct xs as [|x xs]; [done|]. cbn [filter_row] in Hrow. apply foldl_and_true in Hrow as [Hx Hxs].
    specialize (Hl _ IH Hst Hlit). cbn [row_group_may_match]. apply forallb_Forall.
    inversion Hl as [|? ? Hl1 Hl2]; subst. constructor; [by apply Hl1|].
    rewrite Forall_forall in Hl2. rewrite Forall_forall in Hxs. apply Forall_forall. intros y Hy. apply Hl2; [done|]. apply Hxs.
    by apply (list_elem_of_fmap_2 (fun c => filter_row b c i)).
  - destruct xs as [|x xs]; [done|]. cbn [filter_row] in Hrow.
    specialize (Hl _ IH Hst Hlit). inversion Hl as [|? ? Hl1 Hl2]; subst.
    cbn [row_group_may_match existsb]. apply orb_true_iff.
    apply foldl_or_true in Hrow as [Hx|Hxs]; [left; by apply Hl1|right].
    apply existsb_exists. apply Exists_exists in Hxs as (m & Hm & ->).
    apply list_elem_of_fmap in Hm as (y & Hy & Hym). exists y. split; [by apply list_elem_of_In|].
    rewrite Forall_forall in Hl2. by apply Hl2.
Qed.

(** *** Resolution of names *)

(** The leaf columns' data in a row group, and what their chunks say. *)
Definition leaves_described (rg : RowGroupMeta) (leaves : list Array) : Prop :=
  Forall2 (fun chunk data => forall st, cc_statistics chunk = Some st -> stats_describe st data)
    (rg_columns rg) leaves.

(** Every leaf that answers to a column name of the filter, by its own name or
    by its path, is the column of that name. *)
Definition unambiguous (descr : list ColumnDescr) (leaves : list Array) (b : RecordBatch)
    (cols : list string) : Prop :=
  forall col idx d, col ∈ cols -> descr !! idx = Some d ->
    leaf_name d = col \/ path_string (leaf_path d) = col -> leaves !! idx = column_by_name b col.

Lemma parquet_leaf_index_Some descr name idx :
  parquet_leaf_index descr name = Some idx ->
  exists d, descr !! idx = Some d /\ (leaf_name d = name \/ path_string (leaf_path d) = name).
Proof.
  unfold parquet_leaf_index. destruct (list_find _ descr) as [[i d]|] eqn:E; [|done].
  cbn. intros [= <-]. apply list_find_Some in E as (Hd & Hp & _). exists d. split; [done|].
  apply Is_true_true, orb_true_iff in Hp as [Hp%String.eqb_eq|Hp%String.eqb_eq]; auto.
Qed.

Lemma described_correct rg descr leaves b cols :
  leaves_described rg leaves -> unambiguous descr leaves b cols -> stats_correct rg descr b cols.
Proof.
  intros Hd Hu col idx chunk st arr Hc (d & Hdi & Hn)%parquet_leaf_index_Some Hch Hst Harr.
  pose proof (Hu _ _ _ Hc Hdi Hn) as Hl. rewrite Harr in Hl.
  exact (Forall2_lookup_lr _ _ _ _ _ _ Hd Hch Hl st Hst).
Qed.

End soundness.
