(* ===== verification/ParquetThms.v ===== *)
(** * Theorems about Parquet reading and writing *)

From S2P Require Import Prelude Float Utf8 Term Arrow ArrowRef Stream Parquet ParquetFacts ParquetPruning ComputeThms.

(** ** Decoding *)

Section decode.
Context `{RustlerLaws Term}.

Lemma decode_filter_value_no_panic (t : Term) : no_panic (decode_filter_value t).
Proof. unfold decode_filter_value. by repeat case_match. Qed.

Lemma decode_filter_no_panic fuel (t : Term) :
  (term_size t < fuel)%nat -> proper_lists t -> no_panic (decode_filter_expr fuel t).
Proof.
  revert t. induction fuel as [|fuel IH]; intros t Ht Hp; [lia|]. cbn [decode_filter_expr].
  apply bind_no_panic; [apply ok_or_no_panic|]. intros tuple Hl%ok_or_Ok.
  destruct tuple as [|t0 rest]; [done|].
  apply bind_no_panic; [apply ok_or_no_panic|]. intros op _. case_match.
  - destruct rest as [|t1 []]; try done.
    apply bind_no_panic; [apply ok_or_no_panic|]. intros l Hl1%ok_or_Ok.
    apply bind_no_panic; [|by intros [] _].
    assert (proper_lists t1) as Hp1 by (apply (proper_child t); [done|left; eexists; split; [exact Hl|set_solver]]).
    apply collect_list_no_panic; [by apply (proper_here t1)|]. apply Forall_forall. intros x Hx. apply IH.
    + pose proof (tuple_smaller t _ t1 Hl ltac:(set_solver)). pose proof (list_smaller t1 _ x Hl1 Hx). lia.
    + apply (proper_child t1); [done|right; eauto].
  - destruct rest as [|t1 [|t2 []]]; try done.
    apply bind_no_panic; [apply ok_or_no_panic|]. intros col _.
    apply bind_no_panic; [apply decode_filter_value_no_panic|]. intros. by repeat case_match.
Qed.

Lemma decode_filter_wf fuel (t : Term) e : decode_filter_expr fuel t = Ok e -> wf_filter e.
Proof.
  revert t e. induction fuel as [|fuel IH]; intros t e Hd; [done|]. cbn [decode_filter_expr] in Hd.
  apply bind_Ok in Hd as ([|t0 rest] & _ & Hd); [done|]. apply bind_Ok in Hd as (op & _ & Hd).
  destruct (String.eqb op "and" || String.eqb op "or").
  - destruct rest as [|t1 []]; try done. apply bind_Ok in Hd as (l & _ & Hd).
    apply bind_Ok in Hd as (cs & Hcs%collect_list_Ok%collect_Ok & Hd).
    assert (Forall wf_filter cs) as Hw.
    { eapply Forall2_Forall_r; [exact Hcs|]. apply Forall_forall. eauto. }
    destruct cs as [|c cs]; [done|]. injection Hd as <-. case_match; by constructor.
  - destruct rest as [|t1 [|t2 []]]; try done. apply bind_Ok in Hd as (c & _ & Hd).
    apply bind_Ok in Hd as (v & _ & Hd).
    repeat (case_match; [injection Hd as <-; by constructor|]). done.
Qed.

(** Options as [decode_read_opts] builds them. *)
Definition wf_read_opts (o : ReadOpts) : Prop :=
  (forall rg, ro_row_groups o = Some rg -> Forall (fun i => 0 <= i) rg) /\
  (forall f, ro_filter o = Some f -> wf_filter f).

Context `{ParquetCrate}.

Lemma keyword_item_no_panic (t : Term) : no_panic (keyword_item t).
Proof.
  unfold keyword_item. apply bind_no_panic; [apply ok_or_no_panic|]. intros l _.
  destruct l as [|? [|? []]]; try done. by apply bind_no_panic; [apply ok_or_no_panic|].
Qed.

Lemma keyword_item_value (t : Term) key v :
  keyword_item t = Ok (key, v) -> exists l, get_tuple t = Some l /\ v ∈ l.
Proof.
  intros (l & Hl%ok_or_Ok & Hk)%bind_Ok. exists l. split; [done|].
  destruct l as [|k [|v' []]]; try done. apply bind_Ok in Hk as (? & _ & [= _ <-]). by right; left.
Qed.

Lemma set_read_opt_spec o key (v : Term) :
  (proper_lists v -> no_panic (set_read_opt o key v)) /\
  (wf_read_opts o -> forall o', set_read_opt o key v = Ok o' -> wf_read_opts o').
Proof.
  unfold set_read_opt. case_match; [|case_match; [|case_match]].
  - split.
    + intros Hp. apply bind_no_panic; [|done]. unfold decode_string_list.
      apply bind_no_panic; [apply ok_or_no_panic|]. intros l Hl%ok_or_Ok.
      apply collect_list_no_panic; [by apply (proper_here v)|]. apply Forall_forall. intros. apply ok_or_no_panic.
    + intros [Hr Hf] o' (l & _ & [= <-])%bind_Ok. done.
  - split.
    + intros Hp. apply bind_no_panic; [|done]. unfold decode_usize_list.
      apply bind_no_panic; [apply ok_or_no_panic|]. intros l Hl%ok_or_Ok.
      apply collect_list_no_panic; [by apply (proper_here v)|]. apply Forall_forall.
      intros. apply bind_no_panic; [apply ok_or_no_panic|]. intros. by case_match.
    + intros [Hr Hf] o' (l & Hl & [= <-])%bind_Ok. split; [|done]. cbn. intros ? [= <-].
      apply bind_Ok in Hl as (ts & _ & Hl%collect_list_Ok%collect_Ok).
      eapply Forall2_Forall_r; [exact Hl|]. apply Forall_forall. intros x _ y Hy.
      apply bind_Ok in Hy as (z & _ & Hz). destruct (Z.ltb_spec z 0); [done|]. by injection Hz as <-.
  - split.
    + intros Hp. apply bind_no_panic; [|done]. apply decode_filter_no_panic; [lia|done].
    + intros [Hr Hf] o' (f & Hd & [= <-])%bind_Ok. split; [done|]. cbn. intros ? [= <-].
      by eapply decode_filter_wf.
  - done.
Qed.

Lemma read_items_spec (l : list Term) o :
  (Forall proper_lists l -> no_panic (read_items l o)) /\ (wf_read_opts o -> forall o', read_items l o = Ok o' -> wf_read_opts o').
Proof.
  revert o. induction l as [|t l IH]; intros o; cbn.
  - split; [done|]. by intros ? ? [= <-].
  - split.
    + intros [Ht Hl]%Forall_cons. apply bind_no_panic; [apply keyword_item_no_panic|]. intros [key v] Hv.
      apply bind_no_panic; [|intros; by apply IH].
      apply set_read_opt_spec. eapply proper_child; [exact Ht|]. left. by eapply keyword_item_value.
    + intros Ho o' ([key v] & _ & Hrest)%bind_Ok. apply bind_Ok in Hrest as (o1 & Ho1 & Hrest).
      eapply IH; [|exact Hrest]. by eapply (proj2 (set_read_opt_spec o key v)).
Qed.

Lemma decode_read_opts_spec (t : Term) :
  (proper_lists t -> no_panic (decode_read_opts t)) /\ forall o, decode_read_opts t = Ok o -> wf_read_opts o.
Proof.
  assert (wf_read_opts ReadOpts_default) as Hd by done.
  unfold decode_read_opts. destruct (is_nil t); [split; [done|by intros ? [= <-]]|]. split.
  - intros Hp. apply bind_no_panic; [apply ok_or_no_panic|]. intros l Hl%ok_or_Ok.
    apply bind_no_panic.
    + apply read_items_spec, Forall_forall. intros x Hx. apply (proper_child t); [done|right; eauto].
    + intros o _. unfold list_end. by rewrite (proper_here t l).
  - intros o (l & _ & (o' & Ho & (? & _ & [= <-])%bind_Ok)%bind_Ok)%bind_Ok. by eapply (proj2 (read_items_spec _ _)).
Qed.

End decode.

(** ** Selecting row groups *)

Section selection.
Context `{Arrow} `{ParquetCrate}.

Lemma validate_no_panic s e : no_panic (validate_filter_types s e).
Proof.
  induction e as [e He|xs IH|xs IH] using filter_ind.
  - destruct e; try done; cbn; (apply bind_no_panic; [apply ok_or_no_panic|]); intros;
      by apply bind_no_panic; [apply filter_scalar_no_panic|].
  - cbn. by apply bind_no_panic; [apply collect_no_panic|].
  - cbn. by apply bind_no_panic; [apply collect_no_panic|].
Qed.

Lemma check_row_groups_spec total rg :
  no_panic (check_row_groups total rg) /\
  (check_row_groups total rg = Ok () <-> Forall (fun i => i < total) rg).
Proof.
  induction rg as [|i rg [IH1 IH2]]; cbn; [by split|]. destruct (Z.leb_spec total i) as [Hi|Hi].
  - split; [done|]. split; [done|]. inversion 1; lia.
  - split; [done|]. rewrite IH2, Forall_cons. tauto.
Qed.

(** The requested groups: the explicit list, or all of them. *)
Definition requested (m : ParquetMetaData) (o : ReadOpts) : list Z :=
  default (seqZ 0 (Z.of_nat (num_row_groups m))) (ro_row_groups o).

Lemma requested_range m o :
  wf_read_opts o ->
  (forall rg, ro_row_groups o = Some rg -> Forall (fun i => i < Z.of_nat (num_row_groups m)) rg) ->
  Forall (fun i => 0 <= i < Z.of_nat (num_row_groups m)) (requested m o).
Proof.
  intros [Hw _] Hr. unfold requested. destruct (ro_row_groups o) as [rg|]; cbn.
  - specialize (Hw rg eq_refl). specialize (Hr rg eq_refl).
    apply Forall_and. by split.
  - apply Forall_forall. intros i Hi%elem_of_seqZ. lia.
Qed.

(** The groups that statistics do not rule out. *)
Definition kept (m : ParquetMetaData) (e : FilterExpr) (i : Z) : bool :=
  match pm_row_groups m !! Z.to_nat i with
  | Some rg => row_group_may_match rg (pm_columns m) e
  | None => true
  end.

Lemma retain_groups_spec m e sel :
  Forall (fun i => 0 <= i < Z.of_nat (num_row_groups m)) sel ->
  retain_groups m e sel = Ok (List.filter (kept m e) sel).
Proof.
  induction 1 as [|i sel Hi _ IH]; cbn; [done|].
  destruct (lookup_lt_is_Some_2 (pm_row_groups m) (Z.to_nat i)) as [rg Hrg];
    [unfold num_row_groups in Hi; lia|].
  rewrite (proj2 (index_Ok _ _ _) Hrg). cbn. rewrite IH. cbn. unfold kept. by rewrite Hrg.
Qed.

Definition selected_groups (m : ParquetMetaData) (o : ReadOpts) : list Z :=
  match ro_filter o with
  | Some e => List.filter (kept m e) (requested m o)
  | None => requested m o
  end.

(** What [apply_read_opts] does on decoded options, case by case. *)
Lemma apply_read_opts_spec builder o :
  wf_read_opts o ->
  no_panic (apply_read_opts builder o) /\
  forall r, apply_read_opts builder o = Ok r ->
    Forall (fun i => 0 <= i < Z.of_nat (num_row_groups (b_metadata builder)))
      (requested (b_metadata builder) o) /\
    (forall e, ro_filter o = Some e -> validate_filter_types (b_schema builder) e = Ok ()) /\
    exists b', r = (b', Z.of_nat (num_row_groups (b_metadata builder)),
                    Z.of_nat (length (selected_groups (b_metadata builder) o)),
                    saturating_sub (Z.of_nat (num_row_groups (b_metadata builder)))
                      (Z.of_nat (length (selected_groups (b_metadata builder) o)))) /\
      b_row_groups b' = Some (selected_groups (b_metadata builder) o) /\
      b_metadata b' = b_metadata builder /\
      (forall cols, ro_columns o = Some cols ->
         b_projection b' = Some (projection_columns (pm_columns (b_metadata builder)) cols)) /\
      (forall e, ro_filter o = Some e ->
         b_row_filter b' = Some (projection_columns (pm_columns (b_metadata builder))
                                   (collect_filter_columns e []), e)).
Proof.
  intros Hw. set (m := b_metadata builder). set (total := Z.of_nat (num_row_groups m)).
  assert (match ro_row_groups o with
          | Some rg => _ ← check_row_groups total rg; Ok rg
          | None => Ok (seqZ 0 total)
          end = Ok (requested m o) /\ Forall (fun i => 0 <= i < total) (requested m o) \/
          exists msg, match ro_row_groups o with
          | Some rg => _ ← check_row_groups total rg; Ok rg
          | None => Ok (seqZ 0 total)
          end = Err msg) as Hsel.
  { pose proof (requested_range m o Hw) as Hr. unfold requested in *.
    destruct (ro_row_groups o) as [rg|]; cbn in *; [|left; split; [done|by apply Hr]].
    destruct (check_row_groups_spec total rg) as [Hnp Hok].
    destruct (check_row_groups total rg) as [[]|msg|]; [left|right; by exists msg|done].
    split; [done|]. apply Hr. intros ? [= <-]. by apply Hok. }
  unfold apply_read_opts. fold m. fold total. cbv zeta. unfold selected_groups.
  destruct (ro_filter o) as [e|] eqn:Ef.
  - pose proof (validate_no_panic (b_schema builder) e) as Hnp.
    destruct (validate_filter_types (b_schema builder) e) as [[]| |] eqn:Ev; try done. cbn [mbind res_bind].
    destruct Hsel as [[Hs Hr]|[msg Hs]]; rewrite Hs; [|done]. cbn [mbind res_bind].
    rewrite retain_groups_spec by done. cbn [mbind res_bind]. split; [done|].
    intros r [= <-]. split; [done|]. split; [by intros ? [= <-]|]. eexists. split; [reflexivity|].
    cbn. split_and!; try done; [intros cols ->; done|by intros ? [= <-]].
  - cbn [mbind res_bind]. destruct Hsel as [[Hs Hr]|[msg Hs]]; rewrite Hs; [|done]. cbn [mbind res_bind].
    split; [done|]. intros r [= <-]. split; [done|]. split; [done|]. eexists. split; [reflexivity|].
    cbn. split_and!; try done. intros cols ->. done.
Qed.

End selection.

(** ** The crate's parameters, concretely *)

(** A parquet crate whose reader is a list of batches, read from a table of
    one file: enough to run the code. *)
#[export] Instance ref_parquet : ParquetCrate := {|
  Mask := list string;
  Reader := list (res ArrowError RecordBatch);
  WriterProps := list string;
  Writer := list RecordBatch;
  reader_iter := list_iter;
  projection_columns _ names := names;
  builder_try_new _ := Err "no file";
  builder_build b := Ok (b_schema b, []);
  parse_metadata _ := Err "no file";
  zstd_try_new l := if (1 <=? l) && (l <=? 22) then Ok l else Err "compression level";
  zstd_default := 1;
  gzip_default := 6;
  props_builder := [];
  set_compression _ p := p;
  set_max_row_group_row_count _ p := p;
  set_dictionary_enabled _ p := p;
  writer_try_new _ _ := Ok [];
  writer_write w b := Ok (w ++ [b]);
  writer_close _ := Ok [];
  display_compression _ := "codec";
  display_f32 _ := "f32";
  debug_atom a := a
|}.

(** [{:and, [{:gt, "x", 4}, {:lte, "y", 9.0}]}]. *)
Definition sample_filter : FilterExpr :=
  FAnd [FGt "x" (FInt 4); FLte "y" (FFloat (f64_of_int 9))].

Section rows.
Context `{Arrow, !CmpLaws, !BoolLaws, !BatchLaws}.

(** The row filter is type-sound and means what it says: a filter that
    [validate_filter_types] accepts for the file's schema evaluates without an
    error on every batch that carries the filter's columns of that schema, and
    its mask holds, row by row, the comparisons with the literal, combined by
    conjunction and disjunction (null as soon as an operand is null). *)
Theorem row_filter_sound schema b e :
  wf_batch b -> wf_filter e -> validate_filter_types schema e = Ok () ->
  (forall col, col ∈ collect_filter_columns e [] ->
     field_with_name (rb_schema b) col = field_with_name schema col) ->
  eval_filter_on_batch b e = Ok (filter_mask b e).
Proof.
  intros Hwf He Hv Hc. eapply validated_filter_eval; [done..|].
  intros col Hcol. apply Hc. apply collect_filter_columns_spec. by right.
Qed.

(** C9: Row-group pruning never loses a row.  When the chunk statistics
    describe the leaf columns' data, every leaf that answers to a filter
    column's name is that column, and no float literal is a zero or NaN, then
    every requested row group that [apply_read_opts] drops has no row for
    which the filter is true; the groups it keeps are requested ones, in
    order. *)
Theorem pruning_keeps_matching_rows `{ParquetCrate} builder o e b' total selected skipped groups :
  wf_read_opts o -> ro_filter o = Some e -> literals_ok e ->
  Forall2 (fun rg '(leaves, batch) => leaves_described rg leaves /\
             unambiguous (pm_columns (b_metadata builder)) leaves batch (filter_columns e))
    (pm_row_groups (b_metadata builder)) groups ->
  apply_read_opts builder o = Ok (b', total, selected, skipped) ->
  exists kept_groups, b_row_groups b' = Some kept_groups /\
    kept_groups `sublist_of` requested (b_metadata builder) o /\
    forall i leaves batch row,
      i ∈ requested (b_metadata builder) o -> i ∉ kept_groups ->
      groups !! Z.to_nat i = Some (leaves, batch) -> filter_row batch e row <> Some true.
Proof.
  intros Hw Hf Hlit Hg Ha. destruct (apply_read_opts_spec builder o Hw) as [_ Hs].
  destruct (Hs _ Ha) as (_ & _ & b'' & [= -> _ _ _] & Hrg & _). eexists. split; [exact Hrg|].
  unfold selected_groups. rewrite Hf. split.
  - generalize (requested (b_metadata builder) o). intros l. clear.
    induction l as [|i l IH]; cbn; [constructor|]. case_match; by constructor.
  - intros i leaves batch row Hi Hni Hgi Hrow. apply Hni.
    apply list_elem_of_In, filter_In. split; [by apply list_elem_of_In|].
    destruct (Forall2_lookup_r _ _ _ _ _ Hg Hgi) as (rg & Hrgi & Hd & Hu).
    unfold kept. rewrite Hrgi. eapply may_match_sound; [by eapply described_correct|done|exact Hrow].
Qed.

End rows.

Lemma row_filter_sound_witness :
  eval_filter_on_batch sample_batch sample_filter = Ok (filter_mask sample_batch sample_filter).
Proof.
  apply (row_filter_sound sample_schema sample_batch sample_filter).
  - exact sample_wf.
  - apply wf_and. repeat constructor; done.
  - by vm_compute.
  - done.
Defined.

(** Two row groups: [sample_batch] (x up to 7) and one with x at most 4. *)
Definition low_batch : RecordBatch :=
  mkBatch (mkSchema [mkField "x" TInt64 true]) [IntArray TInt64 [Some 1; None; Some 4]] 3.
Definition high_batch : RecordBatch :=
  mkBatch (mkSchema [mkField "x" TInt64 true]) [IntArray TInt64 [Some 5; Some 7]] 2.

Definition int_chunk (mn mx : Z) : ColumnChunk :=
  mkChunk ["x"] SNAPPY (Some (StInt64 (Some mn) (Some mx))) [] 0.

Definition two_groups : ParquetMetaData :=
  mkMetaData [mkColumnDescr "x" ["x"]]
    [mkRowGroup [int_chunk 1 4] 3 0; mkRowGroup [int_chunk 5 7] 2 0] 5 None None.

Definition two_groups_builder : Builder Mask :=
  mkBuilder two_groups (mkSchema [mkField "x" TInt64 true]) [] None None None.

Definition gt_4 : ReadOpts := mkReadOpts None None (Some (FGt "x" (FInt 4))).

Ltac describe :=
  repeat first [ apply Forall2_cons_2 | apply Forall2_nil_2 | apply Forall_cons_2 | apply Forall_nil_2 ].

Lemma pruning_keeps_matching_rows_witness :
  exists b', apply_read_opts two_groups_builder gt_4 = Ok (b', 2, 1, 1) /\
    exists kept_groups, b_row_groups b' = Some kept_groups /\
      kept_groups `sublist_of` [0; 1] /\
      forall i leaves batch row, i ∈ [0; 1] -> i ∉ kept_groups ->
        [(rb_columns low_batch, low_batch); (rb_columns high_batch, high_batch)] !! Z.to_nat i
          = Some (leaves, batch) ->
        filter_row batch (FGt "x" (FInt 4)) row <> Some true.
Proof.
  eexists. split; [vm_compute; reflexivity|].
  apply (pruning_keeps_matching_rows two_groups_builder gt_4 (FGt "x" (FInt 4)) _ 2 1 1
    [(rb_columns low_batch, low_batch); (rb_columns high_batch, high_batch)]).
  - split; intros ? [=]. subst. by constructor.
  - done.
  - by repeat constructor.
  - describe; (split; [unfold leaves_described; describe; intros st [= <-]; unfold stats_describe, between_cells;
        describe; intros x [=]; subst; eexists; (split; [reflexivity|lia])|]);
      intros col idx d ->%list_elem_of_singleton Hd _;
      destruct idx as [|idx]; [reflexivity|discriminate Hd|reflexivity|discriminate Hd].
  - vm_compute. reflexivity.
Defined.

(** A struct column [s] whose field is called [x], followed by a top-level
    column [x]: the filter on [x] is pruned by the statistics of [s.x]. *)
Lemma nested_leaf_drops_rows :
  exists (rg : RowGroupMeta) (descr : list ColumnDescr) (leaves : list Array) (b : RecordBatch) row,
    leaves_described rg leaves /\ map (fun d => path_string (leaf_path d)) descr = ["s.x"; "x"] /\
    leaves !! 1%nat = column_by_name b "x" /\
    row_group_may_match rg descr (FGt "x" (FInt 4)) = false /\
    filter_row b (FGt "x" (FInt 4)) row = Some true.
Proof.
  exists (mkRowGroup [int_chunk 1 4; int_chunk 5 7] 2 0),
    [mkColumnDescr "x" ["s"; "x"]; mkColumnDescr "x" ["x"]],
    [IntArray TInt64 [Some 1; Some 4]; IntArray TInt64 [Some 5; Some 7]],
    (mkBatch (mkSchema [mkField "s" (TStruct [mkField "x" TInt64 true]) true; mkField "x" TInt64 true])
       [OtherArray (TStruct [mkField "x" TInt64 true]) 2; IntArray TInt64 [Some 5; Some 7]] 2), 0%nat.
  split; [|split_and!; vm_compute; reflexivity].
  unfold leaves_described. describe; intros st [= <-]; unfold stats_describe, between_cells; describe;
    intros x [=]; subst; eexists; (split; [reflexivity|lia]).
Qed.

(** A float filter that statistics with both bounds [bound] rule out, and a
    column of a value the row filter takes. *)
Definition prunes_match (bound literal value : f64) : Prop :=
  let e := FGt "x" (FFloat literal) in
  stats_may_match (StDouble (Some bound) (Some bound)) e (FFloat literal) = false /\
  filter_row (mkBatch (mkSchema [mkField "x" TFloat64 true]) [FloatArray TFloat64 [Some value]] 1) e 0 = Some true.

(** The limits of pruning.  By name: in a file with a struct column [s] whose
    field is called [x], followed by a top-level column [x], the filter on [x]
    consults the statistics of [s.x], and drops a row group whose rows satisfy
    it although every chunk's statistics are right.  For floats: pruning
    compares by IEEE order, the row filter by total order, in which -0.0 is
    below +0.0 and NaN above every number; so [x > -0.0] drops a row group
    that holds +0.0, and [x > 1.0] one that holds a NaN (which statistics
    leave out). *)
Theorem pruning_limits :
  (exists (rg : RowGroupMeta) (descr : list ColumnDescr) (leaves : list Array) (b : RecordBatch) row,
    leaves_described rg leaves /\ map (fun d => path_string (leaf_path d)) descr = ["s.x"; "x"] /\
    leaves !! 1%nat = column_by_name b "x" /\
    row_group_may_match rg descr (FGt "x" (FInt 4)) = false /\
    filter_row b (FGt "x" (FInt 4)) row = Some true) /\
  prunes_match (S754_zero false) (S754_zero true) (S754_zero false) /\
  prunes_match (f64_of_int 1) (f64_of_int 1) S754_nan.
Proof. split; [exact nested_leaf_drops_rows|]. unfold prunes_match. split_and!; vm_compute; reflexivity. Qed.

Section opts.
Context `{Arrow, !BatchLaws, ParquetCrate}.

(** C24: Selecting row groups.  Options whose lists are proper are decoded
    without a panic (an improper list makes the decoder raise), and decoded
    options never make the reader panic; when they are accepted every requested index exists, the filter has been
    type-checked, the selected groups are the requested ones that statistics
    do not rule out, and the read statistics count them: total and selected
    are the numbers of groups, and, unless an index was requested twice,
    skipped is their difference. *)
Theorem read_opts_selection `{RustlerLaws Term} builder (t : Term) :
  (proper_lists t -> no_panic (decode_read_opts t)) /\
  (forall o, decode_read_opts t = Ok o -> no_panic (apply_read_opts builder o)) /\
  forall o b' total selected skipped,
    decode_read_opts t = Ok o -> apply_read_opts builder o = Ok (b', total, selected, skipped) ->
    let m := b_metadata builder in
    Forall (fun i => 0 <= i < Z.of_nat (num_row_groups m)) (requested m o) /\
    (forall e, ro_filter o = Some e -> validate_filter_types (b_schema builder) e = Ok ()) /\
    b_row_groups b' = Some (selected_groups m o) /\
    total = Z.of_nat (num_row_groups m) /\ selected = Z.of_nat (length (selected_groups m o)) /\
    (NoDup (requested m o) -> skipped = total - selected /\ 0 <= skipped).
Proof.
  destruct (decode_read_opts_spec t) as [Hnp Hw]. split; [done|]. split.
  { intros o Ho. by apply apply_read_opts_spec, Hw. }
  intros o b' total selected skipped Ho Ha m.
  destruct (apply_read_opts_spec builder o (Hw o Ho)) as [_ Hs].
  destruct (Hs _ Ha) as (Hr & Hv & b'' & [= -> -> -> ->] & Hrg & _).
  split_and!; try done. intros Hnd. unfold saturating_sub.
  assert (length (selected_groups m o) <= num_row_groups m)%nat; [|fold m; lia].
  assert (NoDup (selected_groups m o)) as Hnds.
  { unfold selected_groups. case_match; [|done]. apply NoDup_ListNoDup, List.NoDup_filter. by apply NoDup_ListNoDup. }
  assert (selected_groups m o ⊆+ seqZ 0 (Z.of_nat (num_row_groups m))) as Hsub.
  { apply NoDup_submseteq; [done|]. intros i Hi. apply elem_of_seqZ.
    assert (i ∈ requested m o) as Hi'.
    { unfold selected_groups in Hi. case_match; [|done].
      apply list_elem_of_In, filter_In in Hi as [Hi _]. by apply list_elem_of_In. }
    rewrite Forall_forall in Hr. specialize (Hr i Hi'). fold m in Hr. lia. }
  apply submseteq_length in Hsub. rewrite length_seqZ in Hsub. lia.
Qed.

End opts.

Lemma read_opts_selection_witness :
  let t := BList [BTuple [BAtom "filters"; BTuple [BAtom "gt"; BBin (as_bytes "x"); BInt 4]]] in
  (NoDup (requested two_groups gt_4) -> 1 = 2 - 1 /\ 0 <= 1) /\
  Forall (fun i => 0 <= i < 2) (requested two_groups gt_4) /\
  no_panic (apply_read_opts two_groups_builder gt_4).
Proof.
  intros t. destruct (read_opts_selection two_groups_builder t) as (_ & Hnp & Hs).
  assert (decode_read_opts t = Ok gt_4) as Hd by (vm_compute; reflexivity).
  assert (exists b', apply_read_opts two_groups_builder gt_4 = Ok (b', 2, 1, 1)) as [b' Ha]
    by (eexists; vm_compute; reflexivity).
  destruct (Hs _ _ _ _ _ Hd Ha) as (Hr & _ & _ & _ & _ & Hn).
  split; [exact Hn|]. split; [exact Hr|exact (Hnp _ Hd)].
Defined.

(** ** Filters as terms *)

Section encode.
Context `{Rustler Term}.

Definition encode_filter_value (v : FilterValue) : Term :=
  match v with
  | FInt v => mk_int v
  | FFloat x => mk_float x
  | FUtf8 s => mk_string s
  | FBool b => mk_atom (if b then "true" else "false")
  end.

Definition filter_tag (e : FilterExpr) : string :=
  match e with
  | FEq _ _ => "eq" | FNe _ _ => "ne" | FGt _ _ => "gt" | FGte _ _ => "gte"
  | FLt _ _ => "lt" | FLte _ _ => "lte" | FAnd _ => "and" | FOr _ => "or"
  end.

(** The filter tuples of the reader's [:filters] option. *)
Fixpoint encode_filter (e : FilterExpr) : Term :=
  match e with
  | FAnd xs | FOr xs => mk_tuple [mk_atom (filter_tag e); mk_list (map encode_filter xs)]
  | FEq c v | FNe c v | FGt c v | FGte c v | FLt c v | FLte c v =>
      mk_tuple [mk_atom (filter_tag e); mk_string c; encode_filter_value v]
  end.

Definition value_in_range (v : FilterValue) : Prop :=
  match v with FInt v => s_range 64 v | FUtf8 s => valid_str s = true | _ => True end.

Definition filter_in_range (e : FilterExpr) : Prop :=
  Forall value_in_range (filter_values e) /\ Forall (fun c => valid_str c = true) (filter_columns e).

End encode.

Section roundtrip.
Context `{RustlerLaws Term}.

Lemma decode_encode_value v : value_in_range v -> decode_filter_value (encode_filter_value v) = Ok v.
Proof.
  unfold decode_filter_value. destruct v as [v|x|s|b]; cbn; intros Hv.
  - rewrite get_bool_no_atom, get_mk_int; [done..|apply get_atom_int].
  - rewrite get_bool_no_atom, get_i64_float, get_mk_float; [done|apply get_atom_float].
  - rewrite get_bool_no_atom, get_i64_string, get_f64_string, get_mk_string; [done..|apply get_atom_string].
  - rewrite (proj2 (get_atom_spec _ b)); [done|]. rewrite get_mk_atom. by destruct b.
Qed.

Lemma filter_in_range_list x xs :
  Forall value_in_range (concat (map filter_values (x :: xs))) ->
  Forall (fun c => valid_str c = true) (concat (map filter_columns (x :: xs))) ->
  Forall filter_in_range (x :: xs).
Proof.
  generalize (x :: xs). induction l as [|y l IH]; [constructor|]. cbn.
  intros [H1 H2]%Forall_app [H3 H4]%Forall_app. constructor; [done|auto].
Qed.

Lemma decode_encode_filter_list fuel tag xs :
  Forall (fun e => forall fuel, wf_filter e -> filter_in_range e ->
    (term_size (encode_filter (Term := Term) e) < fuel)%nat ->
    decode_filter_expr fuel (encode_filter e) = Ok e) xs ->
  Forall wf_filter xs -> Forall filter_in_range xs ->
  (term_size (mk_tuple [mk_atom tag; mk_list (map encode_filter xs)]) < S fuel)%nat ->
  collect (decode_filter_expr fuel) (map encode_filter xs) = Ok xs.
Proof.
  intros IH Hw Hr Hf. apply collect_Ok. rewrite Forall2_fmap_l. apply Forall_Forall2_diag, Forall_forall.
  intros e He. rewrite Forall_forall in IH. rewrite Forall_forall in Hw. rewrite Forall_forall in Hr.
  apply IH; auto.
  pose proof (tuple_smaller _ _ (mk_list (map encode_filter xs))
    (get_mk_tuple [mk_atom tag; mk_list (map encode_filter xs)])
    ltac:(apply list_elem_of_In; simpl; auto)).
  pose proof (list_smaller _ _ (encode_filter e) (get_mk_list (map encode_filter xs))
    (list_elem_of_fmap_2 _ _ _ He)). lia.
Qed.

(** The filter tuples documented for the reader are decoded to the filter
    they encode: each comparison with its column and literal (boolean, 64-bit
    integer, float or string), and [:and]/[:or] of non-empty lists. *)
Theorem decode_filter_roundtrip e :
  wf_filter e -> filter_in_range e ->
  decode_filter_expr (S (term_size (encode_filter (Term := Term) e))) (encode_filter (Term := Term) e) = Ok e.
Proof.
  intros Hw Hr. revert Hw Hr. assert (term_size (encode_filter (Term := Term) e) <
    S (term_size (encode_filter (Term := Term) e)))%nat as Hf by lia. revert Hf.
  generalize (S (term_size (encode_filter (Term := Term) e))). intros fuel Hf Hw Hr. revert fuel Hw Hr Hf.
  induction e as [e He|xs IH|xs IH] using filter_ind; intros [|fuel] Hw Hr Hf; try lia.
  - assert (forall c v k, decode_filter_value (encode_filter_value v) = Ok v -> valid_str c = true ->
      comparison_parts e = Some (c, v, k) -> decode_filter_expr (S fuel) (encode_filter e) = Ok e) as Hc.
    { intros c v k Hv Hs Hp.
      destruct e; try discriminate Hp; injection Hp as -> -> _; cbn [decode_filter_expr encode_filter filter_tag];
        rewrite get_mk_tuple; cbn [ok_or mbind res_bind]; rewrite get_mk_atom; cbn [ok_or mbind res_bind];
        cbn [String.eqb Ascii.eqb Bool.eqb orb]; rewrite get_mk_string by done; cbn [ok_or mbind res_bind];
        by rewrite Hv. }
    destruct Hr as [Hr1 Hr2].
    destruct e; try done; inversion Hr1; inversion Hr2; subst; eapply Hc; try reflexivity; auto using decode_encode_value.
  - inversion Hw as [? Hc|x xs' Hxs|]; subst; [done|]. destruct Hr as [Hr1 Hr2].
    cbn [decode_filter_expr encode_filter filter_tag]. rewrite get_mk_tuple. cbn [ok_or mbind res_bind].
    rewrite get_mk_atom. cbn [ok_or mbind res_bind String.eqb Ascii.eqb Bool.eqb orb].
    rewrite get_mk_list. cbn [ok_or mbind res_bind].
    rewrite collect_list_proper. by erewrite decode_encode_filter_list by eauto using filter_in_range_list.
  - inversion Hw as [? Hc| |x xs' Hxs]; subst; [done|]. destruct Hr as [Hr1 Hr2].
    cbn [decode_filter_expr encode_filter filter_tag]. rewrite get_mk_tuple. cbn [ok_or mbind res_bind].
    rewrite get_mk_atom. cbn [ok_or mbind res_bind String.eqb Ascii.eqb Bool.eqb orb].
    rewrite get_mk_list. cbn [ok_or mbind res_bind].
    rewrite collect_list_proper. by erewrite decode_encode_filter_list by eauto using filter_in_range_list.
Qed.

End roundtrip.

Lemma decode_filter_roundtrip_witness :
  decode_filter_expr (S (term_size (encode_filter (Term := beam) sample_filter)))
    (encode_filter (Term := beam) sample_filter) = Ok sample_filter.
Proof.
  apply (decode_filter_roundtrip (Term := beam) sample_filter).
  - apply wf_and. repeat constructor; done.
  - split; repeat constructor; done.
Defined.

(** ** Streams and writers *)

Section streams.
Context `{Arrow, ParquetCrate}.

(** A parquet stream delivers the reader's items: when the reader ends
    within [n] steps and does not panic, the first replies are its batches and
    errors, each once and in order, and every later reply is [:done]; which
    process makes a call does not matter, the lock orders them. *)
Theorem parquet_stream_delivers (i : Reader) n k :
  ends_within n i -> Forall no_panic (items n i) ->
  drain parquet_stream_next (length (items n i) + k) (new_mutex i)
  = map (item_reply arrow_fail) (items n i) ++ replicate k (RAtom "done").
Proof. apply drain_items. Qed.

End streams.

Definition sample_reader : @Reader ref_parquet := [Ok sample_batch].

Lemma parquet_stream_delivers_witness :
  drain parquet_stream_next 3 (new_mutex sample_reader)
  = [ROk sample_batch; RAtom "done"; RAtom "done"].
Proof.
  apply (parquet_stream_delivers sample_reader 1 2); [done|].
  by repeat constructor.
Defined.

Section writers.
Context `{RustlerLaws Term} `{ParquetCrate}.

(** Write options the writer can use. *)
Definition wf_write_opts (o : WriteOpts) : Prop :=
  (forall n, wo_row_group_size o = Some n -> 0 < n < 2 ^ 63) /\
  (forall l, wo_compression o = Some (ZSTD l) ->
     l = zstd_default \/ exists v, s_range 32 v /\ zstd_try_new v = Ok l).

Lemma decode_compression_zstd (t : Term) l :
  decode_compression t = Ok (ZSTD l) -> l = zstd_default \/ exists v, s_range 32 v /\ zstd_try_new v = Ok l.
Proof.
  assert (forall t : Term, (atom ← ok_or "compression must be an atom or {:zstd, level}" (get_atom t);
    if String.eqb atom "none" || String.eqb atom "uncompressed" then Ok UNCOMPRESSED
    else if String.eqb atom "snappy" then Ok SNAPPY
    else if String.eqb atom "zstd" then Ok (ZSTD zstd_default)
    else if String.eqb atom "lz4" then Ok LZ4_RAW
    else if String.eqb atom "gzip" then Ok (GZIP gzip_default)
    else Err "unsupported compression (supported: :none :snappy :zstd :lz4 :gzip)") = Ok (ZSTD l) ->
    l = zstd_default) as Hatom.
  { intros t' (a & _ & Ha)%bind_Ok. repeat case_match; try done. congruence. }
  unfold decode_compression. destruct (get_tuple t) as [[|t0 [|t1 []]]|]; eauto.
  intros (tag & _ & Hd)%bind_Ok. case_match; [|done].
  apply bind_Ok in Hd as (level & _ & Hd). apply bind_Ok in Hd as (v & [-> Hv]%ok_or_Ok%try_from_s_Some & Hd).
  apply bind_Ok in Hd as (z & Hz%map_err_Ok & [= ->]). eauto.
Qed.

Lemma set_write_opt_wf o key (v : Term) o' :
  wf_write_opts o -> set_write_opt o key v = Ok o' -> wf_write_opts o'.
Proof.
  intros [Hn Hc]. unfold set_write_opt. case_match; [|case_match; [|case_match]]; [| | |done].
  - intros (c & Hd & [= <-])%bind_Ok. split; [done|]. cbn. intros l [= ->]. by eapply decode_compression_zstd.
  - intros (n & Hd%ok_or_Ok & Ho)%bind_Ok. destruct (Z.leb_spec n 0); [done|]. injection Ho as <-.
    split; [|done]. cbn. intros ? [= <-]. apply get_i64_range in Hd. unfold s_range in Hd. cbn in *. lia.
  - intros (b & _ & [= <-])%bind_Ok. by split.
Qed.

(** Write options that are accepted are usable: a row-group size is
    positive and fits a signed 64-bit integer, and a zstd level is the default
    or one that the codec accepted from a 32-bit number. *)
Theorem decode_write_opts_wf (t : Term) o : decode_write_opts t = Ok o -> wf_write_opts o.
Proof.
  unfold decode_write_opts. destruct (is_nil t); [by intros [= <-]|].
  intros (l & _ & (o' & Ho & (u & _ & [= <-])%bind_Ok)%bind_Ok)%bind_Ok. revert Ho.
  assert (wf_write_opts WriteOpts_default) as Hw by done. revert Hw. clear u.
  generalize WriteOpts_default. generalize (list_items l). clear l. intros l. induction l as [|x l IH]; intros o0 Hw; cbn; [by intros [= <-]|].
  intros ([key v] & _ & Ho)%bind_Ok. apply bind_Ok in Ho as (o1 & Ho1 & Ho).
  eapply IH; [|exact Ho]. by eapply set_write_opt_wf.
Qed.

End writers.

Lemma decode_write_opts_wf_witness :
  let t := BList [BTuple [BAtom "compression"; BTuple [BAtom "zstd"; BInt 3]];
                  BTuple [BAtom "row_group_size"; BInt 1000]] in
  decode_write_opts t = Ok (mkWriteOpts (Some (ZSTD 3)) (Some 1000) None) /\
  wf_write_opts (mkWriteOpts (Some (ZSTD 3)) (Some 1000) None).
Proof.
  intros t. assert (decode_write_opts t = Ok (mkWriteOpts (Some (ZSTD 3)) (Some 1000) None)) as Hd
    by (vm_compute; reflexivity).
  split; [exact Hd|]. exact (decode_write_opts_wf t _ Hd).
Defined.
