(* ===== verification/Ipc.v ===== *)
(** * IPC streams and files, schemas and column buffers (ipc.rs)

    Readers and writers of the IPC stream and file formats, the schema and
    batch accessors, and the conversion of columns from and to raw bytes for
    Nx: the framing of variable-length records, the builder of a column from a
    dtype string, and the extraction of a column's buffer. *)

From S2P Require Import Prelude Float Utf8 Term Arrow Stream.

(** ** The arrow-ipc crate and the array internals used here *)

Class IpcCrate := {
  BinaryStreamReader : Type;           (* StreamReader<Cursor<Vec<u8>>> *)
  FileStreamReader : Type;             (* StreamReader<BufReader<File>> *)
  binary_stream_iter : BatchIter BinaryStreamReader ArrowError;
  file_stream_iter : BatchIter FileStreamReader ArrowError;
  stream_try_new : bytes -> res ArrowError BinaryStreamReader;
  stream_try_new_buffered : bytes -> res ArrowError FileStreamReader;
  binary_stream_schema : BinaryStreamReader -> Schema;
  file_stream_schema : FileStreamReader -> Schema;
  FileReader : Type;
  file_iter : BatchIter FileReader ArrowError;
  file_try_new : bytes -> res ArrowError FileReader;
  file_reader_schema : FileReader -> Schema;
  num_batches : FileReader -> nat;
  set_index : FileReader -> Z -> res ArrowError FileReader;
  StreamWriter : Type;
  stream_writer_try_new : Schema -> res ArrowError StreamWriter;
  stream_write : StreamWriter -> RecordBatch -> res ArrowError StreamWriter;
  stream_finish : StreamWriter -> res ArrowError bytes;
  FileWriter : Type;
  file_writer_try_new : Schema -> res ArrowError FileWriter;
  file_write : FileWriter -> RecordBatch -> res ArrowError FileWriter;
  file_finish : FileWriter -> res ArrowError bytes;
  array_offset : Array -> nat;         (* PrimitiveArray::offset *)
  utf8_error : bytes -> string         (* Display of std::str::Utf8Error *)
}.
#[export] Existing Instance binary_stream_iter.
#[export] Existing Instance file_stream_iter.
#[export] Existing Instance file_iter.

(** ** Schemas and batches *)

Definition data_type_to_atom (dt : DataType) : string :=
  match dt with
  | TNull => "null"
  | TBoolean => "boolean"
  | TInt8 => "int8" | TInt16 => "int16" | TInt32 => "int32" | TInt64 => "int64"
  | TUInt8 => "uint8" | TUInt16 => "uint16" | TUInt32 => "uint32" | TUInt64 => "uint64"
  | TFloat16 => "float16" | TFloat32 => "float32" | TFloat64 => "float64"
  | TUtf8 => "utf8" | TLargeUtf8 => "large_utf8"
  | TBinary => "binary" | TLargeBinary => "large_binary"
  | TList _ => "list" | TLargeList _ => "large_list" | TStruct _ => "struct"
  | TTimestamp _ _ => "timestamp"
  | TDate32 => "date32" | TDate64 => "date64"
  | TTime32 _ => "time32" | TTime64 _ => "time64"
  | TDuration _ => "duration"
  | TDecimal128 _ _ => "decimal128" | TDecimal256 _ _ => "decimal256"
  | TDictionary _ _ => "dictionary"
  | TOther _ => "unknown"
  end.

Definition schema_fields (schema : Schema) : Reply (list (string * string * bool)) :=
  RBare (map (fun f => (field_name f, data_type_to_atom (field_type f), field_nullable f)) (fields schema)).

Definition record_batch_schema (batch : RecordBatch) : Reply Schema := RBare (rb_schema batch).

Definition record_batch_num_rows (batch : RecordBatch) : Reply Z := RBare (Z.of_nat (rb_num_rows batch)).

(** ** Streams *)

Section streams.
Context `{Arrow, IpcCrate}.

Inductive IpcStreamBacking :=
| StreamBinary (m : Mutex BinaryStreamReader)
| StreamFile (m : Mutex FileStreamReader).

Definition ipc_reader_from_binary (data : bytes) : Reply IpcStreamBacking :=
  match stream_try_new data with
  | Ok reader => ok_encode (StreamBinary (new_mutex reader))
  | Err e => err_encode (error_string e)
  | Panic s => RRaise s
  end.

(** [file] is the result of [File::open] with the contents read through it. *)
Definition ipc_reader_from_file (file : res string bytes) : Reply IpcStreamBacking :=
  reply (
    contents ← file;
    reader ← map_err error_string (stream_try_new_buffered contents);
    Ok (StreamFile (new_mutex reader))).

Definition ipc_stream_schema (stream : IpcStreamBacking) : Reply Schema :=
  match stream with
  | StreamBinary m =>
      match lock m with
      | Some g => RBare (binary_stream_schema g)
      | None => err_encode "stream lock"
      end
  | StreamFile m =>
      match lock m with
      | Some g => RBare (file_stream_schema g)
      | None => err_encode "stream lock"
      end
  end.

Definition ipc_stream_next (stream : IpcStreamBacking) : Reply RecordBatch * IpcStreamBacking :=
  match stream with
  | StreamBinary m =>
      let '(r, m') := next_reply (err_encode "stream lock") arrow_fail m in (r, StreamBinary m')
  | StreamFile m =>
      let '(r, m') := next_reply (err_encode "stream lock") arrow_fail m in (r, StreamFile m')
  end.

(** *** Writers *)

Fixpoint stream_write_all (writer : StreamWriter) (batches : list RecordBatch)
    : res ArrowError StreamWriter :=
  match batches with
  | [] => Ok writer
  | b :: rest => w ← stream_write writer b; stream_write_all w rest
  end.

Definition write_stream (schema : Schema) (batches : list RecordBatch) : res string bytes :=
  map_err error_string (
    writer ← stream_writer_try_new schema;
    writer ← stream_write_all writer batches;
    stream_finish writer).

(** [OwnedBinary::new] and the copy into it. *)
Definition owned_reply `{Rustler Term} (buf : bytes) : Reply bytes :=
  if owned_binary_new (Z.of_nat (length buf)) then ok_encode buf else err_encode "binary alloc".

Definition ipc_writer_to_binary `{Rustler Term} (schema : Schema) (batches : list RecordBatch)
    : Reply bytes :=
  reply_with (write_stream schema batches) owned_reply.

(** [file] is the result of [File::create]; the bytes end up in the file. *)
Definition ipc_writer_to_file (file : res string unit) (schema : Schema) (batches : list RecordBatch)
    : Reply bytes :=
  reply_with file (fun _ => reply_with (write_stream schema batches) (fun _ => RAtom "ok")).

(** ** Files *)

Definition ExArrowIpcFile := Mutex FileReader.

Definition ipc_file_open (file : res string bytes) : Reply ExArrowIpcFile :=
  reply (
    contents ← file;
    reader ← map_err error_string (file_try_new contents);
    Ok (new_mutex reader)).

Definition ipc_file_open_from_binary (binary : bytes) : Reply ExArrowIpcFile :=
  reply (
    reader ← map_err error_string (file_try_new binary);
    Ok (new_mutex reader)).

Definition ipc_file_schema (file : ExArrowIpcFile) : Reply Schema :=
  match lock file with
  | Some g => RBare (file_reader_schema g)
  | None => err_encode "file lock"
  end.

Definition ipc_file_num_batches (file : ExArrowIpcFile) : Z :=
  match lock file with
  | Some g => Z.of_nat (num_batches g)
  | None => 0
  end.

(** [index] is a u64; [usize] has 64 bits. *)
Definition ipc_file_get_batch (file : ExArrowIpcFile) (index : Z) : Reply RecordBatch * ExArrowIpcFile :=
  match lock file with
  | None => (err_encode "file lock", file)
  | Some g =>
      match set_index g index with
      | Err e => (err_encode (error_string e), file)
      | Panic s => (RRaise s, mkMutex g true)
      | Ok g' =>
          let '(item, g'') := iter_next g' in
          match item with
          | None => (err_encode "batch index out of range", mkMutex g'' false)
          | Some (Err e) => (err_encode (error_string e), mkMutex g'' false)
          | Some (Ok batch) => (ok_encode batch, mkMutex g'' false)
          | Some (Panic s) => (RRaise s, mkMutex g'' true)
          end
      end
  end.

Fixpoint file_write_all (writer : FileWriter) (batches : list RecordBatch) : res ArrowError FileWriter :=
  match batches with
  | [] => Ok writer
  | b :: rest => w ← file_write writer b; file_write_all w rest
  end.

Definition write_file (schema : Schema) (batches : list RecordBatch) : res string bytes :=
  map_err error_string (
    writer ← file_writer_try_new schema;
    writer ← file_write_all writer batches;
    file_finish writer).

Definition ipc_file_writer_to_file (file : res string unit) (schema : Schema)
    (batches : list RecordBatch) : Reply bytes :=
  reply_with file (fun _ => reply_with (write_file schema batches) (fun _ => RAtom "ok")).

(** *** Fixtures *)

Definition fixture_schema : Schema :=
  mkSchema [mkField "id" TInt64 false; mkField "name" TUtf8 false].

Definition fixture_batch : res ArrowError RecordBatch :=
  try_new fixture_schema [IntArray TInt64 [Some 1; Some 2]; BytesArray TUtf8 [Some "a"; Some "b"]].

Definition ipc_test_fixture_binary `{Rustler Term} : Reply bytes :=
  reply_with (b ← map_err error_string fixture_batch; write_stream fixture_schema [b]) owned_reply.

(** [into_inner] finishes the file. *)
Definition ipc_test_fixture_file_binary `{Rustler Term} : Reply bytes :=
  reply_with (b ← map_err error_string fixture_batch; write_file fixture_schema [b]) owned_reply.

End streams.

(** ** Columns as bytes *)

Section columns.
Context `{Arrow, IpcCrate}.

(** [primitive_buffer!]: [&values[offset..offset + len]] panics out of range. *)
Definition primitive_buffer `{Rustler Term} (array : Array) (dtype_str : string)
    : Reply (bytes * string * Z) :=
  if negb (is_primitive array) then err_encode "internal: type downcast failed"
  else
    let offset := array_offset array in
    let len := array_len array in
    let values := native_values array in
    if (length values <? offset + len)%nat then RRaise "range end index out of range for slice"
    else
      let slice := take len (drop offset values) in
      let bs := concat slice in
      if owned_binary_new (Z.of_nat (length bs)) then ok_encode (bs, dtype_str, Z.of_nat len)
      else err_encode "binary alloc".

Definition bool_byte (v : list (option bool)) (i : nat) : byte :=
  match v !! i with
  | Some None => Byte.x00
  | _ => if bool_value v i then Byte.x01 else Byte.x00
  end.

Definition extract_primitive_buffer `{Rustler Term} (array : Array) : Reply (bytes * string * Z) :=
  match data_type array with
  | TInt8 => primitive_buffer array "s8"
  | TInt16 => primitive_buffer array "s16"
  | TInt32 => primitive_buffer array "s32"
  | TInt64 => primitive_buffer array "s64"
  | TUInt8 => primitive_buffer array "u8"
  | TUInt16 => primitive_buffer array "u16"
  | TUInt32 => primitive_buffer array "u32"
  | TUInt64 => primitive_buffer array "u64"
  | TFloat32 => primitive_buffer array "f32"
  | TFloat64 => primitive_buffer array "f64"
  | TBoolean =>
      match downcast_boolean array with
      | None => err_encode "internal: boolean downcast failed"
      | Some v =>
          let len := length v in
          let byte_buf := map (bool_byte v) (seq 0 len) in
          if owned_binary_new (Z.of_nat len) then ok_encode (byte_buf, "bool", Z.of_nat len)
          else err_encode "binary alloc"
      end
  | dt => err_encode ("unsupported column type for Nx: " +:+ debug_type dt)
  end.

Definition record_batch_column_buffer `{Rustler Term} (batch : RecordBatch) (col_name : string)
    : Reply (bytes * string * Z) :=
  match index_of (rb_schema batch) col_name with
  | None => err_encode ("column '" +:+ col_name +:+ "' not found")
  | Some col_idx =>
      reply_with (index (rb_columns batch) col_idx) extract_primitive_buffer
  end.

(** [Vec::with_capacity(n)] of [size]-byte elements panics when the size in
    bytes exceeds [isize::MAX]. *)
Definition vec_with_capacity (size n : Z) : res string unit :=
  if n * size <? 2 ^ 63 then Ok () else Panic "capacity overflow".

(** Bytes [i], [i+1], .. of a slice; a panic out of range. *)
Definition slice_range (bs : bytes) (from to : nat) : res string bytes :=
  if (from <=? to)%nat && (to <=? length bs)%nat then Ok (take (to - from) (drop from bs))
  else Panic "range end index out of range for slice".

Definition u32_from_le_bytes (b0 b1 b2 b3 : byte) : Z := le_unsigned [b0; b1; b2; b3].

(** The loop of [decode_varlen_records], from element [i] at [offset].  A
    record takes four bytes at least, so [fuel] above the number of bytes left
    is enough (see [varlen_loop_spec]). *)
Fixpoint varlen_loop (fuel : nat) (bs : bytes) (length' : Z) (dtype : string) (i : Z) (offset : nat)
    (elems : list bytes) : res string (list bytes * nat) :=
  if i <? length' then
    match fuel with
    | O => Panic "out of fuel"
    | S fuel' =>
      if (length bs <? offset + 4)%nat then
        Err ("binary truncated for " +:+ dtype +:+ ": missing length prefix for element " +:+ pretty i
             +:+ " (offset " +:+ pretty offset +:+ " of " +:+ pretty (length bs) +:+ " bytes)")
      else
        b0 ← index bs offset;
        b1 ← index bs (offset + 1);
        b2 ← index bs (offset + 2);
        b3 ← index bs (offset + 3);
        let len := Z.to_nat (u32_from_le_bytes b0 b1 b2 b3) in
        let offset := (offset + 4)%nat in
        if (length bs <? offset + len)%nat then
          Err ("binary truncated for " +:+ dtype +:+ ": element " +:+ pretty i +:+ " declares "
               +:+ pretty len +:+ " bytes but only " +:+ pretty (length bs - offset)%nat +:+ " remain")
        else
          elem ← slice_range bs offset (offset + len);
          varlen_loop fuel' bs length' dtype (i + 1) (offset + len) (elems ++ [elem])
    end
  else Ok (elems, offset).

Definition decode_varlen_records (bs : bytes) (length' : Z) (dtype : string) : res string (list bytes) :=
  _ ← vec_with_capacity 16 length';
  '(elems, offset) ← varlen_loop (S (length bs)) bs length' dtype 0 0 [];
  if negb (offset =? length bs)%nat then
    Err ("binary length mismatch for " +:+ dtype +:+ ": " +:+ pretty (length bs - offset)%nat
         +:+ " trailing bytes after " +:+ pretty length' +:+ " elements")
  else Ok elems.

(** [build_fixed_col!]; the product is computed on [usize] and wraps around. *)
Definition build_fixed_col (bs : bytes) (length' elem_size : Z) (dt : DataType)
    : res string (DataType * Array) :=
  let expected := wrap_u 64 (length' * elem_size) in
  if negb (Z.of_nat (length bs) =? expected) then
    Err ("binary length mismatch: expected " +:+ pretty expected +:+ " bytes (" +:+ pretty length'
         +:+ " × " +:+ pretty elem_size +:+ "), got " +:+ pretty (length bs))
  else
    array ← map_err error_string (build_primitive dt length' bs);
    Ok (dt, array).

(** The dtype strings of fixed-width columns: element size and type. *)
Definition fixed_dtype (dtype_str : string) : option (Z * DataType) :=
  if String.eqb dtype_str "s8" then Some (1, TInt8)
  else if String.eqb dtype_str "s16" then Some (2, TInt16)
  else if String.eqb dtype_str "s32" then Some (4, TInt32)
  else if String.eqb dtype_str "s64" then Some (8, TInt64)
  else if String.eqb dtype_str "u8" then Some (1, TUInt8)
  else if String.eqb dtype_str "u16" then Some (2, TUInt16)
  else if String.eqb dtype_str "u32" then Some (4, TUInt32)
  else if String.eqb dtype_str "u64" then Some (8, TUInt64)
  else if String.eqb dtype_str "f32" then Some (4, TFloat32)
  else if String.eqb dtype_str "f64" then Some (8, TFloat64)
  else if String.eqb dtype_str "date32" then Some (4, TDate32)
  else if String.eqb dtype_str "date64" then Some (8, TDate64)
  else if String.eqb dtype_str "timestamp_seconds" then Some (8, TTimestamp Second None)
  else if String.eqb dtype_str "timestamp_millis" then Some (8, TTimestamp Millisecond None)
  else if String.eqb dtype_str "timestamp_micros" then Some (8, TTimestamp Microsecond None)
  else if String.eqb dtype_str "timestamp_nanos" then Some (8, TTimestamp Nanosecond None)
  else if String.eqb dtype_str "duration_seconds" then Some (8, TDuration Second)
  else if String.eqb dtype_str "duration_millis" then Some (8, TDuration Millisecond)
  else if String.eqb dtype_str "duration_micros" then Some (8, TDuration Microsecond)
  else if String.eqb dtype_str "duration_nanos" then Some (8, TDuration Nanosecond)
  else None.

Definition checked_str (e : bytes) : res string string :=
  match from_utf8 e with
  | Some s => Ok s
  | None => Err ("invalid utf-8: " +:+ utf8_error e)
  end.

Definition build_column_array (bs : bytes) (dtype_str : string) (length' : Z)
    : res string (DataType * Array) :=
  match fixed_dtype dtype_str with
  | Some (elem_size, dt) => build_fixed_col bs length' elem_size dt
  | None =>
    if String.eqb dtype_str "bool" then
      if negb (Z.of_nat (length bs) =? length') then
        Err ("binary length mismatch for bool: expected " +:+ pretty length' +:+ " bytes, got "
             +:+ pretty (length bs))
      else Ok (TBoolean, BooleanArray (map (fun b => Some (negb (bz b =? 0))) bs))
    else if String.eqb dtype_str "utf8" then
      elems ← decode_varlen_records bs length' "utf8";
      strs ← collect checked_str elems;
      Ok (TUtf8, BytesArray TUtf8 (map Some strs))
    else if String.eqb dtype_str "large_utf8" then
      elems ← decode_varlen_records bs length' "large_utf8";
      strs ← collect checked_str elems;
      Ok (TLargeUtf8, BytesArray TLargeUtf8 (map Some strs))
    else if String.eqb dtype_str "binary" then
      elems ← decode_varlen_records bs length' "binary";
      Ok (TBinary, BytesArray TBinary (map (fun e => Some (of_bytes e)) elems))
    else if String.eqb dtype_str "large_binary" then
      elems ← decode_varlen_records bs length' "large_binary";
      Ok (TLargeBinary, BytesArray TLargeBinary (map (fun e => Some (of_bytes e)) elems))
    else Err ("unknown dtype '" +:+ dtype_str +:+ "' for column creation")
  end.

Definition record_batch_from_column_binary (col_name : string) (binary : bytes) (dtype_str : string)
    (length' : Z) : Reply RecordBatch :=
  reply (
    '(data_type, array) ← build_column_array binary dtype_str length';
    map_err error_string (try_new (mkSchema [mkField col_name data_type false]) [array])).

(** The columns of parallel lists, in order. *)
Fixpoint build_columns (names : list string) (binaries : list bytes) (dtypes : list string) (length' : Z)
    : res string (list Field * list Array) :=
  match names, binaries, dtypes with
  | name :: names', binary :: binaries', dtype_str :: dtypes' =>
      '(data_type, array) ← build_column_array binary dtype_str length';
      '(fields, arrays) ← build_columns names' binaries' dtypes' length';
      Ok (mkField name data_type false :: fields, array :: arrays)
  | _, _, _ => Ok ([], [])
  end.

Definition record_batch_from_column_binaries (names : list string) (binaries : list bytes)
    (dtypes : list string) (length' : Z) : Reply RecordBatch :=
  if negb (length names =? length binaries)%nat || negb (length names =? length dtypes)%nat then
    err_encode "names, binaries, and dtypes must have the same length"
  else
    match names with
    | [] => err_encode "at least one column is required"
    | _ =>
        reply (
          '(fields, arrays) ← build_columns names binaries dtypes length';
          map_err error_string (try_new (mkSchema fields) arrays))
    end.

Definition record_batch_concat (batches : list RecordBatch) : Reply RecordBatch :=
  match batches with
  | [] => err_encode "cannot concatenate an empty list of batches"
  | first :: _ => reply (map_err error_string (concat_batches (rb_schema first) batches))
  end.

End columns.
