(* ===== verification/IpcFacts.v ===== *)
(** * Facts about column buffers

    The framing of variable-length records is a bijection, and columns built
    from bytes give the bytes back. *)

From S2P Require Import Prelude Float Utf8 Term Arrow ArrowRef Stream Ipc.

(** ** Little-endian numbers *)

Definition byte_of (z : Z) : byte := default Byte.x00 (Byte.of_N (Z.to_N z)).

Lemma byte_of_bz b : byte_of (bz b) = b.
Proof. unfold byte_of, bz. by rewrite N2Z.id, Byte.of_to_N. Qed.

Lemma bz_byte_of z : 0 <= z < 256 -> bz (byte_of z) = z.
Proof.
  intros Hz. unfold byte_of, bz. destruct (Byte.of_N (Z.to_N z)) as [b|] eqn:E; cbn.
  - apply Byte.to_of_N in E. rewrite E. lia.
  - apply Byte.of_N_None_iff in E. lia.
Qed.

Lemma int_bytes_length w v : length (int_bytes w v) = w.
Proof. revert v. induction w as [|w IH]; intros v; cbn; [done|]. by rewrite IH. Qed.

Lemma le_unsigned_bound bs : 0 <= le_unsigned bs < 256 ^ Z.of_nat (length bs).
Proof.
  induction bs as [|b bs IH]; cbn [le_unsigned length]; [lia|].
  rewrite Nat2Z.inj_succ, Z.pow_succ_r by lia. pose proof (bz_bound b). lia.
Qed.

Lemma le_unsigned_int_bytes w v : 0 <= v < 256 ^ Z.of_nat w -> le_unsigned (int_bytes w v) = v.
Proof.
  revert v. induction w as [|w IH]; intros v Hv; cbn [int_bytes le_unsigned]; [cbn in Hv; lia|].
  rewrite Nat2Z.inj_succ, Z.pow_succ_r in Hv by lia.
  pose proof (Z.mod_pos_bound v 256). pose proof (Z.div_mod v 256).
  rewrite IH by (split; [apply Z.div_pos; lia|apply Z.div_lt_upper_bound; lia]).
  fold (byte_of (v mod 256)). rewrite bz_byte_of by lia. lia.
Qed.

Lemma int_bytes_le_unsigned bs : int_bytes (length bs) (le_unsigned bs) = bs.
Proof.
  induction bs as [|b bs IH]; cbn [length le_unsigned int_bytes]; [done|].
  pose proof (bz_bound b).
  replace (bz b + 256 * le_unsigned bs) with (le_unsigned bs * 256 + bz b) by lia.
  rewrite Z.div_add_l, Z.div_small, Z.add_0_r by lia.
  rewrite Z.add_comm, Z.mod_add, Z.mod_small by lia. rewrite IH. f_equal. apply byte_of_bz.
Qed.

(** ** Framing *)

(** A record as [ExArrow.Nx] sends it: [<<len::u32-little, bytes>>]. *)
Definition frame (e : bytes) : bytes := int_bytes 4 (Z.of_nat (length e)) ++ e.

Definition frames (es : list bytes) : bytes := concat (map frame es).

Definition short (e : bytes) : Prop := Z.of_nat (length e) < 2 ^ 32.

Section varlen.
Context (bs : bytes) (n : Z) (dtype : string).

Lemma index_drop off i b :
  drop off bs !! i = Some b -> @index string byte bs (off + i) = Ok b.
Proof. rewrite lookup_drop. apply index_Ok. Qed.

Lemma slice_range_drop off len :
  (off + len <= length bs)%nat -> slice_range bs off (off + len) = Ok (take len (drop off bs)).
Proof.
  intros Hl. unfold slice_range. rewrite (proj2 (Nat.leb_le off (off + len))) by lia.
  rewrite (proj2 (Nat.leb_le (off + len) (length bs))) by lia. cbn. do 2 f_equal. lia.
Qed.

(** One turn of the loop, on the bytes that are left. *)
Lemma varlen_step fuel i off elems :
  i < n -> (off <= length bs)%nat ->
  (exists msg, varlen_loop (S fuel) bs n dtype i off elems = Err msg) /\
    ~ (exists e rest, short e /\ drop off bs = frame e ++ rest) \/
  exists e rest, short e /\ drop off bs = frame e ++ rest /\
    varlen_loop (S fuel) bs n dtype i off elems =
    varlen_loop fuel bs n dtype (i + 1) (off + 4 + length e) (elems ++ [e]).
Proof.
  intros Hi Hoff. cbn [varlen_loop]. rewrite (proj2 (Z.ltb_lt i n) Hi).
  assert (length (drop off bs) = length bs - off)%nat as Hd by apply length_drop.
  destruct (Nat.ltb_spec (length bs) (off + 4)) as [Hshort|Hlong].
  { left. split; [eauto|]. intros (e & rest & _ & He). rewrite He in Hd. unfold frame in Hd.
    rewrite !length_app, int_bytes_length in Hd. lia. }
  destruct (drop off bs) as [|b0 [|b1 [|b2 [|b3 tl]]]] eqn:Eb; cbn in Hd; try lia.
  pose proof (index_drop off 0 b0) as H0. pose proof (index_drop off 1 b1) as H1.
  pose proof (index_drop off 2 b2) as H2. pose proof (index_drop off 3 b3) as H3.
  rewrite Eb in H0, H1, H2, H3. rewrite Nat.add_0_r in H0.
  rewrite H0, H1, H2, H3 by done. cbn [mbind res_bind].
  set (len := Z.to_nat (u32_from_le_bytes b0 b1 b2 b3)).
  pose proof (le_unsigned_bound [b0; b1; b2; b3]) as Hb. cbn [length] in Hb.
  assert (drop (off + 4) bs = tl) as Ht by (rewrite <-drop_drop, Eb; done).
  assert (length tl = length bs - (off + 4))%nat as Htl by (rewrite <-Ht; apply length_drop).
  destruct (Nat.ltb_spec (length bs) (off + 4 + len)) as [Hshort|Henough].
  - left. split; [eauto|]. intros (e & rest & Hs & He). unfold frame in He. rewrite <-app_assoc in He.
    assert ([b0; b1; b2; b3] = int_bytes 4 (Z.of_nat (length e)) /\ tl = e ++ rest) as [H4 H5].
    { apply app_inj_1; [by rewrite int_bytes_length|done]. }
    assert (Z.of_nat len = Z.of_nat (length e)) as Hlen.
    { unfold len, u32_from_le_bytes. rewrite H4, le_unsigned_int_bytes by (unfold short in Hs; cbn in *; lia). lia. }
    rewrite H5, length_app in Htl. lia.
  - right. exists (take len tl), (drop len tl).
    assert (length (take len tl) = len) as Hlt by (rewrite length_take; lia).
    split; [unfold short; rewrite Hlt; unfold len, u32_from_le_bytes; cbn in Hb |- *; lia|].
    split.
    + unfold frame. rewrite Hlt. unfold len, u32_from_le_bytes. rewrite Z2Nat.id by lia.
      change 4%nat with (length [b0; b1; b2; b3]). rewrite int_bytes_le_unsigned, <-app_assoc.
      by rewrite take_drop.
    + rewrite slice_range_drop by lia. rewrite Ht, Hlt. done.
Qed.

Lemma frame_inj e e' r r' : short e -> short e' -> frame e ++ r = frame e' ++ r' -> e = e' /\ r = r'.
Proof.
  unfold frame, short. intros Hs Hs'. rewrite <-!app_assoc. intros He.
  apply app_inj_1 in He as [H1 H2]; [|by rewrite !int_bytes_length].
  apply (f_equal le_unsigned) in H1. rewrite !le_unsigned_int_bytes in H1 by (cbn; lia).
  apply app_inj_1 in H2; [done|lia].
Qed.

Lemma frame_length e : length (frame e) = (4 + length e)%nat.
Proof. unfold frame. by rewrite length_app, int_bytes_length. Qed.

(** The loop from element [i] at [off] returns exactly when the bytes left
    start with [n - i] records, and it does not run out of fuel. *)
Lemma varlen_loop_spec fuel i off elems :
  i <= n -> (off <= length bs)%nat -> (length bs - off < fuel)%nat ->
  no_panic (varlen_loop fuel bs n dtype i off elems) /\
  forall r, varlen_loop fuel bs n dtype i off elems = Ok r <->
    exists es rest, Forall short es /\ i + Z.of_nat (length es) = n /\
      drop off bs = frames es ++ rest /\ r = (elems ++ es, (length bs - length rest)%nat).
Proof.
  revert i off elems. induction fuel as [|fuel IH]; intros i off elems Hi Hoff Hfuel; [lia|].
  destruct (decide (i = n)) as [->|Hne].
  { cbn [varlen_loop]. rewrite Z.ltb_irrefl. split; [done|]. intros r. split.
    - intros [= <-]. exists [], (drop off bs). rewrite length_drop, app_nil_r. split_and!; try done; [cbn; lia|].
      f_equal. lia.
    - intros (es & rest & _ & Hn & Hd & ->). destruct es; cbn in *; [|lia].
      rewrite app_nil_r, <-Hd, length_drop. do 2 f_equal. lia. }
  destruct (varlen_step fuel i off elems ltac:(lia) Hoff) as [[[msg Herr] Hno]|(e & rest & Hs & Hd & Hstep)].
  { rewrite Herr. split; [done|]. intros r. split; [done|].
    intros (es & rest & Hf & Hn & Hd & ->). exfalso. apply Hno.
    destruct es as [|e es]; cbn in Hn; [lia|]. apply Forall_cons in Hf as [Hs _].
    exists e, (frames es ++ rest). split; [done|]. rewrite Hd. unfold frames. cbn. by rewrite app_assoc. }
  rewrite Hstep.
  assert (length bs - off = 4 + length e + length rest)%nat as Hlen.
  { rewrite <-length_drop, Hd, length_app, frame_length. done. }
  assert (drop (off + 4 + length e) bs = rest) as Hd'.
  { replace (off + 4 + length e)%nat with (off + length (frame e))%nat by (rewrite frame_length; lia).
    rewrite <-drop_drop, Hd. by rewrite drop_app_length. }
  destruct (IH (i + 1) (off + 4 + length e)%nat (elems ++ [e])) as [Hnp Hiff]; [lia..|].
  split; [done|]. intros r. rewrite Hiff, Hd'. split.
  - intros (es & rest' & Hf & Hn & Hr & ->). exists (e :: es), rest'.
    split_and!; [by constructor|cbn; lia|rewrite Hd, Hr; unfold frames; cbn; by rewrite app_assoc|].
    by rewrite <-app_assoc.
  - intros (es & rest' & Hf & Hn & Hr & ->). destruct es as [|e' es]; [cbn in Hn; lia|].
    apply Forall_cons in Hf as [Hs' Hf']. unfold frames in Hr. cbn in Hr. rewrite <-app_assoc in Hr.
    rewrite Hd in Hr. apply frame_inj in Hr as [-> ->]; [|done..].
    exists es, rest'. split_and!; [done|cbn in Hn |- *; lia|done|]. by rewrite <-app_assoc.
Qed.

(** Decoding succeeds exactly on the framing of [n] records. *)
Lemma decode_varlen_spec :
  0 <= n -> n * 16 < 2 ^ 63 ->
  no_panic (decode_varlen_records bs n dtype) /\
  forall es, decode_varlen_records bs n dtype = Ok es <->
    bs = frames es /\ Z.of_nat (length es) = n /\ Forall short es.
Proof.
  intros H0 Hn. unfold decode_varlen_records, vec_with_capacity.
  rewrite (proj2 (Z.ltb_lt _ _) Hn). cbn [mbind res_bind].
  destruct (varlen_loop_spec (S (length bs)) 0 0 []) as [Hnp Hiff]; [lia..|].
  destruct (varlen_loop _ _ _ _ _ _ _) as [[els off]|msg|]; try done; cbn [mbind res_bind].
  - destruct (proj1 (Hiff _) eq_refl) as (es & rest & Hf & Hl & Hd & [= -> Hoff]).
    rewrite drop_0 in Hd.
    assert (length rest <= length bs)%nat by (rewrite Hd, length_app; lia).
    destruct (Nat.eqb_spec off (length bs)) as [E|E]; cbn [negb]; (split; [done|]); intros es'.
    + destruct rest as [|x rest]; [|cbn in *; lia]. rewrite app_nil_r in Hd. split.
      * intros [= <-]. auto.
      * intros (Hb & Hl' & Hf'). f_equal.
        assert (@Ok string _ (es, off) = Ok (es', off)) as Heq; [|congruence].
        apply Hiff. exists es', []. rewrite drop_0, app_nil_r. split_and!; try done; cbn; try lia.
        f_equal. cbn in *. lia.
    + split; [done|]. intros (Hb & Hl' & Hf'). exfalso. apply E.
      assert (@Ok string _ (es, off) = Ok (es', length bs)) as Heq; [|congruence].
      apply Hiff. exists es', []. rewrite drop_0, app_nil_r. split_and!; try done; cbn; try lia.
      f_equal. lia.
  - split; [done|]. intros es. split; [done|]. intros (Hb & Hl & Hf). exfalso.
    assert (@Err string (list bytes * nat) msg = Ok (es, length bs)); [|done].
    apply Hiff. exists es, []. rewrite drop_0, app_nil_r. split_and!; try done; cbn; try lia.
    f_equal. lia.
Qed.

End varlen.
