(* ===== verification/IpcThms.v ===== *)
(** * Theorems about IPC files and column buffers *)

From S2P Require Import Prelude Float Utf8 Term Arrow ArrowRef Stream Ipc IpcFacts ComputeThms.

(** ** The crate's parameters, concretely *)

(** IPC readers over lists of batches; a file remembers its position. *)
Record RefFile := mkRefFile { rf_batches : list (res ArrowError RecordBatch); rf_pos : nat }.

#[export] Instance ref_file_iter : BatchIter RefFile ArrowError := {
  iter_next f := (rf_batches f !! rf_pos f, mkRefFile (rf_batches f) (S (rf_pos f)))
}.

#[export] Instance ref_ipc : IpcCrate := {|
  BinaryStreamReader := list (res ArrowError RecordBatch);
  FileStreamReader := list (res ArrowError RecordBatch);
  binary_stream_iter := list_iter;
  file_stream_iter := list_iter;
  stream_try_new _ := Err (IpcError "no stream");
  stream_try_new_buffered _ := Err (IpcError "no stream");
  binary_stream_schema _ := mkSchema [];
  file_stream_schema _ := mkSchema [];
  FileReader := RefFile;
  file_iter := ref_file_iter;
  file_try_new _ := Err (IpcError "no file");
  file_reader_schema _ := mkSchema [];
  num_batches f := length (rf_batches f);
  set_index f i :=
    if (0 <=? i) && (i <? Z.of_nat (length (rf_batches f))) then Ok (mkRefFile (rf_batches f) (Z.to_nat i))
    else Err (IpcError "Cannot set batch to index");
  StreamWriter := list RecordBatch;
  stream_writer_try_new _ := Ok [];
  stream_write w b := Ok (w ++ [b]);
  stream_finish _ := Ok [];
  FileWriter := list RecordBatch;
  file_writer_try_new _ := Ok [];
  file_write w b := Ok (w ++ [b]);
  file_finish _ := Ok [];
  array_offset _ := 0%nat;
  utf8_error _ := "invalid utf-8 sequence"
|}.

(** [PrimitiveArray::offset] is zero: the array's buffer is already sliced. *)
Class OffsetLaws `{IpcCrate} : Prop := {
  array_offset_zero a : array_offset a = 0%nat
}.

(** Positioned reads of a file: [set_index] accepts the indices of the file's
    batches, and the next read after it gives the batch at that index. *)
Class FileLaws `{IpcCrate} := {
  file_batches : FileReader -> list (res ArrowError RecordBatch);
  file_num_batches f : num_batches f = length (file_batches f);
  set_index_no_panic f i : no_panic (set_index f i);
  set_index_in f i : 0 <= i < Z.of_nat (length (file_batches f)) -> is_ok (set_index f i);
  set_index_spec f i f' :
    set_index f i = Ok f' ->
    0 <= i < Z.of_nat (length (file_batches f)) /\
    fst (iter_next f') = file_batches f !! Z.to_nat i /\
    file_batches (snd (iter_next f')) = file_batches f
}.

#[export] Instance ref_offset : OffsetLaws.
Proof. by split. Qed.

#[export] Instance ref_file_laws : FileLaws.
Proof.
  apply (Build_FileLaws ref_ipc rf_batches); cbn; [done| | |].
  - intros f i. by case_match.
  - intros f i Hi. destruct (Z.leb_spec 0 i), (Z.ltb_spec i (Z.of_nat (length (rf_batches f)))); try done; lia.
  - intros f i f'. destruct (Z.leb_spec 0 i), (Z.ltb_spec i (Z.of_nat (length (rf_batches f)))); try done.
    intros [= <-]. done.
Defined.

(** ** Framing *)

(** C10: The framing of variable-length columns is exact.  For a row count that
    does not overflow the vector's capacity, decoding never panics, and it
    returns a list of elements exactly when the bytes are the concatenation of
    that many records, each element preceded by its length as a 32-bit
    little-endian number; truncated records and trailing bytes are errors. *)
Theorem varlen_framing_exact bs n dtype es :
  0 <= n -> n * 16 < 2 ^ 63 ->
  no_panic (decode_varlen_records bs n dtype) /\
  (decode_varlen_records bs n dtype = Ok es <->
   bs = frames es /\ Z.of_nat (length es) = n /\ Forall short es).
Proof. intros H0 Hn. destruct (decode_varlen_spec bs n dtype H0 Hn) as [? Hs]. auto. Qed.

Lemma varlen_framing_exact_witness :
  decode_varlen_records (frames [as_bytes "ab"; []; as_bytes "c"]) 3 "utf8"
  = Ok [as_bytes "ab"; []; as_bytes "c"].
Proof.
  apply (varlen_framing_exact (frames [as_bytes "ab"; []; as_bytes "c"]) 3 "utf8"
    [as_bytes "ab"; []; as_bytes "c"]); [done|done|].
  split; [reflexivity|]. split; [reflexivity|]. repeat constructor.
Defined.

(** The row count of a variable-length column is used as a vector capacity
    before it is compared with the bytes.  From 2^59 rows on, whatever the
    bytes are, building the column raises instead of returning an error. *)
Theorem varlen_row_count_raises `{Arrow, IpcCrate} name bs dtype n :
  dtype ∈ ["utf8"; "large_utf8"; "binary"; "large_binary"] -> 2 ^ 59 <= n ->
  raises (record_batch_from_column_binary name bs dtype n).
Proof.
  intros Hd Hn. assert (forall d, decode_varlen_records bs n d = Panic "capacity overflow") as Hp.
  { intros d. unfold decode_varlen_records, vec_with_capacity.
    rewrite (proj2 (Z.ltb_ge (n * 16) (2 ^ 63))); [done|]. cbn in *. lia. }
  unfold record_batch_from_column_binary, build_column_array.
  rewrite !elem_of_cons in Hd. destruct Hd as [->|[->|[->|[->|Hd]]]]; [..|by apply not_elem_of_nil in Hd];
    cbn [fixed_dtype String.eqb Ascii.eqb Bool.eqb]; rewrite Hp; done.
Qed.

Lemma varlen_row_count_raises_witness :
  raises (record_batch_from_column_binary "c" [] "utf8" (2 ^ 63)).
Proof. apply (varlen_row_count_raises "c" [] "utf8" (2 ^ 63)); [by left|by vm_compute]. Defined.

(** ** Fixed-width columns *)

Section fixed.
Context `{Arrow, IpcCrate, !BuildLaws}.

Lemma fixed_dtype_width d w dt : fixed_dtype d = Some (w, dt) -> native_width dt = Some w /\ 0 < w.
Proof. unfold fixed_dtype. by repeat (case_match; [by intros [= <- <-]|]). Qed.

(** A fixed-width column is accepted exactly when the bytes hold the rows. *)
Lemma build_fixed_spec d w dt bs n :
  fixed_dtype d = Some (w, dt) -> 0 <= n -> Z.of_nat (length bs) < 2 ^ 64 ->
  no_panic (build_column_array bs d n) /\
  (is_ok (build_column_array bs d n) <-> Z.of_nat (length bs) = n * w) /\
  forall dt' a, build_column_array bs d n = Ok (dt', a) ->
    dt' = dt /\ is_primitive a = true /\ data_type a = dt /\ Z.of_nat (array_len a) = n /\
    length (native_values a) = array_len a /\ concat (native_values a) = bs.
Proof.
  intros Hd Hn Hb. destruct (fixed_dtype_width _ _ _ Hd) as [Hw Hw0].
  unfold build_column_array. rewrite Hd. unfold build_fixed_col.
  pose proof (build_no_panic dt n bs) as Hnp.
  destruct (Z.eqb_spec (Z.of_nat (length bs)) (wrap_u 64 (n * w))) as [E|E]; cbn [negb].
  2:{ split_and!; [done| |done]. split; [done|]. intros Hl. exfalso. apply E.
      rewrite Hl, wrap_u_id; [done|]. unfold u_range. lia. }
  assert (Z.of_nat (length bs) = n * w -> is_ok (build_primitive dt n bs)) as Hok.
  { intros Hl. apply (build_primitive_ok dt n bs w); [done|done|lia]. }
  destruct (build_primitive dt n bs) as [a|e|] eqn:Ea; [| |done]; cbn.
  - destruct (build_primitive_spec _ _ _ _ Ea) as (w' & Hw' & _ & Hle & Hp & Hty & Hlen & Hnl & Hnat).
    assert (w' = w) as -> by congruence.
    assert (n * w = Z.of_nat (length bs)) as Heq.
    { rewrite wrap_u_id in E; [lia|]. unfold u_range. lia. }
    split_and!; [done|by split|]. intros dt' a' [= <- <-]. split_and!; try done.
    rewrite Hnat, take_ge; [done|lia].
  - split_and!; [done| |done]. split; [done|]. intros Hl. by apply Hok in Hl.
Qed.

(** A fixed-width column is accepted exactly when the binary holds the
    stated number of elements of the dtype's size, although that product is
    computed modulo 2^64: the array builder refuses the wrapped cases.  The
    array then has the dtype's type and the binary as its values. *)
Theorem fixed_column_exact_length d w dt bs n :
  fixed_dtype d = Some (w, dt) -> 0 <= n -> Z.of_nat (length bs) < 2 ^ 64 ->
  (is_ok (build_column_array bs d n) <-> Z.of_nat (length bs) = n * w) /\
  forall dt' a, build_column_array bs d n = Ok (dt', a) ->
    dt' = dt /\ data_type a = dt /\ Z.of_nat (array_len a) = n /\ concat (native_values a) = bs.
Proof.
  intros Hd Hn Hb. destruct (build_fixed_spec d w dt bs n Hd Hn Hb) as (_ & Hiff & Hs).
  split; [done|]. intros dt' a Ha. apply Hs in Ha. tauto.
Qed.

End fixed.

Lemma fixed_column_exact_length_witness :
  ~ is_ok (build_column_array [] "s64" (2 ^ 61)) /\
  is_ok (build_column_array [Byte.x01; Byte.x02; Byte.x03; Byte.x04] "u16" 2).
Proof.
  split.
  - intros Hok. apply (fixed_column_exact_length "s64" 8 TInt64 [] (2 ^ 61)) in Hok; [|done..]. by cbn in Hok.
  - by apply (fixed_column_exact_length "u16" 2 TUInt16 [Byte.x01; Byte.x02; Byte.x03; Byte.x04] 2).
Defined.

(** ** Buffers back from columns *)

Section buffers.
Context `{Rustler Term} (Halloc : forall n, owned_binary_new n = true).
Context `{Arrow, IpcCrate, !BuildLaws, !BatchLaws, !BoolLaws, !OffsetLaws}.

(** The dtypes of tensors: the numeric ones that Nx has. *)
Definition nx_dtype (d : string) : Prop :=
  d ∈ ["s8"; "s16"; "s32"; "s64"; "u8"; "u16"; "u32"; "u64"; "f32"; "f64"].

Lemma primitive_buffer_spec a d :
  is_primitive a = true -> length (native_values a) = array_len a ->
  primitive_buffer a d = ROk (concat (native_values a), d, Z.of_nat (array_len a)).
Proof.
  intros Hp Hl. unfold primitive_buffer. rewrite Hp, array_offset_zero, Hl, Nat.ltb_irrefl. cbn [negb Nat.add].
  by rewrite drop_0, take_ge, Halloc by lia.
Qed.

Lemma extract_fixed d w dt a :
  nx_dtype d -> fixed_dtype d = Some (w, dt) -> data_type a = dt ->
  extract_primitive_buffer a = primitive_buffer a d.
Proof.
  intros Hd Hf Ht. unfold extract_primitive_buffer. rewrite Ht.
  unfold nx_dtype in Hd. rewrite !elem_of_cons in Hd.
  repeat destruct Hd as [->|Hd]; [..|by apply not_elem_of_nil in Hd];
    by injection Hf as <- <-.
Qed.

Lemma extract_bool v :
  extract_primitive_buffer (BooleanArray v) =
  ROk (map (fun o : option bool => if default false o then Byte.x01 else Byte.x00) v, "bool",
       Z.of_nat (length v)).
Proof.
  cbn. rewrite Halloc. unfold ok_encode. do 3 f_equal.
  apply list_eq. intros i. rewrite !list_lookup_fmap. destruct (v !! i) as [o|] eqn:E.
  - pose proof (lookup_lt_Some _ _ _ E). rewrite lookup_seq_lt by done. cbn. f_equal. unfold bool_byte.
    rewrite E. destruct o as [b|]; [|done]. by rewrite (bool_value_spec _ _ _ E).
  - apply lookup_ge_None in E. by rewrite (proj2 (lookup_ge_None _ _)) by (rewrite length_seq; lia).
Qed.

Lemma try_new_one name dt a b :
  try_new (mkSchema [mkField name dt false]) [a] = Ok b ->
  index_of (rb_schema b) name = Some 0%nat /\ rb_columns b = [a] /\ rb_num_rows b = array_len a.
Proof.
  intros (Hs & Hc & Hwf)%try_new_spec. rewrite Hs. split_and!; [|done|].
  - destruct (index_of _ name) as [i|] eqn:E.
    + apply index_of_spec in E as (f & Hf & _). destruct i; [done|]. by destruct i.
    + exfalso. eapply index_of_none; [exact E|by left|done].
  - destruct Hwf as (_ & Hl & _). rewrite Hc in Hl. by inversion Hl.
Qed.

(** C29: Column buffers round trip.  For every numeric dtype, a batch built
    from a column's bytes gives the same bytes, dtype and row count back; for
    "bool" it gives one byte per row, 1 for every non-zero byte. *)
Theorem column_buffer_roundtrip name bs d n b :
  0 <= n -> Z.of_nat (length bs) < 2 ^ 64 -> nx_dtype d \/ d = "bool" ->
  record_batch_from_column_binary name bs d n = ROk b ->
  record_batch_column_buffer b name =
  ROk (if String.eqb d "bool" then map (fun x => if bz x =? 0 then Byte.x00 else Byte.x01) bs else bs, d, n).
Proof.
  intros Hn Hb Hd Hr. unfold record_batch_from_column_binary, reply in Hr.
  destruct (build_column_array bs d n) as [[dt a]| |] eqn:Ea; [|done..]. cbn in Hr.
  destruct (try_new _ [a]) as [b'| |] eqn:Et; [|done..]. cbn in Hr. injection Hr as ->.
  destruct (try_new_one _ _ _ _ Et) as (Hi & Hc & _).
  unfold record_batch_column_buffer. rewrite Hi, Hc. cbn.
  destruct Hd as [Hd| ->].
  - assert (exists w dt', fixed_dtype d = Some (w, dt') /\ String.eqb d "bool" = false) as (w & dt' & Hf & Hnb).
    { unfold nx_dtype in Hd. rewrite !elem_of_cons in Hd.
      repeat destruct Hd as [->|Hd]; [..|by apply not_elem_of_nil in Hd]; by eexists _, _. }
    destruct (build_fixed_spec d w dt' bs n Hf Hn Hb) as (_ & _ & Hs).
    destruct (Hs _ _ Ea) as (-> & Hp & Hty & Hlen & Hnl & Hnat).
    rewrite (extract_fixed d w dt' a Hd Hf Hty), primitive_buffer_spec by done.
    by rewrite Hnb, Hnat, Hlen.
  - cbn in Ea. destruct (Z.eqb_spec (Z.of_nat (length bs)) n) as [Hl|]; [|done]. cbn in Ea.
    injection Ea as <- <-. rewrite extract_bool, length_map, Hl. cbn [String.eqb Ascii.eqb Bool.eqb].
    do 3 f_equal. rewrite map_map. apply map_ext. intros x. cbn. by destruct (bz x =? 0).
Qed.

End buffers.

Lemma column_buffer_roundtrip_witness :
  record_batch_column_buffer
    (mkBatch (mkSchema [mkField "t" TUInt16 false])
       [RawArray TUInt16 [[Byte.x01; Byte.x02]; [Byte.x03; Byte.x04]]] 2) "t"
  = ROk ([Byte.x01; Byte.x02; Byte.x03; Byte.x04], "u16", 2).
Proof.
  apply (column_buffer_roundtrip (Term := beam) (fun n => eq_refl : @owned_binary_new beam beam_rustler n = true) "t"
    [Byte.x01; Byte.x02; Byte.x03; Byte.x04] "u16" 2);
    [done|done|left; unfold nx_dtype; by repeat constructor|by vm_compute].
Defined.

(** Strings sent as a framed column arrive as they are: the column "utf8"
    (or "large_utf8") of the frames of a list of byte strings is accepted
    exactly when every one of them is UTF-8, and it then holds those strings,
    none of them null, in order. *)
Theorem utf8_column_exact `{Arrow, IpcCrate} (es : list bytes) d dt a :
  (d = "utf8" /\ dt = TUtf8) \/ (d = "large_utf8" /\ dt = TLargeUtf8) ->
  Forall short es -> Z.of_nat (length es) * 16 < 2 ^ 63 ->
  (build_column_array (frames es) d (Z.of_nat (length es)) = Ok (dt, a) <->
   Forall (fun e => valid_utf8 e = true) es /\ a = BytesArray dt (map (fun e => Some (of_bytes e)) es)).
Proof.
  intros Hd Hs Hn.
  assert (forall d, decode_varlen_records (frames es) (Z.of_nat (length es)) d = Ok es) as Hdec.
  { intros d'. by apply (decode_varlen_spec (frames es) (Z.of_nat (length es)) d' ltac:(lia) Hn). }
  assert (forall strs, collect checked_str es = Ok strs <->
    Forall (fun e => valid_utf8 e = true) es /\ strs = map of_bytes es) as Hc.
  { intros strs. rewrite collect_Ok. clear -es. revert strs. induction es as [|e es' IH]; intros strs.
    - split; [intros Hf; inversion Hf; by split|]. intros [_ ->]. constructor.
    - assert (forall s, checked_str e = Ok s <-> valid_utf8 e = true /\ s = of_bytes e) as He.
      { intros s. unfold checked_str, from_utf8. destruct (valid_utf8 e); naive_solver. }
      split.
      + intros Hf. inversion Hf as [|? s ? ss Hs Hss]; subst. apply He in Hs as [? ->]. apply IH in Hss as [? ->].
        by split; [constructor|].
      + intros [Hf ->]. inversion Hf; subst. constructor; [by apply He|by apply IH]. }
  assert (forall T, (strs ← collect checked_str es; Ok (T, BytesArray T (map Some strs))) = Ok (dt, a) <->
    T = dt /\ Forall (fun e => valid_utf8 e = true) es /\
    a = BytesArray dt (map (fun e => Some (of_bytes e)) es)) as Hcol.
  { intros T. rewrite bind_Ok. setoid_rewrite Hc. split.
    - intros (strs & [Hf ->] & [= -> <-]). split_and!; try done. by rewrite map_map.
    - intros (-> & Hf & ->). eexists. split; [by split|]. by rewrite map_map. }
  unfold build_column_array. destruct Hd as [[-> ->]|[-> ->]]; cbn [fixed_dtype String.eqb Ascii.eqb Bool.eqb];
    rewrite Hdec; cbn [mbind res_bind]; rewrite Hcol; tauto.
Qed.

Lemma utf8_column_exact_witness :
  build_column_array (frames [as_bytes "ab"; as_bytes "c"]) "utf8" 2
    = Ok (TUtf8, BytesArray TUtf8 [Some "ab"; Some "c"]) /\
  build_column_array (frames [[Byte.xff]]) "utf8" 1 <> Ok (TUtf8, BytesArray TUtf8 [Some (of_bytes [Byte.xff])]).
Proof.
  split.
  - apply (utf8_column_exact [as_bytes "ab"; as_bytes "c"] "utf8" TUtf8); [by left|by repeat constructor|done|].
    split; [by repeat constructor|reflexivity].
  - intros Ha. apply (utf8_column_exact [[Byte.xff]] "utf8" TUtf8) in Ha as [Hf _];
      [|by left|by repeat constructor|done]. inversion Hf. discriminate.
Defined.

(** The multi-column builder is the single-column one per column: with one
    name they agree, and in general a batch it returns has, for each name in
    order, a non-nullable field of that name and the array the column's bytes
    give; lists of different lengths and no column at all are errors. *)
Theorem column_binaries_columnwise `{Arrow, IpcCrate, !BatchLaws} names binaries dtypes n :
  (forall name bs d, record_batch_from_column_binaries [name] [bs] [d] n
                     = record_batch_from_column_binary name bs d n) /\
  forall b, record_batch_from_column_binaries names binaries dtypes n = ROk b ->
    names <> [] /\ length names = length binaries /\ length names = length dtypes /\
    forall i name bs d, names !! i = Some name -> binaries !! i = Some bs -> dtypes !! i = Some d ->
      exists dt a, build_column_array bs d n = Ok (dt, a) /\
        fields (rb_schema b) !! i = Some (mkField name dt false) /\ rb_columns b !! i = Some a.
Proof.
  split.
  { intros name bs d. unfold record_batch_from_column_binaries, record_batch_from_column_binary. cbn.
    destruct (build_column_array bs d n) as [[dt a]| |]; done. }
  intros b Hb. unfold record_batch_from_column_binaries in Hb.
  destruct (Nat.eqb_spec (length names) (length binaries)) as [E1|]; [|done].
  destruct (Nat.eqb_spec (length names) (length dtypes)) as [E2|]; [|done]. cbn [negb orb] in Hb.
  destruct names as [|nm names']; [done|]. split_and!; try done.
  assert (forall names binaries dtypes fs cs, build_columns names binaries dtypes n = Ok (fs, cs) ->
    forall i name bs d, names !! i = Some name -> binaries !! i = Some bs -> dtypes !! i = Some d ->
      exists dt a, build_column_array bs d n = Ok (dt, a) /\
        fs !! i = Some (mkField name dt false) /\ cs !! i = Some a) as Hcols.
  { clear. induction names as [|x names IH]; intros [|y binaries] [|z dtypes] fs cs Hc i name bs d Hi Hj Hk;
      try done. cbn in Hc.
    apply bind_Ok in Hc as ([dt a] & Ha & Hc). apply bind_Ok in Hc as ([fs' cs'] & Hr & [= <- <-]).
    destruct i as [|i].
    - cbn in *. simplify_eq. eauto 10.
    - by apply (IH _ _ _ _ Hr i). }
  unfold reply in Hb. destruct (build_columns _ _ _ _) as [[fs cs]| |] eqn:Ec; [|done..].
  cbn in Hb. destruct (try_new _ cs) as [b'| |] eqn:Et; [|done..]. cbn in Hb. injection Hb as ->.
  apply try_new_spec in Et as (Hs & Hcs & _). rewrite Hs, Hcs. cbn [fields]. by apply Hcols.
Qed.

Lemma column_binaries_columnwise_witness :
  exists b, record_batch_from_column_binaries ["a"; "b"] [[Byte.x01]; [Byte.x00]] ["u8"; "bool"] 1 = ROk b /\
    exists dt a, build_column_array [Byte.x00] "bool" 1 = Ok (dt, a) /\
      fields (rb_schema b) !! 1%nat = Some (mkField "b" dt false) /\ rb_columns b !! 1%nat = Some a.
Proof.
  eexists. split; [vm_compute; reflexivity|].
  eapply (column_binaries_columnwise ["a"; "b"] [[Byte.x01]; [Byte.x00]] ["u8"; "bool"] 1);
    [vm_compute; reflexivity|reflexivity..].
Defined.

(** ** Random access *)

Section files.
Context `{Arrow, IpcCrate, L : !FileLaws}.

(** Reads of a file, one after the other. *)
Definition after_reads (file : ExArrowIpcFile) (indices : list Z) : ExArrowIpcFile :=
  foldl (fun f i => snd (ipc_file_get_batch f i)) file indices.

Lemma get_batch_spec f i :
  Forall no_panic (file_batches f) ->
  exists f', file_batches f' = file_batches f /\
    snd (ipc_file_get_batch (new_mutex f) i) = new_mutex f' /\
    match file_batches f !! Z.to_nat i with
    | Some item => 0 <= i -> fst (ipc_file_get_batch (new_mutex f) i) = item_reply arrow_fail item
    | None => exists e, fst (ipc_file_get_batch (new_mutex f) i) = RErr e
    end /\
    (i < 0 -> exists e, fst (ipc_file_get_batch (new_mutex f) i) = RErr e).
Proof.
  intros Hp. unfold ipc_file_get_batch. cbn [lock new_mutex m_poisoned m_value].
  pose proof (set_index_no_panic f i) as Hnp. destruct (set_index f i) as [f'|e|] eqn:Es; [| |done].
  - destruct (set_index_spec f i f' Es) as (Hi & Hn & Hb). destruct (iter_next f') as [item f''].
    cbn [fst snd] in *. subst item.
    destruct (lookup_lt_is_Some_2 (file_batches f) (Z.to_nat i)) as [item Hit]; [lia|]. rewrite Hit.
    assert (no_panic item) as Hni.
    { rewrite Forall_forall in Hp. by eapply Hp, list_elem_of_lookup_2. }
    exists f''. by destruct item; try done; cbn; split_and!; try done; lia.
  - exists f. split; [done|]. split; [done|]. cbn [fst]. split; [|unfold err_encode; eauto].
    destruct (file_batches f !! Z.to_nat i) as [item|] eqn:Hi; [|unfold err_encode; eauto].
    intros Hnn. exfalso. apply lookup_lt_Some in Hi.
    assert (is_ok (set_index f i)) as Hok by (apply set_index_in; lia). by rewrite Es in Hok.
Qed.

(** Random access to an IPC file: [ipc_file_num_batches] is the number of
    batches, and whatever indices were read before, reading index [i] replies
    with batch [i] (or its decoding error) when there is one, and with an
    error when there is none. *)
Lemma file_random_access f (indices : list Z) i :
  Forall no_panic (file_batches f) -> 0 <= i ->
  ipc_file_num_batches (after_reads (new_mutex f) indices) = Z.of_nat (length (file_batches f)) /\
  match file_batches f !! Z.to_nat i with
  | Some item => fst (ipc_file_get_batch (after_reads (new_mutex f) indices) i) = item_reply arrow_fail item
  | None => exists e, fst (ipc_file_get_batch (after_reads (new_mutex f) indices) i) = RErr e
  end.
Proof.
  intros Hp Hi. revert f Hp. induction indices as [|j js IH]; intros f Hp.
  - cbn [after_reads foldl]. split; [by unfold ipc_file_num_batches; cbn; rewrite file_num_batches|].
    destruct (get_batch_spec f i Hp) as (f' & _ & _ & Hr & _). by case_match; [apply Hr|].
  - destruct (get_batch_spec f j Hp) as (f' & Hb & Hf & _).
    change (after_reads (new_mutex f) (j :: js)) with (after_reads (snd (ipc_file_get_batch (new_mutex f) j)) js).
    rewrite Hf, <-Hb. apply IH. by rewrite Hb.
Qed.

End files.
