(* ===== verification/IpcRound.v ===== *)
(** * Round trips of the IPC writers and readers

    What is written with [ipc_writer_to_binary], [ipc_writer_to_file] or
    [ipc_file_writer_to_file] reads back: [StreamLaws] and [IpcFileLaws] state
    what the stream and the file format of the crate promise for its own
    writers and readers, and the theorems carry that through the NIFs, their
    loops over the batches and the locked readers. *)

From S2P Require Import Prelude Float Utf8 Term Arrow ArrowRef Stream Ipc IpcFacts IpcThms ComputeThms.

(** A reader at its start that gives [bs] and then ends. *)
Definition reads `{BatchIter It ArrowError} (r : It) (bs : list RecordBatch) : Prop :=
  ends_within (length bs) r /\ items (length bs) r = map Ok bs.

(** The stream format: a finished stream reads back with its schema and, when
    they have that schema, its batches in order, and then ends; from memory and
    through a buffered file alike. *)
Class StreamLaws `{IpcCrate} := {
  stream_content : StreamWriter -> Schema * list RecordBatch;
  writer_starts s w : stream_writer_try_new s = Ok w -> stream_content w = (s, []);
  writer_appends w b w' :
    rb_schema b = fst (stream_content w) -> stream_write w b = Ok w' ->
    stream_content w' = (fst (stream_content w), snd (stream_content w) ++ [b]);
  finished_reads_back w data :
    stream_finish w = Ok data ->
    exists r, stream_try_new data = Ok r /\ binary_stream_schema r = fst (stream_content w) /\
              reads r (snd (stream_content w));
  finished_reads_back_buffered w data :
    stream_finish w = Ok data ->
    exists r, stream_try_new_buffered data = Ok r /\ file_stream_schema r = fst (stream_content w) /\
              reads r (snd (stream_content w))
}.

(** The file format, likewise. *)
Class IpcFileLaws `{IpcCrate} {FL : FileLaws} := {
  file_content : FileWriter -> Schema * list RecordBatch;
  file_writer_starts s w : file_writer_try_new s = Ok w -> file_content w = (s, []);
  file_writer_appends w b w' :
    rb_schema b = fst (file_content w) -> file_write w b = Ok w' ->
    file_content w' = (fst (file_content w), snd (file_content w) ++ [b]);
  finished_opens w data :
    file_finish w = Ok data ->
    exists f, file_try_new data = Ok f /\ file_reader_schema f = fst (file_content w) /\
              file_batches f = map Ok (snd (file_content w))
}.

Section drains.
Context `{Arrow, IpcCrate}.

(** [n] calls of [ipc_stream_next]. *)
Fixpoint ipc_drain (n : nat) (stream : IpcStreamBacking) : list (Reply RecordBatch) :=
  match n with
  | O => []
  | S n' => let '(r, stream') := ipc_stream_next stream in r :: ipc_drain n' stream'
  end.

Lemma ipc_drain_binary n m :
  ipc_drain n (StreamBinary m) = drain (next_reply (err_encode "stream lock") arrow_fail) n m.
Proof.
  revert m. induction n as [|n IH]; intros m; [done|]. cbn.
  destruct (next_reply _ _ m) as [r m']. by rewrite IH.
Qed.

Lemma ipc_drain_file n m :
  ipc_drain n (StreamFile m) = drain (next_reply (err_encode "stream lock") arrow_fail) n m.
Proof.
  revert m. induction n as [|n IH]; intros m; [done|]. cbn.
  destruct (next_reply _ _ m) as [r m']. by rewrite IH.
Qed.

(** A reader of [bs] delivers them, each once, in order, and then [:done]. *)
Lemma reads_drain `{BatchIter It ArrowError} pe (r : It) bs k :
  reads r bs ->
  drain (next_reply pe arrow_fail) (length bs + k) (new_mutex r) = map ROk bs ++ replicate k (RAtom "done").
Proof.
  intros [He Hi]. pose proof (drain_items pe arrow_fail (length bs) k r He) as Hd.
  rewrite Hi, length_map in Hd. rewrite Hd by (by apply Forall_map, Forall_true). by rewrite map_map.
Qed.

Definition delivers (stream : IpcStreamBacking) (bs : list RecordBatch) : Prop :=
  forall k, ipc_drain (length bs + k) stream = map ROk bs ++ replicate k (RAtom "done").

Lemma reads_delivers_binary r bs : reads r bs -> delivers (StreamBinary (new_mutex r)) bs.
Proof. intros Hr k. rewrite ipc_drain_binary. by apply reads_drain. Qed.

Lemma reads_delivers_file r bs : reads r bs -> delivers (StreamFile (new_mutex r)) bs.
Proof. intros Hr k. rewrite ipc_drain_file. by apply reads_drain. Qed.

End drains.

Section stream_roundtrip.
Context `{RustlerLaws Term} `{Arrow, IpcCrate, SL : !StreamLaws}.

Lemma stream_write_all_content w bs w' :
  Forall (fun b => rb_schema b = fst (stream_content w)) bs -> stream_write_all w bs = Ok w' ->
  stream_content w' = (fst (stream_content w), snd (stream_content w) ++ bs).
Proof.
  revert w. induction bs as [|b bs IH]; intros w Hs; cbn.
  - intros [= <-]. rewrite app_nil_r. by destruct (stream_content w).
  - apply Forall_cons in Hs as [Hb Hs]. intros (w1 & Hw%(writer_appends _ _ _ Hb) & Hr)%bind_Ok.
    rewrite (IH w1) by (by rewrite ?Hw). rewrite Hw. cbn. by rewrite <-app_assoc.
Qed.

(** The written bytes are those of a finished writer that holds the batches. *)
Lemma write_stream_finished schema batches data :
  Forall (fun b => rb_schema b = schema) batches -> write_stream schema batches = Ok data ->
  exists w, stream_finish w = Ok data /\ stream_content w = (schema, batches).
Proof.
  intros Hs. unfold write_stream.
  intros (w0 & Hw0%writer_starts & (w1 & Hw1 & Hf)%bind_Ok)%map_err_Ok%bind_Ok.
  exists w1. split; [done|]. rewrite (stream_write_all_content w0 batches w1) by (by rewrite ?Hw0). by rewrite Hw0.
Qed.

(** C11: IPC streams round-trip.  If batches of one schema are written, the bytes
    open again, as a binary or as a file with these contents, as a stream that
    reports the schema and whose calls of [ipc_stream_next] deliver exactly the
    batches, in order, each once, and then [:done] however often it is called
    again; the file writer writes those bytes. *)
Theorem ipc_stream_roundtrip schema batches data :
  Forall (fun b => rb_schema b = schema) batches ->
  ipc_writer_to_binary schema batches = ROk data ->
  write_stream schema batches = Ok data /\ ipc_writer_to_file (Ok ()) schema batches = RAtom "ok" /\
  (exists st, ipc_reader_from_binary data = ROk st /\ ipc_stream_schema st = RBare schema /\ delivers st batches) /\
  (exists st, ipc_reader_from_file (Ok data) = ROk st /\ ipc_stream_schema st = RBare schema /\ delivers st batches).
Proof.
  intros Hs Hw. unfold ipc_writer_to_binary, ipc_writer_to_file, owned_reply in *.
  destruct (write_stream schema batches) as [d| |] eqn:E; [|done..]. cbn in Hw. case_match; [|done].
  injection Hw as ->. split; [done|]. split; [done|].
  apply write_stream_finished in E as (w & Hf & Hc); [|done]. split.
  - destruct (finished_reads_back w data Hf) as (r & Hr & Hrs & Hit). rewrite Hc in Hrs, Hit. cbn [fst snd] in Hrs, Hit.
    exists (StreamBinary (new_mutex r)). unfold ipc_reader_from_binary. rewrite Hr. cbn. rewrite Hrs.
    split_and!; [done..|]. by apply reads_delivers_binary.
  - destruct (finished_reads_back_buffered w data Hf) as (r & Hr & Hrs & Hit). rewrite Hc in Hrs, Hit. cbn [fst snd] in Hrs, Hit.
    exists (StreamFile (new_mutex r)). unfold ipc_reader_from_file. cbn. rewrite Hr. cbn. rewrite Hrs.
    split_and!; [done..|]. by apply reads_delivers_file.
Qed.

End stream_roundtrip.

Section file_roundtrip.
Context `{Arrow, IpcCrate} {FL : FileLaws} {IL : IpcFileLaws}.

Lemma file_write_all_content w bs w' :
  Forall (fun b => rb_schema b = fst (file_content w)) bs -> file_write_all w bs = Ok w' ->
  file_content w' = (fst (file_content w), snd (file_content w) ++ bs).
Proof.
  revert w. induction bs as [|b bs IH]; intros w Hs; cbn.
  - intros [= <-]. rewrite app_nil_r. by destruct (file_content w).
  - apply Forall_cons in Hs as [Hb Hs]. intros (w1 & Hw%(file_writer_appends _ _ _ Hb) & Hr)%bind_Ok.
    rewrite (IH w1) by (by rewrite ?Hw). rewrite Hw. cbn. by rewrite <-app_assoc.
Qed.

(** C25: IPC files round-trip, by random access.  If batches of one schema are
    written as a file, the bytes open again with that schema and the number of
    batches, and whatever indices were read before, reading index [i] gives
    batch [i], and an error beyond the last one. *)
Theorem ipc_file_roundtrip schema batches data :
  Forall (fun b => rb_schema b = schema) batches ->
  write_file schema batches = Ok data ->
  ipc_file_writer_to_file (Ok ()) schema batches = RAtom "ok" /\
  exists file, ipc_file_open (Ok data) = ROk file /\ ipc_file_open_from_binary data = ROk file /\
    ipc_file_schema file = RBare schema /\
    forall indices i, 0 <= i ->
      ipc_file_num_batches (after_reads file indices) = Z.of_nat (length batches) /\
      match batches !! Z.to_nat i with
      | Some b => fst (ipc_file_get_batch (after_reads file indices) i) = ROk b
      | None => exists e, fst (ipc_file_get_batch (after_reads file indices) i) = RErr e
      end.
Proof.
  intros Hs Hw. unfold ipc_file_writer_to_file. rewrite Hw. split; [done|]. unfold write_file in Hw.
  apply map_err_Ok in Hw as (w0 & Hw0%file_writer_starts & (w1 & Hw1 & Hf)%bind_Ok)%bind_Ok.
  apply file_write_all_content in Hw1; [|by rewrite Hw0]. rewrite Hw0 in Hw1. cbn in Hw1.
  destruct (finished_opens w1 data Hf) as (f & Hf1 & Hf2 & Hf3). rewrite Hw1 in Hf2, Hf3. cbn [fst snd] in Hf2, Hf3.
  exists (new_mutex f). unfold ipc_file_open, ipc_file_open_from_binary. cbn. rewrite Hf1. cbn. rewrite Hf2.
  split_and!; [done..|]. intros indices i Hi.
  destruct (file_random_access f indices i) as [Hn Hr]; [by rewrite Hf3; apply Forall_map, Forall_true|done|].
  rewrite Hf3, length_map in Hn. rewrite Hf3, list_lookup_fmap in Hr. split; [done|]. destruct (batches !! Z.to_nat i); [exact Hr|exact Hr].
Qed.

End file_roundtrip.

(** A stream format for batches without columns: a batch of [n] rows is [n]
    bytes 01 and a byte 00. *)
Definition unary_batch (n : nat) : RecordBatch := mkBatch (mkSchema []) [] n.

Fixpoint unary_decode (rows : nat) (data : bytes) : list RecordBatch :=
  match data with
  | [] => []
  | Byte.x00 :: rest => unary_batch rows :: unary_decode 0 rest
  | _ :: rest => unary_decode (S rows) rest
  end.

Definition unary_encode (ns : list nat) : bytes :=
  concat (map (fun n => replicate n Byte.x01 ++ [Byte.x00]) ns).

Lemma unary_decode_rows k n rest :
  unary_decode k (replicate n Byte.x01 ++ Byte.x00 :: rest) = unary_batch (k + n) :: unary_decode 0 rest.
Proof.
  revert k. induction n as [|n IH]; intros k; cbn; [by rewrite Nat.add_0_r|].
  rewrite IH. by rewrite Nat.add_succ_r.
Qed.

Lemma unary_roundtrip ns : unary_decode 0 (unary_encode ns) = map unary_batch ns.
Proof.
  induction ns as [|n ns IH]; [done|]. unfold unary_encode in *. cbn.
  rewrite <-app_assoc. cbn. by rewrite unary_decode_rows, IH.
Qed.

Definition unary_start (s : Schema) : res ArrowError (list nat) :=
  match s with mkSchema [] => Ok [] | _ => Err (IpcError "columns are not supported") end.

Definition unary_write (w : list nat) (b : RecordBatch) : res ArrowError (list nat) :=
  match b with
  | mkBatch (mkSchema []) [] n => Ok (w ++ [n])
  | _ => Err (IpcError "columns are not supported")
  end.

#[export] Instance unary_ipc : IpcCrate := {|
  BinaryStreamReader := list (res ArrowError RecordBatch);
  FileStreamReader := list (res ArrowError RecordBatch);
  binary_stream_iter := list_iter;
  file_stream_iter := list_iter;
  stream_try_new data := Ok (map Ok (unary_decode 0 data));
  stream_try_new_buffered data := Ok (map Ok (unary_decode 0 data));
  binary_stream_schema _ := mkSchema [];
  file_stream_schema _ := mkSchema [];
  FileReader := RefFile;
  file_iter := ref_file_iter;
  file_try_new data := Ok (mkRefFile (map Ok (unary_decode 0 data)) 0);
  file_reader_schema _ := mkSchema [];
  num_batches f := length (rf_batches f);
  set_index := @set_index ref_ipc;
  StreamWriter := list nat;
  stream_writer_try_new := unary_start;
  stream_write := unary_write;
  stream_finish w := Ok (unary_encode w);
  FileWriter := list nat;
  file_writer_try_new := unary_start;
  file_write := unary_write;
  file_finish w := Ok (unary_encode w);
  array_offset _ := 0%nat;
  utf8_error _ := "invalid utf-8 sequence"
|}.

Lemma unary_start_content s w : unary_start s = Ok w -> (mkSchema [], map unary_batch w) = (s, []).
Proof. destruct s as [[]]; [|done]. by intros [= <-]. Qed.

Lemma unary_write_content w b w' :
  unary_write w b = Ok w' -> (mkSchema [], map unary_batch w') = (mkSchema [], map unary_batch w ++ [b]).
Proof. destruct b as [[[]] [] n]; try done. intros [= <-]. by rewrite map_app. Qed.

Lemma unary_reads w : reads (map (@Ok ArrowError RecordBatch) (unary_decode 0 (unary_encode w))) (map unary_batch w).
Proof. rewrite unary_roundtrip. apply ends_within_list. by rewrite !length_map. Qed.

#[export] Instance unary_laws : StreamLaws.
Proof.
  apply (Build_StreamLaws unary_ipc (fun ns => (mkSchema [], map unary_batch ns))); cbn.
  - apply unary_start_content.
  - intros w b w' _. apply unary_write_content.
  - intros w data [= <-]. eexists. split_and!; [done..|]. apply unary_reads.
  - intros w data [= <-]. eexists. split_and!; [done..|]. apply unary_reads.
Defined.

#[export] Instance unary_positions : FileLaws (H := unary_ipc).
Proof.
  apply (Build_FileLaws unary_ipc rf_batches); cbn; [done|apply ref_file_laws..].
Defined.

#[export] Instance unary_file_laws : IpcFileLaws (H := unary_ipc).
Proof.
  apply (Build_IpcFileLaws unary_ipc unary_positions (fun ns => (mkSchema [], map unary_batch ns))); cbn.
  - apply unary_start_content.
  - intros w b w' _. apply unary_write_content.
  - intros w data [= <-]. eexists. split_and!; [done..|]. cbn. by rewrite unary_roundtrip.
Defined.

Lemma ipc_stream_roundtrip_witness :
  exists st, ipc_reader_from_binary (H0 := unary_ipc) (unary_encode [2; 0; 1]%nat) = ROk st /\
    ipc_drain 4 st = map ROk [unary_batch 2; unary_batch 0; unary_batch 1] ++ [RAtom "done"].
Proof.
  destruct (ipc_stream_roundtrip (Term := beam) (H2 := unary_ipc) (mkSchema []) (map unary_batch [2; 0; 1]%nat) (unary_encode [2; 0; 1]%nat))
    as (_ & _ & (st & Hst & _ & Hd) & _); [by repeat constructor|reflexivity|].
  exists st. split; [exact Hst|]. exact (Hd 1%nat).
Defined.

Lemma ipc_file_roundtrip_witness :
  exists file, ipc_file_open (H0 := unary_ipc) (Ok (unary_encode [2; 0]%nat)) = ROk file /\
    fst (ipc_file_get_batch (after_reads file [0; 9]) 1) = ROk (unary_batch 0).
Proof.
  destruct (ipc_file_roundtrip (H0 := unary_ipc) (mkSchema []) (map unary_batch [2; 0]%nat) (unary_encode [2; 0]%nat))
    as (_ & file & Hf & _ & _ & Hr); [by repeat constructor|reflexivity|].
  exists file. split; [exact Hf|]. exact (proj2 (Hr [0; 9] 1 ltac:(done))).
Defined.
