(* ===== verification/FromLists.v ===== *)
(** * Building batches from Elixir lists (lib/ex_arrow/record_batch.ex)

    [RecordBatch.from_columns], [from_lists] and [from_map]: cells are checked
    against the dtype of their column, packed into the binary that
    [record_batch_from_column_binaries] reads, and handed to that NIF.
    [Panic] is an exception. *)

From stdpp Require Import sorting.
From S2P Require Import Prelude Float Utf8 Term Arrow ArrowRef FloatBits Ipc.

(** ** Data *)

(** A cell: a term, as far as the guards distinguish terms.  [VNested] is a
    list, a map or a tuple, [VOther] a term of the remaining types; [shown] is
    its inspection. *)
Inductive Value :=
| VNil
| VBool (b : bool)
| VAtom (a : string)
| VInt (v : Z)
| VFloat (x : f64)
| VBin (bs : bytes)
| VNested (shown : string)
| VOther (shown : string).

(** A name or a dtype: a binary, an atom or another term. *)
Inductive Label :=
| LabelBin (s : string)
| LabelAtom (a : string)
| LabelOther (shown : string).

(** An element of the list given to [from_lists]: a triple whose third element
    is a list, or something else. *)
Inductive ColumnArg :=
| Triple (name dtype : Label) (values : list Value)
| NotTriple.

Inductive ListsError :=
| LeNoColumns
| LeNotTriples
| LeLengths (lengths : list nat)
| LeFieldName (name : Label)
| LeDtype (dtype : Label)
| LeNil
| LeNotScalar (v : Value)
| LeOutOfRange (label : string) (v : Z)
| LeNotUtf8 (dtype : string)
| LeCannotPack (v : Value) (dtype : string)
| LeNotLists
| LeEmptyColumn
| LeMixed (a b : string)
| LeBinaryCells
| LeCannotInfer
| LeNative (e : NifError).

(** ** [from_columns] *)

Section columns.
Context `{Arrow, IpcCrate}.

(** The guard, the decoding of the arguments and the reply of the NIF. *)
Definition from_columns (names : list string) (binaries : list bytes) (dtypes : list string) (length' : Z)
    : res ListsError RecordBatch :=
  if length' <? 0 then Panic "no function clause matching in ExArrow.RecordBatch.from_columns/4"
  else if negb (forallb valid_str names && forallb valid_str dtypes && in_u 64 length') then
    Panic "argument error"
  else
    match record_batch_from_column_binaries names binaries dtypes length' with
    | ROk b => Ok b
    | RErr e => Err (LeNative e)
    | RRaise s => Panic s
    | _ => Panic "case clause"
    end.

(** ** Packing cells *)

Definition pack_int (v min max : Z) (bits : nat) (label : string) : res ListsError bytes :=
  if (min <=? v) && (v <=? max) then Ok (int_bytes (bits / 8) v) else Err (LeOutOfRange label v).

Definition pack_uint (v max : Z) (bits : nat) (label : string) : res ListsError bytes :=
  if (0 <=? v) && (v <=? max) then Ok (int_bytes (bits / 8) v) else Err (LeOutOfRange label v).

(** [v * 1.0] for an integer. *)
Definition times_one (v : Z) : res ListsError f64 :=
  if is_finite (f64_of_int v) then Ok (f64_of_int v)
  else Panic "bad argument in arithmetic expression".

(** [<<v::little-float-32>>] and [<<v::little-float-64>>]: a float that is out
    of range for the size is an error of the construction. *)
Definition float_32 (x : f64) : res ListsError bytes :=
  if is_finite (f32_of_f64 x) then Ok (int_bytes 4 (bits_of_float 24 128 (f32_of_f64 x)))
  else Panic "construction of binary failed".

Definition float_64 (x : f64) : res ListsError bytes := Ok (int_bytes 8 (bits_of_float 53 1024 x)).

(** [<<byte_size(v)::little-unsigned-32, v::binary>>]. *)
Definition sized_binary (bs : bytes) : bytes := int_bytes 4 (Z.of_nat (length bs)) ++ bs.

Definition min_i64 : Z := -9223372036854775808.
Definition max_i64 : Z := 9223372036854775807.

Definition tick_dtypes : list string :=
  ["timestamp_seconds"; "timestamp_millis"; "timestamp_micros"; "timestamp_nanos";
   "duration_seconds"; "duration_millis"; "duration_micros"; "duration_nanos"].

Definition pack_cell (dtype : string) (v : Value) : res ListsError bytes :=
  let eqd s := String.eqb dtype s in
  let other := Err (LeCannotPack v dtype) in
  let integer (k : Z -> res ListsError bytes) := match v with VInt i => k i | _ => other end in
  match v with
  | VNil => Err LeNil
  | VNested _ => Err (LeNotScalar v)
  | _ =>
    if eqd "s8" then integer (fun i => pack_int i (-128) 127 8 "int8")
    else if eqd "s16" then integer (fun i => pack_int i (-32768) 32767 16 "int16")
    else if eqd "s32" then integer (fun i => pack_int i (-2147483648) 2147483647 32 "int32")
    else if eqd "s64" then integer (fun i => pack_int i min_i64 max_i64 64 "int64")
    else if eqd "u8" then integer (fun i => pack_uint i 255 8 "uint8")
    else if eqd "u16" then integer (fun i => pack_uint i 65535 16 "uint16")
    else if eqd "u32" then integer (fun i => pack_uint i 4294967295 32 "uint32")
    else if eqd "u64" then
      integer (fun i =>
        if (0 <=? i) && (i <=? 18446744073709551615) then Ok (int_bytes 8 i)
        else Err (LeOutOfRange "uint64" i))
    else if eqd "f32" then
      match v with
      | VInt i => x ← times_one i; float_32 x
      | VFloat x => float_32 x
      | _ => other
      end
    else if eqd "f64" then
      match v with
      | VInt i => x ← times_one i; float_64 x
      | VFloat x => float_64 x
      | _ => other
      end
    else if eqd "bool" then
      match v with
      | VBool true => Ok [Byte.x01]
      | VBool false => Ok [Byte.x00]
      | _ => other
      end
    else if eqd "date32" then integer (fun i => pack_int i (-2147483648) 2147483647 32 "date32")
    else if eqd "date64" then integer (fun i => pack_int i min_i64 max_i64 64 "date64")
    else if existsb (String.eqb dtype) tick_dtypes then integer (fun i => pack_int i min_i64 max_i64 64 dtype)
    else if eqd "utf8" || eqd "large_utf8" then
      match v with
      | VBin bs => if valid_utf8 bs then Ok (sized_binary bs) else Err (LeNotUtf8 dtype)
      | _ => other
      end
    else if eqd "binary" || eqd "large_binary" then
      match v with
      | VBin bs => Ok (sized_binary bs)
      | _ => other
      end
    else other
  end.

Definition pack_column (dtype : string) (values : list Value) : res ListsError bytes :=
  chunks ← collect (pack_cell dtype) values;
  Ok (concat chunks).

(** ** [from_lists] *)

Definition normalize_field_name (name : Label) : res ListsError string :=
  match name with
  | LabelBin s | LabelAtom s => Ok s
  | LabelOther _ => Err (LeFieldName name)
  end.

Definition known_dtypes : list string :=
  ["s8"; "s16"; "s32"; "s64"; "u8"; "u16"; "u32"; "u64"; "f32"; "f64"; "bool"; "date32"; "date64"] ++
  tick_dtypes ++ ["utf8"; "large_utf8"; "binary"; "large_binary"].

Definition normalize_list_dtype (dtype : Label) : res ListsError string :=
  match dtype with
  | LabelBin s | LabelAtom s =>
      if existsb (String.eqb s) known_dtypes then Ok s else Err (LeDtype dtype)
  | LabelOther _ => Err (LeDtype dtype)
  end.

(** [Enum.uniq]. *)
Fixpoint uniq (l : list nat) : list nat :=
  match l with
  | [] => []
  | x :: l' => x :: List.filter (fun y => negb (y =? x)%nat) (uniq l')
  end.

Definition column_values (c : ColumnArg) : list Value :=
  match c with Triple _ _ values => values | NotTriple => [] end.

Definition bad_shape (c : ColumnArg) : bool :=
  match c with Triple _ _ _ => false | NotTriple => true end.

Definition validate_from_lists_shape (columns : list ColumnArg) : res ListsError unit :=
  match columns with
  | [] => Err LeNoColumns
  | _ =>
      if existsb bad_shape columns then Err LeNotTriples
      else
        let lengths := map (fun c => length (column_values c)) columns in
        match uniq lengths with
        | [_] => Ok ()
        | _ => Err (LeLengths lengths)
        end
  end.

(** One turn of the loop of [pack_from_lists]: name, dtype and binary. *)
Definition pack_one (c : ColumnArg) : res ListsError (string * string * bytes) :=
  match c with
  | Triple name dtype values =>
      name_str ← normalize_field_name name;
      dtype_str ← normalize_list_dtype dtype;
      binary ← pack_column dtype_str values;
      Ok (name_str, dtype_str, binary)
  | NotTriple => Panic "no function clause matching"
  end.

Definition pack_from_lists (columns : list ColumnArg)
    : res ListsError (list string * list string * list bytes * Z) :=
  match columns with
  | [] => Panic "hd of an empty list"
  | first :: _ =>
      packed ← collect pack_one columns;
      Ok (map (fun p => p.1.1) packed, map (fun p => p.1.2) packed, map snd packed,
          Z.of_nat (length (column_values first)))
  end.

Definition from_lists (columns : list ColumnArg) : res ListsError RecordBatch :=
  _ ← validate_from_lists_shape columns;
  '(names, dtypes, binaries, length') ← pack_from_lists columns;
  from_columns names binaries dtypes length'.

(** ** [from_map] *)

Inductive CellClass := ClUnknown | ClInteger | ClFloat | ClBoolean | ClUtf8 | ClInvalidUtf8 | ClOther.

#[export] Instance CellClass_eq_dec : EqDecision CellClass.
Proof. solve_decision. Defined.

Definition class_name (c : CellClass) : string :=
  match c with
  | ClUnknown => "unknown" | ClInteger => "integer" | ClFloat => "float" | ClBoolean => "boolean"
  | ClUtf8 => "utf8" | ClInvalidUtf8 => "invalid_utf8" | ClOther => "other"
  end.

Definition classify_cell (v : Value) : CellClass :=
  match v with
  | VInt _ => ClInteger
  | VFloat _ => ClFloat
  | VBool _ => ClBoolean
  | VBin bs => if valid_utf8 bs then ClUtf8 else ClInvalidUtf8
  | _ => ClOther
  end.

Definition merge_inferred_class (acc : CellClass) (v : Value) : res ListsError CellClass :=
  match v with
  | VNil => Err LeNil
  | VNested _ => Err (LeNotScalar v)
  | _ =>
      match acc, classify_cell v with
      | ClUnknown, class => Ok class
      | ClInteger, ClFloat | ClFloat, ClInteger => Ok ClFloat
      | a, b => if decide (a = b) then Ok a else Err (LeMixed (class_name a) (class_name b))
      end
  end.

Fixpoint infer_classes (acc : CellClass) (values : list Value) : res ListsError CellClass :=
  match values with
  | [] => Ok acc
  | v :: rest => acc' ← merge_inferred_class acc v; infer_classes acc' rest
  end.

Definition dtype_class_to_string (c : CellClass) : res ListsError string :=
  match c with
  | ClInteger => Ok "s64"
  | ClFloat => Ok "f64"
  | ClBoolean => Ok "bool"
  | ClUtf8 => Ok "utf8"
  | ClInvalidUtf8 => Err LeBinaryCells
  | ClOther => Err LeCannotInfer
  | ClUnknown => Err LeEmptyColumn
  end.

Definition infer_list_dtype (values : list Value) : res ListsError string :=
  class ← infer_classes ClUnknown values;
  dtype_class_to_string class.

(** An entry of the map; [None] is a value that is not a list. *)
Definition append_inferred_column (entry : Label * option (list Value)) : res ListsError (string * string * list Value) :=
  let '(name, values) := entry in
  match values with
  | None => Err LeNotLists
  | Some [] => Err LeEmptyColumn
  | Some values =>
      dtype ← infer_list_dtype values;
      name_str ← normalize_field_name name;
      Ok (name_str, dtype, values)
  end.

Definition name_le (a b : string * string * list Value) : Prop := str_le a.1.1 b.1.1 = true.
#[export] Instance name_le_dec a b : Decision (name_le a b).
Proof. unfold name_le. apply _. Defined.

(** [map] in the order in which [Enum.map] meets its entries. *)
Definition map_to_list_columns (map' : list (Label * option (list Value)))
    : res ListsError (list (string * string * list Value)) :=
  columns ← collect append_inferred_column map';
  Ok (merge_sort name_le columns).

Definition inferred_triple (c : string * string * list Value) : ColumnArg :=
  Triple (LabelBin c.1.1) (LabelBin c.1.2) c.2.

Definition from_map (map' : list (Label * option (list Value))) : res ListsError RecordBatch :=
  match map' with
  | [] => Err LeNoColumns
  | _ =>
      columns ← map_to_list_columns map';
      from_lists (map inferred_triple columns)
  end.

End columns.

(** Packed cells, on concrete values. *)
Example pack_negative : pack_cell "s16" (VInt (-2)) = Ok [Byte.xfe; Byte.xff].
Proof. reflexivity. Qed.

Example pack_half : pack_cell "f32" (VFloat (S754_finite false 4503599627370496 (-53)))
  = Ok [Byte.x00; Byte.x00; Byte.x00; Byte.x3f].
Proof. reflexivity. Qed.

Example pack_text : pack_cell "utf8" (VBin (as_bytes "hi")) = Ok [Byte.x02; Byte.x00; Byte.x00; Byte.x00; Byte.x68; Byte.x69].
Proof. reflexivity. Qed.

Example pack_out_of_range : pack_cell "u8" (VInt 256) = Err (LeOutOfRange "uint8" 256).
Proof. reflexivity. Qed.
