(* ===== verification/FromListsFacts.v ===== *)
(** * What the cells of a list mean

    [cell_of] is the meaning of an Elixir term in a column of a type.  Packing
    a column and building it from the packed binary gives exactly the meanings
    of its cells ([column_built]). *)

From S2P Require Import Prelude Float Utf8 Term Arrow ArrowRef FloatBits Ipc IpcFacts IpcThms FromLists.

(** ** Columns without nulls *)

(** An array built without a null buffer has no nulls, and its native values
    are as wide as its type; [RecordBatch::try_new] accepts columns that fit
    the schema. *)
Class ColumnLaws `{Arrow} : Prop := {
  build_primitive_cells dt n bs a w :
    build_primitive dt n bs = Ok a -> native_width dt = Some w ->
    Forall (fun v => Z.of_nat (length v) = w) (native_values a) /\
    cells a = map (fun v => Some (raw_cell dt v)) (native_values a);
  try_new_ok s cs n :
    cs <> [] -> wf_batch (mkBatch s cs n) ->
    Forall (fun f => type_kind (field_type f) <> KNone) (fields s) -> is_ok (try_new s cs)
}.

Lemma chunk_widths fuel w bs :
  length bs = (fuel * w)%nat -> Forall (fun v => length v = w) (chunk fuel w bs).
Proof.
  revert bs. induction fuel as [|fuel IH]; intros bs Hl; cbn; [constructor|].
  constructor; [rewrite length_take; lia|]. apply IH. rewrite length_drop. lia.
Qed.

Lemma type_eqb_refl a : type_kind a <> KNone -> type_eqb a a = true.
Proof. destruct a; cbn; intros; by rewrite ?bool_decide_eq_true_2. Qed.

#[export] Instance ref_column_laws : ColumnLaws.
Proof.
  split; cbn.
  - intros dt n bs a w Ha Hw. unfold ref_build in Ha. rewrite Hw in Ha. case_match eqn:E; [|done].
    injection Ha as <-. apply andb_true_iff in E as [H1%Z.leb_le H2%Z.leb_le].
    assert (0 < w) by (by destruct dt; simplify_eq/=).
    cbn. split; [|done]. eapply Forall_impl; [apply chunk_widths; rewrite length_take; nia|].
    intros v Hv. cbn in Hv. lia.
  - intros s [|c cs] n Hne (Hl & Hr & Ht) Hk; [done|]. cbn [rb_columns rb_schema rb_num_rows] in *.
    unfold ref_try_new. rewrite Hl, Nat.eqb_refl. cbn [andb].
    assert (forallb (fun c' => (array_len c' =? array_len c)%nat) (c :: cs) = true) as ->.
    { apply forallb_forall. intros c' Hc'%list_elem_of_In. rewrite Forall_forall in Hr.
      rewrite (Hr c' Hc'), (Hr c ltac:(left)). apply Nat.eqb_refl. }
    cbn [andb]. assert (forallb (fun '(c', f) => type_eqb (data_type c') (field_type f)) (zip (c :: cs) (fields s)) = true)
      as ->; [|done].
    clear -Ht Hk. induction Ht as [|c' f cs' fs Hcf Ht IH]; [done|].
    inversion Hk; subst. cbn. rewrite Hcf, type_eqb_refl by done. by apply IH.
Qed.

(** ** Meanings *)

(** Signedness and width of the types stored as integers. *)
Definition integer_type (dt : DataType) : option (bool * Z) :=
  match dt with
  | TInt8 => Some (true, 8)
  | TInt16 => Some (true, 16)
  | TInt32 | TDate32 => Some (true, 32)
  | TInt64 | TDate64 | TTimestamp _ _ | TDuration _ => Some (true, 64)
  | TUInt8 => Some (false, 8)
  | TUInt16 => Some (false, 16)
  | TUInt32 => Some (false, 32)
  | TUInt64 => Some (false, 64)
  | _ => None
  end.

Definition number (x : spec_float) : option Cell := if is_finite x then Some (CFloat x) else None.

(** The cell that a term stands for in a column of type [dt], if any. *)
Definition cell_of (dt : DataType) (v : Value) : option Cell :=
  match v, dt with
  | VBool b, TBoolean => Some (CBool b)
  | VFloat x, TFloat64 => Some (CFloat x)
  | VFloat x, TFloat32 => number (f32_of_f64 x)
  | VInt i, TFloat64 => number (f64_of_int i)
  | VInt i, TFloat32 => if is_finite (f64_of_int i) then number (f32_of_f64 (f64_of_int i)) else None
  | VInt i, _ =>
      match integer_type dt with
      | Some (signed, w) => if (if signed then in_s w i else in_u w i) then Some (CInt i) else None
      | None => None
      end
  | VBin bs, (TUtf8 | TLargeUtf8) => if valid_utf8 bs then Some (CBytes (of_bytes bs)) else None
  | VBin bs, (TBinary | TLargeBinary) => Some (CBytes (of_bytes bs))
  | _, _ => None
  end.

(** The type a dtype names. *)
Definition dtype_type (d : string) : option DataType :=
  match fixed_dtype d with
  | Some (_, dt) => Some dt
  | None =>
      if String.eqb d "bool" then Some TBoolean
      else if String.eqb d "utf8" then Some TUtf8
      else if String.eqb d "large_utf8" then Some TLargeUtf8
      else if String.eqb d "binary" then Some TBinary
      else if String.eqb d "large_binary" then Some TLargeBinary
      else None
  end.

(** What holds of every term: floats are finite binary64 numbers.  Binaries
    of 4 GiB and more, whose size does not fit the prefix, are excluded. *)
Definition proper (v : Value) : Prop :=
  match v with
  | VFloat x => valid_binary 53 1024 x = true /\ is_finite x = true
  | VBin bs => short bs
  | _ => True
  end.

(** ** Integers *)

Lemma le_unsigned_int_bytes_mod w v : le_unsigned (int_bytes w v) = v mod 256 ^ Z.of_nat w.
Proof.
  revert v. induction w as [|w IH]; intros v; cbn [int_bytes le_unsigned]; [by rewrite Z.mod_1_r|].
  rewrite IH, Nat2Z.inj_succ, Z.pow_succ_r, Z.rem_mul_r by lia.
  f_equal. fold (byte_of (v mod 256)). apply bz_byte_of, Z.mod_pos_bound. lia.
Qed.

Lemma wrap_s_mod w v : 0 < w -> s_range w v -> wrap_s w (v mod 2 ^ w) = v.
Proof.
  intros Hw Hv. unfold wrap_s. rewrite Z.add_mod_idemp_l by (apply Z.pow_nonzero; lia).
  by apply wrap_s_id.
Qed.

Lemma le_signed_int_bytes w v :
  (0 < w)%nat -> s_range (8 * Z.of_nat w) v -> le_signed (int_bytes w v) = v.
Proof.
  intros Hw Hv. unfold le_signed. rewrite int_bytes_length, le_unsigned_int_bytes_mod.
  change 256 with (2 ^ 8). rewrite <-Z.pow_mul_r by lia. apply wrap_s_mod; [lia|done].
Qed.

(** ** Fixed-width cells *)

#[local] Arguments int_bytes : simpl never.
#[local] Arguments f32_of_f64 : simpl never.
#[local] Arguments f64_of_int : simpl never.
#[local] Arguments raw_cell : simpl never.

(** The integer types and their bytes. *)
Lemma raw_integer dt signed w i :
  integer_type dt = Some (signed, w) -> (if signed then in_s w i else in_u w i) = true ->
  raw_cell dt (int_bytes (Z.to_nat (w / 8)) i) = CInt i.
Proof.
  intros Hdt Hi.
  destruct dt; try done; injection Hdt as <- <-; cbv iota in Hi; unfold raw_cell; f_equal;
    first [ apply in_s_true in Hi; apply le_signed_int_bytes; [apply Nat.ltb_lt; reflexivity|exact Hi]
          | apply in_u_true in Hi; apply le_unsigned_int_bytes; exact Hi ].
Qed.

Lemma pack_int_spec label v min max bits w :
  bits = Z.to_nat w -> 0 < w -> min = - 2 ^ (w - 1) -> max = 2 ^ (w - 1) - 1 ->
  pack_int v min max bits label =
  if in_s w v then Ok (int_bytes (bits / 8) v) else Err (LeOutOfRange label v).
Proof.
  intros -> Hw -> ->. unfold pack_int, in_s.
  assert ((v <=? 2 ^ (w - 1) - 1) = (v <? 2 ^ (w - 1))) as -> by lia. done.
Qed.

Lemma pack_uint_spec label v max bits w :
  bits = Z.to_nat w -> 0 < w -> max = 2 ^ w - 1 ->
  pack_uint v max bits label =
  if in_u w v then Ok (int_bytes (bits / 8) v) else Err (LeOutOfRange label v).
Proof.
  intros -> Hw ->. unfold pack_uint, in_u.
  assert ((v <=? 2 ^ w - 1) = (v <? 2 ^ w)) as -> by lia. done.
Qed.

(** The dtypes of fixed-width columns. *)
Lemma fixed_dtype_cases d w dt :
  fixed_dtype d = Some (w, dt) ->
  (exists signed label, integer_type dt = Some (signed, 8 * w) /\ 0 <= w /\
    forall v, pack_cell d v =
      match v with
      | VInt i =>
          if (if signed : bool then in_s (8 * w) i else in_u (8 * w) i) then Ok (int_bytes (Z.to_nat w) i)
          else Err (LeOutOfRange label i)
      | VNil => Err LeNil
      | VNested _ => Err (LeNotScalar v)
      | _ => Err (LeCannotPack v d)
      end) \/
  d = "f32" /\ w = 4 /\ dt = TFloat32 \/ d = "f64" /\ w = 8 /\ dt = TFloat64.
Proof.
  unfold fixed_dtype.
  repeat (case_match; [match goal with Hd : String.eqb d _ = true |- _ => apply String.eqb_eq in Hd; subst d end;
    intros [= <- <-]; first
    [ by right; left | by right; right
    | left; eexists _, _; (split; [reflexivity|]); (split; [done|]); intros v; destruct v; cbn [pack_cell];
      cbn [String.eqb Ascii.eqb Bool.eqb existsb orb tick_dtypes]; try reflexivity;
      first [ eapply pack_int_spec; [reflexivity|done|reflexivity|reflexivity]
            | eapply pack_uint_spec; [reflexivity|done|reflexivity]
            | exact (pack_uint_spec "uint64" _ 18446744073709551615 64 64 eq_refl eq_refl eq_refl) ] ]|]).
  done.
Qed.

(** The cells of the float dtypes. *)
Lemma raw_f64 x : valid_binary 53 1024 x = true -> is_finite x = true ->
  raw_cell TFloat64 (int_bytes 8 (bits_of_float 53 1024 x)) = CFloat x.
Proof.
  intros Hv Hf. unfold raw_cell. rewrite le_unsigned_int_bytes.
  - by rewrite float_bits_roundtrip.
  - by apply (bits_of_float_range 53 1024).
Qed.

Lemma raw_f32 x : is_finite (f32_of_f64 x) = true ->
  raw_cell TFloat32 (int_bytes 4 (bits_of_float 24 128 (f32_of_f64 x))) = CFloat (f32_of_f64 x).
Proof.
  intros Hf. pose proof (f32_of_f64_valid x). unfold raw_cell. rewrite le_unsigned_int_bytes.
  - by rewrite float_bits_roundtrip.
  - by apply (bits_of_float_range 24 128).
Qed.

(** One cell of a fixed-width column: it is packed exactly when it has a
    meaning, its bytes have the width of the type, and they read as it. *)
Lemma pack_fixed d w dt v :
  fixed_dtype d = Some (w, dt) -> proper v ->
  (forall bs, pack_cell d v = Ok bs -> Z.of_nat (length bs) = w /\ cell_of dt v = Some (raw_cell dt bs)) /\
  (is_Some (cell_of dt v) -> is_ok (pack_cell d v)).
Proof.
  intros [(signed & label & Hdt & Hw & Hp)|[(-> & -> & ->)|(-> & -> & ->)]]%fixed_dtype_cases Hv.
  - rewrite Hp. assert (forall i, cell_of dt (VInt i) =
      if (if signed then in_s (8 * w) i else in_u (8 * w) i) then Some (CInt i) else None) as Hc.
    { intros i. cbn. rewrite Hdt. by destruct dt. }
    destruct v as [|b|a|i|x|bs|s|s]; try (split; [done|]; by destruct dt; intros []).
    rewrite Hc. destruct (if signed then _ else _) eqn:E; [|split; [done|by intros []]].
    split; [|done]. intros bs [= <-]. split; [rewrite int_bytes_length; lia|].
    f_equal. pose proof (raw_integer dt signed (8 * w) i Hdt E) as Hr.
    rewrite (Z.mul_comm 8 w), Z.div_mul in Hr by done. done.
  - destruct v as [|b|a|i|x|bs|s|s]; try (split; [done|]; by intros []); cbn; unfold times_one, float_32, number.
    + destruct (is_finite (f64_of_int i)); cbn; [|split; [done|by intros []]].
      destruct (is_finite (f32_of_f64 _)) eqn:E; [|split; [done|by intros []]].
      split; [|done]. intros bs [= <-]. rewrite int_bytes_length. split; [done|]. by rewrite raw_f32.
    + destruct (is_finite (f32_of_f64 _)) eqn:E; [|split; [done|by intros []]].
      split; [|done]. intros bs [= <-]. rewrite int_bytes_length. split; [done|]. by rewrite raw_f32.
  - destruct v as [|b|a|i|x|bs|s|s]; try (split; [done|]; by intros []); cbn; unfold times_one, float_64, number.
    + destruct (is_finite (f64_of_int i)) eqn:E; cbn; [|split; [done|by intros []]].
      split; [|done]. intros bs [= <-]. rewrite int_bytes_length. split; [done|].
      by rewrite raw_f64 by (done || apply f64_of_int_valid).
    + destruct Hv as [Hv Hf]. split; [|done]. intros bs [= <-]. rewrite int_bytes_length. split; [done|].
      by rewrite raw_f64.
Qed.

(** ** Columns *)

Lemma concat_widths {A} (l k : list (list A)) n :
  (0 < n)%nat -> Forall (fun v => length v = n) l -> Forall (fun v => length v = n) k ->
  concat l = concat k -> l = k.
Proof.
  intros Hn Hl. revert k. induction Hl as [|x l Hx Hl IH]; intros [|y k] Hk Hc; cbn in *; try done.
  - apply Forall_cons in Hk as [Hy _]. destruct y; cbn in *; [lia|done].
  - destruct x; cbn in *; [lia|done].
  - apply Forall_cons in Hk as [Hy Hk]. apply app_inj_1 in Hc as [-> Hc]; [|lia]. f_equal. by apply IH.
Qed.

Lemma concat_length {A} (l : list (list A)) n :
  Forall (fun v => length v = n) l -> length (concat l) = (length l * n)%nat.
Proof. induction 1 as [|x l Hx _ IH]; [done|]. cbn. rewrite length_app. lia. Qed.

Lemma pack_column_Ok d vs bs :
  pack_column d vs = Ok bs <-> exists chunks, Forall2 (fun v c => pack_cell d v = Ok c) vs chunks /\ bs = concat chunks.
Proof. unfold pack_column. rewrite bind_Ok. setoid_rewrite collect_Ok. naive_solver. Qed.

Lemma pack_column_is_ok d vs : Forall (fun v => is_ok (pack_cell d v)) vs -> is_ok (pack_column d vs).
Proof.
  intros Hf. assert (exists chunks, Forall2 (fun v c => pack_cell d v = Ok c) vs chunks) as [chunks Hc].
  { induction Hf as [|v vs [c Hc]%is_ok_spec _ [cs IH]]; [by exists []|]. exists (c :: cs). by constructor. }
  apply is_ok_spec. eexists. apply pack_column_Ok. eauto.
Qed.

(** The column that [vs] stands for. *)
Definition column_of (dt : DataType) (vs : list Value) (a : Array) : Prop :=
  data_type a = dt /\ array_len a = length vs /\
  exists cs, Forall2 (fun v c => cell_of dt v = Some c) vs cs /\ cells a = map Some cs.

Section columns.
Context `{Arrow, IpcCrate, !BuildLaws, !ColumnLaws}.

Lemma fixed_column_built d w dt vs bs :
  fixed_dtype d = Some (w, dt) -> Forall proper vs -> Z.of_nat (length vs) * 16 < 2 ^ 63 ->
  pack_column d vs = Ok bs ->
  exists a, build_column_array bs d (Z.of_nat (length vs)) = Ok (dt, a) /\ column_of dt vs a.
Proof.
  intros Hd Hp Hn (chunks & Hc & ->)%pack_column_Ok. destruct (fixed_dtype_width _ _ _ Hd) as [Hw Hw0].
  assert (Forall2 (fun v c => length c = Z.to_nat w /\ cell_of dt v = Some (raw_cell dt c)) vs chunks) as Hm.
  { clear -Hc Hp Hd. induction Hc as [|v c vs chunks Hv _ IH]; [constructor|].
    apply Forall_cons in Hp as [Hpv Hp]. constructor; [|by apply IH].
    destruct (proj1 (pack_fixed d w dt v Hd Hpv) c Hv). split; [lia|done]. }
  assert (Forall (fun c => length c = Z.to_nat w) chunks) as Hl.
  { clear -Hm. induction Hm as [|? ? ? ? []]; by constructor. }
  pose proof (Forall2_length _ _ _ Hc) as Hlen. pose proof (concat_length _ _ Hl) as Hcl.
  assert (w <= 8) by (by destruct dt; simplify_eq/=).
  assert (Z.of_nat (length (concat chunks)) = Z.of_nat (length vs) * w) as Hbytes by lia.
  destruct (build_fixed_spec d w dt (concat chunks) (Z.of_nat (length vs)) Hd) as (_ & Hok & Hs); [lia|nia|].
  destruct (proj1 (is_ok_spec _) (proj2 Hok Hbytes)) as [[dt' a] Ha].
  destruct (Hs _ _ Ha) as (-> & _ & Hty & Hal & Hnl & Hnat). exists a. split; [done|].
  assert (build_primitive dt (Z.of_nat (length vs)) (concat chunks) = Ok a) as Hb.
  { unfold build_column_array in Ha. rewrite Hd in Ha. unfold build_fixed_col in Ha. case_match; [done|].
    apply bind_Ok in Ha as (a' & Ha'%map_err_Ok & [= <-]). done. }
  destruct (build_primitive_cells _ _ _ _ w Hb Hw) as [Hws Hcells].
  assert (native_values a = chunks) as Hnv.
  { apply (concat_widths _ _ (Z.to_nat w)); [lia| |done|done].
    eapply Forall_impl; [exact Hws|]. cbn. intros v Hv. lia. }
  split; [done|]. split; [lia|]. exists (map (raw_cell dt) chunks). rewrite Hcells, Hnv, map_map. split; [|done].
  apply Forall2_fmap_r. eapply Forall2_impl; [exact Hm|]. naive_solver.
Qed.

Lemma bool_column_built vs bs :
  pack_column "bool" vs = Ok bs ->
  exists a, build_column_array bs "bool" (Z.of_nat (length vs)) = Ok (TBoolean, a) /\ column_of TBoolean vs a.
Proof.
  intros (chunks & Hc & ->)%pack_column_Ok.
  assert (exists l, vs = map VBool l /\ concat chunks = map (fun b : bool => if b then Byte.x01 else Byte.x00) l)
    as (l & -> & ->).
  { induction Hc as [|v c vs chunks Hv _ (l & -> & Hl)]; [by exists []|].
    destruct v as [|b| | | | | |]; try done. exists (b :: l). split; [done|]. cbn. rewrite Hl. by destruct b; injection Hv as <-. }
  unfold build_column_array. cbn [fixed_dtype String.eqb Ascii.eqb Bool.eqb].
  rewrite !length_map, Z.eqb_refl. cbn [negb]. eexists. split; [done|]. unfold column_of. cbn.
  rewrite !length_map. split_and!; try done. exists (map CBool l). rewrite !map_map. split.
  - apply Forall2_fmap_l, Forall2_fmap_r, Forall_Forall2_diag, Forall_true. done.
  - apply map_ext. by intros [].
Qed.

(** The variable-length dtypes with their types, and what they ask of a cell. *)
Definition varlen_dtype (d : string) : option (DataType * bool) :=
  if String.eqb d "utf8" then Some (TUtf8, true)
  else if String.eqb d "large_utf8" then Some (TLargeUtf8, true)
  else if String.eqb d "binary" then Some (TBinary, false)
  else if String.eqb d "large_binary" then Some (TLargeBinary, false)
  else None.

Lemma varlen_cell d dt utf8 v :
  varlen_dtype d = Some (dt, utf8) ->
  pack_cell d v =
    match v with
    | VBin e => if negb utf8 || valid_utf8 e then Ok (frame e) else Err (LeNotUtf8 d)
    | VNil => Err LeNil
    | VNested _ => Err (LeNotScalar v)
    | _ => Err (LeCannotPack v d)
    end /\
  cell_of dt v =
    match v with
    | VBin e => if negb utf8 || valid_utf8 e then Some (CBytes (of_bytes e)) else None
    | _ => None
    end.
Proof.
  unfold varlen_dtype.
  repeat (case_match; [match goal with Hd : String.eqb d _ = true |- _ => apply String.eqb_eq in Hd; subst d end;
    intros [= <- <-]; destruct v;
    cbn [pack_cell cell_of negb String.eqb Ascii.eqb Bool.eqb existsb orb tick_dtypes integer_type]; by split|]).
  done.
Qed.

Lemma pack_varlen d dt utf8 v bs :
  varlen_dtype d = Some (dt, utf8) -> pack_cell d v = Ok bs ->
  exists e, v = VBin e /\ bs = frame e /\ (utf8 = true -> valid_utf8 e = true) /\
    cell_of dt v = Some (CBytes (of_bytes e)).
Proof.
  intros Hd Hp. destruct (varlen_cell d dt utf8 v Hd) as [Hpc ->]. rewrite Hpc in Hp.
  destruct v as [| | | | |e| |]; try done. destruct (negb utf8 || valid_utf8 e) eqn:E; [|done].
  injection Hp as <-. exists e. split_and!; try done. by intros ->.
Qed.

Lemma varlen_column_built d dt utf8 vs bs :
  varlen_dtype d = Some (dt, utf8) -> Forall proper vs -> Z.of_nat (length vs) * 16 < 2 ^ 63 ->
  pack_column d vs = Ok bs ->
  exists a, build_column_array bs d (Z.of_nat (length vs)) = Ok (dt, a) /\ column_of dt vs a.
Proof.
  intros Hd Hp Hn (chunks & Hc & ->)%pack_column_Ok.
  assert (exists es, vs = map VBin es /\ chunks = map frame es /\
    (utf8 = true -> Forall (fun e => valid_utf8 e = true) es) /\
    Forall2 (fun v c => cell_of dt v = Some c) vs (map (fun e => CBytes (of_bytes e)) es))
    as (es & -> & -> & Hu & Hcells).
  { clear -Hc Hd. induction Hc as [|v c vs chunks Hv _ (es & -> & -> & Hu & Hm)].
    - exists []. split_and!; try done; constructor.
    - destruct (pack_varlen _ _ _ _ _ Hd Hv) as (e & -> & -> & Hv' & Hce). exists (e :: es).
      split_and!; try done; [|by constructor]. intros Hut. constructor; auto. }
  rewrite length_map in Hn |- *.
  assert (Forall short es) as Hs by exact (proj1 (Forall_fmap _ _ _) Hp).
  exists (BytesArray dt (map (fun e => Some (of_bytes e)) es)). split.
  2:{ unfold column_of. cbn. rewrite !length_map. split_and!; try done. eexists. split; [exact Hcells|].
      by rewrite !map_map. }
  fold (frames es). unfold varlen_dtype in Hd.
  destruct utf8.
  - apply utf8_column_exact; [|done|done|by auto].
    repeat (case_match; [match goal with He : String.eqb d _ = true |- _ => apply String.eqb_eq in He end; naive_solver|]). done.
  - assert (forall d, decode_varlen_records (frames es) (Z.of_nat (length es)) d = Ok es) as Hdec.
    { intros d'. by apply (decode_varlen_spec (frames es) (Z.of_nat (length es)) d' ltac:(lia) Hn). }
    repeat (case_match; [match goal with He : String.eqb d _ = true |- _ => apply String.eqb_eq in He; subst d end; try done;
      injection Hd as <-; unfold build_column_array; cbn [fixed_dtype String.eqb Ascii.eqb Bool.eqb];
      rewrite Hdec; by cbn|]). done.
Qed.

End columns.
