(* ===== verification/FromListsThms.v ===== *)
(** * Theorems about building batches from Elixir lists

    [from_lists] accepts exactly the columns whose cells have a meaning in
    their type, and the batch holds those meanings; [from_map] is [from_lists]
    on inferred types, whatever the order of the cells. *)

From stdpp Require Import sorting.
From S2P Require Import Prelude Float Utf8 Term Arrow ArrowRef FloatBits Ipc IpcFacts IpcThms FromLists FromListsFacts.

(** ** The shape of the argument *)

Lemma elem_of_uniq x l : x ∈ uniq l <-> x ∈ l.
Proof.
  induction l as [|y l IH]; cbn [uniq]; [done|]. rewrite !elem_of_cons.
  rewrite list_elem_of_In, filter_In, <-list_elem_of_In, IH, negb_true_iff, Nat.eqb_neq.
  destruct (decide (x = y)); tauto.
Qed.

Lemma uniq_one l : (exists x, uniq l = [x]) <-> l <> [] /\ exists x, Forall (fun y => y = x) l.
Proof.
  destruct l as [|y l]; cbn [uniq]; [naive_solver|]. split.
  - intros [x [= -> Hf]]. split; [done|]. exists x. constructor; [done|]. apply Forall_forall. intros z Hz.
    destruct (decide (z = x)) as [|Hne]; [done|]. exfalso. apply (not_elem_of_nil z). rewrite <-Hf.
    apply list_elem_of_In, filter_In. split; [by apply list_elem_of_In, elem_of_uniq|].
    by apply negb_true_iff, Nat.eqb_neq.
  - intros [_ [x [-> Hl]%Forall_cons]]. exists x. f_equal.
    destruct (List.filter _ (uniq l)) as [|z k] eqn:E; [done|]. exfalso.
    assert (In z (z :: k)) as Hz by (by left). rewrite <-E in Hz. apply filter_In in Hz as [Hz Hne].
    apply list_elem_of_In in Hz. rewrite elem_of_uniq in Hz. rewrite Forall_forall in Hl. rewrite (Hl z Hz), Nat.eqb_refl in Hne. done.
Qed.

Definition is_triple (c : ColumnArg) : Prop := match c with Triple _ _ _ => True | NotTriple => False end.

Lemma validate_shape_Ok cols :
  validate_from_lists_shape cols = Ok () <->
  cols <> [] /\ exists n, Forall (fun c => is_triple c /\ length (column_values c) = n) cols.
Proof.
  unfold validate_from_lists_shape. destruct cols as [|c cols]; [naive_solver|].
  destruct (existsb bad_shape (c :: cols)) eqn:Eb.
  - split; [done|]. intros (_ & n & Hf). apply existsb_exists in Eb as (x & Hx & Hbad).
    rewrite Forall_forall in Hf. apply list_elem_of_In, Hf in Hx as [Hx _]. by destruct x.
  - assert (Forall is_triple (c :: cols)) as Ht.
    { apply Forall_forall. intros x Hx. destruct x; [done|].
      exfalso. rewrite (proj2 (existsb_exists bad_shape (c :: cols))) in Eb; [done|].
      exists NotTriple. split; [by apply list_elem_of_In|done]. }
    pose proof (uniq_one (map (fun c => length (column_values c)) (c :: cols))) as Hu.
    set (l := map _ (c :: cols)) in *. split.
    + intros Hok. destruct (uniq l) as [|x [|]]; try done.
      destruct (proj1 Hu ltac:(by exists x)) as (_ & n & Hn). split; [done|]. exists n.
      apply Forall_fmap in Hn. by apply Forall_and.
    + intros (_ & n & [_ Hn]%Forall_and). destruct (proj2 Hu) as [x ->]; [|done].
      split; [done|]. exists n. by apply Forall_fmap.
Qed.

(** ** Columns *)

Lemma dtype_type_cases d dt :
  dtype_type d = Some dt ->
  (exists w, fixed_dtype d = Some (w, dt)) \/ d = "bool" /\ dt = TBoolean \/
  exists utf8, varlen_dtype d = Some (dt, utf8).
Proof.
  unfold dtype_type. destruct (fixed_dtype d) as [[w dt']|]; [intros [= ->]; eauto|].
  destruct (String.eqb_spec d "bool") as [->|]; [intros [= <-]; auto|].
  intros Hd. right. right. unfold varlen_dtype. repeat (case_match; [simplify_eq; eauto|]). done.
Qed.

Lemma known_dtype d : existsb (String.eqb d) known_dtypes = true <-> is_Some (dtype_type d).
Proof.
  split.
  - intros (x & Hx & ->%String.eqb_eq)%existsb_exists.
    cbn in Hx. repeat destruct Hx as [<-|Hx]; try (by eexists; reflexivity). done.
  - intros [dt Hdt]. apply existsb_exists. exists d. split; [|apply String.eqb_refl].
    destruct (dtype_type_cases _ _ Hdt) as [[w Hf]|[[-> _]|[utf8 Hf]]]; [|cbn; tauto|];
      unfold fixed_dtype, varlen_dtype in Hf;
      repeat (case_match; [match goal with Hd : String.eqb d _ = true |- _ =>
        apply String.eqb_eq in Hd; subst d end; cbn; tauto|]); done.
Qed.

Lemma dtype_type_kind d dt : dtype_type d = Some dt -> type_kind dt <> KNone.
Proof.
  intros [[w Hf%fixed_dtype_cases]|[[-> ->]|[utf8 Hf]]]%dtype_type_cases; [|done|].
  - destruct Hf as [(signed & label & Hdt & _)|[(_ & _ & ->)|(_ & _ & ->)]]; [|done..]. by destruct dt.
  - unfold varlen_dtype in Hf. by repeat (case_match; [by simplify_eq|]).
Qed.

Lemma column_packs d dt vs :
  dtype_type d = Some dt -> Forall proper vs -> Forall (fun v => is_Some (cell_of dt v)) vs ->
  is_ok (pack_column d vs).
Proof.
  intros Hd Hp Hc. apply pack_column_is_ok. rewrite Forall_forall in *. intros v Hv.
  specialize (Hp v Hv). specialize (Hc v Hv).
  destruct (dtype_type_cases _ _ Hd) as [[w Hf]|[[-> ->]|[utf8 Hf]]].
  - by apply (pack_fixed d w dt v Hf Hp).
  - destruct v as [|[]| | | | | |]; try done; by destruct Hc.
  - destruct (varlen_cell d dt utf8 v Hf) as [-> E]. rewrite E in Hc.
    destruct v as [| | | | |e| |]; try (by destruct Hc). by destruct (negb utf8 || valid_utf8 e); [|destruct Hc].
Qed.

(** Strings of labels. *)
Definition label_text (l : Label) : option string :=
  match l with LabelBin s | LabelAtom s => Some s | LabelOther _ => None end.

(** A column argument has a meaning: [n] cells, each with one in the type. *)
Definition meaningful (n : nat) (c : ColumnArg) : Prop :=
  match c with
  | Triple name dtype vs =>
      exists s d dt, label_text name = Some s /\ valid_str s = true /\ label_text dtype = Some d /\
        dtype_type d = Some dt /\ length vs = n /\ Forall (fun v => is_Some (cell_of dt v)) vs
  | NotTriple => False
  end.

(** The field and the array a column argument stands for. *)
Inductive describes (n : nat) : ColumnArg -> Field -> Array -> Prop :=
| describes_column name dtype vs s d dt a :
    label_text name = Some s -> label_text dtype = Some d -> dtype_type d = Some dt ->
    length vs = n -> column_of dt vs a ->
    describes n (Triple name dtype vs) (mkField s dt false) a.

(** What physics grants: floats are binary64 numbers, binaries are shorter
    than 4 GiB and lists than 2^59 cells. *)
Definition bounded_cells (c : ColumnArg) : Prop :=
  Forall proper (column_values c) /\ Z.of_nat (length (column_values c)) * 16 < 2 ^ 63.

Section lists.
Context `{Arrow, IpcCrate, !BuildLaws, !BatchLaws, !ColumnLaws}.

Lemma column_built d dt vs bs :
  dtype_type d = Some dt -> Forall proper vs -> Z.of_nat (length vs) * 16 < 2 ^ 63 ->
  pack_column d vs = Ok bs ->
  exists a, build_column_array bs d (Z.of_nat (length vs)) = Ok (dt, a) /\ column_of dt vs a.
Proof.
  intros Hd Hp Hn Hpack. destruct (dtype_type_cases _ _ Hd) as [[w Hf]|[[-> ->]|[utf8 Hf]]].
  - by eapply fixed_column_built.
  - by apply bool_column_built.
  - by eapply varlen_column_built.
Qed.

Lemma normalize_name_Ok name s : normalize_field_name name = Ok s <-> label_text name = Some s.
Proof. destruct name; cbn; naive_solver. Qed.

Lemma normalize_dtype_Ok dtype d :
  normalize_list_dtype dtype = Ok d <-> label_text dtype = Some d /\ is_Some (dtype_type d).
Proof.
  rewrite <-known_dtype. destruct dtype as [t|t|t]; cbn [normalize_list_dtype label_text]; [..|by split; [|intros []]];
    (destruct (existsb (String.eqb t) known_dtypes) eqn:E; split;
     [by intros [= <-]|by intros [[= ->] _]|done|intros [[= ->] Hk]; congruence]).
Qed.

Lemma pack_one_Ok c s d bs :
  pack_one c = Ok (s, d, bs) <->
  exists name dtype vs, c = Triple name dtype vs /\ label_text name = Some s /\ label_text dtype = Some d /\
    is_Some (dtype_type d) /\ pack_column d vs = Ok bs.
Proof.
  destruct c as [name dtype vs|]; [|split; [done|naive_solver]]. cbn [pack_one]. split.
  - intros (s' & Hs%normalize_name_Ok & Hr)%bind_Ok. apply bind_Ok in Hr as (d' & [Hd Hk]%normalize_dtype_Ok & Hr).
    apply bind_Ok in Hr as (bs' & Hb & [= -> -> ->]). eauto 10.
  - intros (name' & dtype' & vs' & [= <- <- <-] & Hs & Hd & Hk & Hp).
    rewrite (proj2 (normalize_name_Ok _ _) Hs). cbn. rewrite (proj2 (normalize_dtype_Ok _ _) (conj Hd Hk)). cbn.
    by rewrite Hp.
Qed.

(** The packed columns build the columns described. *)
Lemma build_packed n cols packed :
  Forall2 (fun c p => pack_one c = Ok p) cols packed ->
  Forall (fun c => bounded_cells c /\ length (column_values c) = n) cols ->
  exists fs cs, build_columns (map (fun p => p.1.1) packed) (map snd packed) (map (fun p => p.1.2) packed) (Z.of_nat n)
    = Ok (fs, cs) /\ Forall3 (describes n) cols fs cs.
Proof.
  induction 1 as [|c [[s d] bs] cols packed Hc _ IH]; intros Hf; [exists [], []; by repeat constructor|].
  apply Forall_cons in Hf as [[[Hp Hb] Hl] Hf]. destruct (IH Hf) as (fs & cs & Hbuild & Hdes).
  apply pack_one_Ok in Hc as (name & dtype & vs & -> & Hs & Hd & [dt Hdt] & Hpack). cbn [column_values] in *.
  destruct (column_built d dt vs bs Hdt Hp Hb Hpack) as (a & Ha & Hcol). rewrite Hl in Ha.
  exists (mkField s dt false :: fs), (a :: cs). cbn. rewrite Ha. cbn. rewrite Hbuild. split; [done|].
  constructor; [by econstructor|done].
Qed.

Lemma describes_wf n cols fs cs :
  Forall3 (describes n) cols fs cs ->
  wf_batch (mkBatch (mkSchema fs) cs n) /\ Forall (fun f => type_kind (field_type f) <> KNone) fs.
Proof.
  unfold wf_batch. cbn [rb_columns rb_schema rb_num_rows fields].
  induction 1 as [|c f a cols fs cs Hc _ ((IH1 & IH2 & IH3) & IH4)]; [by repeat constructor|].
  destruct Hc as [name dtype vs s d dt a Hs Hd Hdt Hl (Hty & Hal & _)].
  split; [split_and!|]; [cbn; lia|constructor; [lia|done]|by constructor|].
  constructor; [by eapply dtype_type_kind|done].
Qed.

(** From packed columns to the batch. *)
Lemma from_columns_packed n cols packed :
  cols <> [] -> Z.of_nat n * 16 < 2 ^ 63 ->
  Forall2 (fun c p => pack_one c = Ok p) cols packed ->
  Forall (fun c => bounded_cells c /\ length (column_values c) = n) cols ->
  let r := from_columns (map (fun p => p.1.1) packed) (map snd packed) (map (fun p => p.1.2) packed) (Z.of_nat n) in
  (is_ok r <-> Forall (fun p => valid_str p.1.1 = true) packed) /\
  forall b, r = Ok b -> rb_num_rows b = n /\ Forall3 (describes n) cols (fields (rb_schema b)) (rb_columns b).
Proof.
  intros Hne Hn Hp Hf. cbv zeta. destruct (build_packed n cols packed Hp Hf) as (fs & cs & Hb & Hd).
  destruct (describes_wf _ _ _ _ Hd) as [Hwf Hk].
  assert (packed <> []) as Hpne by (by destruct Hp). assert (cs <> []) as Hcne by (by destruct Hd).
  unfold from_columns. destruct (Z.ltb_spec (Z.of_nat n) 0); [lia|].
  assert (forallb valid_str (map (fun p : string * string * bytes => p.1.2) packed) = true) as ->.
  { apply forallb_forall. intros d (q & <- & Hq)%in_map_iff. apply list_elem_of_In, list_elem_of_lookup in Hq as [i Hi].
    destruct (Forall2_lookup_r _ _ _ _ _ Hp Hi) as (c & _ & Hc). destruct q as [[s d] bs].
    apply pack_one_Ok in Hc as (_ & _ & _ & _ & _ & _ & Hk' & _). apply known_dtype in Hk'. cbn.
    apply existsb_exists in Hk' as (x & Hx & ->%String.eqb_eq). cbn in Hx.
    repeat destruct Hx as [<-|Hx]; try reflexivity. done. }
  assert (in_u 64 (Z.of_nat n) = true) as -> by (apply in_u_true; unfold u_range; lia).
  rewrite !andb_true_r.
  assert (forallb valid_str (map (fun p : string * string * bytes => p.1.1) packed) = true <->
    Forall (fun p => valid_str p.1.1 = true) packed) as Hv.
  { rewrite forallb_forall, Forall_forall. setoid_rewrite in_map_iff. setoid_rewrite list_elem_of_In. naive_solver. }
  destruct (forallb valid_str _); cbn [negb].
  2:{ split; [|done]. split; [done|]. intros Hall. by apply Hv in Hall. }
  unfold record_batch_from_column_binaries. rewrite !length_map, Nat.eqb_refl. cbn [negb orb].
  rewrite Hb. cbn [mbind res_bind].
  destruct packed as [|p0 packed]; [done|]. cbn [map].
  pose proof (try_new_ok (mkSchema fs) cs n Hcne Hwf Hk) as Hok.
  destruct (try_new (mkSchema fs) cs) as [b'| |] eqn:Et; [|done..]. cbn. split; [by split; [intros _; apply Hv|]|].
  intros b [= <-]. apply try_new_spec in Et as (Hs & Hc & _ & Hrows & _). rewrite Hs, Hc. rewrite Hc in Hrows.
  split; [|done]. destruct cols as [|c cols]; [done|].
  apply Forall3_cons_inv_l in Hd as (f & fs' & a & cs' & -> & -> & Hcfa & _).
  apply Forall_cons in Hrows as [<- _]. destruct Hcfa as [? ? ? ? ? ? ? ? ? ? Hl (_ & Hal & _)]. lia.
Qed.

(** *** One column *)

Lemma pack_one_meaning n c p :
  bounded_cells c -> length (column_values c) = n -> pack_one c = Ok p -> valid_str p.1.1 = true -> meaningful n c.
Proof.
  destruct p as [[s d] bs]. intros [Hp Hb] Hl (name & dtype & vs & -> & Hs & Hd & [dt Hdt] & Hpack)%pack_one_Ok Hv.
  destruct (column_built d dt vs bs Hdt Hp Hb Hpack) as (a & _ & _ & _ & cs & Hcs & _).
  exists s, d, dt. split_and!; try done. clear -Hcs. induction Hcs; constructor; eauto.
Qed.

Lemma meaning_packs n c :
  bounded_cells c -> meaningful n c ->
  is_triple c /\ length (column_values c) = n /\ exists p, pack_one c = Ok p /\ valid_str p.1.1 = true.
Proof.
  destruct c as [name dtype vs|]; [|done]. intros [Hp _] (s & d & dt & Hs & Hv & Hd & Hdt & Hl & Hc).
  split_and!; [done..|]. destruct (proj1 (is_ok_spec _) (column_packs d dt vs Hdt Hp Hc)) as [bs Hbs].
  exists (s, d, bs). split; [|done]. apply pack_one_Ok. exists name, dtype, vs. by split_and!.
Qed.

(** *** The whole call *)

Lemma from_lists_packed cols packed n :
  Forall bounded_cells cols -> cols <> [] ->
  Forall (fun c => is_triple c /\ length (column_values c) = n) cols ->
  Forall2 (fun c p => pack_one c = Ok p) cols packed ->
  (is_ok (from_lists cols) <-> Forall (fun p => valid_str p.1.1 = true) packed) /\
  forall b, from_lists cols = Ok b ->
    rb_num_rows b = n /\ Forall3 (describes n) cols (fields (rb_schema b)) (rb_columns b).
Proof.
  intros Hb Hne Hf Hp. unfold from_lists.
  rewrite (proj2 (validate_shape_Ok cols)) by eauto. cbn [mbind res_bind].
  unfold pack_from_lists. destruct cols as [|c cols]; [done|].
  rewrite (proj2 (collect_Ok pack_one (c :: cols) packed) Hp). cbn [mbind res_bind].
  apply Forall_cons in Hf as Hf'. destruct Hf' as [[_ Hl] _]. rewrite Hl.
  apply from_columns_packed; [done| |done|].
  - apply Forall_cons in Hb as [[_ Hb] _]. by rewrite Hl in Hb.
  - apply Forall_and. split; [done|]. eapply Forall_impl; [exact Hf|]. by intros x [].
Qed.

Lemma from_lists_is_ok cols : is_ok (from_lists cols) ->
  cols <> [] /\ exists n packed, Forall (fun c => is_triple c /\ length (column_values c) = n) cols /\
    Forall2 (fun c p => pack_one c = Ok p) cols packed.
Proof.
  intros [b Hb]%is_ok_spec. unfold from_lists in Hb. apply bind_Ok in Hb as ([] & Hv & Hb).
  apply validate_shape_Ok in Hv as (Hne & n & Hf). split; [done|]. exists n.
  apply bind_Ok in Hb as ([[[names dtypes] binaries] len] & Hp & _). unfold pack_from_lists in Hp.
  destruct cols as [|c cols]; [done|]. apply bind_Ok in Hp as (packed & Hc%collect_Ok & _). eauto.
Qed.

Lemma from_lists_accepts cols :
  Forall bounded_cells cols ->
  is_ok (from_lists cols) <-> cols <> [] /\ exists n, Forall (meaningful n) cols.
Proof.
  intros Hb. split.
  - intros Hok. destruct (from_lists_is_ok cols Hok) as (Hne & n & packed & Hf & Hp). split; [done|]. exists n.
    apply (from_lists_packed cols packed n Hb Hne Hf Hp) in Hok.
    clear Hne. induction Hp as [|c p cols packed Hc _ IH]; [constructor|].
    apply Forall_cons in Hb as [Hbc Hb]. apply Forall_cons in Hf as [[_ Hl] Hf]. apply Forall_cons in Hok as [Hv Hok].
    constructor; [by eapply pack_one_meaning|by apply IH].
  - intros (Hne & n & Hm).
    assert (exists packed, Forall2 (fun c p => pack_one c = Ok p) cols packed /\
      Forall (fun c => is_triple c /\ length (column_values c) = n) cols /\
      Forall (fun p => valid_str p.1.1 = true) packed) as (packed & Hp & Hf & Hv).
    { clear Hne. induction Hm as [|c cols Hc _ IH]; [exists []; by repeat constructor|].
      apply Forall_cons in Hb as [Hbc Hb]. destruct (IH Hb) as (packed & ? & ? & ?).
      destruct (meaning_packs n c Hbc Hc) as (? & ? & p & ? & ?). exists (p :: packed). repeat constructor; done. }
    by apply (from_lists_packed cols packed n Hb Hne Hf Hp).
Qed.

Lemma from_lists_describes cols b :
  Forall bounded_cells cols -> from_lists cols = Ok b ->
  Forall3 (describes (rb_num_rows b)) cols (fields (rb_schema b)) (rb_columns b).
Proof.
  intros Hb Hr. destruct (from_lists_is_ok cols) as (Hne & n & packed & Hf & Hp); [by rewrite Hr|].
  by destruct (proj2 (from_lists_packed cols packed n Hb Hne Hf Hp) b Hr) as [-> ?].
Qed.

(** *** Exceptions *)

(** The conversions of numbers that fit, and names that are UTF-8. *)
Definition convertible (d : string) (v : Value) : Prop :=
  match v with
  | VInt i => (d = "f32" \/ d = "f64" -> is_finite (f64_of_int i) = true) /\
              (d = "f32" -> is_finite (f32_of_f64 (f64_of_int i)) = true)
  | VFloat x => d = "f32" -> is_finite (f32_of_f64 x) = true
  | _ => True
  end.

Definition convertible_column (c : ColumnArg) : Prop :=
  match c with
  | Triple name dtype vs =>
      (forall s, label_text name = Some s -> valid_str s = true) /\
      (forall d, label_text dtype = Some d -> Forall (convertible d) vs)
  | NotTriple => True
  end.

Lemma pack_cell_no_panic d v : is_Some (dtype_type d) -> convertible d v -> no_panic (pack_cell d v).
Proof.
  intros [dt [[w Hf]|[[-> ->]|[utf8 Hf]]]%dtype_type_cases] Hv.
  - apply fixed_dtype_cases in Hf as [(signed & label & _ & _ & Hp)|[(-> & _ & _)|(-> & _ & _)]].
    + rewrite Hp. by repeat case_match.
    + destruct v as [| | |i|x| | |]; try done; cbn [pack_cell String.eqb Ascii.eqb Bool.eqb];
        unfold times_one, float_32; cbn [convertible] in Hv.
      * destruct Hv as [-> Hv]; [|by left]. cbn. by rewrite Hv.
      * by rewrite Hv.
    + destruct v as [| | |i|x| | |]; try done; cbn [pack_cell String.eqb Ascii.eqb Bool.eqb];
        unfold times_one, float_64; cbn [convertible] in Hv. destruct Hv as [-> Hv]; [done|by right].
  - by destruct v as [|[]| | | | | |].
  - destruct (varlen_cell d dt utf8 v Hf) as [-> _]. by repeat case_match.
Qed.

Lemma pack_one_no_panic c : is_triple c -> convertible_column c -> no_panic (pack_one c).
Proof.
  destruct c as [name dtype vs|]; [|done]. intros _ [_ Hc]. cbn [pack_one].
  apply bind_no_panic; [by destruct name|]. intros s _.
  apply bind_no_panic; [destruct dtype; cbn; by repeat case_match|]. intros d [Hd Hk]%normalize_dtype_Ok.
  apply bind_no_panic; [|done]. apply bind_no_panic; [|done]. apply collect_no_panic.
  eapply Forall_impl; [exact (Hc d Hd)|]. intros v Hv. by apply pack_cell_no_panic.
Qed.

Lemma from_lists_no_panic cols :
  Forall bounded_cells cols -> Forall convertible_column cols -> no_panic (from_lists cols).
Proof.
  intros Hb Hc. destruct (validate_from_lists_shape cols) as [[]| |] eqn:Ev; unfold from_lists; rewrite Ev; try done.
  2:{ unfold validate_from_lists_shape in Ev. by repeat case_match. }
  apply validate_shape_Ok in Ev as (Hne & n & Hf). cbn [mbind res_bind].
  assert (no_panic (collect pack_one cols)) as Hnp.
  { apply collect_no_panic. rewrite Forall_forall in *. intros c Hin. apply pack_one_no_panic; [by apply Hf|by apply Hc]. }
  destruct (collect pack_one cols) as [packed| |] eqn:Ep; [| |done].
  2:{ unfold pack_from_lists. destruct cols; [done|]. by rewrite Ep. }
  apply collect_Ok in Ep as Hp. pose proof (proj1 (from_lists_packed cols packed n Hb Hne Hf Hp)) as Hok.
  unfold from_lists in Hok. rewrite (proj2 (validate_shape_Ok cols)) in Hok by eauto. cbn [mbind res_bind] in Hok.
  assert (is_ok ('(names, dtypes, binaries, len) ← pack_from_lists cols; from_columns names binaries dtypes len)) as Hk.
  { apply Hok. clear -Hp Hc. induction Hp as [|c [[s d] bs] cols packed Hcp _ IH]; [constructor|].
    apply Forall_cons in Hc as [Hc1 Hc]. constructor; [|by apply IH].
    apply pack_one_Ok in Hcp as (name & dtype & vs & -> & Hs & _). by apply Hc1. }
  by destruct ('(names, dtypes, binaries, len) ← _; _).
Qed.

(** C32: [from_lists] accepts what has a meaning, and builds it.  A list of
    columns is accepted exactly when it is not empty, all columns have the same
    number of cells, every name is a UTF-8 string or an atom, every dtype is
    known, and every cell has a meaning in its column's type: an integer within
    the type's width, a number that rounds to a finite float, a boolean, text
    that is UTF-8, bytes.  The batch then has a non-nullable field of each
    name and type in order, and every column holds exactly the meanings of its
    cells, none of them null.  Everything else is an error, and never an
    exception as long as names are UTF-8 and numbers fit the float type of
    their column. *)
Theorem from_lists_exact cols :
  Forall bounded_cells cols ->
  (is_ok (from_lists cols) <-> cols <> [] /\ exists n, Forall (meaningful n) cols) /\
  (forall b, from_lists cols = Ok b ->
     Forall3 (describes (rb_num_rows b)) cols (fields (rb_schema b)) (rb_columns b)) /\
  (Forall convertible_column cols -> no_panic (from_lists cols)).
Proof.
  intros Hb. split_and!; [by apply from_lists_accepts|intros b; by apply from_lists_describes|].
  by apply from_lists_no_panic.
Qed.

End lists.

(** Three columns: integers with a negative one, text, and floats among which
    an integer is converted. *)
Definition mixed_columns : list ColumnArg :=
  [Triple (LabelBin "id") (LabelAtom "s16") [VInt 1; VInt (-2)];
   Triple (LabelAtom "name") (LabelBin "utf8") [VBin (as_bytes "ab"); VBin []];
   Triple (LabelBin "x") (LabelAtom "f64") [VInt 3; VFloat (S754_finite true 4503599627370496 (-53))]].

Lemma mixed_bounded : Forall bounded_cells mixed_columns.
Proof. repeat constructor. Qed.

Lemma from_lists_exact_witness :
  exists b, from_lists mixed_columns = Ok b /\
    Forall3 (describes (rb_num_rows b)) mixed_columns (fields (rb_schema b)) (rb_columns b) /\
    ~ is_ok (from_lists [Triple (LabelBin "x") (LabelAtom "s64") [VInt 1; VNil]]).
Proof.
  assert (exists b, from_lists mixed_columns = Ok b) as [b Hb] by (eexists; vm_compute; reflexivity).
  exists b. split; [exact Hb|]. split.
  - exact (proj1 (proj2 (from_lists_exact mixed_columns mixed_bounded)) b Hb).
  - intros Hok. apply (from_lists_exact [Triple (LabelBin "x") (LabelAtom "s64") [VInt 1; VNil]]) in Hok; [|repeat constructor].
    destruct Hok as (_ & n & Hf). apply Forall_cons in Hf as [Hm _]. cbn in Hm.
    destruct Hm as (s & d & dt & _ & _ & _ & _ & _ & Hc). do 2 (apply Forall_cons in Hc as [? Hc]).
    match goal with Hn : is_Some (cell_of _ VNil) |- _ => by destruct Hn end.
Defined.

(** A float that binary32 cannot hold, and an integer that no float can hold,
    raise instead of giving an error. *)
Lemma f32_overflow_raises :
  from_lists [Triple (LabelBin "x") (LabelAtom "f32") [VFloat (S754_finite false 4503599627370496 100)]]
    = Panic "construction of binary failed" /\
  from_lists [Triple (LabelBin "x") (LabelAtom "f64") [VInt (2 ^ 1024)]]
    = Panic "bad argument in arithmetic expression".
Proof. split; vm_compute; reflexivity. Qed.

(** ** Inferred types *)

Definition is_int (v : Value) : bool := match v with VInt _ => true | _ => false end.
Definition is_number (v : Value) : bool := match v with VInt _ | VFloat _ => true | _ => false end.
Definition is_boolean (v : Value) : bool := match v with VBool _ => true | _ => false end.
Definition is_utf8 (v : Value) : bool := match v with VBin bs => valid_utf8 bs | _ => false end.

(** The type that all cells of a list share, without regard to their order. *)
Definition common_dtype (vs : list Value) : option string :=
  match vs with
  | [] => None
  | _ =>
      if forallb is_int vs then Some "s64"
      else if forallb is_number vs then Some "f64"
      else if forallb is_boolean vs then Some "bool"
      else if forallb is_utf8 vs then Some "utf8"
      else None
  end.

Lemma infer_float vs :
  (v ← infer_classes ClFloat vs; dtype_class_to_string v) = Ok "f64" /\ forallb is_number vs = true \/
  (exists e, (v ← infer_classes ClFloat vs; dtype_class_to_string v) = Err e) /\ forallb is_number vs = false.
Proof.
  induction vs as [|v vs IH]; [by left|]. destruct v; cbn; eauto; try (destruct (valid_utf8 bs)); eauto.
Qed.

Lemma infer_integer vs :
  (v ← infer_classes ClInteger vs; dtype_class_to_string v) =
    Ok (if forallb is_int vs then "s64" else "f64")%string /\ forallb is_number vs = true \/
  (exists e, (v ← infer_classes ClInteger vs; dtype_class_to_string v) = Err e) /\ forallb is_number vs = false.
Proof.
  induction vs as [|v vs IH]; [by left|]. destruct v; cbn; eauto; [|try (destruct (valid_utf8 bs)); eauto..].
  apply infer_float.
Qed.

Lemma infer_boolean vs :
  (v ← infer_classes ClBoolean vs; dtype_class_to_string v) = Ok "bool" /\ forallb is_boolean vs = true \/
  (exists e, (v ← infer_classes ClBoolean vs; dtype_class_to_string v) = Err e) /\ forallb is_boolean vs = false.
Proof.
  induction vs as [|v vs IH]; [by left|]. destruct v; cbn; eauto; try (destruct (valid_utf8 bs)); eauto.
Qed.

Lemma infer_utf8 vs :
  (v ← infer_classes ClUtf8 vs; dtype_class_to_string v) = Ok "utf8" /\ forallb is_utf8 vs = true \/
  (exists e, (v ← infer_classes ClUtf8 vs; dtype_class_to_string v) = Err e) /\ forallb is_utf8 vs = false.
Proof.
  induction vs as [|v vs IH]; [by left|]. destruct v; cbn; eauto. destruct (valid_utf8 bs); eauto.
Qed.

(** A column that starts with a term of no type is refused. *)
Lemma infer_refused c vs : c = ClInvalidUtf8 \/ c = ClOther ->
  exists e, (v ← infer_classes c vs; dtype_class_to_string v) = Err e.
Proof.
  intros Hc. revert c Hc. induction vs as [|v vs IH]; intros c Hc; [destruct Hc as [-> | ->]; cbn; eauto|].
  destruct v; destruct Hc as [-> | ->]; cbn; eauto; try (destruct (valid_utf8 bs)); cbn; eauto; apply IH; auto.
Qed.

(** Inference finds the common type of the cells: it does not depend on their
    order, and it fails when there is none. *)
Lemma infer_exact vs :
  match common_dtype vs with
  | Some d => infer_list_dtype vs = Ok d
  | None => exists e, infer_list_dtype vs = Err e
  end.
Proof.
  unfold infer_list_dtype, common_dtype. destruct vs as [|v vs]; [cbn; eauto|].
  destruct v as [|b|a|i|x|bs|s|s]; cbn [infer_classes merge_inferred_class classify_cell forallb is_int is_number
    is_boolean is_utf8 andb mbind res_bind]; eauto.
  - destruct (infer_boolean vs) as [[-> ->]|[He ->]]; eauto.
  - apply infer_refused. auto.
  - destruct (infer_integer vs) as [[-> ->]|[He Hn]]; [by destruct (forallb is_int vs)|]. rewrite Hn.
    assert (forallb is_int vs = false) as ->; [|done].
    apply not_true_iff_false. intros Hi. apply not_true_iff_false in Hn. apply Hn.
    rewrite forallb_forall in Hi |- *. intros y Hy. apply Hi in Hy. by destruct y.
  - destruct (infer_float vs) as [[-> ->]|[He ->]]; eauto.
  - destruct (valid_utf8 bs) eqn:Ev; cbn; rewrite ?Ev; cbn; [|apply infer_refused; auto].
    destruct (infer_utf8 vs) as [[-> ->]|[He ->]]; eauto.
  - apply infer_refused. auto.
Qed.

Definition typed_entry (entry : Label * option (list Value)) : option (string * string * list Value) :=
  s ← label_text entry.1;
  vs ← entry.2;
  d ← common_dtype vs;
  Some (s, d, vs).

Lemma append_typed entry :
  match typed_entry entry with
  | Some c => append_inferred_column entry = Ok c
  | None => exists e, append_inferred_column entry = Err e
  end.
Proof.
  destruct entry as [name [[|v vs]|]]; cbn [append_inferred_column typed_entry fst snd]; [by destruct name; cbn; eauto| |by destruct name; cbn; eauto].
  generalize (v :: vs). intros l. pose proof (infer_exact l) as Hi. unfold typed_entry. cbn [fst snd].
  destruct name; cbn; (destruct (common_dtype l) as [d|]; [rewrite Hi|destruct Hi as [e ->]]); cbn; eauto.
Qed.

#[export] Instance name_le_total : Total name_le.
Proof.
  intros a b. unfold name_le, str_le, String.leb. rewrite (String.compare_antisym b.1.1 a.1.1).
  destruct (String.compare a.1.1 b.1.1); auto.
Qed.

#[export] Instance name_le_trans : Transitive name_le.
Proof. intros a b c. apply str_le_trans. Qed.

(** [from_map] is [from_lists] on the entries, each with the type its cells
    share, in the order of their names; a map with an entry that has none is
    an error. *)
Lemma from_map_exact `{Arrow, IpcCrate} m :
  m <> [] ->
  match collect_opt typed_entry m with
  | Some entries =>
      exists cols, cols ≡ₚ entries /\ Sorted name_le cols /\ from_map m = from_lists (map inferred_triple cols)
  | None => exists e, from_map m = Err e
  end.
Proof.
  intros Hne. assert (match collect_opt typed_entry m with
    | Some entries => collect append_inferred_column m = Ok entries
    | None => exists e, collect append_inferred_column m = Err e end) as Hc.
  { clear Hne. induction m as [|x m IH]; [done|]. cbn. pose proof (append_typed x) as Hx.
    destruct (typed_entry x) as [c|]; [rewrite Hx; cbn|by destruct Hx as [e ->]; eauto].
    destruct (collect_opt typed_entry m) as [entries|]; [by rewrite IH|by destruct IH as [e ->]; eauto]. }
  unfold from_map, map_to_list_columns. destruct m as [|x m]; [done|].
  destruct (collect_opt typed_entry (x :: m)) as [entries|]; [|by destruct Hc as [e ->]; eauto].
  rewrite Hc. exists (merge_sort name_le entries). split_and!; [apply merge_sort_Permutation|apply (Sorted_merge_sort name_le)|done].
Qed.

Lemma from_map_exact_witness :
  exists cols, cols ≡ₚ [("b", "f64", [VInt 1; VFloat (S754_zero false)]); ("a", "bool", [VBool true; VBool false])]%string /\
    Sorted name_le cols /\
    from_map [(LabelBin "b", Some [VInt 1; VFloat (S754_zero false)]); (LabelAtom "a", Some [VBool true; VBool false])]
    = from_lists (map inferred_triple cols).
Proof.
  apply (from_map_exact [(LabelBin "b", Some [VInt 1; VFloat (S754_zero false)]); (LabelAtom "a", Some [VBool true; VBool false])]).
  done.
Defined.
