(* ===== verification/ParquetRows.v ===== *)
(** * The rows of a list of batches

    A table cut into batches: the cells of a column batch after batch, and the
    row filter as a function of these cells alone.  The masks of two cuts of
    the same rows are the same mask ([same_rows_same_masks]), which is why the
    chunks the Parquet reader evaluates the filter on cannot be observed. *)

From S2P Require Import Prelude Float Utf8 Term Arrow ArrowRef Stream Parquet ParquetFacts.

(** ** Selections of concatenations *)

Lemma select_app {A} (l1 l2 : list A) m1 m2 :
  length l1 = length m1 -> select (l1 ++ l2) (m1 ++ m2) = select l1 m1 ++ select l2 m2.
Proof.
  revert m1. induction l1 as [|x l1 IH]; intros [|[[]|] m1] Hl; cbn in *; try done; rewrite IH by lia; done.
Qed.

Lemma select_concat {A B} (f : B -> list A) (g : B -> list (option bool)) bs :
  Forall (fun b => length (f b) = length (g b)) bs ->
  select (concat (map f bs)) (concat (map g bs)) = concat (map (fun b => select (f b) (g b)) bs).
Proof. induction 1 as [|b bs Hb _ IH]; [done|]. cbn. by rewrite select_app, IH. Qed.

Lemma select_none {A} (l : list A) m : Forall (fun x => x <> Some true) m -> select l m = [].
Proof. intros Hm. revert l. induction Hm as [|[[]|] m Hx _ IH]; intros [|y l]; cbn; try done; apply IH. Qed.

Lemma map_seq_app {A} (f : nat -> A) n m :
  map f (seq 0 (n + m)) = map f (seq 0 n) ++ map (fun i => f (n + i)%nat) (seq 0 m).
Proof.
  rewrite seq_app, map_app. f_equal. cbn. rewrite <-(Nat.add_0_r n) at 1. rewrite <-fmap_add_seq.
  rewrite <-list_fmap_compose. done.
Qed.

Lemma Forall_choose {A B} (P : A -> B -> Prop) l :
  Forall (fun x => exists y, P x y) l -> exists k, Forall2 P l k.
Proof. induction 1 as [|x l [y Hy] _ [k Hk]]; [by exists []|]. exists (y :: k). by constructor. Qed.

(** ** The rows of a list of batches *)

Section rows.
Context `{Arrow, !BatchLaws}.

Definition column_cells (c : string) (b : RecordBatch) : list (option Cell) :=
  match column_by_name b c with Some a => cells a | None => [] end.

(** The rows of one column, batch after batch. *)
Definition column_rows (c : string) (bs : list RecordBatch) : list (option Cell) :=
  concat (map (column_cells c) bs).

Definition total_rows (bs : list RecordBatch) : nat := list_sum (map rb_num_rows bs).

(** Well-formed batches of one schema. *)
Definition uniform (s : Schema) (bs : list RecordBatch) : Prop :=
  Forall (fun b => wf_batch b /\ rb_schema b = s) bs.

(** A schema without nested or dictionary columns. *)
Definition scalar_schema (s : Schema) : Prop := Forall (fun f => type_kind (field_type f) <> KNone) (fields s).

Definition distinct_names (s : Schema) : Prop := NoDup (map field_name (fields s)).

Lemma index_of_unique s i f :
  distinct_names s -> fields s !! i = Some f -> index_of s (field_name f) = Some i.
Proof.
  intros Hd Hi. destruct (index_of s (field_name f)) as [j|] eqn:Ej.
  - apply index_of_spec in Ej as (g & Hg & Hn). f_equal.
    apply (NoDup_lookup _ j i (field_name f) Hd); rewrite list_lookup_fmap; [by rewrite Hg; cbn; rewrite Hn|by rewrite Hi].
  - exfalso. by eapply (index_of_none _ _ Ej f); [eapply list_elem_of_lookup_2|].
Qed.

Lemma field_with_name_Some s f :
  distinct_names s -> f ∈ fields s -> field_with_name s (field_name f) = Some f.
Proof.
  intros Hd [i Hi]%list_elem_of_lookup. by rewrite field_with_name_index, (index_of_unique s i f).
Qed.

Lemma field_with_name_None s n :
  (forall f, f ∈ fields s -> field_name f <> n) -> field_with_name s n = None.
Proof.
  intros Hn. rewrite field_with_name_index. destruct (index_of s n) as [i|] eqn:E; [|done].
  apply index_of_spec in E as (f & Hf & Hfn). exfalso. eapply Hn; [by eapply list_elem_of_lookup_2|done].
Qed.

(** The column of a field of the schema has its type and the batch's rows. *)
Lemma column_of_field b col f :
  wf_batch b -> field_with_name (rb_schema b) col = Some f ->
  exists a, column_by_name b col = Some a /\ data_type a = field_type f /\ length (cells a) = rb_num_rows b.
Proof.
  intros (Hl & Hn & Ht). rewrite field_with_name_index, column_by_name_index.
  intros (i & Hi & Hf)%bind_Some. rewrite Hi. cbn [mbind option_bind].
  destruct (Forall2_lookup_r _ _ _ _ _ Ht Hf) as (a & Ha & Hty). exists a. split_and!; [done..|].
  rewrite cells_length. rewrite Forall_forall in Hn. by eapply Hn, list_elem_of_lookup_2.
Qed.

Lemma column_cells_length b col f :
  wf_batch b -> field_with_name (rb_schema b) col = Some f -> length (column_cells col b) = rb_num_rows b.
Proof. intros Hw Hf. unfold column_cells. by destruct (column_of_field b col f Hw Hf) as (a & -> & _ & ?). Qed.

(** *** The filter as a function of the cells *)

(** The filter on row [i] of columns given by their types and their cells. *)
Fixpoint filter_at (types : string -> option DataType) (column : string -> list (option Cell))
    (e : FilterExpr) (i : nat) : option bool :=
  match e with
  | FAnd (x :: xs) => foldl and_cells (filter_at types column x i) (map (fun c => filter_at types column c i) xs)
  | FOr (x :: xs) => foldl or_cells (filter_at types column x i) (map (fun c => filter_at types column c i) xs)
  | FAnd [] | FOr [] => None
  | _ =>
      '(col, v, k) ← comparison_parts e;
      dt ← types col;
      x ← column col !! i;
      cmp_cells k x (value_cell v dt)
  end.

Definition schema_types (s : Schema) (col : string) : option DataType :=
  field_type <$> field_with_name s col.

(** Two tables whose filter columns agree at rows [i] and [j] agree there. *)
Lemma filter_at_ext types types' column column' e i j :
  (forall col, col ∈ filter_columns e -> types col = types' col /\ column col !! i = column' col !! j) ->
  filter_at types column e i = filter_at types' column' e j.
Proof.
  assert (forall xs, Forall (fun e =>
      (forall col, col ∈ filter_columns e -> types col = types' col /\ column col !! i = column' col !! j) ->
      filter_at types column e i = filter_at types' column' e j) xs ->
    (forall col, col ∈ concat (map filter_columns xs) -> types col = types' col /\ column col !! i = column' col !! j) ->
    map (fun c => filter_at types column c i) xs = map (fun c => filter_at types' column' c j) xs) as Hl.
  { induction 1 as [|x xs Hx _ IH]; intros Hc; cbn in *; [done|].
    rewrite Hx, IH; [done|..]; intros col Hcol; apply Hc, elem_of_app; auto. }
  induction e as [e He|[|x xs] IH|[|x xs] IH] using filter_ind; intros Hc; try done.
  - destruct e; try done; cbn; (destruct (Hc col) as [-> ->]; [cbn; set_solver|done]).
  - specialize (Hl _ IH Hc). cbn in *. injection Hl as -> ->. done.
  - specialize (Hl _ IH Hc). cbn in *. injection Hl as -> ->. done.
Qed.

Lemma filter_row_at b e i :
  wf_batch b -> (forall col, col ∈ filter_columns e -> field_with_name (rb_schema b) col <> None) ->
  filter_row b e i = filter_at (schema_types (rb_schema b)) (fun c => column_cells c b) e i.
Proof.
  intros Hw. assert (forall xs, Forall (fun e =>
      (forall col, col ∈ filter_columns e -> field_with_name (rb_schema b) col <> None) ->
      filter_row b e i = filter_at (schema_types (rb_schema b)) (fun c => column_cells c b) e i) xs ->
    (forall col, col ∈ concat (map filter_columns xs) -> field_with_name (rb_schema b) col <> None) ->
    map (fun c => filter_row b c i) xs
    = map (fun c => filter_at (schema_types (rb_schema b)) (fun c => column_cells c b) c i) xs) as Hl.
  { induction 1 as [|x xs Hx _ IH]; intros Hc; cbn in *; [done|].
    rewrite Hx, IH; [done|..]; intros col Hcol; apply Hc, elem_of_app; auto. }
  induction e as [e He|[|x xs] IH|[|x xs] IH] using filter_ind; intros Hc; try done.
  - destruct e; try done; cbn;
      (destruct (field_with_name (rb_schema b) col) as [f|] eqn:Ef; [|by destruct (Hc col); [cbn; set_solver|]]);
      destruct (column_of_field b col f Hw Ef) as (a & Ha & Ht & _);
      unfold schema_types, column_cells; rewrite Ef, Ha; cbn; by rewrite Ht.
  - specialize (Hl _ IH Hc). cbn in *. injection Hl as -> ->. done.
  - specialize (Hl _ IH Hc). cbn in *. injection Hl as -> ->. done.
Qed.

(** The masks of the batches, one after the other, are the mask of their rows. *)
Lemma masks_of_rows s e bs :
  uniform s bs -> (forall col, col ∈ filter_columns e -> field_with_name s col <> None) ->
  concat (map (fun b => filter_mask b e) bs)
  = map (filter_at (schema_types s) (fun c => column_rows c bs) e) (seq 0 (total_rows bs)).
Proof.
  intros Hu Hc. induction Hu as [|b bs [Hw Hs] _ IH]; [done|].
  assert (forall col, col ∈ filter_columns e -> length (column_cells col b) = rb_num_rows b) as Hlen.
  { intros col Hcol. destruct (field_with_name s col) as [f|] eqn:Ef; [|by destruct (Hc col)].
    eapply column_cells_length; [done|by rewrite Hs]. }
  unfold total_rows in *. cbn [map concat list_sum foldr]. rewrite map_seq_app, IH. f_equal.
  - unfold filter_mask. apply map_ext_in. intros i Hi%in_seq. rewrite filter_row_at by (by rewrite ?Hs).
    rewrite Hs. apply filter_at_ext. intros col Hcol. split; [done|]. unfold column_rows. cbn.
    rewrite lookup_app_l; [done|]. rewrite Hlen by done. lia.
  - apply map_ext. intros i. apply filter_at_ext. intros col Hcol. split; [done|]. unfold column_rows. cbn.
    rewrite lookup_app_r by (rewrite Hlen by done; lia). f_equal. rewrite Hlen by done. lia.
Qed.

(** So the masks of two cuts of the same rows are the same, even if one of
    them only has the filter's columns. *)
Lemma same_rows_same_masks s s' e bs bs' :
  uniform s bs -> uniform s' bs' -> total_rows bs = total_rows bs' ->
  (forall col, col ∈ filter_columns e ->
     field_with_name s col <> None /\ field_with_name s' col = field_with_name s col /\
     column_rows col bs' = column_rows col bs) ->
  concat (map (fun b => filter_mask b e) bs') = concat (map (fun b => filter_mask b e) bs).
Proof.
  intros Hu Hu' Ht Hc. rewrite (masks_of_rows s' e bs'), (masks_of_rows s e bs), Ht; try done.
  - apply map_ext. intros i. apply filter_at_ext. intros col Hcol.
    destruct (Hc col Hcol) as (_ & Hf & Hr). unfold schema_types. by rewrite Hf, Hr.
  - intros col Hcol. by apply Hc.
  - intros col Hcol. destruct (Hc col Hcol) as (Hn & -> & _). done.
Qed.

(** *** Tables up to their cut *)

(** Two cuts of one table of schema [s]: a partial equivalence, whose domain are
    the lists of well-formed batches of that schema. *)
Definition same_table (s : Schema) (bs bs' : list RecordBatch) : Prop :=
  uniform s bs /\ uniform s bs' /\ total_rows bs = total_rows bs' /\
  forall c, c ∈ map field_name (fields s) -> column_rows c bs = column_rows c bs'.

#[export] Instance same_table_per s : RelationClasses.PER (same_table s).
Proof.
  split.
  - intros bs bs' (H1 & H2 & H3 & H4). split_and!; [done..|]. intros c Hc. symmetry. by apply H4.
  - intros b1 b2 b3 (H1 & H2 & H3 & H4) (_ & H5 & H6 & H7). split_and!; [done..|congruence|].
    intros c Hc. rewrite H4 by done. by apply H7.
Qed.

Lemma column_rows_app c bs bs' : column_rows c (bs ++ bs') = column_rows c bs ++ column_rows c bs'.
Proof. unfold column_rows. by rewrite map_app, concat_app. Qed.

#[export] Instance same_table_app s : Proper (same_table s ==> same_table s ==> same_table s) app.
Proof.
  intros b1 b1' (H1 & H2 & H3 & H4) b2 b2' (H5 & H6 & H7 & H8). split_and!.
  - by apply Forall_app.
  - by apply Forall_app.
  - unfold total_rows in *. rewrite !map_app, !list_sum_app. congruence.
  - intros c Hc. rewrite !column_rows_app. by rewrite H4, H8.
Qed.

(** The filter's mask of a table, and the cells it selects of a column. *)
Definition table_mask (e : FilterExpr) (bs : list RecordBatch) : list (option bool) :=
  concat (map (fun b => filter_mask b e) bs).

Definition selected_rows (c : string) (e : FilterExpr) (bs : list RecordBatch) : list (option Cell) :=
  concat (map (fun b => select (column_cells c b) (filter_mask b e)) bs).

Definition filter_of_schema (s : Schema) (e : FilterExpr) : Prop :=
  forall col, col ∈ filter_columns e -> field_with_name s col <> None.

Lemma field_name_elem s col : field_with_name s col <> None -> col ∈ map field_name (fields s).
Proof.
  intros Hn. destruct (field_with_name s col) as [f|] eqn:Ef; [|done].
  rewrite field_with_name_index in Ef. apply bind_Some in Ef as (i & (g & Hgi & <-)%index_of_spec & _).
  by eapply list_elem_of_fmap_2, list_elem_of_lookup_2.
Qed.

Lemma table_mask_proper s e : filter_of_schema s e -> Proper (same_table s ==> eq) (table_mask e).
Proof.
  intros He bs bs' (H1 & H2 & H3 & H4). apply (same_rows_same_masks s s e bs' bs); [done..|].
  intros col Hc. split_and!; [by apply He|done|]. by apply H4, field_name_elem, He.
Qed.

Lemma selected_rows_select s c e bs :
  uniform s bs -> distinct_names s -> c ∈ map field_name (fields s) ->
  selected_rows c e bs = select (column_rows c bs) (table_mask e bs).
Proof.
  intros Hu Hd Hc. symmetry. apply select_concat. eapply Forall_impl; [exact Hu|]. intros g [Hw Hs]. cbn.
  unfold filter_mask. rewrite length_map, length_seq.
  apply list_elem_of_fmap in Hc as (f & -> & Hin). eapply column_cells_length; [done|].
  rewrite Hs. by apply field_with_name_Some.
Qed.

(** What a filter selects does not depend on the cut. *)
Lemma selected_rows_proper s c e :
  filter_of_schema s e -> distinct_names s -> c ∈ map field_name (fields s) ->
  Proper (same_table s ==> eq) (selected_rows c e).
Proof.
  intros He Hd Hc bs bs' Hb. pose proof Hb as (H1 & H2 & _ & H4).
  rewrite !(selected_rows_select s) by done. by rewrite (table_mask_proper s e He bs bs' Hb), H4.
Qed.

End rows.
