(* ===== verification/Batch.v ===== *)
(** * Transformations of a batch (lib/ex_arrow/batch.ex, compute.ex)

    [Batch.select], [drop], [rename] and [take] over the NIFs of compute.rs and
    ipc.rs.  [Panic] is an exception.  Indices that are not integers, which
    [validate_indices] refuses, are left out, since the model's are typed. *)

From S2P Require Import Prelude Float Utf8 Term Arrow Stream Compute Ipc.

Inductive BatchError :=
| BeUnknown (names : list string)
| BeNegative (n : Z)
| BeIndex (index : Z) (rows : Z)
| BeNative (e : NifError).

(** The reply of a NIF, wrapped or passed on. *)
Definition batch_result {V} (r : Reply V) : res BatchError V :=
  match r with
  | ROk v => Ok v
  | RErr e => Err (BeNative e)
  | RRaise s => Panic s
  | _ => Panic "case clause"
  end.

(** Decoding names from the caller as [Vec<String>]; those of a schema are
    UTF-8 already. *)
Definition decode_names (names : list string) : res BatchError (list string) :=
  if forallb valid_str names then Ok names else Panic "argument error".

Definition in_names (n : string) (names : list string) : bool := existsb (String.eqb n) names.

(** [first..last], which counts down when [last] is smaller. *)
Definition range (first last : Z) : list Z :=
  if first <=? last then map (fun i => first + Z.of_nat i) (seq 0 (Z.to_nat (last - first + 1)))
  else map (fun i => first - Z.of_nat i) (seq 0 (Z.to_nat (first - last + 1))).

Section batch.
Context `{Rustler Term} `{Arrow, IpcCrate}.

(** [RecordBatch.column_names]. *)
Definition column_names (batch : RecordBatch) : list string := map field_name (fields (rb_schema batch)).

(** ** Columns *)

Definition batch_select (batch : RecordBatch) (columns : list string) : res BatchError RecordBatch :=
  names ← decode_names columns;
  batch_result (compute_project batch names).

Definition batch_drop (batch : RecordBatch) (columns : list string) : res BatchError RecordBatch :=
  let existing := column_names batch in
  match List.filter (fun c => negb (in_names c existing)) columns with
  | [] => batch_result (compute_project batch (List.filter (fun c => negb (in_names c columns)) existing))
  | unknown => Err (BeUnknown unknown)
  end.

(** [Map.get(rename_map, name, name)], where [rename_map] is [Map.new(renames)]:
    the last pair of a key counts. *)
Definition renamed (renames : list (string * string)) (name : string) : string :=
  default name ((list_to_map (rev renames) : gmap string string) !! name).

(** The loop over the fields: name, binary and dtype of each column. *)
Fixpoint column_buffers (batch : RecordBatch) (renames : list (string * string)) (names : list string)
    : res BatchError (list (string * bytes * string)) :=
  match names with
  | [] => Ok []
  | old_name :: names' =>
      '(binary, dtype, _) ← batch_result (record_batch_column_buffer batch old_name);
      rest ← column_buffers batch renames names';
      Ok ((renamed renames old_name, binary, dtype) :: rest)
  end.

Definition rebuild_columns (batch : RecordBatch) (renames : list (string * string)) : res BatchError RecordBatch :=
  l ← column_buffers batch renames (column_names batch);
  names ← decode_names (map (fun p => p.1.1) l);
  batch_result (record_batch_from_column_binaries names (map (fun p => p.1.2) l) (map snd l)
                  (Z.of_nat (rb_num_rows batch))).

(** [renames] are the pairs of the mapping, as strings. *)
Definition batch_rename (batch : RecordBatch) (renames : list (string * string)) : res BatchError RecordBatch :=
  match List.filter (fun p => negb (in_names p.1 (column_names batch))) renames with
  | [] => rebuild_columns batch renames
  | unknown => Err (BeUnknown (map fst unknown))
  end.

(** ** Rows *)

Definition filter_with_mask (batch : RecordBatch) (mask_bytes : bytes) : res BatchError RecordBatch :=
  predicate ← batch_result (record_batch_from_column_binaries ["__take_mask"] [mask_bytes] ["bool"]
                              (Z.of_nat (rb_num_rows batch)));
  batch_result (compute_filter batch predicate).

Definition batch_take (batch : RecordBatch) (n : Z) : res BatchError RecordBatch :=
  if n <? 0 then Err (BeNegative n)
  else
    let rows := Z.of_nat (rb_num_rows batch) in
    if rows <=? n then Ok batch
    else if n =? 0 then filter_with_mask batch (replicate (rb_num_rows batch) Byte.x00)
    else filter_with_mask batch (replicate (Z.to_nat n) Byte.x01 ++ replicate (Z.to_nat (rows - n)) Byte.x00).

Definition validate_indices (indices : list Z) (rows : Z) : res BatchError unit :=
  match List.find (fun i => (i <? 0) || (rows <=? i)) indices with
  | None => Ok ()
  | Some bad => Err (BeIndex bad rows)
  end.

Definition build_index_mask (indices : list Z) (rows : Z) : bytes :=
  map (fun i => if existsb (Z.eqb i) indices then Byte.x01 else Byte.x00) (range 0 (rows - 1)).

Definition batch_take_indices (batch : RecordBatch) (indices : list Z) : res BatchError RecordBatch :=
  let rows := Z.of_nat (rb_num_rows batch) in
  _ ← validate_indices indices rows;
  filter_with_mask batch (build_index_mask indices rows).

End batch.

Example range_up : range 0 2 = [0; 1; 2].
Proof. reflexivity. Qed.

Example range_down : range 0 (-1) = [0; -1].
Proof. reflexivity. Qed.
