(* ===== verification/BatchThms.v ===== *)
(** * Theorems about transformations of a batch

    [take] keeps exactly the rows asked for, in their order, through a mask
    that is built from bytes and read back; [rename] changes the names only,
    as long as there are no nulls. *)

From S2P Require Import Prelude Float Utf8 Term Arrow ArrowRef Stream Compute ComputeThms Ipc IpcFacts IpcThms.
From S2P Require Import FromListsFacts ParquetRows Batch.

(** ** Selecting rows *)

(** The rows of a column whose numbers satisfy [keep], in order. *)
Fixpoint rows_at {A} (keep : nat -> bool) (l : list A) : list A :=
  match l with
  | [] => []
  | x :: l' => if keep 0%nat then x :: rows_at (fun i => keep (S i)) l' else rows_at (fun i => keep (S i)) l'
  end.

Lemma rows_at_ext {A} (f g : nat -> bool) (l : list A) :
  (forall i, (i < length l)%nat -> f i = g i) -> rows_at f l = rows_at g l.
Proof.
  revert f g. induction l as [|x l IH]; intros f g Hfg; [done|]. cbn [rows_at]. rewrite Hfg by (cbn; lia).
  rewrite (IH (fun i => f (S i)) (fun i => g (S i))); [done|]. intros i Hi. apply Hfg. cbn. lia.
Qed.

Lemma select_rows {A} (l : list A) keep k :
  select l (map (fun i => Some (keep i)) (seq k (length l))) = rows_at (fun i => keep (k + i)%nat) l.
Proof.
  revert k. induction l as [|x l IH]; intros k; [done|]. cbn [length seq map select rows_at].
  rewrite Nat.add_0_r, IH, (rows_at_ext _ (fun i => keep (k + S i)%nat)) by (intros i _; f_equal; lia).
  by destruct (keep k).
Qed.

Lemma rows_at_none {A} (l : list A) : rows_at (fun _ => false) l = [].
Proof. by induction l. Qed.

Lemma rows_at_take {A} (l : list A) n : rows_at (fun i => (i <? n)%nat) l = take n l.
Proof.
  revert n. induction l as [|x l IH]; intros [|n]; cbn [rows_at take]; [done|done|by rewrite rows_at_none|].
  f_equal. apply IH.
Qed.

(** [existsb (Z.eqb i)] is membership. *)
Lemma existsb_Zeqb i l : existsb (Z.eqb i) l = true <-> i ∈ l.
Proof.
  rewrite existsb_exists. setoid_rewrite Z.eqb_eq. split.
  - intros (x & Hx & ->). by apply list_elem_of_In.
  - intros Hi. exists i. split; [by apply list_elem_of_In|done].
Qed.

(** ** Masks *)

Section masks.
Context `{Arrow, IpcCrate, !BatchLaws, !ColumnLaws}.

(** The mask that bytes stand for. *)
Definition mask_of (bs : bytes) : list (option bool) := map (fun b => Some (negb (bz b =? 0))) bs.

(** The mask's bytes must be as many as the rows; the rows it selects are kept. *)
Lemma filter_with_mask_spec b bs :
  wf_batch b ->
  (length bs = rb_num_rows b ->
   exists b', filter_with_mask b bs = Ok b' /\ rb_schema b' = rb_schema b /\
     rb_num_rows b' = count_true (mask_of bs) /\
     Forall2 (fun c' c => data_type c' = data_type c /\ cells c' = select (cells c) (mask_of bs))
       (rb_columns b') (rb_columns b)) /\
  (length bs <> rb_num_rows b -> exists e, filter_with_mask b bs = Err (BeNative (EMsg e))).
Proof.
  intros Hwf. unfold filter_with_mask, record_batch_from_column_binaries.
  cbn [length Nat.eqb negb orb build_columns].
  unfold build_column_array. cbn [fixed_dtype String.eqb Ascii.eqb Bool.eqb].
  destruct (Z.eqb_spec (Z.of_nat (length bs)) (Z.of_nat (rb_num_rows b))) as [Hl|Hl]; cbn [negb].
  2:{ split; [lia|]. intros _. cbn. eauto. }
  split; [|lia]. intros _. cbn [mbind res_bind]. fold (mask_of bs).
  set (s := mkSchema [mkField "__take_mask" TBoolean false]).
  assert (is_ok (try_new s [BooleanArray (mask_of bs)])) as Hok.
  { apply (try_new_ok s _ (length bs)); [done| |by repeat constructor].
    unfold wf_batch, mask_of. cbn. split_and!; [done| |]; repeat constructor. apply length_map. }
  destruct (try_new s [BooleanArray (mask_of bs)]) as [p| |] eqn:Et; [|done..].
  apply try_new_spec in Et as (_ & Hc & _). cbn. unfold compute_filter. rewrite Hc. cbn.
  assert (is_ok (filter_record_batch b (mask_of bs))) as Hf.
  { apply filter_ok; [done|]. unfold mask_of. rewrite length_map. lia. }
  destruct (filter_record_batch b (mask_of bs)) as [b'| |] eqn:Ef; [|done..]. cbn. exists b'. split; [done|].
  pose proof (filter_rows _ _ _ Ef). by apply filter_spec in Ef as [? ?].
Qed.

(** The rows at which [keep] holds are kept of every column. *)
Definition keeps_rows (keep : nat -> bool) (b b' : RecordBatch) : Prop :=
  rb_schema b' = rb_schema b /\
  rb_num_rows b' = length (rows_at keep (seq 0 (rb_num_rows b))) /\
  Forall2 (fun c' c => data_type c' = data_type c /\ cells c' = rows_at keep (cells c)) (rb_columns b') (rb_columns b).

Lemma mask_keeps b keep bs :
  wf_batch b -> mask_of bs = map (fun i => Some (keep i)) (seq 0 (rb_num_rows b)) ->
  exists b', filter_with_mask b bs = Ok b' /\ keeps_rows keep b b'.
Proof.
  intros Hwf Hm. destruct (filter_with_mask_spec b bs Hwf) as [Hok _].
  assert (length bs = rb_num_rows b) as Hl.
  { apply (f_equal length) in Hm. unfold mask_of in Hm. by rewrite !length_map, length_seq in Hm. }
  destruct (Hok Hl) as (b' & Hf & Hs & Hn & Hc). exists b'. split; [done|]. split_and!; [done| |].
  - rewrite Hn, <-(select_length (seq 0 (rb_num_rows b))) by (unfold mask_of; by rewrite length_seq, length_map).
    rewrite Hm. pose proof (select_rows (seq 0 (rb_num_rows b)) keep 0) as Hr. rewrite length_seq in Hr.
    by rewrite Hr.
  - destruct Hwf as (_ & Hrows & _). clear -Hc Hm Hrows.
    induction Hc as [|c' c cs' cs [Ht Hcells] _ IH]; [constructor|].
    apply Forall_cons in Hrows as [Hlen Hrows]. constructor; [|by apply IH]. split; [done|].
    rewrite Hcells, Hm, <-Hlen, <-cells_length. apply (select_rows (cells c) keep 0).
Qed.

End masks.

(** ** [take] *)

Lemma mask_of_app l k : mask_of (l ++ k) = mask_of l ++ mask_of k.
Proof. apply map_app. Qed.

Lemma mask_of_replicate n x : mask_of (replicate n x) = replicate n (Some (negb (bz x =? 0))).
Proof. unfold mask_of. induction n as [|n IH]; [done|]. cbn. by rewrite IH. Qed.

Lemma map_const_seq (f : nat -> bool) c k n :
  (forall i, (k <= i < k + n)%nat -> f i = c) -> map (fun i => Some (f i)) (seq k n) = replicate n (Some c).
Proof.
  revert k. induction n as [|n IH]; intros k Hf; [done|]. cbn. rewrite Hf by lia. f_equal. apply IH.
  intros i Hi. apply Hf. lia.
Qed.

(** The mask of [take] for an integer. *)
Lemma prefix_mask n m :
  mask_of (replicate n Byte.x01 ++ replicate m Byte.x00)
  = map (fun i => Some (Z.of_nat i <? Z.of_nat n)) (seq 0 (n + m)).
Proof.
  rewrite mask_of_app, !mask_of_replicate, seq_app, map_app.
  by rewrite (map_const_seq _ true), (map_const_seq _ false) by (intros i Hi; lia).
Qed.

(** The mask of [take] for a list of indices. *)
Lemma range_up_to n : (0 < n)%nat -> range 0 (Z.of_nat n - 1) = map Z.of_nat (seq 0 n).
Proof.
  intros Hn. unfold range. rewrite (proj2 (Z.leb_le _ _)) by lia.
  replace (Z.to_nat (Z.of_nat n - 1 - 0 + 1)) with n by lia. apply map_ext. intros i. lia.
Qed.

Lemma index_mask indices n :
  (0 < n)%nat ->
  mask_of (build_index_mask indices (Z.of_nat n))
  = map (fun i => Some (existsb (Z.eqb (Z.of_nat i)) indices)) (seq 0 n).
Proof.
  intros Hn. unfold build_index_mask, mask_of. rewrite range_up_to, !map_map by done. apply map_ext. intros i.
  by destruct (existsb _ indices).
Qed.

Section take.
Context `{Arrow, IpcCrate, !BatchLaws, !ColumnLaws}.

Lemma keeps_all b n : wf_batch b -> Z.of_nat (rb_num_rows b) <= n -> keeps_rows (fun i => Z.of_nat i <? n) b b.
Proof.
  intros (_ & Hr & _) Hn.
  assert (forall A (l : list A), (length l <= rb_num_rows b)%nat -> rows_at (fun i => Z.of_nat i <? n) l = l) as Hall.
  { intros A l Hl. rewrite (rows_at_ext _ (fun i => (i <? length l)%nat)) 
      by (intros i Hi; destruct (Z.ltb_spec (Z.of_nat i) n), (Nat.ltb_spec i (length l)); lia).
    by rewrite rows_at_take, firstn_all. }
  split_and!; [done|by rewrite Hall, length_seq by (by rewrite length_seq)|].
  apply Forall_Forall2_diag. eapply Forall_impl; [exact Hr|]. intros c Hc. cbn. split; [done|].
  rewrite Hall; [done|]. rewrite cells_length. cbn in Hc. lia.
Qed.

Lemma batch_take_spec b n : wf_batch b -> 0 <= n ->
  exists b', batch_take b n = Ok b' /\ keeps_rows (fun i => Z.of_nat i <? n) b b'.
Proof.
  intros Hwf Hn. unfold batch_take. destruct (Z.ltb_spec n 0); [lia|].
  destruct (Z.leb_spec (Z.of_nat (rb_num_rows b)) n); [exists b; split; [done|by apply keeps_all]|].
  destruct (Z.eqb_spec n 0) as [->|].
  - apply mask_keeps; [done|]. apply (prefix_mask 0).
  - apply mask_keeps; [done|]. rewrite prefix_mask.
    replace (Z.to_nat n + Z.to_nat (Z.of_nat (rb_num_rows b) - n))%nat with (rb_num_rows b) by lia.
    by rewrite Z2Nat.id.
Qed.

Lemma validate_indices_spec indices rows :
  (Forall (fun i => 0 <= i < rows) indices -> validate_indices indices rows = Ok ()) /\
  (Exists (fun i => ~ 0 <= i < rows) indices ->
   exists i, i ∈ indices /\ validate_indices indices rows = Err (BeIndex i rows)).
Proof.
  unfold validate_indices. destruct (List.find _ indices) as [i|] eqn:Ef.
  - apply List.find_some in Ef as [Hi%list_elem_of_In Hb]. split; [|eauto].
    intros Hf. rewrite Forall_forall in Hf. apply Hf in Hi. lia.
  - split; [done|]. intros (i & Hi & Hb)%Exists_exists. apply list_elem_of_In in Hi.
    pose proof (List.find_none _ _ Ef i Hi) as Hn. cbv beta in Hn. lia.
Qed.

(** C34: [take] keeps exactly the rows asked for.  With an integer it keeps that
    many rows from the front, all of them when there are fewer, and refuses a
    negative one.  With a list of indices in range it keeps the rows at those
    numbers, in the order of the batch and once each, whatever the order and
    repetitions of the list; an index out of range is an error.  Schema and
    types stay.  The one exception is a batch without rows: the empty list,
    which is the only list in range, is refused with an error of the NIF,
    because the mask is built over a range that counts down to minus one. *)
Theorem batch_take_exact b n indices :
  wf_batch b ->
  let rows := Z.of_nat (rb_num_rows b) in
  (if n <? 0 then batch_take b n = Err (BeNegative n)
   else exists b', batch_take b n = Ok b' /\ keeps_rows (fun i => Z.of_nat i <? n) b b') /\
  (Exists (fun i => ~ 0 <= i < rows) indices ->
   exists i, i ∈ indices /\ batch_take_indices b indices = Err (BeIndex i rows)) /\
  (Forall (fun i => 0 <= i < rows) indices ->
   if rows =? 0 then exists e, batch_take_indices b indices = Err (BeNative (EMsg e))
   else exists b', batch_take_indices b indices = Ok b' /\
     keeps_rows (fun i => existsb (Z.eqb (Z.of_nat i)) indices) b b').
Proof.
  intros Hwf rows. destruct (validate_indices_spec indices rows) as [Hin Hout]. unfold batch_take_indices. fold rows.
  split_and!.
  - destruct (Z.ltb_spec n 0) as [Hn|Hn]; [|by apply batch_take_spec].
    unfold batch_take. by rewrite (proj2 (Z.ltb_lt n 0) Hn).
  - intros (i & Hi & ->)%Hout. by exists i.
  - intros ->%Hin. cbn [mbind res_bind]. destruct (Z.eqb_spec rows 0) as [E|E]; subst rows.
    + apply (filter_with_mask_spec b _ Hwf). rewrite E. assert (length (build_index_mask indices 0) = 2%nat) by reflexivity. lia.
    + apply mask_keeps; [done|]. apply index_mask. lia.
Qed.

End take.

(** Two columns and three rows, and no rows. *)
Definition three_rows : RecordBatch :=
  mkBatch (mkSchema [mkField "n" TInt64 true; mkField "b" TBoolean true])
    [IntArray TInt64 [Some 10; None; Some 30]; BooleanArray [Some true; Some false; None]] 3.

Definition no_rows : RecordBatch := mkBatch (mkSchema [mkField "n" TInt64 true]) [IntArray TInt64 []] 0.

Lemma three_rows_wf : wf_batch three_rows.
Proof. by repeat constructor. Qed.

Lemma no_rows_wf : wf_batch no_rows.
Proof. by repeat constructor. Qed.

Lemma batch_take_exact_witness :
  (exists b', batch_take three_rows 2 = Ok b' /\ keeps_rows (fun i => Z.of_nat i <? 2) three_rows b') /\
  (exists b', batch_take_indices three_rows [2; 0; 2] = Ok b' /\
     rb_columns b' = [IntArray TInt64 [Some 10; Some 30]; BooleanArray [Some true; None]]) /\
  exists e, batch_take_indices no_rows [] = Err (BeNative (EMsg e)).
Proof.
  split; [|split].
  - exact (proj1 (batch_take_exact three_rows 2 [] three_rows_wf)).
  - eexists. split; vm_compute; reflexivity.
  - apply (batch_take_exact no_rows 0 [] no_rows_wf). constructor.
Defined.

(** ** [rename] *)

(** A column without nulls whose buffer is its values: booleans, or native
    values of the width of a numeric type. *)
Definition plain `{Arrow} (c : Array) : Prop :=
  (exists l, c = BooleanArray (map Some l)) \/
  exists d w, nx_dtype d /\ fixed_dtype d = Some (w, data_type c) /\ is_primitive c = true /\
    length (native_values c) = array_len c /\ Forall (fun v => Z.of_nat (length v) = w) (native_values c) /\
    cells c = map (fun v => Some (raw_cell (data_type c) v)) (native_values c).

Lemma in_names_spec n names : in_names n names = true <-> n ∈ names.
Proof.
  unfold in_names. rewrite existsb_exists. setoid_rewrite String.eqb_eq. split.
  - intros (x & Hx & ->). by apply list_elem_of_In.
  - intros Hn. exists n. split; [by apply list_elem_of_In|done].
Qed.

Section rename.
Context `{Rustler Term} (Halloc : forall n, owned_binary_new n = true).
Context `{Arrow, IpcCrate, !BuildLaws, !BatchLaws, !BoolLaws, !OffsetLaws, !ColumnLaws}.

(** A plain column survives its detour through a buffer. *)
Lemma plain_rebuilt c :
  plain c -> Z.of_nat (array_len c) * 16 < 2 ^ 63 ->
  exists bs d a, extract_primitive_buffer c = ROk (bs, d, Z.of_nat (array_len c)) /\
    build_column_array bs d (Z.of_nat (array_len c)) = Ok (data_type c, a) /\
    data_type a = data_type c /\ array_len a = array_len c /\ cells a = cells c.
Proof.
  intros [(l & ->)|(d & w & Hd & Hf & Hp & Hl & Hw & Hc)] Hn.
  - eexists _, "bool", (BooleanArray (map Some l)). rewrite (extract_bool Halloc). cbn [array_len data_type].
    split; [done|]. unfold build_column_array. cbn [fixed_dtype String.eqb Ascii.eqb Bool.eqb].
    rewrite !length_map, Z.eqb_refl. cbn [negb]. split_and!; try done. rewrite !map_map. do 3 f_equal.
    apply map_ext. by intros [].
  - destruct (fixed_dtype_width _ _ _ Hf) as [Hnw Hw0].
    assert (w <= 8) by (by destruct (data_type c); simplify_eq/=).
    assert (Forall (fun v => length v = Z.to_nat w) (native_values c)) as Hwn.
    { eapply Forall_impl; [exact Hw|]. cbn. intros v Hv. lia. }
    assert (Z.of_nat (length (concat (native_values c))) = Z.of_nat (array_len c) * w) as Hb.
    { rewrite (concat_length _ _ Hwn), Hl. lia. }
    destruct (build_fixed_spec d w (data_type c) (concat (native_values c)) (Z.of_nat (array_len c)) Hf)
      as (_ & Hok & Hs); [lia|nia|].
    destruct (proj1 (is_ok_spec _) (proj2 Hok Hb)) as [[dt a] Ha].
    destruct (Hs _ _ Ha) as (-> & _ & Hty & Hal & Hnl & Hnat).
    exists (concat (native_values c)), d, a. rewrite (extract_fixed d w (data_type c) c Hd Hf eq_refl).
    rewrite (primitive_buffer_spec Halloc) by done. split_and!; try done; [lia|].
    assert (build_primitive (data_type c) (Z.of_nat (array_len c)) (concat (native_values c)) = Ok a) as Hbp.
    { unfold build_column_array in Ha. rewrite Hf in Ha. unfold build_fixed_col in Ha. case_match; [done|].
      apply bind_Ok in Ha as (a' & Ha'%map_err_Ok & [= <-]). done. }
    destruct (build_primitive_cells _ _ _ _ w Hbp Hnw) as [Hws ->].
    rewrite Hc. f_equal. apply (concat_widths _ _ (Z.to_nat w)); [lia| |done|done].
    eapply Forall_impl; [exact Hws|]. cbn. intros v Hv. lia.
Qed.

Lemma index_of_nodup s i f :
  NoDup (map field_name (fields s)) -> fields s !! i = Some f -> index_of s (field_name f) = Some i.
Proof.
  intros Hnd Hf. destruct (index_of s (field_name f)) as [j|] eqn:E.
  - apply index_of_spec in E as (g & Hg & Hn). f_equal.
    eapply NoDup_lookup; [exact Hnd| |]; rewrite list_lookup_fmap.
    + by rewrite Hg.
    + rewrite Hf. cbn. by rewrite Hn.
  - exfalso. eapply index_of_none; [exact E|by eapply list_elem_of_lookup_2|done].
Qed.

(** Extracting and rebuilding the columns [i], [i + 1], ... *)
Lemma rebuilt_columns b renames fs cs i :
  NoDup (column_names b) -> Z.of_nat (rb_num_rows b) * 16 < 2 ^ 63 ->
  (forall j, (fields (rb_schema b) !! (i + j)%nat = fs !! j) /\ (rb_columns b !! (i + j)%nat = cs !! j)) ->
  Forall2 (fun c f => data_type c = field_type f) cs fs ->
  Forall (fun c => plain c /\ array_len c = rb_num_rows b) cs ->
  exists l cs', column_buffers b renames (map field_name fs) = Ok l /\
    map (fun p => p.1.1) l = map (fun f => renamed renames (field_name f)) fs /\
    length l = length fs /\
    build_columns (map (fun p => p.1.1) l) (map (fun p => p.1.2) l) (map snd l) (Z.of_nat (rb_num_rows b))
      = Ok (map (fun f => mkField (renamed renames (field_name f)) (field_type f) false) fs, cs') /\
    Forall2 (fun c' c => data_type c' = data_type c /\ array_len c' = array_len c /\ cells c' = cells c) cs' cs.
Proof.
  intros Hnd Hrows Hat Hty. revert i Hat.
  induction Hty as [|c f cs fs Hcf _ IH]; intros i Hat Hp.
  { exists [], []. by repeat constructor. }
  apply Forall_cons in Hp as [[Hpc Hlc] Hp].
  destruct (IH (S i)) as (l & cs' & Hl & Hnames & Hlen & Hb & Hc); [|done|].
  { intros j. specialize (Hat (S j)). by rewrite Nat.add_succ_r in Hat. }
  destruct (plain_rebuilt c Hpc) as (bs & d & a & He & Hba & Hta & Hla & Hca); [by rewrite Hlc|].
  rewrite Hlc in He, Hba.
  destruct (Hat 0%nat) as [Hf0 Hc0]. rewrite Nat.add_0_r in Hf0, Hc0. cbn in Hf0, Hc0.
  exists ((renamed renames (field_name f), bs, d) :: l), (a :: cs'). split_and!.
  - cbn. unfold record_batch_column_buffer. rewrite (index_of_nodup _ i f Hnd Hf0). unfold index. rewrite Hc0.
    cbn. rewrite He. cbn. by rewrite Hl.
  - cbn. by rewrite Hnames.
  - cbn. by rewrite Hlen.
  - cbn. rewrite Hba. cbn. rewrite Hb. cbn. by rewrite Hcf.
  - by constructor.
Qed.

(** The rebuilt columns fit the renamed fields. *)
Lemma renamed_wf b renames cs' :
  wf_batch b -> Forall plain (rb_columns b) ->
  Forall2 (fun c' c => data_type c' = data_type c /\ array_len c' = array_len c /\ cells c' = cells c) cs' (rb_columns b) ->
  let fs := map (fun f => mkField (renamed renames (field_name f)) (field_type f) false) (fields (rb_schema b)) in
  wf_batch (mkBatch (mkSchema fs) cs' (rb_num_rows b)) /\ Forall (fun f => type_kind (field_type f) <> KNone) fs.
Proof.
  intros (Hlen & Hrows & Hty) Hp Hc. split.
  - unfold wf_batch. cbn [rb_columns rb_schema rb_num_rows fields]. rewrite length_map.
    split_and!; [by rewrite (Forall2_length _ _ _ Hc)| |].
    + clear -Hc Hrows. induction Hc as [|? ? ? ? (_ & Hl & _) _ IH]; [constructor|].
      apply Forall_cons in Hrows as [Hr Hrows]. constructor; [congruence|by apply IH].
    + clear -Hc Hty. revert Hty. generalize (fields (rb_schema b)).
      induction Hc as [|? ? ? ? (Ht & _) _ IH]; intros fs Hty;
        inversion Hty; subst; cbn; constructor; [cbn; congruence|by apply IH].
  - apply Forall_fmap. clear -Hty Hp. induction Hty as [|c f cs fs Hcf _ IH]; [constructor|].
    apply Forall_cons in Hp as [Hpc Hp]. constructor; [|by apply IH]. cbn. rewrite <-Hcf.
    destruct Hpc as [(l & ->)|(d & w & _ & Hf & _)]; [done|].
    by destruct (fixed_dtype_width _ _ _ Hf) as [Hw _]; destruct (data_type c).
Qed.

(** [rename] once the names are known. *)
Lemma rebuild_columns_spec b renames :
  wf_batch b -> NoDup (column_names b) -> rb_columns b <> [] -> Forall plain (rb_columns b) ->
  Z.of_nat (rb_num_rows b) * 16 < 2 ^ 63 ->
  Forall (fun n => valid_str (renamed renames n) = true) (column_names b) ->
  exists b', rebuild_columns b renames = Ok b' /\ rb_num_rows b' = rb_num_rows b /\
    fields (rb_schema b') =
      map (fun f => mkField (renamed renames (field_name f)) (field_type f) false) (fields (rb_schema b)) /\
    Forall2 (fun c' c => data_type c' = data_type c /\ cells c' = cells c) (rb_columns b') (rb_columns b).
Proof.
  intros Hwf Hnd Hne Hp Hn Hv. destruct (Hwf) as (Hlen & Hrows & Hty). unfold rebuild_columns.
  destruct (rebuilt_columns b renames (fields (rb_schema b)) (rb_columns b) 0 Hnd Hn)
    as (l & cs' & Hl & Hnames & Hll & Hb & Hc); [done|done|by apply Forall_and|].
  fold (column_names b) in Hl. rewrite Hl. cbn [mbind res_bind]. unfold decode_names. rewrite Hnames.
  assert (forallb valid_str (map (fun f => renamed renames (field_name f)) (fields (rb_schema b))) = true) as ->.
  { apply forallb_forall. intros x (f & <- & Hf)%in_map_iff. unfold column_names in Hv.
    rewrite Forall_fmap, Forall_forall in Hv. by apply Hv, list_elem_of_In. }
  cbn [mbind res_bind]. unfold record_batch_from_column_binaries. rewrite !length_map, Hll, Nat.eqb_refl. cbn [negb orb].
  rewrite <-Hnames, Hb. cbn [mbind res_bind].
  destruct l as [|x l]; [cbn in Hll; destruct (fields (rb_schema b)), (rb_columns b); done|]. cbn [map].
  destruct (renamed_wf b renames cs' Hwf Hp Hc) as [Hwf' Hk]. assert (cs' <> []) as Hcne by (by destruct Hc).
  destruct (proj1 (is_ok_spec _) (try_new_ok _ cs' _ Hcne Hwf' Hk)) as [b' Hb'].
  rewrite Hb'. cbn. exists b'. split; [done|]. apply try_new_spec in Hb' as (Hs & Hcs & _ & Hr & _).
  rewrite Hs, Hcs. rewrite Hcs in Hr. split_and!; [|done|].
  - destruct Hwf' as (_ & Hr' & _). cbn in Hr'. destruct cs' as [|c' cs']; [done|].
    apply Forall_cons in Hr as [<- _]. by apply Forall_cons in Hr' as [-> _].
  - eapply Forall2_impl; [exact Hc|]. naive_solver.
Qed.

(** The pairs of a mapping whose name is unknown. *)
Lemma unknown_names b renames :
  let unknown := List.filter (fun p : string * string => negb (in_names p.1 (column_names b))) renames in
  Forall (fun p => p.1 ∉ column_names b) unknown /\
  (unknown = [] <-> Forall (fun p => p.1 ∈ column_names b) renames).
Proof.
  cbv zeta. split.
  - apply Forall_forall. intros p [_ Hin]%list_elem_of_In%filter_In.
    rewrite <-in_names_spec. by apply not_true_iff_false, negb_true_iff.
  - induction renames as [|p renames IH]; [by split|]. cbn. rewrite Forall_cons, <-IH, <-in_names_spec.
    destruct (in_names p.1 (column_names b)); cbn; naive_solver.
Qed.

(** C35: [rename] changes names and nothing else, where there are no nulls.  For
    a batch of numeric and boolean columns without nulls, with distinct names,
    a mapping of existing names to UTF-8 names gives a batch with the same
    types, the same row count and the same cells, each column under the name
    that the mapping gives it, or its own; every field is non-nullable
    afterwards.  A mapping that names an unknown column is an error. *)
Theorem batch_rename_exact b renames :
  wf_batch b -> NoDup (column_names b) -> rb_columns b <> [] -> Forall plain (rb_columns b) ->
  Z.of_nat (rb_num_rows b) * 16 < 2 ^ 63 ->
  Forall (fun n => valid_str (renamed renames n) = true) (column_names b) ->
  (Forall (fun p => p.1 ∈ column_names b) renames ->
   exists b', batch_rename b renames = Ok b' /\ rb_num_rows b' = rb_num_rows b /\
     fields (rb_schema b') =
       map (fun f => mkField (renamed renames (field_name f)) (field_type f) false) (fields (rb_schema b)) /\
     Forall2 (fun c' c => data_type c' = data_type c /\ cells c' = cells c) (rb_columns b') (rb_columns b)) /\
  (Exists (fun p => p.1 ∉ column_names b) renames ->
   exists names, batch_rename b renames = Err (BeUnknown names) /\ Forall (fun n => n ∉ column_names b) names).
Proof.
  intros Hwf Hnd Hne Hp Hn Hv. destruct (unknown_names b renames) as [Hu Hiff]. unfold batch_rename. split.
  - intros Hall. rewrite (proj2 Hiff Hall). by apply rebuild_columns_spec.
  - intros Hex. destruct (List.filter _ renames) as [|q u].
    + exfalso. pose proof (proj1 Hiff eq_refl) as Hall. rewrite Forall_forall in Hall.
      apply Exists_exists in Hex as (p & Hin & Hnp). by apply Hnp, Hall.
    + exists (map fst (q :: u)). split; [done|]. by apply Forall_fmap.
Qed.

End rename.

(** A batch of native columns. *)
Definition plain_rows : RecordBatch :=
  mkBatch (mkSchema [mkField "a" TUInt8 true; mkField "b" TBoolean true])
    [RawArray TUInt8 [[Byte.x01]; [Byte.x02]]; BooleanArray [Some true; Some false]] 2.

Lemma batch_rename_exact_witness :
  exists b', batch_rename plain_rows [("a", "c")] = Ok b' /\
    fields (rb_schema b') = [mkField "c" TUInt8 false; mkField "b" TBoolean false] /\
    exists names, batch_rename plain_rows [("z", "c")] = Err (BeUnknown names).
Proof.
  assert (wf_batch plain_rows) as Hwf by (by repeat constructor).
  assert (Forall plain (rb_columns plain_rows)) as Hp.
  { constructor; [right; exists "u8", 1; split_and!; try done; [repeat constructor|by repeat constructor]|].
    constructor; [left; by exists [true; false]|constructor]. }
  assert (NoDup (column_names plain_rows)) as Hnd by (apply (bool_decide_unpack _); by vm_compute).
  destruct (batch_rename_exact (Term := beam) (fun n => eq_refl : @owned_binary_new beam beam_rustler n = true)
    plain_rows [("a", "c")] Hwf Hnd ltac:(done) Hp ltac:(done) ltac:(by repeat constructor)) as [Hok _].
  destruct Hok as (b' & Hb' & _ & Hf & _); [repeat constructor|]. exists b'. split; [exact Hb'|]. split; [exact Hf|].
  destruct (batch_rename_exact (Term := beam) (fun n => eq_refl : @owned_binary_new beam beam_rustler n = true)
    plain_rows [("z", "c")] Hwf Hnd ltac:(done) Hp ltac:(done) ltac:(by repeat constructor)) as [_ Hbad].
  destruct Hbad as (names & Hn & _); [|by exists names].
  apply Exists_cons_hd. apply (bool_decide_unpack _). by vm_compute.
Defined.

(** A null does not survive [rename]: it becomes false. *)
Lemma rename_loses_nulls :
  exists b', batch_rename (mkBatch (mkSchema [mkField "b" TBoolean true]) [BooleanArray [Some true; None]] 2) [("b", "c")]
    = Ok b' /\
  rb_columns b' = [BooleanArray [Some true; Some false]] /\ fields (rb_schema b') = [mkField "c" TBoolean false].
Proof. eexists. split; [vm_compute; reflexivity|]. by split. Qed.

(** [drop] on a batch with a name twice: the columns that stay are chosen by
    name, so that the first of them appears twice. *)
Lemma drop_duplicate_names :
  exists b', batch_drop (mkBatch (mkSchema [mkField "a" TBoolean false; mkField "a" TBoolean false; mkField "b" TBoolean false])
      [BooleanArray [Some true]; BooleanArray [Some false]; BooleanArray [Some true]] 1) ["b"] = Ok b' /\
  rb_columns b' = [BooleanArray [Some true]; BooleanArray [Some true]].
Proof. eexists. split; [vm_compute; reflexivity|]. done. Qed.

(** ** [drop] *)

(** [drop] removes the named columns and keeps the others in their order; an
    unknown name is an error. *)
Lemma batch_drop_exact `{Arrow, !BatchLaws} b columns :
  wf_batch b -> NoDup (column_names b) ->
  let kept := List.filter (fun n => negb (in_names n columns)) (column_names b) in
  (Forall (fun n => n ∈ column_names b) columns ->
   exists b', batch_drop b columns = Ok b' /\ rb_num_rows b' = rb_num_rows b /\ column_names b' = kept /\
     Forall2 (fun n c => column_by_name b n = Some c) kept (rb_columns b')) /\
  (Exists (fun n => n ∉ column_names b) columns -> exists names, batch_drop b columns = Err (BeUnknown names)).
Proof.
  intros Hwf Hnd kept. unfold batch_drop.
  assert (List.filter (fun c => negb (in_names c (column_names b))) columns = [] <->
    Forall (fun n => n ∈ column_names b) columns) as Hiff.
  { clear. induction columns as [|c cs IH]; [by split|]. cbn. rewrite Forall_cons, <-IH, <-in_names_spec.
    destruct (in_names c (column_names b)); cbn; naive_solver. }
  split.
  - intros Hall. rewrite (proj2 Hiff Hall).
    assert (Forall (fun n => index_of (rb_schema b) n <> None) kept) as Hk.
    { apply Forall_forall. intros n [Hn _]%list_elem_of_In%filter_In. apply in_map_iff in Hn as (f & <- & Hf).
      intros Hnone. by eapply index_of_none; [exact Hnone|apply list_elem_of_In|]. }
    destruct (proj1 (compute_project_columns b kept Hwf) Hk) as (b' & Hb' & Hr & Hc & Hf). fold kept.
    rewrite Hb'. exists b'. split_and!; try done. unfold column_names at 1. clear -Hf H0.
    induction Hf as [|n f ns fs Hnf _ IH]; [done|]. cbn. rewrite IH. f_equal.
    rewrite field_with_name_index in Hnf. destruct (index_of _ n) as [i|] eqn:E; [|done].
    apply index_of_spec in E as (g & Hg & <-). cbn in Hnf. congruence.
  - intros Hex. destruct (List.filter _ columns) as [|q u]; [|eauto].
    exfalso. pose proof (proj1 Hiff eq_refl) as Hall. rewrite Forall_forall in Hall.
    apply Exists_exists in Hex as (p & Hin & Hnp). by apply Hnp, Hall.
Qed.
