(* ===== verification/ParquetRead.v ===== *)
(** * Reading a Parquet file with options, end to end

    [ReaderLaws] states what the parquet crate promises of a reader built from
    a builder: the rows of the requested row groups, cut down to the projected
    columns and to the rows the row filter selects.  The crate hands the filter
    chunks of rows of a size of its own choice, with the filter's columns only.
    The theorem composes this with [decode_read_opts], [apply_read_opts] (the
    type check, row-group selection and pruning), [eval_filter_on_batch] and
    the locked stream: neither pruning nor the chunks can be observed. *)

From Stdlib Require Import Ascii.
From S2P Require Import Prelude Float Utf8 Term Arrow ArrowRef Stream Parquet ParquetFacts ParquetPruning ParquetThms ParquetRows IpcRound ComputeThms.

(** ** What the crate promises of a reader *)

(** The schema of the fields a mask keeps, in the order of the file. *)
Definition project_schema (keep : string -> bool) (s : Schema) : Schema :=
  mkSchema (List.filter (fun f => keep (field_name f)) (fields s)).

(** A flat file: each top-level column is one leaf. *)
Definition flat_columns (s : Schema) : list ColumnDescr :=
  map (fun f => mkColumnDescr (field_name f) [field_name f]) (fields s).

(** A name that [ProjectionMask::columns] takes for one segment of a path: it
    splits names at dots, so that a name with a dot selects no flat column. *)
Definition undotted (c : string) : bool :=
  forallb (fun a => negb (Ascii.eqb a "."%char)) (String.list_ascii_of_string c).

Section laws.
Context `{Arrow, ParquetCrate}.

(** The columns a builder projects; all of them without a projection. *)
Definition projects (selects : Mask -> string -> bool) (b : Builder Mask) (c : string) : bool :=
  match b_projection b with Some p => selects p c | None => true end.

(** A builder on a file that can be read: flat, with distinct column names
   , and with the data of every row group the metadata lists. *)
Definition readable (groups_of : bytes -> list RecordBatch) (b : Builder Mask) : Prop :=
  pm_columns (b_metadata b) = flat_columns (b_schema b) /\ distinct_names (b_schema b) /\
  length (groups_of (b_source b)) = num_row_groups (b_metadata b) /\
  uniform (b_schema b) (groups_of (b_source b)).

(** A builder on an opened file, whatever has been configured. *)
Definition configured (b : Builder Mask) : Prop :=
  exists b0, builder_try_new (b_source b) = Ok b0 /\ b_schema b = b_schema b0 /\ b_metadata b = b_metadata b0.

(** What a predicate must do: give a mask of every chunk it can be handed. *)
Definition predicate_ok (s : Schema) (e : FilterExpr) : Prop :=
  forall chunk, wf_batch chunk -> rb_schema chunk = s ->
    exists m, eval_filter_on_batch chunk e = Ok m /\ length m = rb_num_rows chunk.

End laws.

Class ReaderLaws `{Arrow, ParquetCrate} := {
  groups_of : bytes -> list RecordBatch;
  mask_selects : Mask -> string -> bool;
  projection_columns_flat s names c :
    c ∈ map field_name (fields s) ->
    mask_selects (projection_columns (flat_columns s) names) c = undotted c && bool_decide (c ∈ names);
  fresh_builder data b :
    builder_try_new data = Ok b -> b_source b = data /\ b_projection b = None /\ b_row_filter b = None;
  (* without a row filter: the projected columns of the requested groups *)
  plain_reader b rg gs :
    configured b -> readable groups_of b -> b_row_groups b = Some rg ->
    Forall2 (fun i g => groups_of (b_source b) !! Z.to_nat i = Some g) rg gs -> b_row_filter b = None ->
    exists r bs,
      builder_build b = Ok (project_schema (projects mask_selects b) (b_schema b), r) /\ reads r bs /\
      uniform (project_schema (projects mask_selects b) (b_schema b)) bs /\
      forall c, c ∈ map field_name (fields (b_schema b)) -> projects mask_selects b c = true ->
        column_rows c bs = column_rows c gs;
  (* with one: of these the rows its masks select, chunk after chunk *)
  filtered_reader b rg gs p e :
    configured b -> readable groups_of b -> b_row_groups b = Some rg ->
    Forall2 (fun i g => groups_of (b_source b) !! Z.to_nat i = Some g) rg gs -> b_row_filter b = Some (p, e) ->
    predicate_ok (project_schema (mask_selects p) (b_schema b)) e ->
    exists r bs chunks masks,
      builder_build b = Ok (project_schema (projects mask_selects b) (b_schema b), r) /\ reads r bs /\
      uniform (project_schema (projects mask_selects b) (b_schema b)) bs /\
      uniform (project_schema (mask_selects p) (b_schema b)) chunks /\ total_rows chunks = total_rows gs /\
      (forall c, c ∈ map field_name (fields (b_schema b)) -> mask_selects p c = true ->
         column_rows c chunks = column_rows c gs) /\
      Forall2 (fun chunk m => eval_filter_on_batch chunk e = Ok m) chunks masks /\
      forall c, c ∈ map field_name (fields (b_schema b)) -> projects mask_selects b c = true ->
        column_rows c bs = select (column_rows c gs) (concat masks)
}.

(** ** The composition *)

Section read.
Context `{RustlerLaws Term} `{Arrow, !CmpLaws, !BoolLaws, !BatchLaws} `{ParquetCrate, RL : !ReaderLaws}.

Lemma field_of_projection keep s col :
  distinct_names s -> keep col = true -> field_with_name (project_schema keep s) col = field_with_name s col.
Proof.
  intros Hd Hk. destruct (decide (Exists (fun f => field_name f = col) (fields s))) as [Hex|Hex].
  - apply Exists_exists in Hex as (f & Hf & <-). rewrite (field_with_name_Some s f) by done.
    apply field_with_name_Some.
    + unfold distinct_names, project_schema in *. cbn. clear -Hd. induction (fields s) as [|g l IH]; [done|].
      inversion Hd as [|? ? Hn Hd']; subst. cbn. case_match; [|by apply IH]. cbn. constructor; [|by apply IH].
      intros (h & Hh & Hin)%list_elem_of_fmap. apply Hn. rewrite Hh. apply list_elem_of_fmap_2.
      apply list_elem_of_In, filter_In in Hin as [Hin _]. by apply list_elem_of_In.
    + cbn. apply list_elem_of_In, filter_In. split; [by apply list_elem_of_In|done].
  - assert (forall f, f ∈ fields s -> field_name f <> col) as Hn.
    { intros f Hf Hfn. apply Hex, Exists_exists. eauto. }
    rewrite !field_with_name_None; [done|done|].
    intros f [Hf _]%list_elem_of_In%filter_In. by apply Hn, list_elem_of_In.
Qed.

(** In a flat file every leaf is the column of its name. *)
Lemma flat_unambiguous s b cols :
  distinct_names s -> rb_schema b = s -> unambiguous (flat_columns s) (rb_columns b) b cols.
Proof.
  intros Hd Hs col idx d _ Hidx Hn. unfold flat_columns in Hidx. rewrite list_lookup_fmap in Hidx.
  destruct (fields s !! idx) as [f|] eqn:Ef; [|done]. injection Hidx as <-. cbn in Hn.
  assert (field_name f = col) as <- by (by destruct Hn).
  by rewrite column_by_name_index, Hs, (index_of_unique s idx f).
Qed.

(** The columns a validated filter names are the schema's. *)
Lemma validated_columns s e col :
  validate_filter_types s e = Ok () -> col ∈ filter_columns e -> field_with_name s col <> None.
Proof.
  assert (forall xs, Forall (fun e => validate_filter_types s e = Ok () -> col ∈ filter_columns e ->
      field_with_name s col <> None) xs -> (_ ← collect (validate_filter_types s) xs; Ok ()) = Ok () ->
    col ∈ concat (map filter_columns xs) -> field_with_name s col <> None) as Hl.
  { intros xs IH (us & Hus%collect_Ok & _)%bind_Ok Hin. apply list_elem_of_In, in_concat in Hin as (l & Hl & Hin).
    apply in_map_iff in Hl as (x & <- & Hx). apply list_elem_of_In in Hx, Hin.
    rewrite Forall_forall in IH. apply (IH x Hx); [|done]. apply list_elem_of_lookup in Hx as [i Hi].
    by destruct (Forall2_lookup_l _ _ _ _ _ Hus Hi) as ([] & _ & ?). }
  induction e as [e He|xs IH|xs IH] using filter_ind; intros Hv Hc; [|by eapply Hl..].
  destruct e; try done; cbn in Hv, Hc; apply list_elem_of_singleton in Hc as ->;
    apply bind_Ok in Hv as (f & Hf%ok_or_Ok & _); by rewrite Hf.
Qed.

(** What a read delivers of a column: of the requested groups the rows for
    which the filter is true. *)
Definition expected_rows (o : ReadOpts) (groups : list RecordBatch) (c : string) : list (option Cell) :=
  match ro_filter o with
  | Some e => selected_rows c e groups
  | None => column_rows c groups
  end.

(** Whether a read delivers a column at all: without a projection every column,
    with one those that are named and can be projected. *)
Definition wants (o : ReadOpts) (c : string) : bool :=
  match ro_columns o with Some cols => undotted c && bool_decide (c ∈ cols) | None => true end.

(** The filters a read evaluates by their meaning: the float literals are
    neither NaN nor a zero, and every column can be projected for the filter. *)
Definition ordinary (e : FilterExpr) : Prop :=
  literals_ok e /\ forall c, c ∈ filter_columns e -> undotted c = true.

(** Dropping groups without a row for which the filter is true drops no row. *)
Lemma pruned_rows (R : Z -> RecordBatch -> Prop) m e rg gs :
  Forall2 R rg gs ->
  (forall i g row, R i g -> filter_row g e row = Some true -> kept m e i = true) ->
  exists gs', Forall2 R (List.filter (kept m e) rg) gs' /\
    forall c, selected_rows c e gs' = selected_rows c e gs.
Proof.
  intros Hf Hk. induction Hf as [|i g rg gs Hg _ IH].
  - exists []. by split.
  - destruct IH as (gs' & Hf' & Hr). cbn. destruct (kept m e i) eqn:Ek.
    + exists (g :: gs'). split; [by constructor|]. intros c'. unfold selected_rows in *. cbn. by rewrite Hr.
    + exists gs'. split; [done|]. intros c'. unfold selected_rows in *. cbn. rewrite Hr, select_none; [done|].
      apply Forall_map, Forall_forall. intros j _ Hrow. by rewrite (Hk _ _ _ Hg Hrow) in Ek.
Qed.

(** The builder that the options configure. *)
Lemma apply_read_opts_builder builder o b' total selected skipped :
  apply_read_opts builder o = Ok (b', total, selected, skipped) ->
  b_metadata b' = b_metadata builder /\ b_schema b' = b_schema builder /\ b_source b' = b_source builder /\
  b_projection b' = match ro_columns o with
                    | Some cols => Some (projection_columns (pm_columns (b_metadata builder)) cols)
                    | None => b_projection builder
                    end /\
  b_row_filter b' = match ro_filter o with
                    | Some e => Some (projection_columns (pm_columns (b_metadata builder)) (collect_filter_columns e []), e)
                    | None => b_row_filter builder
                    end.
Proof.
  unfold apply_read_opts. intros (u & _ & (sel & _ & (sel' & _ & [= <- _ _ _])%bind_Ok)%bind_Ok)%bind_Ok. cbn.
  by destruct (ro_columns o), (ro_filter o).
Qed.

Lemma project_schema_ext k1 k2 s :
  (forall c, c ∈ map field_name (fields s) -> k1 c = k2 c) -> project_schema k1 s = project_schema k2 s.
Proof.
  intros Hk. unfold project_schema. f_equal. apply filter_ext_in. intros f Hf. apply Hk.
  by apply (list_elem_of_fmap_2 field_name), list_elem_of_In.
Qed.

(** What the crate evaluates on a chunk is what a validated filter means. *)
Lemma validated_predicate s e names chunk :
  wf_filter e -> validate_filter_types s e = Ok () -> distinct_names s ->
  (forall c, c ∈ filter_columns e -> names c = true) ->
  wf_batch chunk -> rb_schema chunk = project_schema names s ->
  eval_filter_on_batch chunk e = Ok (filter_mask chunk e).
Proof.
  intros He Hv Hd Hn Hw Hs. eapply validated_filter_eval; [done..|]. intros col Hc. rewrite Hs.
  by apply field_of_projection; [|apply Hn].
Qed.

Lemma uniform_lookup s (all : list RecordBatch) rg gs :
  uniform s all -> Forall2 (fun i g => all !! Z.to_nat i = Some g) rg gs -> uniform s gs.
Proof.
  intros Hu Hg. eapply Forall2_Forall_r; [exact Hg|]. apply Forall_forall. intros i _ g Hi.
  unfold uniform in Hu. rewrite Forall_forall in Hu. by eapply Hu, list_elem_of_lookup_2.
Qed.

Lemma masks_are chunks masks e :
  Forall2 (fun chunk m => eval_filter_on_batch chunk e = Ok m) chunks masks ->
  Forall (fun chunk => eval_filter_on_batch chunk e = Ok (filter_mask chunk e)) chunks ->
  masks = map (fun chunk => filter_mask chunk e) chunks.
Proof. induction 1 as [|chunk m chunks masks Hm _ IH]; inversion 1; subst; [done|]. cbn. f_equal; [congruence|auto]. Qed.

(** A reader with a validated filter: the rows of its groups for which the
    filter is true, however the crate cuts them into chunks. *)
Lemma filtered_rows b rg gs p e :
  configured b -> readable groups_of b -> b_row_groups b = Some rg ->
  Forall2 (fun i g => groups_of (b_source b) !! Z.to_nat i = Some g) rg gs -> b_row_filter b = Some (p, e) ->
  wf_filter e -> validate_filter_types (b_schema b) e = Ok () ->
  (forall c, c ∈ filter_columns e -> mask_selects p c = true) ->
  exists r bs,
    builder_build b = Ok (project_schema (projects mask_selects b) (b_schema b), r) /\ reads r bs /\
    uniform (project_schema (projects mask_selects b) (b_schema b)) bs /\
    forall c, c ∈ map field_name (fields (b_schema b)) -> projects mask_selects b c = true ->
      column_rows c bs = selected_rows c e gs.
Proof.
  intros Hco Hr Hrg Hg Hf He Hv Hp. pose proof Hr as (_ & Hd & _ & Hall).
  pose proof (uniform_lookup _ _ _ _ Hall Hg) as Hu.
  assert (forall chunk, wf_batch chunk -> rb_schema chunk = project_schema (mask_selects p) (b_schema b) ->
    eval_filter_on_batch chunk e = Ok (filter_mask chunk e)) as Heval by (intros; by eapply validated_predicate).
  destruct (filtered_reader b rg gs p e Hco Hr Hrg Hg Hf) as (r & bs & chunks & masks & Hb & Hrd & Hub & Huc & Ht & Hc & Hm & Hrows).
  { intros chunk Hw Hs. exists (filter_mask chunk e). split; [by apply Heval|].
    unfold filter_mask. by rewrite length_map, length_seq. }
  exists r, bs. split_and!; [done..|]. intros c Hin Hpc. rewrite Hrows by done.
  rewrite (masks_are chunks masks e Hm) by (eapply Forall_impl; [exact Huc|]; intros chunk [??]; by apply Heval).
  rewrite (same_rows_same_masks (b_schema b) (project_schema (mask_selects p) (b_schema b)) e gs chunks); try done.
  - symmetry. by apply (selected_rows_select (b_schema b)).
  - intros col Hcol. pose proof (validated_columns _ _ _ Hv Hcol) as Hn. split; [done|].
    split; [by apply field_of_projection; [|apply Hp]|]. apply Hc; [by apply field_name_elem|by apply Hp].
Qed.

(** What the metadata says of a file: each row group's statistics describe its
    columns. *)
Definition described (m : ParquetMetaData) (groups : list RecordBatch) : Prop :=
  Forall2 (fun meta g => leaves_described meta (rb_columns g)) (pm_row_groups m) groups.

Lemma kept_sound s m groups e i g row :
  pm_columns m = flat_columns s -> distinct_names s -> uniform s groups -> described m groups -> literals_ok e ->
  groups !! Z.to_nat i = Some g -> filter_row g e row = Some true -> kept m e i = true.
Proof.
  intros Hm Hd Hu Hst Hlit Hg Hrow.
  destruct (Forall2_lookup_r _ _ _ _ _ Hst Hg) as (meta & Hmeta & Hl).
  unfold uniform in Hu. rewrite Forall_forall in Hu.
  destruct (Hu g) as [_ Hs]; [by eapply list_elem_of_lookup_2|].
  unfold kept. rewrite Hmeta, Hm. eapply (may_match_sound _ _ g); [|done|exact Hrow].
  eapply described_correct; [exact Hl|]. by apply flat_unambiguous.
Qed.

(** Opening a reader, given the file's builder: its schema, its batches and
    their rows. *)
Lemma open_reader data (t : Term) o builder :
  decode_read_opts t = Ok o -> builder_try_new data = Ok builder -> readable groups_of builder ->
  (forall e, ro_filter o = Some e -> ordinary e /\ described (b_metadata builder) (groups_of data)) ->
  is_ok (apply_read_opts builder o) ->
  exists stream r gs bs,
    parquet_reader_from_binary data t = ROk stream /\ parquet_reader_from_file (Ok data) t = ROk stream /\
    ps_schema stream = project_schema (wants o) (b_schema builder) /\
    ps_reader stream = new_mutex r /\ reads r bs /\ uniform (project_schema (wants o) (b_schema builder)) bs /\
    Forall2 (fun i g => groups_of data !! Z.to_nat i = Some g) (requested (b_metadata builder) o) gs /\
    forall c, c ∈ map field_name (fields (b_schema builder)) -> wants o c = true ->
      column_rows c bs = expected_rows o gs c.
Proof.
  intros Ho Hb Hread Hst [[[[b' total] selected] skipped] Ha]%is_ok_spec.
  destruct (fresh_builder data builder Hb) as (Hsrc & Hproj & Hfil).
  pose proof (proj2 (decode_read_opts_spec t) o Ho) as Hwf.
  destruct (proj2 (apply_read_opts_spec builder o Hwf) _ Ha) as (Hrange & Hval & b'' & [= -> _ _ _] & Hrg & _).
  destruct (apply_read_opts_builder _ _ _ _ _ _ Ha) as (Em & Es & Esrc & Ep & Ef). rename b'' into b'.
  pose proof Hread as (Hcols & Hd & Hlen & Hall). rewrite Hsrc in Hlen, Hall, Esrc.
  assert (readable groups_of b') as Hread' by (unfold readable; by rewrite Em, Es, Esrc).
  assert (configured b') as Hco by (exists builder; by rewrite Esrc).
  assert (forall c, c ∈ map field_name (fields (b_schema builder)) -> projects mask_selects b' c = wants o c) as Hwants.
  { intros c Hc. unfold projects, wants. rewrite Ep, Hproj. destruct (ro_columns o); [|done].
    rewrite Hcols. by apply projection_columns_flat. }
  assert (exists gs, Forall2 (fun i g => groups_of data !! Z.to_nat i = Some g) (requested (b_metadata builder) o) gs)
    as [gs Hgs].
  { apply Forall_choose. eapply Forall_impl; [exact Hrange|]. intros i Hi. cbn beta in *.
    destruct (lookup_lt_is_Some_2 (groups_of data) (Z.to_nat i)) as [g Hg]; [rewrite Hlen; lia|eauto]. }
  assert (exists r bs, builder_build b' = Ok (project_schema (projects mask_selects b') (b_schema builder), r) /\ reads r bs /\
    uniform (project_schema (projects mask_selects b') (b_schema builder)) bs /\
    forall c, c ∈ map field_name (fields (b_schema builder)) -> projects mask_selects b' c = true ->
      column_rows c bs = expected_rows o gs c) as (r & bs & Hbuild & Hr & Hu & Hrows).
  { rewrite <-Es. unfold expected_rows, selected_groups in *. destruct (ro_filter o) as [e|] eqn:Eo.
    - destruct (Hst e eq_refl) as [Hord Hdesc]. pose proof (proj1 Hord) as Hlit.
      destruct (pruned_rows (fun i g => groups_of data !! Z.to_nat i = Some g) (b_metadata builder) e _ _ Hgs) as (gs' & Hgs' & Heq).
      { intros i g row Hg. by eapply kept_sound. }
      destruct (filtered_rows b' _ gs' (projection_columns (pm_columns (b_metadata builder)) (collect_filter_columns e [])) e Hco Hread' Hrg) as (r & bs & ? & ? & ? & Hrows); [by rewrite Esrc|exact Ef|by apply Hwf|rewrite Es; by apply Hval| |].
      + intros c Hc.
        assert (c ∈ map field_name (fields (b_schema builder))) as Hin
          by (apply field_name_elem; by eapply validated_columns; [apply Hval|]).
        rewrite Hcols, projection_columns_flat, (proj2 Hord c Hc) by done.
        apply bool_decide_eq_true, collect_filter_columns_spec. by right.
      + exists r, bs. split_and!; [done..|]. intros c Hc Hp. by rewrite Hrows.
    - rewrite Hfil in Ef. destruct (plain_reader b' _ gs Hco Hread' Hrg) as (r & bs & ? & ? & ? & Hrows); [by rewrite Esrc|done|].
      exists r, bs. by split_and!. }
  assert (project_schema (projects mask_selects b') (b_schema builder) = project_schema (wants o) (b_schema builder)) as Eschema
    by (by apply project_schema_ext).
  rewrite Eschema in *. eexists (mkParquetStream _ (new_mutex r) total selected skipped), r, gs, bs.
  unfold parquet_reader_from_binary, parquet_reader_from_file. rewrite Ho. cbn [reply_with]. rewrite Hb. cbn [reply_with].
  unfold build_stream. rewrite Ha. cbn [mbind res_bind]. rewrite Hbuild.
  split_and!; try reflexivity; try done. intros c Hc Hw. apply Hrows; [done|]. by rewrite Hwants.
Qed.

(** Opening a reader and draining it. *)
Lemma read_exact data (t : Term) o builder :
  decode_read_opts t = Ok o -> builder_try_new data = Ok builder -> readable groups_of builder ->
  (forall e, ro_filter o = Some e -> ordinary e /\ described (b_metadata builder) (groups_of data)) ->
  is_ok (apply_read_opts builder o) ->
  exists stream gs bs,
    parquet_reader_from_binary data t = ROk stream /\ parquet_reader_from_file (Ok data) t = ROk stream /\
    parquet_stream_schema stream = RBare (project_schema (wants o) (b_schema builder)) /\
    (forall k, drain parquet_stream_next (length bs + k) (ps_reader stream) = map ROk bs ++ replicate k (RAtom "done")) /\
    Forall2 (fun i g => groups_of data !! Z.to_nat i = Some g) (requested (b_metadata builder) o) gs /\
    forall c, c ∈ map field_name (fields (b_schema builder)) -> wants o c = true ->
      column_rows c bs = expected_rows o gs c.
Proof.
  intros Ho Hb Hread Hst Ha. destruct (open_reader data t o builder Ho Hb Hread Hst Ha)
    as (stream & r & gs & bs & Hbin & Hfile & Hs & Hm & Hr & _ & Hg & Hrows).
  exists stream, gs, bs. unfold parquet_stream_schema. rewrite Hs, Hm. split_and!; try done. intros k. by apply reads_drain.
Qed.

(** C5: Reading a Parquet file or binary with options delivers exactly the rows that were
    asked for.  For a flat file, and options that decode and are accepted, of
    which a filter is [ordinary] (its float literals neither NaN nor a zero, no
    dot in the names of its columns) and the file's statistics describe its
    data: the options open a stream with the schema of the wanted columns (a
    name with a dot in it cannot be asked for); its calls give batches, then
    [:done] for ever, and of every wanted column these batches hold, in order,
    the cells of the requested row groups at the rows for which the filter is
    true (all of them without a filter).  Under these conditions neither
    pruning nor the chunks the filter is evaluated on can be seen. *)
Theorem parquet_read_exact data (t : Term) o builder :
  decode_read_opts t = Ok o -> builder_try_new data = Ok builder -> readable groups_of builder ->
  (forall e, ro_filter o = Some e -> ordinary e /\ described (b_metadata builder) (groups_of data)) ->
  is_ok (apply_read_opts builder o) ->
  exists stream gs bs,
    parquet_reader_from_binary data t = ROk stream /\ parquet_reader_from_file (Ok data) t = ROk stream /\
    parquet_stream_schema stream = RBare (project_schema (wants o) (b_schema builder)) /\
    (forall k, drain parquet_stream_next (length bs + k) (ps_reader stream) = map ROk bs ++ replicate k (RAtom "done")) /\
    Forall2 (fun i g => groups_of data !! Z.to_nat i = Some g) (requested (b_metadata builder) o) gs /\
    forall c, c ∈ map field_name (fields (b_schema builder)) -> wants o c = true ->
      column_rows c bs = expected_rows o gs c.
Proof. apply read_exact. Qed.

End read.

(** ** A format with one column *)

(** A file of one Int64 column "x": each byte is a row, 255 ends a row group. *)
Definition x_schema : Schema := mkSchema [mkField "x" TInt64 true].

Definition x_batch (vs : list Z) : RecordBatch :=
  mkBatch x_schema [IntArray TInt64 (map Some vs)] (length vs).

Fixpoint x_split (acc : list Z) (data : bytes) : list (list Z) :=
  match data with
  | [] => []
  | b :: rest => if bz b =? 255 then acc :: x_split [] rest else x_split (acc ++ [bz b]) rest
  end.

Definition x_group (vs : list Z) : RowGroupMeta :=
  mkRowGroup [mkChunk ["x"] SNAPPY (Some (StInt64 (Some (foldr Z.min 255 vs)) (Some (foldr Z.max 0 vs)))) [] 0]
    (Z.of_nat (length vs)) 0.

Definition x_metadata (data : bytes) : ParquetMetaData :=
  mkMetaData (flat_columns x_schema) (map x_group (x_split [] data)) 0 None None.

Definition keeps (p : option (list string)) : bool :=
  match p with Some names => bool_decide ("x" ∈ names) | None => true end.

(** The column, or nothing of it, under a projection. *)
Definition x_project (p : option (list string)) (vs : list Z) : RecordBatch :=
  if keeps p then x_batch vs else mkBatch (mkSchema []) [] (length vs).

(** A reader gives one batch per row group, and the filter one chunk of each. *)
Definition x_item (p : option (list string)) (f : option (list string * FilterExpr)) (vs : list Z)
    : res ArrowError RecordBatch :=
  match f with
  | None => Ok (x_project p vs)
  | Some (q, e) => m ← eval_filter_on_batch (x_project (Some q) vs) e; Ok (x_project p (select vs m))
  end.

Definition x_build (b : Builder (list string)) : res string (Schema * list (res ArrowError RecordBatch)) :=
  let groups := omap (fun i => x_split [] (b_source b) !! Z.to_nat i) (default [] (b_row_groups b)) in
  Ok (project_schema (fun _ => keeps (b_projection b)) x_schema,
      map (x_item (b_projection b) (b_row_filter b)) groups).

(** Writing: one row group per batch. *)
Definition x_byte (v : Z) : option byte := if (0 <=? v) && (v <? 255) then Byte.of_N (Z.to_N v) else None.

Definition is_x_schema (s : Schema) : bool :=
  match s with
  | mkSchema [mkField name TInt64 true] => String.eqb name "x"
  | _ => false
  end.

Definition x_start (s : Schema) : res string (list (list Z)) :=
  if is_x_schema s then Ok [] else Err "one column x is supported".

Definition x_write (w : list (list Z)) (b : RecordBatch) : res string (list (list Z)) :=
  match rb_columns b with
  | [IntArray TInt64 cells] =>
      match collect_opt (fun c => v ← c; _ ← x_byte v; Some v) cells with
      | Some vs =>
          if is_x_schema (rb_schema b) && (rb_num_rows b =? length vs)%nat then Ok (w ++ [vs])
          else Err "one column x is supported"
      | None => Err "not a byte"
      end
  | _ => Err "one column x is supported"
  end.

Definition x_encode (w : list (list Z)) : bytes :=
  concat (map (fun vs => map (fun v => default Byte.x00 (x_byte v)) vs ++ [Byte.xff]) w).

Definition x_parquet : ParquetCrate := {|
  Mask := list string;
  Reader := list (res ArrowError RecordBatch);
  WriterProps := list string;
  Writer := list (list Z);
  reader_iter := list_iter;
  projection_columns _ names := names;
  builder_try_new data := Ok (mkBuilder (x_metadata data) x_schema data None None None);
  builder_build := x_build;
  parse_metadata data := Ok (x_metadata data);
  zstd_try_new := @zstd_try_new ref_parquet;
  zstd_default := 1;
  gzip_default := 6;
  props_builder := [];
  set_compression _ p := p;
  set_max_row_group_row_count _ p := p;
  set_dictionary_enabled _ p := p;
  writer_try_new s _ := x_start s;
  writer_write := x_write;
  writer_close w := Ok (x_encode w);
  display_compression _ := "codec";
  display_f32 _ := "f32";
  debug_atom a := a
|}.

Lemma x_batch_wf vs : wf_batch (x_batch vs).
Proof. split_and!; [done|by repeat constructor; cbn; rewrite length_map|by repeat constructor]. Qed.

Lemma x_project_wf p vs :
  wf_batch (x_project p vs) /\ rb_schema (x_project p vs) = project_schema (fun _ => keeps p) x_schema /\
  rb_num_rows (x_project p vs) = length vs.
Proof. unfold x_project. destruct (keeps p); [split; [apply x_batch_wf|done]|]. split; [|done]. by repeat split. Qed.

Lemma x_schema_keeps (k : string -> bool) : project_schema k x_schema = project_schema (fun _ => k "x") x_schema.
Proof. done. Qed.

Lemma x_cells p vs : keeps p = true -> column_cells "x" (x_project p vs) = map (fun v => Some (CInt v)) vs.
Proof.
  unfold x_project. intros ->. unfold column_cells.
  assert (column_by_name (x_batch vs) "x" = Some (IntArray TInt64 (map Some vs))) as -> by reflexivity.
  cbn [cells]. by rewrite map_map.
Qed.

Lemma x_rows p vss :
  keeps p = true -> column_rows "x" (map (x_project p) vss) = map (fun v => Some (CInt v)) (concat vss).
Proof.
  intros Hp. unfold column_rows. rewrite map_map, concat_map. f_equal. apply map_ext. intros vs. by apply x_cells.
Qed.

Lemma x_rows_all vss : column_rows "x" (map x_batch vss) = map (fun v => Some (CInt v)) (concat vss).
Proof. exact (x_rows None vss eq_refl). Qed.

(** The groups' values, as the reader looks them up. *)
Lemma x_lookup data rg gs :
  Forall2 (fun i g => map x_batch (x_split [] data) !! Z.to_nat i = Some g) rg gs ->
  gs = map x_batch (omap (fun i => x_split [] data !! Z.to_nat i) rg).
Proof.
  induction 1 as [|i g rg gs Hg _ IH]; [done|]. rewrite list_lookup_fmap in Hg. cbn.
  destruct (x_split [] data !! Z.to_nat i) as [vs|]; [|done]. injection Hg as <-. cbn. by rewrite IH.
Qed.

Lemma x_reads p vss : reads (It := list (res ArrowError RecordBatch)) (map (fun vs => Ok (x_project p vs)) vss) (map (x_project p) vss).
Proof.
  assert (map (fun vs => @Ok ArrowError _ (x_project p vs)) vss = map Ok (map (x_project p) vss)) as -> by (by rewrite map_map).
  apply ends_within_list. by rewrite !length_map.
Qed.

Lemma x_uniform p vss : uniform (project_schema (fun _ => keeps p) x_schema) (map (x_project p) vss).
Proof. apply Forall_map, Forall_forall. intros vs _. destruct (x_project_wf p vs) as (? & ? & _). done. Qed.

Lemma x_projects (b : Builder (@Mask x_parquet)) :
  project_schema (projects (H0 := x_parquet) (fun m c => undotted c && bool_decide (c ∈ m)) b) x_schema
  = project_schema (fun _ => keeps (b_projection b)) x_schema.
Proof. destruct b as [? ? ? ? [p|] ?]; reflexivity. Qed.

Lemma x_total p vss : total_rows (map (x_project p) vss) = length (concat vss).
Proof.
  induction vss as [|vs vss IH]; [done|]. cbn [map concat]. rewrite length_app, <-IH.
  destruct (x_project_wf p vs) as (_ & _ & <-). done.
Qed.

(** The masks the predicate gives of the chunks. *)
Lemma x_masks q e vss :
  predicate_ok (project_schema (fun _ => keeps (Some q)) x_schema) e ->
  exists masks, Forall2 (fun chunk m => eval_filter_on_batch chunk e = Ok m) (map (x_project (Some q)) vss) masks /\
    Forall2 (fun vs m => length m = length vs) vss masks /\
    forall p, map (x_item p (Some (q, e))) vss = map Ok (map (x_project p) (zip_with (@select Z) vss masks)).
Proof.
  intros Hp. induction vss as [|vs vss (masks & H1 & H2 & H3)]; [by exists []|].
  destruct (x_project_wf (Some q) vs) as (Hw & Hs & Hn).
  destruct (Hp (x_project (Some q) vs) Hw Hs) as (m & Hm & Hl). exists (m :: masks).
  split_and!; [by constructor|constructor; [congruence|done]|]. intros p. cbn. by rewrite Hm, H3.
Qed.

Lemma x_selected vss masks :
  Forall2 (fun vs m => length m = length vs) vss masks ->
  concat (zip_with (@select Z) vss masks) = select (concat vss) (concat masks) /\ length vss = length masks.
Proof. induction 1 as [|vs m vss masks Hl _ [IH ?]]; [done|]. cbn. rewrite select_app, IH by done. auto. Qed.

#[export] Instance x_laws : ReaderLaws (H0 := x_parquet).
Proof.
  apply (Build_ReaderLaws ref_arrow x_parquet (fun data => map x_batch (x_split [] data)) (fun m c => undotted c && bool_decide (c ∈ m))).
  - done.
  - intros data b [= <-]. done.
  - intros b rg gs Hco _ Hrg Hg Hf. destruct b as [m s src rg' p f]. destruct Hco as (b0 & [= <-] & Hs & _).
    cbn in *. subst rg' f s. apply x_lookup in Hg as ->. set (vss := omap _ rg).
    exists (map (fun vs => Ok (x_project p vs)) vss), (map (x_project p) vss). rewrite x_projects. cbn [b_projection].
    split_and!; [reflexivity|apply x_reads|apply x_uniform|].
    intros c ->%list_elem_of_singleton Hp. assert (keeps p = true) as Hk by exact Hp.
    by rewrite x_rows, x_rows_all.
  - intros b rg gs q e Hco _ Hrg Hg Hf He. destruct b as [m s src rg' p f]. destruct Hco as (b0 & [= <-] & Hs & _).
    cbn in Hs, Hrg, Hf, Hg, He |- *. subst rg' f s. apply x_lookup in Hg as ->. set (vss := omap _ rg).
    destruct (x_masks q e vss He) as (masks & Hm & Hl & Hi). destruct (x_selected vss masks Hl) as [Hsel _].
    exists (map Ok (map (x_project p) (zip_with (@select Z) vss masks))), (map (x_project p) (zip_with (@select Z) vss masks)),
      (map (x_project (Some q)) vss), masks. rewrite x_projects. cbn [b_projection].
    split_and!; [unfold x_build; cbn [b_source b_row_groups b_projection b_row_filter default]; fold vss; by rewrite Hi
      |rewrite map_map; apply x_reads|exact (x_uniform p _)|exact (x_uniform (Some q) vss)| | |done|].
    + rewrite x_total. exact (eq_sym (x_total None vss)).
    + intros c ->%list_elem_of_singleton Hq. assert (keeps (Some q) = true) as Hk by exact Hq.
      by rewrite x_rows, x_rows_all.
    + intros c ->%list_elem_of_singleton Hp. assert (keeps p = true) as Hk by exact Hp.
      rewrite x_rows, Hsel by done.
      rewrite x_rows_all. by rewrite select_map.
Defined.

(** Two row groups, 1, 4 and 5, 7, and the filter x > 4, which prunes the first. *)
Definition x_data : bytes := [Byte.x01; Byte.x04; Byte.xff; Byte.x05; Byte.x07; Byte.x02; Byte.xff].
Definition x_opts : beam := BList [BTuple [BAtom "filters"; BTuple [BAtom "gt"; BBin (as_bytes "x"); BInt 4]]].

Lemma x_data_described : described (x_metadata x_data) (@groups_of _ _ x_laws x_data).
Proof.
  unfold described, leaves_described. cbn -[Z.leb]. describe; intros st [= <-]; unfold stats_describe, between_cells; cbn;
    describe; intros x [=]; subst; eexists; (split; [reflexivity|lia]).
Qed.

Lemma gt_4_ordinary : ordinary (FGt "x" (FInt 4)).
Proof. split; [by repeat constructor|]. by intros c ->%list_elem_of_singleton. Qed.

Lemma parquet_read_exact_witness :
  exists stream bs, parquet_reader_from_binary (H0 := x_parquet) x_data x_opts = ROk stream /\
    drain parquet_stream_next (length bs + 1) (ps_reader stream) = map ROk bs ++ [RAtom "done"] /\
    column_rows "x" bs = [Some (CInt 5); Some (CInt 7)].
Proof.
  destruct (parquet_read_exact (RL := x_laws) x_data x_opts gt_4
    (mkBuilder (x_metadata x_data) x_schema x_data None None None)) as (stream & gs & bs & Hs & _ & _ & Hd & Hg & Hr).
  - vm_compute; reflexivity.
  - reflexivity.
  - split_and!; [reflexivity|apply NoDup_singleton|reflexivity|].
    repeat constructor; apply x_batch_wf.
  - intros e [= <-]. split; [exact gt_4_ordinary|exact x_data_described].
  - vm_compute; exact I.
  - exists stream, bs. split; [exact Hs|]. split; [exact (Hd 1%nat)|].
    rewrite (Hr "x") by (reflexivity || apply list_elem_of_singleton; reflexivity).
    apply x_lookup in Hg as ->. vm_compute. reflexivity.
Defined.
