(* ===== verification/ParquetWrite.v ===== *)
(** * Writing a Parquet file and reading it back

    [WriterLaws] states what the parquet crate promises of its own files: a
    closed file opens again and holds the table that was written, cut into row
    groups as the writer likes.  With [read_exact] the options of a read then
    apply to the written table, whatever that cut is. *)

From S2P Require Import Prelude Float Utf8 Term Arrow ArrowRef Stream Parquet ParquetFacts ParquetPruning ParquetThms ParquetRows IpcRound ParquetRead ComputeThms.

Class WriterLaws `{Arrow, ParquetCrate} {RL : ReaderLaws} := {
  written : Writer -> Schema * list RecordBatch;
  pq_writer_starts s props w : writer_try_new s props = Ok w -> written w = (s, []);
  pq_writer_appends w b w' :
    rb_schema b = fst (written w) -> writer_write w b = Ok w' ->
    written w' = (fst (written w), snd (written w) ++ [b]);
  closed_reads_back w data :
    scalar_schema (fst (written w)) -> distinct_names (fst (written w)) ->
    uniform (fst (written w)) (snd (written w)) -> writer_close w = Ok data ->
    exists builder, builder_try_new data = Ok builder /\ readable groups_of builder /\
      b_schema builder = fst (written w) /\
      same_table (fst (written w)) (groups_of data) (snd (written w))
}.

Section roundtrip.
Context `{RustlerLaws Term} `{Arrow, !CmpLaws, !BoolLaws, !BatchLaws} `{ParquetCrate} {RL : ReaderLaws} {WL : WriterLaws}.

Lemma write_all_content w bs w' :
  Forall (fun b => rb_schema b = fst (written w)) bs -> write_all w bs = Ok w' ->
  written w' = (fst (written w), snd (written w) ++ bs).
Proof.
  revert w. induction bs as [|b bs IH]; intros w Hs; cbn.
  - intros [= <-]. rewrite app_nil_r. by destruct (written w).
  - apply Forall_cons in Hs as [Hb Hs]. intros (w1 & Hw%(pq_writer_appends _ _ _ Hb) & Hr)%bind_Ok.
    rewrite (IH w1) by (by rewrite ?Hw). rewrite Hw. cbn. by rewrite <-app_assoc.
Qed.

(** A written file opens as the table that was written. *)
Lemma written_opens schema batches opts data :
  scalar_schema schema -> distinct_names schema -> uniform schema batches ->
  write_parquet schema batches opts = Ok data ->
  exists builder, builder_try_new data = Ok builder /\ readable groups_of builder /\
    b_schema builder = schema /\ same_table schema (groups_of data) batches.
Proof.
  intros Hsc Hd Hu. unfold write_parquet.
  intros (w0 & Hw0%pq_writer_starts & (w1 & Hw1 & Hc)%bind_Ok)%bind_Ok.
  apply write_all_content in Hw1; [|rewrite Hw0; eapply Forall_impl; [exact Hu|]; by intros b [_ ?]].
  rewrite Hw0 in Hw1. cbn in Hw1. pose proof (closed_reads_back w1 data) as Hback.
  rewrite Hw1 in Hback. cbn [fst snd] in Hback. by apply Hback.
Qed.

(** Options without a list of row groups are accepted when the filter is. *)
Lemma all_groups_accepted builder o :
  ro_row_groups o = None ->
  (forall e, ro_filter o = Some e -> validate_filter_types (b_schema builder) e = Ok ()) ->
  is_ok (apply_read_opts builder o).
Proof.
  intros Hg Hv. unfold apply_read_opts. rewrite Hg. destruct (ro_filter o) as [e|]; [|done].
  rewrite Hv by done. cbn [mbind res_bind]. rewrite retain_groups_spec; [done|].
  apply Forall_forall. intros i Hi%elem_of_seqZ. lia.
Qed.

(** All the row groups of a file, as a read of all of them requests them. *)
Lemma requested_all (m : ParquetMetaData) o (groups gs : list RecordBatch) :
  ro_row_groups o = None -> length groups = num_row_groups m ->
  Forall2 (fun i g => groups !! Z.to_nat i = Some g) (requested m o) gs -> gs = groups.
Proof.
  intros Hg Hl. unfold requested. rewrite Hg, <-Hl. cbn [default]. clear. intros Hf. apply list_eq. intros k.
  destruct (decide (k < length groups)%nat) as [Hk|Hk].
  - assert (seqZ 0 (Z.of_nat (length groups)) !! k = Some (Z.of_nat k)) as Hs by (rewrite lookup_seqZ_lt by lia; f_equal; lia).
    destruct (Forall2_lookup_l _ _ _ _ _ Hf Hs) as (g & -> & Hgk). by rewrite Nat2Z.id in Hgk.
  - apply Forall2_length in Hf. rewrite length_seqZ in Hf.
    rewrite !(proj2 (lookup_ge_None _ _)) by lia. done.
Qed.

(** C23: Parquet round-trips.  Batches of one flat schema that were written, with
    any write options, read back through the reader NIF: options that name no
    row groups, and whose filter is well typed for the schema, open a stream
    that ends, and of every wanted column its batches hold, in order, the
    cells of the written batches at the rows for which the filter is true (all
    of them without a filter).  How the writer cut the table into row groups
    cannot be seen.  A filter must be [ordinary] (its float literals neither
    NaN nor a zero, no dot in the names of its columns) and the file's
    statistics right; a wanted column has no dot in its name when columns are
    asked for by name. *)
Theorem parquet_write_read schema batches (wt rt : Term) data o :
  scalar_schema schema -> distinct_names schema -> uniform schema batches ->
  parquet_writer_to_binary schema batches wt = ROk data ->
  decode_read_opts rt = Ok o -> ro_row_groups o = None ->
  (forall e, ro_filter o = Some e -> validate_filter_types schema e = Ok () /\ ordinary e /\
     forall builder, builder_try_new data = Ok builder -> described (b_metadata builder) (groups_of data)) ->
  exists stream bs,
    parquet_reader_from_binary data rt = ROk stream /\ parquet_reader_from_file (Ok data) rt = ROk stream /\
    parquet_stream_schema stream = RBare (project_schema (wants o) schema) /\
    (forall k, drain parquet_stream_next (length bs + k) (ps_reader stream) = map ROk bs ++ replicate k (RAtom "done")) /\
    forall c, c ∈ map field_name (fields schema) -> wants o c = true ->
      column_rows c bs = expected_rows o batches c.
Proof.
  intros Hsc Hd Hu Hw Ho Hg He. unfold parquet_writer_to_binary in Hw.
  destruct (decode_write_opts wt) as [wo| |]; try done. cbn [reply_with] in Hw.
  destruct (write_parquet schema batches wo) as [d| |] eqn:Ew; try done. cbn [reply_with] in Hw.
  case_match; [|done]. injection Hw as ->.
  destruct (written_opens schema batches wo data Hsc Hd Hu Ew) as (builder & Hb & Hr & <- & Ht).
  destruct (read_exact data rt o builder Ho Hb Hr) as (stream & gs & bs & Hs1 & Hs2 & Hsch & Hdr & Hgs & Hrows).
  { intros e Hfe. destruct (He e Hfe) as (_ & ? & Hst). auto. }
  { apply all_groups_accepted; [done|]. intros e Hfe. by apply He. }
  exists stream, bs. split_and!; [done..|]. intros c Hc Hwc. rewrite Hrows by done.
  destruct (fresh_builder data builder Hb) as (Hsrc & _). destruct Hr as (_ & _ & Hlen & _). rewrite Hsrc in Hlen.
  rewrite (requested_all _ _ _ _ Hg Hlen Hgs). unfold expected_rows.
  destruct (ro_filter o) as [e|] eqn:Ef; [|by apply Ht].
  apply (selected_rows_proper (b_schema builder) c e); [|done..]. intros col.
  eapply validated_columns. by apply He.
Qed.

End roundtrip.

(** ** The format of one column *)

(** The byte a value is written as. *)
Definition x_encoded (v : Z) : byte := default Byte.x00 (x_byte v).

Lemma x_byte_spec v b : x_byte v = Some b -> bz b = v /\ bz b <> 255.
Proof.
  unfold x_byte. destruct (Z.leb_spec 0 v), (Z.ltb_spec v 255); try done. cbn. intros Hb%Byte.to_of_N.
  unfold bz. rewrite Hb. lia.
Qed.

Lemma x_encoded_no_end v : bz (x_encoded v) =? 255 = false.
Proof.
  unfold x_encoded. destruct (x_byte v) as [b|] eqn:E; [|done]. by apply Z.eqb_neq, (x_byte_spec v b).
Qed.

Lemma x_split_encode acc vs rest :
  x_split acc (map x_encoded vs ++ Byte.xff :: rest) = (acc ++ map (fun v => bz (x_encoded v)) vs) :: x_split [] rest.
Proof.
  revert acc. induction vs as [|v vs IH]; intros acc; cbn [map app x_split]; [by rewrite app_nil_r|].
  rewrite x_encoded_no_end, IH. by rewrite <-app_assoc.
Qed.

Lemma x_roundtrip w : x_split [] (x_encode w) = map (map (fun v => bz (x_encoded v))) w.
Proof.
  induction w as [|vs w IH]; [done|]. unfold x_encode in *. cbn [map concat].
  rewrite <-app_assoc. cbn [app]. rewrite <-IH. exact (x_split_encode [] vs _).
Qed.

Lemma is_x_schema_spec s : is_x_schema s = true -> s = x_schema.
Proof. destruct s as [[|[name [] []] []]]; try done. by intros ->%String.eqb_eq. Qed.

(** What a writer accepts are rows of bytes. *)
Lemma x_write_spec w b w' :
  x_write w b = Ok w' ->
  exists vs, b = x_batch vs /\ w' = w ++ [vs] /\ map (fun v => bz (x_encoded v)) vs = vs.
Proof.
  unfold x_write. destruct b as [s cols n]. cbn [rb_columns rb_schema rb_num_rows].
  destruct cols as [|[|[] cells| | | |] []]; try done.
  destruct (collect_opt _ cells) as [vs|] eqn:E; [|done]. apply collect_opt_Some in E.
  destruct (is_x_schema s) eqn:Es; [|done]. apply is_x_schema_spec in Es as ->.
  destruct (Nat.eqb_spec n (length vs)) as [->|]; [|done]. intros [= <-]. exists vs.
  assert (cells = map Some vs /\ map (fun v => bz (x_encoded v)) vs = vs) as [-> Hb]; [|done].
  induction E as [|c v cells vs Hc _ [-> IH]]; [done|].
  apply bind_Some in Hc as (v' & -> & (b & Hb & [= ->])%bind_Some). cbn. rewrite IH. split; [done|].
  f_equal. unfold x_encoded. rewrite Hb. by apply (x_byte_spec v b).
Qed.

Definition x_written (w : list (list Z)) : Schema * list RecordBatch :=
  (x_schema, map x_batch (map (map (fun v => bz (x_encoded v))) w)).

#[export] Instance x_writer_laws : WriterLaws (RL := x_laws).
Proof.
  apply (Build_WriterLaws ref_arrow x_parquet x_laws x_written); cbn.
  - intros s props w. unfold x_start. destruct (is_x_schema s) eqn:Es; [|done].
    apply is_x_schema_spec in Es as ->. by intros [= <-].
  - intros w b w' _ (vs & -> & -> & Hvs)%x_write_spec. unfold x_written. cbn [fst snd].
    rewrite !map_app. cbn [map]. by rewrite Hvs.
  - intros w data _ _ _ [= <-]. eexists. split; [reflexivity|].
    assert (uniform x_schema (map x_batch (x_split [] (x_encode w)))) as Hu.
    { apply Forall_map, Forall_forall. intros vs _. split; [apply x_batch_wf|done]. }
    split; [unfold readable; split_and!; [reflexivity|apply NoDup_singleton| |exact Hu]|split; [reflexivity|]].
    + cbn. unfold num_row_groups. cbn. by rewrite !length_map.
    + change (@groups_of _ _ x_laws (x_encode w)) with (map x_batch (x_split [] (x_encode w))).
      rewrite x_roundtrip in *. by split_and!.
Defined.

(** Two batches; the filter x > 4 on what was written. *)
Lemma parquet_write_read_witness :
  exists data stream bs,
    parquet_writer_to_binary (H0 := x_parquet) x_schema [x_batch [1; 4]; x_batch [5; 7; 2]] (BList []) = ROk data /\
    parquet_reader_from_binary (H0 := x_parquet) data x_opts = ROk stream /\
    drain parquet_stream_next (length bs + 1) (ps_reader stream) = map ROk bs ++ [RAtom "done"] /\
    column_rows "x" bs = [Some (CInt 5); Some (CInt 7)].
Proof.
  assert (parquet_writer_to_binary (H0 := x_parquet) x_schema [x_batch [1; 4]; x_batch [5; 7; 2]] (BList []) = ROk x_data)
    as Hw by (vm_compute; reflexivity).
  destruct (parquet_write_read (RL := x_laws) (WL := x_writer_laws) x_schema [x_batch [1; 4]; x_batch [5; 7; 2]]
    (BList []) x_opts x_data gt_4) as (stream & bs & Hs & _ & _ & Hd & Hr).
  - by repeat constructor.
  - apply NoDup_singleton.
  - repeat constructor; apply x_batch_wf.
  - exact Hw.
  - vm_compute; reflexivity.
  - reflexivity.
  - intros e [= <-]. split; [vm_compute; reflexivity|]. split; [exact gt_4_ordinary|].
    intros builder [= <-]. exact x_data_described.
  - exists x_data, stream, bs. split; [exact Hw|]. split; [exact Hs|]. split; [exact (Hd 1%nat)|].
    rewrite (Hr "x") by (reflexivity || apply list_elem_of_singleton; reflexivity). vm_compute. reflexivity.
Defined.
