(* ===== verification/FlightServer.v ===== *)
(** * The Flight server (flight.rs)

    TLS options, the descriptor and FlightInfo codecs, the in-memory Flight
    service ([EchoFlightService]) as a state machine on its datasets, and the
    life cycle of a server handle. *)

From S2P Require Import Prelude Float Utf8 Term Arrow Stream.

(** ** TLS options *)

Inductive TlsMode :=
| TlsPlaintext
| TlsSystemCerts
| TlsCustomCa (pem : bytes).

Inductive ServerTlsMode :=
| ServerPlaintext
| ServerTls (cert_pem key_pem : bytes)
| ServerMtls (cert_pem key_pem ca_pem : bytes).

Section tls.
Context `{Rustler Term}.

Definition parse_tls_mode (term : Term) : res string TlsMode :=
  match get_atom term with
  | Some atom =>
      if String.eqb atom "plaintext" then Ok TlsPlaintext
      else if String.eqb atom "system_certs" then Ok TlsSystemCerts
      else Err "unknown tls_mode atom; expected :plaintext or :system_certs"
  | None =>
      tuple ← ok_or "tls_mode must be :plaintext, :system_certs, or {:custom_ca, pem_binary()}"
        (get_tuple term);
      let invalid :=
        Err "invalid tls_mode; expected :plaintext, :system_certs, or {:custom_ca, binary()}" in
      match tuple with
      | [t0; t1] =>
          match get_atom t0 with
          | Some tag =>
              if String.eqb tag "custom_ca" then
                pem ← ok_or "custom_ca payload must be a binary" (get_binary t1);
                Ok (TlsCustomCa pem)
              else invalid
          | None => invalid
          end
      | _ => invalid
      end
  end.

Definition parse_server_tls (term : Term) : res string ServerTlsMode :=
  match get_atom term with
  | Some atom =>
      if String.eqb atom "plaintext" then Ok ServerPlaintext
      else Err "server_tls atom must be :plaintext"
  | None =>
      tuple ← ok_or "server_tls must be :plaintext, {:tls, cert, key}, or {:mtls, cert, key, ca}"
        (get_tuple term);
      let invalid :=
        Err "invalid server_tls; expected :plaintext, {:tls, cert, key}, or {:mtls, cert, key, ca}" in
      match tuple with
      | [t0; t1; t2] =>
          match get_atom t0 with
          | Some tag =>
              if String.eqb tag "tls" then
                cert ← ok_or "tls cert must be a binary" (get_binary t1);
                key ← ok_or "tls key must be a binary" (get_binary t2);
                Ok (ServerTls cert key)
              else invalid
          | None => invalid
          end
      | [t0; t1; t2; t3] =>
          match get_atom t0 with
          | Some tag =>
              if String.eqb tag "mtls" then
                cert ← ok_or "mtls cert must be a binary" (get_binary t1);
                key ← ok_or "mtls key must be a binary" (get_binary t2);
                ca ← ok_or "mtls ca must be a binary" (get_binary t3);
                Ok (ServerMtls cert key ca)
              else invalid
          | None => invalid
          end
      | _ => invalid
      end
  end.

End tls.

(** ** Messages of the protocol *)

Record FlightDescriptor := mkDescriptor {
  fd_type : Z;
  fd_cmd : bytes;
  fd_path : list string
}.

Definition ECHO_TICKET : bytes := as_bytes "echo".
Definition DESCRIPTOR_CMD : Z := 2.
Definition DESCRIPTOR_PATH : Z := 1.

Record FlightEndpoint := mkEndpoint {
  ep_ticket : option bytes;
  ep_locations : list string
}.

Record FlightInfo := mkFlightInfo {
  fi_schema : bytes;
  fi_descriptor : option FlightDescriptor;
  fi_endpoint : list FlightEndpoint;
  fi_total_records : Z;
  fi_total_bytes : Z
}.

(** A gRPC status: its code by name, and its message. *)
Record Status := mkStatus { st_code : string; st_message : string }.

Definition internal (m : string) : Status := mkStatus "Internal" m.
Definition invalid_argument (m : string) : Status := mkStatus "InvalidArgument" m.
Definition not_found (m : string) : Status := mkStatus "NotFound" m.
Definition unimplemented (m : string) : Status := mkStatus "Unimplemented" m.

(** The arrow-flight crate: messages of a data stream, their encoder and
    decoder, and the IPC form of a schema. *)
Class FlightCrate := {
  FlightData : Type;
  data_descriptor : FlightData -> option FlightDescriptor;
  encode_batches : Schema -> option FlightDescriptor -> list RecordBatch -> list (res string FlightData);
  decode_batches : list (res Status FlightData) -> res string (list RecordBatch);
  schema_as_ipc : Schema -> res string bytes;
  status_string : Status -> string          (* Display of a Status *)
}.

(** ** Codecs *)

Section codec.
Context `{Rustler Term}.

(** [try_encode_binary]: [None] when the allocation fails. *)
Definition try_encode_binary (data : bytes) : option Term :=
  if owned_binary_new (Z.of_nat (length data)) then Some (mk_binary data) else None.

Definition decode_descriptor (term : Term) : res string FlightDescriptor :=
  tuple ← ok_or "descriptor must be a 2-tuple {:cmd, binary()} or {:path, [string]}" (get_tuple term);
  match tuple with
  | [t0; t1] =>
      tag ← ok_or "descriptor first element must be an atom" (get_atom t0);
      if String.eqb tag "cmd" then
        bin ← ok_or "cmd descriptor: second element must be a binary" (get_binary t1);
        Ok (mkDescriptor DESCRIPTOR_CMD bin [])
      else if String.eqb tag "path" then
        list ← ok_or "path descriptor: second element must be a list of strings" (get_list t1);
        segments ← collect_list
          (fun t => ok_or "path descriptor: second element must be a list of strings" (get_string t)) list;
        Ok (mkDescriptor DESCRIPTOR_PATH [] segments)
      else Err "descriptor tag must be :cmd or :path"
  | _ => Err "descriptor tuple must have exactly 2 elements"
  end.

Definition encode_descriptor (desc : option FlightDescriptor) : option Term :=
  let nil_term := mk_atom "nil" in
  match desc with
  | None => Some nil_term
  | Some d =>
      if fd_type d =? DESCRIPTOR_CMD then
        cmd_term ← try_encode_binary (fd_cmd d);
        Some (mk_tuple [mk_atom "cmd"; cmd_term])
      else if fd_type d =? DESCRIPTOR_PATH then
        Some (mk_tuple [mk_atom "path"; mk_list (map mk_string (fd_path d))])
      else Some nil_term
  end.

Definition encode_endpoint (ep : FlightEndpoint) : option Term :=
  let ticket_bytes := default [] (ep_ticket ep) in
  ticket_term ← try_encode_binary ticket_bytes;
  Some (mk_tuple [ticket_term; mk_list (map mk_string (ep_locations ep))]).

Definition encode_flight_info (info : FlightInfo) : option Term :=
  schema_bytes ← try_encode_binary (fi_schema info);
  descriptor ← encode_descriptor (fi_descriptor info);
  endpoints ← collect_opt encode_endpoint (fi_endpoint info);
  Some (mk_tuple [schema_bytes; descriptor; mk_list endpoints;
                  mk_int (fi_total_records info); mk_int (fi_total_bytes info)]).

End codec.

Definition descriptor_to_key (desc : FlightDescriptor) : option string :=
  if fd_type desc =? DESCRIPTOR_CMD then Some (from_utf8_lossy (fd_cmd desc))
  else if fd_type desc =? DESCRIPTOR_PATH then Some (join "/" (fd_path desc))
  else None.

(** ** The service *)

Section service.
Context `{FlightCrate}.

Definition EchoState := gmap string (Schema * list RecordBatch).

(** The state shared by the handlers; each handler locks it at most once. *)
Definition Service := Mutex EchoState.

Definition new_service : Service := new_mutex ∅.

Definition lock_state (svc : Service) : res Status EchoState :=
  ok_or (internal "lock") (lock svc).

Definition schema_ipc_bytes (schema : Schema) : res Status bytes :=
  map_err (fun e => internal ("schema IPC encode: " +:+ e)) (schema_as_ipc schema).

(** [batches.iter().map(|b| b.num_rows() as i64).sum()] in release mode. *)
Definition total_rows (batches : list RecordBatch) : Z :=
  wrap_s 64 (Z.of_nat (sum_list_with rb_num_rows batches)).

Definition handshake : res Status unit := Err (unimplemented "handshake").
Definition poll_flight_info : res Status unit := Err (unimplemented "poll_flight_info").
Definition do_exchange : res Status unit := Err (unimplemented "do_exchange").

(** The FlightInfo of a stored dataset. *)
Definition dataset_info (desc : FlightDescriptor) (ticket_key : string) (schema_bytes : bytes)
    (batches : list RecordBatch) : FlightInfo :=
  mkFlightInfo schema_bytes (Some desc) [mkEndpoint (Some (as_bytes ticket_key)) []]
    (total_rows batches) (-1).

(** A stream of results; the map's iteration order is unspecified. *)
Definition list_flights (svc : Service) : res Status (list (res Status FlightInfo)) :=
  datasets ← lock_state svc;
  Ok (map (fun '(ticket_key, (schema, batches)) =>
             schema_bytes ← schema_ipc_bytes schema;
             Ok (dataset_info (mkDescriptor DESCRIPTOR_CMD (as_bytes ticket_key) []) ticket_key
                   schema_bytes batches))
          (map_to_list datasets)).

Definition unknown_ticket (k : string) : Status := not_found ("unknown ticket: " +:+ k).

Definition get_flight_info (svc : Service) (desc : FlightDescriptor) : res Status FlightInfo :=
  ticket_key ← ok_or (invalid_argument "unsupported descriptor type") (descriptor_to_key desc);
  datasets ← lock_state svc;
  match datasets !! ticket_key with
  | None => Err (unknown_ticket ticket_key)
  | Some (schema, batches) =>
      schema_bytes ← schema_ipc_bytes schema;
      Ok (dataset_info desc ticket_key schema_bytes batches)
  end.

Definition get_schema (svc : Service) (desc : FlightDescriptor) : res Status bytes :=
  ticket_key ← ok_or (invalid_argument "unsupported descriptor type") (descriptor_to_key desc);
  datasets ← lock_state svc;
  match datasets !! ticket_key with
  | None => Err (unknown_ticket ticket_key)
  | Some (schema, _) => schema_ipc_bytes schema
  end.

(** The reply stream; encoding errors become internal statuses. *)
Definition do_get (svc : Service) (ticket : bytes) : res Status (list (res Status FlightData)) :=
  let ticket_key := from_utf8_lossy ticket in
  datasets ← lock_state svc;
  match datasets !! ticket_key with
  | None => Err (unknown_ticket ticket_key)
  | Some (schema, batches) => Ok (map (map_err internal) (encode_batches schema None batches))
  end.

(** The request stream, message by message; [None] results are its end. *)
Definition do_put (svc : Service) (stream : list (res Status FlightData))
    : res Status unit * Service :=
  match stream with
  | [] => (Err (invalid_argument "do_put: empty stream"), svc)
  | Err e :: _ => (Err (internal (status_string e)), svc)
  | Panic s :: _ => (Panic s, svc)
  | Ok first :: rest =>
      let ticket_key :=
        default (from_utf8_lossy ECHO_TICKET) (data_descriptor first ≫= descriptor_to_key) in
      match map_err internal (decode_batches (Ok first :: rest)) with
      | Err e => (Err e, svc)
      | Panic s => (Panic s, svc)
      | Ok batches =>
          match batches with
          | [] => (Err (invalid_argument "do_put rejected: stream contained no record batches"), svc)
          | b :: _ =>
              match lock_state svc with
              | Ok datasets =>
                  (Ok (), mkMutex (<[ticket_key := (rb_schema b, batches)]> datasets) false)
              | Err e => (Err e, svc)
              | Panic s => (Panic s, svc)
              end
          end
      end
  end.

Definition do_action (svc : Service) (action_type : string) : res Status (list bytes) * Service :=
  if String.eqb action_type "ping" then (Ok [as_bytes "pong"], svc)
  else if String.eqb action_type "clear" then
    match lock_state svc with
    | Ok _ => (Ok [], mkMutex ∅ false)
    | Err e => (Err e, svc)
    | Panic s => (Panic s, svc)
    end
  else if String.eqb action_type "list_tickets" then
    (datasets ← lock_state svc; Ok (map (fun '(k, _) => as_bytes k) (map_to_list datasets)), svc)
  else (Err (not_found ("unknown action: " +:+ action_type)), svc).

Definition list_actions : list (string * string) :=
  [("clear", "Clear all stored datasets.");
   ("ping", "Responds with 'pong'. Used to verify the server is alive.");
   ("list_tickets", "Return one result per stored dataset, each body is the ticket bytes.")].

(** A request that may change the state, and the service's transition on it. *)
Inductive Update :=
| UPut (stream : list (res Status FlightData))
| UAction (action_type : string).

Definition serve (svc : Service) (u : Update) : Service :=
  match u with
  | UPut stream => snd (do_put svc stream)
  | UAction a => snd (do_action svc a)
  end.

End service.

(** ** Starting and stopping a server *)

(** The operating system and the transport, as one start of a server meets
    them; [probe_connects i] is whether the [i]-th readiness probe connects. *)
Class ServerEnv := {
  SocketAddr : Type;
  runtime_new : res string unit;
  parse_addr : string -> res string SocketAddr;
  tcp_bind : SocketAddr -> res string (option SocketAddr);   (* the listener's local_addr().ok() *)
  addr_ip : SocketAddr -> string;
  addr_port : SocketAddr -> Z;
  tls_config : ServerTlsMode -> res string unit;
  probe_connects : string -> nat -> bool
}.

Section lifecycle.
Context `{ServerEnv}.

(** [h_join] and [h_shutdown] are taken by the first stop. *)
Record FlightServerHandle := mkServerHandle {
  h_join : Mutex (option unit);
  h_host : string;
  h_port : Z;
  h_shutdown : Mutex (option unit)
}.

(** The readiness loop: at most [n] probes, 25 ms apart. *)
Fixpoint probe_loop (probe_addr : string) (i n : nat) : bool :=
  match n with
  | O => false
  | S n' => if probe_connects probe_addr i then true else probe_loop probe_addr (S i) n'
  end.

Definition probe_ip (actual_host : string) : string :=
  if String.eqb actual_host "0.0.0.0" || String.eqb actual_host "::" then "127.0.0.1" else actual_host.

(** The body of the server thread up to its message to the caller. *)
Definition server_thread (host : string) (port : Z) (tls_mode : ServerTlsMode) : res string (string * Z) :=
  _ ← runtime_new;
  let addr_str := host +:+ ":" +:+ pretty port in
  addr ← parse_addr addr_str;
  listener ← tcp_bind addr;
  let local := default addr listener in
  let actual_port := addr_port local in
  let actual_host := addr_ip local in
  _ ← match tls_mode with
      | ServerPlaintext => Ok ()
      | _ => tls_config tls_mode
      end;
  let probe_addr := probe_ip actual_host +:+ ":" +:+ pretty actual_port in
  if probe_loop probe_addr 0 80 then Ok (actual_host, actual_port)
  else Err ("server on " +:+ actual_host +:+ ":" +:+ pretty actual_port
            +:+ " did not become ready within 2s").

(** [rx.recv()] fails when the thread ended without a message (a panic). *)
Definition flight_server_start `{Rustler Term} (host : string) (port : Z) (server_tls : Term)
    : Reply FlightServerHandle :=
  reply_with (parse_server_tls server_tls) (fun tls_mode =>
    match server_thread host port tls_mode with
    | Ok (actual_host, actual_port) =>
        ok_encode (mkServerHandle (new_mutex (Some ())) actual_host actual_port (new_mutex (Some ())))
    | Err msg => err_encode msg
    | Panic _ => err_encode "server failed to bind"
    end).

Definition flight_server_port (handle : FlightServerHandle) : Z := h_port handle.
Definition flight_server_host (handle : FlightServerHandle) : string := h_host handle.

(** What a stop does to the running server. *)
Inductive StopEffect := SignalShutdown | JoinThread.

Definition take_option (m : Mutex (option unit)) (e : StopEffect)
    : list StopEffect * Mutex (option unit) :=
  match lock m with
  | Some (Some _) => ([e], mkMutex None false)
  | _ => ([], m)
  end.

Definition flight_server_stop (handle : FlightServerHandle)
    : Reply unit * list StopEffect * FlightServerHandle :=
  let '(e1, shutdown') := take_option (h_shutdown handle) SignalShutdown in
  let '(e2, join') := take_option (h_join handle) JoinThread in
  (RAtom "ok", e1 ++ e2, mkServerHandle join' (h_host handle) (h_port handle) shutdown').

End lifecycle.
