(* ===== verification/FlightClient.v ===== *)
(** * The Flight client (flight.rs)

    Connecting, and the seven client NIFs over an abstract transport
    ([FlightRpc]): taking the client lock, running the call (with its deadline
    where it has one), and encoding the result.  [loopback] is the transport
    to the service of FlightServer. *)

From S2P Require Import Prelude Float Utf8 Term Arrow Stream Ipc FlightServer.

(** ** The transport *)

(** What becomes of a call with a deadline: it completes in time; it is given
    up after the server has, or has not, processed it. *)
Inductive Deadline := InTime | LateApplied | LateLost.

(** The calls of the arrow-flight client, on the state [Srv] of the other side.
    [rpc_do_put] gives the stream of results: one the server sends, or an error
    of the request stream, which the client forwards there. *)
Class FlightRpc `{FlightCrate} (Srv : Type) := {
  rpc_do_put : Srv -> list (res string FlightData) -> res string (list (res string unit)) * Srv;
  rpc_do_get : Srv -> bytes -> res string (list (res string RecordBatch)) * Srv;
  rpc_list_flights : Srv -> bytes -> res string (list FlightInfo) * Srv;
  rpc_get_flight_info : Srv -> FlightDescriptor -> res string FlightInfo * Srv;
  rpc_get_schema : Srv -> FlightDescriptor -> res string Schema * Srv;
  rpc_list_actions : Srv -> res string (list (string * string)) * Srv;
  rpc_do_action : Srv -> string -> bytes -> res string (list bytes) * Srv;
  rpc_deadline : Srv -> Z -> Deadline
}.

(** Building a channel. *)
Class ChannelEnv := {
  Endpoint : Type;
  Channel : Type;
  from_shared : string -> res string Endpoint;
  with_connect_timeout : Z -> Endpoint -> Endpoint;
  endpoint_tls_config : TlsMode -> Endpoint -> res string Endpoint;
  connect_channel : Endpoint -> res string Channel;
  Runtime : Type;                            (* Arc<tokio::runtime::Runtime> *)
  build_runtime : nat -> res string Runtime  (* the result of the n-th build *)
}.

(** ** The shared runtimes *)

Section runtimes.
Context `{ChannelEnv}.

(** A [OnceLock] of a runtime, and the builds it has seen. *)
Record RuntimeCell := mkRuntimeCell { rc_value : option Runtime; rc_builds : nat }.

Definition fresh_cell : RuntimeCell := mkRuntimeCell None 0.

(** [get_or_init(|| build().expect(..))]: a build that fails panics and leaves
    the cell empty. *)
Definition get_or_init (expectation : string) (cell : RuntimeCell) : res string Runtime * RuntimeCell :=
  match rc_value cell with
  | Some rt => (Ok rt, cell)
  | None =>
      match build_runtime (rc_builds cell) with
      | Ok rt => (Ok rt, mkRuntimeCell (Some rt) (S (rc_builds cell)))
      | _ => (Panic expectation, mkRuntimeCell None (S (rc_builds cell)))
      end
  end.

Definition client_runtime : RuntimeCell -> res string Runtime * RuntimeCell :=
  get_or_init "failed to build Flight client Tokio runtime".

End runtimes.

Section connect.
Context `{Rustler Term} `{ChannelEnv}.

(** The URI scheme, and whether TLS is configured. *)
Definition tls_scheme (mode : TlsMode) : string * bool :=
  match mode with
  | TlsPlaintext => ("http", false)
  | TlsSystemCerts => ("https", true)
  | TlsCustomCa _ => ("https", true)
  end.

(** The handle's runtime and channel; its mutex is a [Client] below. *)
Definition flight_client_connect (host : string) (port connect_timeout_ms : Z) (tls_mode : Term)
    (cell : RuntimeCell) : Reply (Runtime * Channel) * RuntimeCell :=
  let endpoint :=
    mode ← parse_tls_mode tls_mode;
    let '(scheme, tls_cfg) := tls_scheme mode in
    let endpoint_uri := scheme +:+ "://" +:+ host +:+ ":" +:+ pretty port in
    endpoint ← from_shared endpoint_uri;
    let endpoint :=
      if 0 <? connect_timeout_ms then with_connect_timeout connect_timeout_ms endpoint else endpoint in
    if tls_cfg : bool then endpoint_tls_config mode endpoint else Ok endpoint in
  match endpoint with
  | Err e => (err_encode e, cell)
  | Panic s => (RRaise s, cell)
  | Ok endpoint =>
      let '(rt, cell) := client_runtime cell in
      (reply (rt ← rt; channel ← connect_channel endpoint; Ok (rt, channel)), cell)
  end.

End connect.

(** ** The calls *)

Section calls.
Context `{Rustler Term} `{FlightRpc Srv} `{Arrow} `{IpcCrate}.

(** [client.lock()]; the handle's mutex guards the crate's client. *)
Definition Client := Mutex unit.

(** A call under [tokio::time::timeout] when [timeout_ms] is positive. *)
Definition with_timeout {A} (srv : Srv) (timeout_ms : Z) (what : string)
    (call : Srv -> res string A * Srv) : res string A * Srv :=
  if 0 <? timeout_ms then
    match rpc_deadline srv timeout_ms with
    | InTime => call srv
    | LateApplied => (Err (what +:+ ": request timed out"), snd (call srv))
    | LateLost => (Err (what +:+ ": request timed out"), srv)
    end
  else call srv.

(** The descriptor argument of [do_put]: [:none] attaches nothing. *)
Definition put_descriptor (descriptor : Term) : res string (option FlightDescriptor) :=
  if bool_decide (get_atom descriptor = Some "none") then Ok None
  else d ← decode_descriptor descriptor; Ok (Some d).

(** [while next().is_some() {}]: whatever the items are, short of a panic. *)
Fixpoint drain_results (result_stream : list (res string unit)) : res string unit :=
  match result_stream with
  | [] => Ok ()
  | Panic s :: _ => Panic s
  | _ :: rest => drain_results rest
  end.

Definition flight_client_do_put (client : Client) (srv : Srv) (schema : Schema)
    (batches : list RecordBatch) (descriptor : Term) : (Reply unit * Client) * Srv :=
  match put_descriptor descriptor with
  | Err e => (err_encode e, client, srv)
  | Panic s => (RRaise s, client, srv)
  | Ok d =>
      let flight_data := encode_batches schema d batches in
      match lock client with
      | None => (err_encode "client lock", client, srv)
      | Some guard =>
          let '(r, srv') := rpc_do_put srv flight_data in
          let r := result_stream ← r; drain_results result_stream in
          (reply_with r (fun _ => RAtom "ok"), release r guard, srv')
      end
  end.

(** The batches that follow the first one, written as they arrive. *)
Fixpoint write_rest (writer : StreamWriter) (stream : list (res string RecordBatch))
    : res string StreamWriter :=
  match stream with
  | [] => Ok writer
  | item :: rest =>
      batch ← item;
      w ← map_err error_string (stream_write writer batch);
      write_rest w rest
  end.

Definition flight_client_do_get (client : Client) (srv : Srv) (ticket_bytes : bytes)
    : (Reply IpcStreamBacking * Client) * Srv :=
  match lock client with
  | None => (err_encode "client lock", client, srv)
  | Some guard =>
      let '(r, srv') := rpc_do_get srv ticket_bytes in
      (reply (
        flight_stream ← r;
        match flight_stream with
        | [] => Err ("do_get: server returned empty batch stream "
                     +:+ "(internal invariant violated: do_put should have rejected this)")
        | first :: rest =>
            first_batch ← first;
            let schema := rb_schema first_batch in
            writer ← map_err error_string (stream_writer_try_new schema);
            writer ← map_err error_string (stream_write writer first_batch);
            writer ← write_rest writer rest;
            buf ← map_err error_string (stream_finish writer);
            reader ← map_err error_string (stream_try_new buf);
            Ok (StreamBinary (new_mutex reader))
        end), release r guard, srv')
  end.

Definition alloc_failed : string := "binary allocation failed while encoding FlightInfo".

Definition flight_client_list_flights (client : Client) (srv : Srv) (criteria_bytes : bytes)
    (timeout_ms : Z) : (Reply (list Term) * Client) * Srv :=
  match lock client with
  | None => (err_encode "client lock poisoned", client, srv)
  | Some guard =>
      let '(r, srv') := with_timeout srv timeout_ms "list_flights"
                          (fun srv => rpc_list_flights srv criteria_bytes) in
      (reply_with r (fun flights =>
         match collect_opt encode_flight_info flights with
         | Some t => ok_encode t
         | None => err_encode alloc_failed
         end), release r guard, srv')
  end.

Definition flight_client_get_flight_info (client : Client) (srv : Srv) (descriptor : Term)
    (timeout_ms : Z) : (Reply Term * Client) * Srv :=
  match decode_descriptor descriptor with
  | Err msg => (err_encode msg, client, srv)
  | Panic s => (RRaise s, client, srv)
  | Ok flight_desc =>
      match lock client with
      | None => (err_encode "client lock poisoned", client, srv)
      | Some guard =>
          let '(r, srv') := with_timeout srv timeout_ms "get_flight_info"
                              (fun srv => rpc_get_flight_info srv flight_desc) in
          (reply_with r (fun info =>
             match encode_flight_info info with
             | Some t => ok_encode t
             | None => err_encode alloc_failed
             end), release r guard, srv')
      end
  end.

Definition flight_client_get_schema (client : Client) (srv : Srv) (descriptor : Term)
    (timeout_ms : Z) : (Reply Schema * Client) * Srv :=
  match decode_descriptor descriptor with
  | Err msg => (err_encode msg, client, srv)
  | Panic s => (RRaise s, client, srv)
  | Ok flight_desc =>
      match lock client with
      | None => (err_encode "client lock poisoned", client, srv)
      | Some guard =>
          let '(r, srv') := with_timeout srv timeout_ms "get_schema"
                              (fun srv => rpc_get_schema srv flight_desc) in
          (reply r, release r guard, srv')
      end
  end.

Definition flight_client_list_actions (client : Client) (srv : Srv) (timeout_ms : Z)
    : (Reply (list (string * string)) * Client) * Srv :=
  match lock client with
  | None => (err_encode "client lock poisoned", client, srv)
  | Some guard =>
      let '(r, srv') := with_timeout srv timeout_ms "list_actions" rpc_list_actions in
      (reply r, release r guard, srv')
  end.

Definition flight_client_do_action (client : Client) (srv : Srv) (action_type : string)
    (action_body : bytes) (timeout_ms : Z) : (Reply (list Term) * Client) * Srv :=
  match lock client with
  | None => (err_encode "client lock poisoned", client, srv)
  | Some guard =>
      let '(r, srv') := with_timeout srv timeout_ms "do_action"
                          (fun srv => rpc_do_action srv action_type action_body) in
      (reply_with r (fun results =>
         match collect_opt try_encode_binary results with
         | Some t => ok_encode t
         | None => err_encode "binary allocation failed while encoding action results"
         end), release r guard, srv')
  end.

End calls.

(** ** A client connected to the service *)

Section loopback.
Context `{FlightCrate}.

(** An answer as it arrives: a status as its text, a panic of the handler, which
    ends the server's task, as a transport error. *)
Definition arrived {A} (r : res Status A) : res string A :=
  match r with
  | Ok a => Ok a
  | Err e => Err (status_string e)
  | Panic s => Err s
  end.

(** A stream that the client collects: its items, or the first failure. *)
Definition collect_stream {A} (items : list (res Status A)) : res string (list A) :=
  arrived (collect (fun x => x) items).

(** The messages before the first error of a request stream, and that error. *)
Fixpoint sent {A} (stream : list (res string A)) : list A * option string :=
  match stream with
  | [] => ([], None)
  | Ok x :: rest => let '(xs, e) := sent rest in (x :: xs, e)
  | Err e :: _ => ([], Some e)
  | Panic s :: _ => ([], Some s)
  end.

(** Messages travel unchanged.  An error of the
    uploaded stream ends the upload and becomes the first of the results.  The
    schema of [get_schema] and the batches of [do_get] are decoded on arrival. *)
Definition loopback (schema_from_ipc : bytes -> res string Schema)
    (decode_stream : list (res Status FlightData) -> list (res string RecordBatch))
    (deadline : Z -> Deadline) : FlightRpc Service := {|
  rpc_do_put svc data :=
    let '(messages, failure) := sent data in
    let '(r, svc') := do_put svc (map Ok messages) in
    (map_ok (fun _ => map Err (option_list failure) ++ [Ok ()]) (arrived r), svc');
  rpc_do_get svc ticket :=
    (items ← arrived (do_get svc ticket); Ok (decode_stream items), svc);
  rpc_list_flights svc _ :=
    (items ← arrived (list_flights svc); collect_stream items, svc);
  rpc_get_flight_info svc d := (arrived (get_flight_info svc d), svc);
  rpc_get_schema svc d :=
    (b ← arrived (get_schema svc d); schema_from_ipc b, svc);
  rpc_list_actions svc := (Ok list_actions, svc);
  rpc_do_action svc a _ :=
    let '(r, svc') := do_action svc a in (arrived r, svc');
  rpc_deadline _ t := deadline t
|}.

End loopback.
