(* ===== verification/FlightFacts.v ===== *)
(** * Facts about the Flight service

    Keys are UTF-8 in every reachable state; the datasets refine the log of
    accepted uploads. *)

From S2P Require Import Prelude Float Utf8 Term Arrow ArrowRef Stream Ipc FlightServer FlightClient.

(** Decoding a descriptor panics on an improper list only. *)
Lemma decode_descriptor_no_panic `{Rustler Term} (t : Term) : proper_lists t -> no_panic (decode_descriptor t).
Proof.
  intros Hp. unfold decode_descriptor. apply bind_no_panic; [apply ok_or_no_panic|].
  intros [|t0 [|t1 []]] Hl%ok_or_Ok; try done.
  apply bind_no_panic; [apply ok_or_no_panic|]. intros tag _.
  repeat case_match; try done; apply bind_no_panic; [apply ok_or_no_panic|done|apply ok_or_no_panic|].
  intros l Hl1%ok_or_Ok. apply bind_no_panic; [|done].
  assert (proper_lists t1) as Hp1 by (apply (proper_child t); [done|left; eexists; split; [exact Hl|set_solver]]).
  apply collect_list_no_panic; [by apply (proper_here t1)|]. apply Forall_forall. intros. apply ok_or_no_panic.
Qed.

Section codec.
Context `{RustlerLaws Term}.

(** Descriptors as clients build them. *)
Definition canonical (d : FlightDescriptor) : Prop :=
  (fd_type d = DESCRIPTOR_CMD /\ fd_path d = []) \/
  (fd_type d = DESCRIPTOR_PATH /\ fd_cmd d = [] /\ Forall (fun s => valid_str s = true) (fd_path d)).

(** Decoded descriptors are canonical. *)
Lemma decode_descriptor_canonical (t : Term) d : decode_descriptor t = Ok d -> canonical d.
Proof.
  unfold decode_descriptor. intros ([|t0 [|t1 []]] & _ & Hd)%bind_Ok; try done.
  apply bind_Ok in Hd as (tag & _ & Hd). case_match; [|case_match; [|done]].
  - apply bind_Ok in Hd as (b & _ & [= <-]). by left.
  - apply bind_Ok in Hd as (l & _ & (segs & Hl%collect_list_Ok%collect_Ok & [= <-])%bind_Ok). right. cbn. split_and!; [done..|].
    eapply Forall2_Forall_r; [exact Hl|]. apply Forall_forall. intros x _ y Hy%ok_or_Ok. by eapply get_string_valid.
Qed.

Lemma decode_encode_descriptor d t :
  canonical d -> encode_descriptor (Some d) = Some t -> decode_descriptor t = Ok d.
Proof.
  intros Hc He. destruct d as [ty c p]. cbn in *. unfold decode_descriptor.
  destruct Hc as [[Hty Hp]|(Hty & Hcm & Hp)]; cbn in *; subst; cbn in He.
  - unfold try_encode_binary in He. case_match; [|done]. cbn in He. injection He as <-.
    rewrite get_mk_tuple. cbn [ok_or mbind res_bind]. rewrite get_mk_atom. cbn [ok_or mbind res_bind].
    cbn [String.eqb Ascii.eqb Bool.eqb]. by rewrite get_mk_binary.
  - injection He as <-.
    rewrite get_mk_tuple. cbn [ok_or mbind res_bind]. rewrite get_mk_atom. cbn [ok_or mbind res_bind].
    cbn [String.eqb Ascii.eqb Bool.eqb]. rewrite get_mk_list. cbn [ok_or mbind res_bind]. rewrite collect_list_proper.
    assert (forall msg : string, collect (fun t => ok_or msg (get_string t)) (map mk_string p) = Ok p) as ->; [|done].
    intros msg. apply collect_Ok. rewrite Forall2_fmap_l. apply Forall_Forall2_diag.
    eapply Forall_impl; [exact Hp|]. intros s Hs. unfold compose. by rewrite get_mk_string.
Qed.

End codec.

(** The key of a canonical descriptor is UTF-8. *)
Lemma canonical_key d k : canonical d -> descriptor_to_key d = Some k -> valid_str k = true.
Proof.
  unfold descriptor_to_key. intros [[-> _]|(-> & _ & Hp)]; cbn; intros [= <-].
  - apply lossy_is_valid.
  - by apply valid_str_join.
Qed.

(** ** The service *)

Section service.
Context `{FlightCrate}.

(** What an upload stores: its key and dataset, when it is accepted. *)
Definition accepted (stream : list (res Status FlightData))
    : option (string * (Schema * list RecordBatch)) :=
  match stream with
  | Ok first :: _ =>
      match decode_batches stream with
      | Ok (b :: bs) =>
          Some (default (from_utf8_lossy ECHO_TICKET) (data_descriptor first ≫= descriptor_to_key),
                (rb_schema b, b :: bs))
      | _ => None
      end
  | _ => None
  end.

(** The dataset of a key by the log of requests, newest first: that of the
    last accepted upload under the key since the last [clear]. *)
Fixpoint stored (log : list Update) (k : string) : option (Schema * list RecordBatch) :=
  match log with
  | [] => None
  | UAction a :: older => if String.eqb a "clear" then None else stored older k
  | UPut s :: older =>
      match accepted s with
      | Some (k', ds) => if String.eqb k' k then Some ds else stored older k
      | None => stored older k
      end
  end.

(** The service after a log, oldest first. *)
Definition after (log : list Update) : Service := foldl serve new_service log.

Lemma do_put_spec svc stream :
  m_poisoned svc = false ->
  match accepted stream with
  | Some (k, ds) => do_put svc stream = (Ok (), mkMutex (<[k := ds]> (m_value svc)) false)
  | None => snd (do_put svc stream) = svc /\ ~ is_ok (fst (do_put svc stream))
  end.
Proof.
  intros Hp. destruct stream as [|[first|e|s] rest]; cbn; try (split; [done|tauto]).
  destruct (decode_batches (Ok first :: rest)) as [[|b bs]|e|s]; cbn; try (split; [done|tauto]).
  unfold lock_state, lock. by rewrite Hp.
Qed.

Lemma serve_spec svc u k :
  m_poisoned svc = false ->
  m_poisoned (serve svc u) = false /\
  m_value (serve svc u) !! k =
    match u with
    | UAction a => if String.eqb a "clear" then None else m_value svc !! k
    | UPut s => match accepted s with
                | Some (k', ds) => if String.eqb k' k then Some ds else m_value svc !! k
                | None => m_value svc !! k
                end
    end.
Proof.
  intros Hp. destruct u as [s|a]; cbn [serve].
  - pose proof (do_put_spec svc s Hp) as Hs. destruct (accepted s) as [[k' ds]|].
    + rewrite Hs. cbn [snd m_poisoned m_value]. split; [done|]. unfold EchoState. destruct (String.eqb_spec k' k) as [->|Hne].
      * by rewrite lookup_insert_eq.
      * by rewrite lookup_insert_ne.
    + destruct Hs as [-> _]. done.
  - unfold do_action, lock_state, lock. rewrite Hp.
    destruct (String.eqb_spec a "ping") as [->|]; [done|].
    destruct (String.eqb_spec a "clear") as [->|]; [done|].
    by destruct (String.eqb_spec a "list_tickets") as [->|].
Qed.

Lemma after_stored log k :
  m_poisoned (after log) = false /\ m_value (after log) !! k = stored (rev log) k.
Proof.
  unfold after. induction log as [|u log IH] using rev_ind; [done|].
  rewrite foldl_snoc, rev_app_distr. cbn [rev app].
  destruct (serve_spec (foldl serve new_service log) u k) as [Hp Hl]; [by apply IH|].
  split; [done|]. rewrite Hl. cbn [stored]. by repeat case_match; rewrite ?(proj2 IH).
Qed.

(** The keys that uploads can create. *)
Definition canonical_puts (log : list Update) : Prop :=
  Forall (fun u => match u with
                   | UPut (Ok first :: _) =>
                       forall d, data_descriptor first = Some d -> fd_type d = DESCRIPTOR_CMD \/ canonical d
                   | _ => True
                   end) log.

Lemma key_valid d k :
  fd_type d = DESCRIPTOR_CMD \/ canonical d -> descriptor_to_key d = Some k -> valid_str k = true.
Proof.
  intros [Ht|Hc]; [|by apply canonical_key]. unfold descriptor_to_key. rewrite Ht. cbn.
  intros [= <-]. apply lossy_is_valid.
Qed.

Lemma stored_key_valid log k ds : canonical_puts log -> stored log k = Some ds -> valid_str k = true.
Proof.
  induction 1 as [|u log Hu _ IH]; cbn; [done|]. destruct u as [s|a].
  - destruct (accepted s) as [[k' ds']|] eqn:Ea; [|done].
    destruct (String.eqb_spec k' k) as [->|]; [|done]. intros _.
    destruct s as [|[first|e|p] rest]; try done. cbn in Ea.
    destruct (decode_batches _) as [[|b bs]| |]; try done. injection Ea as <- _.
    destruct (data_descriptor first) as [d|] eqn:Ed; cbn; [|done].
    destruct (descriptor_to_key d) as [k|] eqn:Ek; cbn; [|done].
    eapply key_valid; [by apply Hu|exact Ek].
  - by destruct (String.eqb a "clear").
Qed.

End service.
