(* ===== verification/FlightThms.v ===== *)
(** * Theorems about the Flight server and client *)

From S2P Require Import Prelude Float Utf8 Term Arrow ArrowRef Stream Ipc IpcThms FlightServer FlightClient FlightFacts ComputeThms.

(** A flight crate that sends a dataset as one message. *)
#[export] Instance ref_flight : FlightCrate := {|
  FlightData := option FlightDescriptor * list RecordBatch;
  data_descriptor := fst;
  encode_batches _ d bs := [Ok (d, bs)];
  decode_batches l := map_ok (@concat RecordBatch) (map_err st_message (collect (map_ok snd) l));
  schema_as_ipc _ := Ok [];
  status_string := st_message
|}.

Section codec.
Context `{RustlerLaws Term}.

(** Descriptors round trip: what [encode_descriptor] makes of a command or
    path descriptor is decoded to the same descriptor, and a descriptor of
    another wire type is encoded as [nil], never as a path. *)
Theorem descriptor_roundtrip d t :
  encode_descriptor (Some d) = Some t ->
  (canonical d -> decode_descriptor t = Ok d) /\
  (fd_type d <> DESCRIPTOR_CMD -> fd_type d <> DESCRIPTOR_PATH -> t = mk_atom "nil").
Proof.
  intros He. split; [intros Hc; by eapply decode_encode_descriptor|].
  intros H1 H2. unfold encode_descriptor in He.
  rewrite (proj2 (Z.eqb_neq _ _) H1), (proj2 (Z.eqb_neq _ _) H2) in He. congruence.
Qed.

End codec.

Lemma descriptor_roundtrip_witness :
  decode_descriptor (BTuple [BAtom "path"; BList [BBin (as_bytes "a"); BBin (as_bytes "b")]])
  = Ok (mkDescriptor DESCRIPTOR_PATH [] ["a"; "b"]).
Proof.
  apply (descriptor_roundtrip (Term := beam) (mkDescriptor DESCRIPTOR_PATH [] ["a"; "b"])); [reflexivity|].
  right. split_and!; [done..|]. by repeat constructor.
Defined.

Section service.
Context `{FlightCrate}.

(** C18: The service is a map with the history of uploads as its meaning.
    After any sequence of requests the dataset of a key is that of the last
    accepted upload under the key since the last [clear] action: [do_get] by
    ticket and [get_schema] by descriptor answer from it, an unknown key is
    "not found", and the [list_tickets] action lists exactly the stored keys,
    each once. *)
Theorem flight_service_refines_log (log : list Update) :
  let svc := after log in
  (forall ticket, do_get svc ticket =
     match stored (rev log) (from_utf8_lossy ticket) with
     | Some (s, bs) => Ok (map (map_err internal) (encode_batches s None bs))
     | None => Err (unknown_ticket (from_utf8_lossy ticket))
     end) /\
  (forall desc k, descriptor_to_key desc = Some k -> get_schema svc desc =
     match stored (rev log) k with
     | Some (s, _) => schema_ipc_bytes s
     | None => Err (unknown_ticket k)
     end) /\
  (exists keys, do_action svc "list_tickets" = (Ok (map as_bytes keys), svc) /\ NoDup keys /\
     forall k, k ∈ keys <-> stored (rev log) k <> None).
Proof.
  cbv zeta. pose proof (fun k => after_stored log k) as Ha.
  assert (m_poisoned (after log) = false) as Hp by (apply (Ha "")).
  assert (forall k, m_value (after log) !! k = stored (rev log) k) as Hl by (intros k; apply Ha).
  split; [|split].
  - intros ticket. unfold do_get, lock_state, lock. rewrite Hp. cbn [ok_or mbind res_bind]. rewrite Hl.
    by destruct (stored _ _) as [[s bs]|].
  - intros desc k Hk. unfold get_schema, lock_state, lock. rewrite Hk, Hp. cbn [ok_or mbind res_bind].
    rewrite Hl. by destruct (stored _ _) as [[s bs]|].
  - exists (map fst (map_to_list (m_value (after log)))). split_and!.
    + unfold do_action, lock_state, lock. rewrite Hp. cbn [String.eqb Ascii.eqb Bool.eqb ok_or mbind res_bind].
      do 2 f_equal. rewrite map_map. apply map_ext. by intros [k [s bs]].
    + apply NoDup_fst_map_to_list.
    + intros k. rewrite <-Hl. rewrite list_elem_of_fmap. split.
      * intros ([k' ds] & -> & Hk%elem_of_map_to_list) Hn. by pose proof (eq_trans (eq_sym Hk) Hn).
      * intros Hk. destruct (m_value (after log) !! k) as [ds|] eqn:E; [|done].
        exists (k, ds). split; [done|]. by apply elem_of_map_to_list.
Qed.

(** Tickets work.  In every state the service can reach, the ticket that
    [get_flight_info] returns for a descriptor fetches, through [do_get], the
    dataset stored under that descriptor's key (its UTF-8 text or its path
    segments joined with "/"), whose rows the total counts. *)
Theorem flight_ticket_fetches_dataset log desc info :
  canonical_puts log -> canonical desc -> get_flight_info (after log) desc = Ok info ->
  exists k s bs ticket,
    descriptor_to_key desc = Some k /\ stored (rev log) k = Some (s, bs) /\
    fi_endpoint info = [mkEndpoint (Some ticket) []] /\ fi_descriptor info = Some desc /\
    fi_total_records info = total_rows bs /\
    do_get (after log) ticket = Ok (map (map_err internal) (encode_batches s None bs)).
Proof.
  intros Hlog Hc Hg. unfold get_flight_info in Hg.
  apply bind_Ok in Hg as (k & Hk%ok_or_Ok & Hg). apply bind_Ok in Hg as (ds & Hds & Hg).
  destruct (after_stored log k) as [Hp Hl].
  unfold lock_state, lock in Hds. rewrite Hp in Hds. injection Hds as <-.
  rewrite Hl in Hg. destruct (stored (rev log) k) as [[s bs]|] eqn:Es; [|done].
  apply bind_Ok in Hg as (sb & _ & [= <-]). exists k, s, bs, (as_bytes k). split_and!; try done.
  unfold do_get, lock_state, lock. rewrite Hp. cbn [ok_or mbind res_bind].
  rewrite lossy_of_str by (by eapply canonical_key). by rewrite Hl.
Qed.

(** Every listed flight can be fetched: the command descriptor and the
    ticket of each entry of [list_flights] both lead to the entry's dataset,
    and every stored dataset is listed. *)
Theorem listed_flights_fetchable log infos :
  canonical_puts log -> list_flights (after log) = Ok (map Ok infos) ->
  (forall info, info ∈ infos -> exists k s bs,
     stored (rev log) k = Some (s, bs) /\
     fi_descriptor info = Some (mkDescriptor DESCRIPTOR_CMD (as_bytes k) []) /\
     fi_endpoint info = [mkEndpoint (Some (as_bytes k)) []] /\
     get_flight_info (after log) (mkDescriptor DESCRIPTOR_CMD (as_bytes k) []) = Ok info /\
     do_get (after log) (as_bytes k) = Ok (map (map_err internal) (encode_batches s None bs))) /\
  (forall k, stored (rev log) k <> None ->
     exists info, info ∈ infos /\ fi_endpoint info = [mkEndpoint (Some (as_bytes k)) []]).
Proof.
  intros Hlog Hlist.
  assert (m_poisoned (after log) = false) as Hp by (apply (after_stored log "")).
  assert (forall k, m_value (after log) !! k = stored (rev log) k) as Hl by (intros k; apply after_stored).
  unfold list_flights, lock_state, lock in Hlist. rewrite Hp in Hlist. cbn [ok_or mbind res_bind] in Hlist.
  injection Hlist as Hlist.
  assert (Forall2 (fun '(k, (s, bs)) info => exists sb, schema_ipc_bytes s = Ok sb /\
      info = dataset_info (mkDescriptor DESCRIPTOR_CMD (as_bytes k) []) k sb bs)
    (map_to_list (m_value (after log))) infos) as Hf.
  { revert Hlist. generalize (map_to_list (m_value (after log))). intros l. revert infos.
    induction l as [|[k [s bs]] l IH]; intros [|info infos] Hm; cbn in Hm; try done; constructor.
    - injection Hm as Hm _. apply bind_Ok in Hm as (sb & Hsb & [= <-]). eauto.
    - injection Hm as _ Hm. by apply IH. }
  split.
  - intros info [i Hi]%list_elem_of_lookup.
    destruct (Forall2_lookup_r _ _ _ _ _ Hf Hi) as ([k [s bs]] & Hk & sb & Hsb & ->).
    apply list_elem_of_lookup_2, elem_of_map_to_list in Hk. pose proof Hk as Hst. rewrite Hl in Hst.
    assert (canonical_puts (rev log)) as Hlog' by (by apply Forall_rev).
    pose proof (stored_key_valid _ _ _ Hlog' Hst) as Hv.
    exists k, s, bs. split_and!; try done.
    + unfold get_flight_info, lock_state, lock, descriptor_to_key. cbn [fd_type Z.eqb DESCRIPTOR_CMD Pos.eqb fd_cmd].
      rewrite lossy_of_str, Hp by done. cbn [ok_or mbind res_bind]. by rewrite Hl, Hst; cbn; rewrite Hsb.
    + unfold do_get, lock_state, lock. rewrite Hp, lossy_of_str by done. cbn [ok_or mbind res_bind]. by rewrite Hl, Hst.
  - intros k Hk. rewrite <-Hl in Hk. destruct (m_value (after log) !! k) as [[s bs]|] eqn:E; [|done].
    apply elem_of_map_to_list, list_elem_of_lookup in E as [i Hi].
    destruct (Forall2_lookup_l _ _ _ _ _ Hf Hi) as (info & Hinfo & sb & _ & ->).
    eexists. split; [by eapply list_elem_of_lookup_2|]. done.
Qed.

(** A rejected upload changes nothing: whenever [do_put] replies with a
    status the datasets are as before; an empty request stream and a stream
    without record batches are refused as invalid arguments. *)
Theorem rejected_put_keeps_state log stream :
  (~ is_ok (fst (do_put (after log) stream)) -> snd (do_put (after log) stream) = after log) /\
  fst (do_put (after log) []) = Err (invalid_argument "do_put: empty stream") /\
  (forall first rest, decode_batches (Ok first :: rest) = Ok [] ->
     fst (do_put (after log) (Ok first :: rest))
     = Err (invalid_argument "do_put rejected: stream contained no record batches")).
Proof.
  split; [|split; [done|]].
  - intros Hn. pose proof (do_put_spec (after log) stream (proj1 (after_stored log ""))) as Hs.
    destruct (accepted stream) as [[k ds]|]; [|by destruct Hs].
    rewrite Hs in Hn. by destruct Hn.
  - intros first rest Hd. cbn. by rewrite Hd.
Qed.

(** Distinct descriptors can share a ticket.  The path ["a", "b"] and the
    command "a/b" have one key, and so have any two commands that are not
    UTF-8 and repair to the same text, such as <<255>> and <<254>>: an upload
    under one replaces the dataset of the other. *)
Theorem descriptor_keys_collide :
  descriptor_to_key (mkDescriptor DESCRIPTOR_PATH [] ["a"; "b"])
    = descriptor_to_key (mkDescriptor DESCRIPTOR_CMD (as_bytes "a/b") []) /\
  descriptor_to_key (mkDescriptor DESCRIPTOR_CMD [Byte.xff] [])
    = descriptor_to_key (mkDescriptor DESCRIPTOR_CMD [Byte.xfe] []) /\
  forall d1 d2 k first1 rest1 first2 rest2 b1 bs1 b2 bs2,
    descriptor_to_key d1 = Some k -> descriptor_to_key d2 = Some k ->
    data_descriptor first1 = Some d1 -> decode_batches (Ok first1 :: rest1) = Ok (b1 :: bs1) ->
    data_descriptor first2 = Some d2 -> decode_batches (Ok first2 :: rest2) = Ok (b2 :: bs2) ->
    stored (rev [UPut (Ok first1 :: rest1); UPut (Ok first2 :: rest2)]) k = Some (rb_schema b2, b2 :: bs2).
Proof.
  split; [done|]. split; [done|]. intros d1 d2 k f1 r1 f2 r2 b1 bs1 b2 bs2 Hk1 Hk2 H1 Hd1 H2 Hd2.
  cbn [rev app stored accepted]. rewrite Hd2, H2. cbn [mbind option_bind]. rewrite Hk2. cbn [default].
  by rewrite String.eqb_refl.
Qed.

End service.

(** Two uploads: [sample_batch] under the command "x", and without a descriptor. *)
Definition sample_log : list Update :=
  [UPut [Ok (Some (mkDescriptor DESCRIPTOR_CMD (as_bytes "x") []), [sample_batch])];
   UPut [Ok (None, [sample_batch])]].

Lemma sample_log_canonical : canonical_puts sample_log.
Proof. apply Forall_cons; split; [cbn; intros d [= <-]; by left|]. apply Forall_singleton. by intros d. Defined.

Lemma flight_ticket_fetches_dataset_witness :
  exists info, get_flight_info (after sample_log) (mkDescriptor DESCRIPTOR_CMD (as_bytes "x") []) = Ok info /\
    exists k s bs ticket,
      descriptor_to_key (mkDescriptor DESCRIPTOR_CMD (as_bytes "x") []) = Some k /\
      stored (rev sample_log) k = Some (s, bs) /\
      fi_endpoint info = [mkEndpoint (Some ticket) []] /\
      fi_descriptor info = Some (mkDescriptor DESCRIPTOR_CMD (as_bytes "x") []) /\
      fi_total_records info = total_rows bs /\
      do_get (after sample_log) ticket = Ok (map (map_err internal) (encode_batches s None bs)).
Proof.
  eexists. split; [vm_compute; reflexivity|].
  apply flight_ticket_fetches_dataset; [exact sample_log_canonical|by left|vm_compute; reflexivity].
Defined.

Lemma listed_flights_fetchable_witness :
  exists infos, list_flights (after sample_log) = Ok (map Ok infos) /\
    forall k, stored (rev sample_log) k <> None ->
      exists info, info ∈ infos /\ fi_endpoint info = [mkEndpoint (Some (as_bytes k)) []].
Proof.
  assert (exists infos, list_flights (after sample_log) = Ok (map Ok infos)) as [infos Hi].
  { eexists [_; _]. vm_compute. reflexivity. }
  exists infos. split; [exact Hi|].
  exact (proj2 (listed_flights_fetchable sample_log infos sample_log_canonical Hi)).
Defined.

Lemma rejected_put_keeps_state_witness :
  snd (do_put (after sample_log) [Err (internal "broken")]) = after sample_log.
Proof. apply (rejected_put_keeps_state sample_log [Err (internal "broken")]). intros []. Defined.

Lemma descriptor_keys_collide_witness :
  stored (rev [UPut [Ok (Some (mkDescriptor DESCRIPTOR_CMD [Byte.xff] []), [sample_batch])];
               UPut [Ok (Some (mkDescriptor DESCRIPTOR_CMD [Byte.xfe] []), [sample_batch; sample_batch])]])
    (of_bytes replacement) = Some (sample_schema, [sample_batch; sample_batch]).
Proof.
  exact (proj2 (proj2 (descriptor_keys_collide (H := ref_flight)))
    (mkDescriptor DESCRIPTOR_CMD [Byte.xff] []) (mkDescriptor DESCRIPTOR_CMD [Byte.xfe] []) _
    (Some (mkDescriptor DESCRIPTOR_CMD [Byte.xff] []), [sample_batch]) []
    (Some (mkDescriptor DESCRIPTOR_CMD [Byte.xfe] []), [sample_batch; sample_batch]) []
    sample_batch [] sample_batch [sample_batch] eq_refl eq_refl eq_refl eq_refl eq_refl eq_refl).
Defined.
