(* ===== verification/FlightEnd.v ===== *)
(** * Theorems about the server's life cycle and a client connected to it *)

From S2P Require Import Prelude Float Utf8 Term Arrow ArrowRef Stream Parquet ParquetRows Ipc IpcThms IpcRound FlightServer FlightClient FlightFacts FlightThms ComputeThms.

(** ** Starting and stopping *)

Section lifecycle.
Context `{ServerEnv} `{Rustler Term}.

Lemma probe_loop_spec addr n i :
  probe_loop addr i n = true <-> exists j, (i <= j < i + n)%nat /\ probe_connects addr j = true.
Proof.
  revert i. induction n as [|n IH]; intros i; cbn; [split; [done|intros (j & ? & _); lia]|].
  destruct (probe_connects addr i) eqn:E.
  - split; [|done]. intros _. exists i. split; [lia|done].
  - rewrite IH. split; intros (j & Hj & Hp); exists j; (split; [|done]); [lia|].
    destruct (decide (j = i)) as [->|]; [congruence|lia].
Qed.

(** What a start needs of its environment; [local] is the listener's address. *)
Definition start_ok (host : string) (port : Z) (mode : ServerTlsMode) (local : SocketAddr) : Prop :=
  runtime_new = Ok () /\
  (exists addr listener, parse_addr (host +:+ ":" +:+ pretty port) = Ok addr /\
     tcp_bind addr = Ok listener /\ local = default addr listener) /\
  (mode = ServerPlaintext \/ tls_config mode = Ok ()) /\
  (exists j, (j < 80)%nat /\
     probe_connects (probe_ip (addr_ip local) +:+ ":" +:+ pretty (addr_port local)) j = true).

Lemma tls_step (mode : ServerTlsMode) :
  match mode with ServerPlaintext => Ok () | _ => tls_config mode end = Ok ()
  <-> mode = ServerPlaintext \/ tls_config mode = Ok ().
Proof. destruct mode; naive_solver. Qed.

Lemma server_thread_Ok host port mode a :
  server_thread host port mode = Ok a <->
  exists local, start_ok host port mode local /\ a = (addr_ip local, addr_port local).
Proof.
  unfold server_thread, start_ok. rewrite bind_Ok. split.
  - intros ([] & Hr & (addr & Ha & (listener & Hb & ([] & Ht%tls_step & Hp)%bind_Ok)%bind_Ok)%bind_Ok).
    destruct (probe_loop _ _ _) eqn:E in Hp; [|done]. injection Hp as <-.
    apply probe_loop_spec in E as (j & Hj & Hp). exists (default addr listener).
    split; [|done]. split_and!; eauto. exists j. split; [lia|done].
  - intros (local & (Hr & (addr & listener & Ha & Hb & ->) & Ht & (j & Hj & Hp)) & ->).
    exists (). split; [done|]. apply bind_Ok. exists addr. split; [done|].
    apply bind_Ok. exists listener. split; [done|]. apply bind_Ok. exists (). split; [by apply tls_step|].
    rewrite (proj2 (probe_loop_spec _ 80 0)); [done|]. exists j. split; [lia|done].
Qed.

(** C40: Starting a server either gives a handle on a ready server or says what
    failed.  The reply is a handle exactly if the TLS option is understood,
    the runtime starts, the address parses, the port can be bound, the TLS
    material is accepted and one of the first 80 readiness probes connects;
    the handle then reports the listener's own address and port (not the
    requested port 0).  The first [stop] of a handle signals the shutdown and
    then joins the thread, every later one does nothing, and all answer [:ok]. *)
Theorem server_lifecycle host port (tls : Term) h :
  (flight_server_start host port tls = ROk h <->
   exists mode local, parse_server_tls tls = Ok mode /\ start_ok host port mode local /\
     h = mkServerHandle (new_mutex (Some ())) (addr_ip local) (addr_port local) (new_mutex (Some ()))) /\
  (flight_server_start host port tls = ROk h ->
   let '(r1, e1, h1) := flight_server_stop h in
   r1 = RAtom "ok" /\ e1 = [SignalShutdown; JoinThread] /\
   flight_server_port h1 = flight_server_port h /\ flight_server_host h1 = flight_server_host h /\
   flight_server_stop h1 = (RAtom "ok", [], h1)).
Proof.
  unfold flight_server_start. split; [split|].
  - destruct (parse_server_tls tls) as [mode| |]; cbn [reply_with]; try done.
    destruct (server_thread host port mode) as [[ip p]| |] eqn:Et; intros [= <-].
    apply server_thread_Ok in Et as (local & Hs & [= -> ->]). eauto.
  - intros (mode & local & -> & Hs & ->). cbn [reply_with].
    by rewrite (proj2 (server_thread_Ok host port mode _) (ex_intro _ local (conj Hs eq_refl))).
  - destruct (parse_server_tls tls) as [mode| |]; cbn [reply_with]; try done.
    by destruct (server_thread host port mode) as [[ip p]| |]; intros [= <-].
Qed.

End lifecycle.

(** A host on which everything works and the third probe connects. *)
#[export] Instance ref_server : ServerEnv := {|
  SocketAddr := string * Z;
  runtime_new := Ok ();
  parse_addr a := Ok (a, 0);
  tcp_bind a := Ok (Some ("127.0.0.1", 41000));
  addr_ip := fst;
  addr_port := snd;
  tls_config _ := Err "bad certificate";
  probe_connects _ i := (2 <=? i)%nat
|}.

Lemma server_lifecycle_witness :
  flight_server_start "127.0.0.1" 0 (BAtom "plaintext")
  = ROk (mkServerHandle (new_mutex (Some ())) "127.0.0.1" 41000 (new_mutex (Some ()))).
Proof.
  apply (server_lifecycle "127.0.0.1" 0 (BAtom "plaintext")).
  exists ServerPlaintext, ("127.0.0.1", 41000). split; [reflexivity|]. split; [|reflexivity].
  split_and!; [reflexivity|by exists ("127.0.0.1:0", 0), (Some ("127.0.0.1", 41000))|by left|]. exists 2%nat. split; [lia|reflexivity].
Defined.

(** ** A client of the service *)

(** What the Flight encoding promises, on both of its decoders: what decodes is
    the table that was encoded, if its batches have the schema they are encoded
    with and no column is nested or a dictionary (the encoder changes the types
    of these), and the descriptor travels with the first message.  The encoder
    splits batches that are too large for a message, so the table may come back
    in another cut. *)
Class FlightLaws `{Arrow, FlightCrate} (decode_stream : list (res Status FlightData) -> list (res string RecordBatch))
    : Prop := {
  encoded_decodes s d bs ms bs' :
    scalar_schema s -> uniform s bs ->
    encode_batches s d bs = map Ok ms -> decode_batches (map Ok ms) = Ok bs' -> same_table s bs' bs;
  encoded_streams s bs bs' :
    scalar_schema s -> uniform s bs ->
    decode_stream (map (map_err internal) (encode_batches s None bs)) = map Ok bs' -> same_table s bs' bs;
  encoded_descriptor s d bs first rest :
    encode_batches s d bs = Ok first :: rest -> data_descriptor first = d
}.

Section client.
Context `{RustlerLaws Term} `{Arrow} `{FlightCrate} `{IpcCrate} {SL : StreamLaws}.
Context (schema_from_ipc : bytes -> res string Schema)
        (decode_stream : list (res Status FlightData) -> list (res string RecordBatch))
        (deadline : Z -> Deadline) {FL : FlightLaws decode_stream}.

#[local] Instance net : FlightRpc Service := loopback schema_from_ipc decode_stream deadline.

Lemma write_rest_content w stream w' :
  write_rest w stream = Ok w' ->
  exists bs, stream = map Ok bs /\
    (Forall (fun b => rb_schema b = fst (stream_content w)) bs ->
     stream_content w' = (fst (stream_content w), snd (stream_content w) ++ bs)).
Proof.
  revert w. induction stream as [|x stream IH]; intros w; cbn.
  - intros [= <-]. exists []. rewrite app_nil_r. by destruct (stream_content w).
  - intros (b & -> & (w1 & Hw%map_err_Ok & Hr)%bind_Ok)%bind_Ok.
    apply IH in Hr as (bs & -> & Hc). exists (b :: bs). split; [done|]. intros [Hb Hbs]%Forall_cons.
    apply (writer_appends _ _ _ Hb) in Hw. rewrite Hc by (by rewrite Hw). rewrite Hw. cbn. by rewrite <-app_assoc.
Qed.

(** The key an upload is stored under. *)
Definition upload_key (d : option FlightDescriptor) : string :=
  default (from_utf8_lossy ECHO_TICKET) (d ≫= descriptor_to_key).

Lemma upload_key_valid (t : Term) d : put_descriptor t = Ok d -> valid_str (upload_key d) = true.
Proof.
  unfold put_descriptor. case_bool_decide; [by intros [= <-]|].
  intros (d' & Hd & [= <-])%bind_Ok. unfold upload_key. cbn [mbind option_bind].
  destruct (descriptor_to_key d') as [k|] eqn:Ek; [|done].
  eapply canonical_key; [by eapply decode_descriptor_canonical|done].
Qed.

Lemma sent_all {A} (ms : list A) : sent (map Ok ms) = (ms, None).
Proof. induction ms as [|m ms IH]; [done|]. cbn. by rewrite IH. Qed.

Lemma sent_prefix {A} (ms : list A) e rest : sent (map Ok ms ++ Err e :: rest) = (ms, Some e).
Proof. induction ms as [|m ms IH]; [done|]. cbn. by rewrite IH. Qed.

(** The client answers [:ok] exactly if the service accepts the messages that
    were sent, and these determine what is stored; its handle stays usable. *)
Lemma client_put_spec log client schema batches (t : Term) d ms failure :
  put_descriptor t = Ok d -> lock client = Some () ->
  sent (encode_batches schema d batches) = (ms, failure) ->
  exists r, flight_client_do_put client (after log) schema batches t = (r, client, after (log ++ [UPut (map Ok ms)])) /\
    (r = RAtom "ok" <-> accepted (map Ok ms) <> None).
Proof.
  intros Hd Hl Hm. unfold flight_client_do_put. rewrite Hd, Hl. cbn [rpc_do_put net loopback]. rewrite Hm.
  apply lock_Some in Hl as ->.
  assert (forall r svc', do_put (after log) (map Ok ms) = (r, svc') -> svc' = after (log ++ [UPut (map Ok ms)])) as Hs.
  { intros r svc' Hp. unfold after. rewrite foldl_snoc. cbn. fold (after log). by rewrite Hp. }
  pose proof (do_put_spec (after log) (map Ok ms) (proj1 (after_stored log ""))) as Hp.
  destruct (do_put (after log) (map Ok ms)) as [r svc'] eqn:Ep. rewrite <-(Hs _ _ eq_refl).
  destruct (accepted (map Ok ms)) as [[k ds]|].
  - injection Hp as -> ->. exists (RAtom "ok"). cbn [arrived map_ok].
    assert (drain_results (map Err (option_list failure) ++ [Ok ()]) = Ok ()) as Hd' by (by destruct failure).
    change (_ ≫= _) with (drain_results (map Err (option_list failure) ++ [Ok ()])). by rewrite Hd'.
  - destruct Hp as [_ Hp]. destruct r as [|e|e]; [done| |]; eexists; (split; [reflexivity|done]).
Qed.

(** The dataset of the key of an upload whose messages decode. *)
Lemma uploaded log d ms b bs first rest :
  ms = first :: rest -> data_descriptor first = d -> decode_batches (map Ok ms) = Ok (b :: bs) ->
  accepted (map Ok ms) <> None /\
  let srv := after (log ++ [UPut (map Ok ms)]) in
  m_poisoned srv = false /\ (m_value srv : gmap string _) !! upload_key d = Some (rb_schema b, b :: bs).
Proof.
  intros -> Hd Hb.
  assert (accepted (map Ok (first :: rest)) = Some (upload_key d, (rb_schema b, b :: bs))) as Ha.
  { cbn in *. by rewrite Hb, Hd. }
  split; [by rewrite Ha|]. cbv zeta.
  destruct (after_stored (log ++ [UPut (map Ok (first :: rest))]) (upload_key d)) as [Hp Hl].
  split; [done|]. etransitivity; [exact Hl|]. rewrite rev_app_distr. cbn [rev app stored].
  by rewrite Ha, String.eqb_refl.
Qed.

(** An upload the service accepts has a first message and decodes to a batch. *)
Lemma accepted_inv ms :
  accepted (map Ok ms) <> None ->
  exists first rest b bs, ms = first :: rest /\ decode_batches (map Ok ms) = Ok (b :: bs).
Proof.
  destruct ms as [|first rest]; [done|]. cbn. destruct (decode_batches _) as [[|b bs]| |] eqn:E; try done. eauto 10.
Qed.

(** A successful [do_get] delivers the stored table. *)
Lemma client_get_delivers client (srv : Service) key s batches m client' srv'' :
  valid_str key = true -> m_poisoned srv = false -> (m_value srv : gmap string _) !! key = Some (s, batches) ->
  scalar_schema s -> uniform s batches ->
  flight_client_do_get client srv (as_bytes key) = (ROk (StreamBinary m), client', srv'') ->
  srv'' = srv /\ client' = client /\ exists bs, delivers (StreamBinary m) bs /\ same_table s bs batches.
Proof.
  intros Hv Hp Hl Hscalar Hsch. unfold flight_client_do_get.
  destruct (lock client) as [[]|] eqn:Hc; [|done]. apply lock_Some in Hc as ->.
  cbn [rpc_do_get net loopback]. unfold do_get, lock_state, lock. rewrite Hp, lossy_of_str by done.
  cbn [ok_or mbind res_bind]. change (m_value srv !! key = Some (s, batches)) in Hl. rewrite Hl.
  cbn [arrived map_err mbind res_bind].
  destruct (decode_stream _) as [|[fb|e|p] rest] eqn:Es; cbn; try done.
  unfold reply. destruct (_ ≫= _) as [st| |] eqn:Er; cbn; try done. intros [= -> <- <-]. do 2 (split; [done|]).
  apply bind_Ok in Er as (w0 & Hw0%map_err_Ok%writer_starts & Er).
  apply bind_Ok in Er as (w1 & Hw1%map_err_Ok & Er). apply writer_appends in Hw1; [|by rewrite Hw0].
  apply bind_Ok in Er as (w2 & (bs & -> & Hw2)%write_rest_content & Er).
  apply bind_Ok in Er as (data & Hfin%map_err_Ok & Er).
  apply bind_Ok in Er as (r & Hr%map_err_Ok & [= <-]).
  apply (encoded_streams _ _ (fb :: bs) Hscalar Hsch) in Es as Htab.
  pose proof Htab as ([[_ Hfb] Hbs]%Forall_cons & _). exists (fb :: bs). split; [|done].
  rewrite Hw0 in Hw1. rewrite Hw1 in Hw2. cbn [fst snd app] in Hw2. rewrite Hfb in Hw2.
  assert (Forall (fun b => rb_schema b = s) bs) as Hbs' by (eapply Forall_impl; [exact Hbs|]; by intros b [_ ?]).
  specialize (Hw2 Hbs').
  destruct (finished_reads_back w2 data Hfin) as (r' & Hr' & _ & Hit). rewrite Hw2 in Hit.
  assert (r' = r) as -> by congruence. by apply reads_delivers_binary.
Qed.

(** C19: What a client puts it can get back.  When the batches have the given
    schema, without nested or dictionary columns, every one could be encoded
    and [do_put] answers [:ok], the service has stored the client's table under
    the key of its descriptor ("echo" without one), in one batch or more; and a
    [do_get] with that ticket that returns a stream leaves the service as it is
    and delivers batches of that schema, then [:done] for ever, which hold all
    rows of the client's batches, each once and in order.  Where the encoder
    cuts batches cannot be seen in the rows. *)
Theorem put_then_get log client schema batches (t : Term) d ms client' srv' :
  scalar_schema schema -> uniform schema batches ->
  put_descriptor t = Ok d -> encode_batches schema d batches = map Ok ms ->
  flight_client_do_put client (after log) schema batches t = (RAtom "ok", client', srv') ->
  srv' = after (log ++ [UPut (map Ok ms)]) /\ client' = client /\
  (exists stored, stored <> [] /\ (m_value srv' : gmap string _) !! upload_key d = Some (schema, stored) /\
     same_table schema stored batches) /\
  forall m client'' srv'',
    flight_client_do_get client' srv' (as_bytes (upload_key d)) = (ROk (StreamBinary m), client'', srv'') ->
    srv'' = srv' /\ client'' = client' /\
    exists bs, delivers (StreamBinary m) bs /\ same_table schema bs batches.
Proof.
  intros Hscalar Hsch Hd Hms Hput.
  assert (lock client = Some ()) as Hl.
  { unfold flight_client_do_put in Hput. rewrite Hd in Hput. by destruct (lock client) as [[]|]. }
  destruct (client_put_spec log client schema batches t d ms None Hd Hl) as (r & Hs & Hok); [by rewrite Hms, sent_all|].
  rewrite Hput in Hs. injection Hs as <- -> ->. do 2 (split; [done|]).
  destruct (accepted_inv ms (proj1 Hok eq_refl)) as (first & rest & b & bs & Hf & Hb).
  assert (data_descriptor first = d) as Hfd by (eapply encoded_descriptor; by rewrite Hms, Hf).
  destruct (uploaded log d ms b bs first rest Hf Hfd Hb) as (_ & Hp & Hst).
  apply (encoded_decodes _ _ _ _ _ Hscalar Hsch Hms) in Hb as Htab.
  pose proof Htab as (Hu & _). pose proof Hu as [[_ Hbs] _]%Forall_cons. rewrite Hbs in Hst.
  split; [by exists (b :: bs)|]. intros m client'' srv'' Hget.
  eapply client_get_delivers in Hget as (-> & -> & bs' & Hdel & Ht');
    [|by eapply upload_key_valid|exact Hp|exact Hst|done|done].
  do 2 (split; [done|]). exists bs'. split; [done|]. by etransitivity.
Qed.

(** C27: A truncated upload is reported as a success.  If the encoding of a later
    batch fails, the messages before it have been sent and the error comes
    back among the results, which [do_put] drains without looking at them: it
    answers [:ok], and the service has stored the first batches only. *)
Theorem put_truncated_reported_ok log client schema batches (t : Term) d first rest e more b bs :
  put_descriptor t = Ok d -> lock client = Some () ->
  encode_batches schema d batches = map Ok (first :: rest) ++ Err e :: more ->
  decode_batches (map Ok (first :: rest)) = Ok (b :: bs) ->
  exists srv', flight_client_do_put client (after log) schema batches t = (RAtom "ok", client, srv') /\
    (m_value srv' : gmap string _) !! upload_key d = Some (rb_schema b, b :: bs).
Proof.
  intros Hd Hl He Hb.
  destruct (client_put_spec log client schema batches t d (first :: rest) (Some e) Hd Hl) as (r & -> & Hok);
    [by rewrite He, sent_prefix|].
  assert (data_descriptor first = d) as Hfd by (eapply encoded_descriptor; by rewrite He).
  destruct (uploaded log d (first :: rest) b bs first rest eq_refl Hfd Hb) as (Ha & _ & Hst).
  eexists. split; [|exact Hst]. by rewrite (proj2 Hok Ha).
Qed.

End client.

(** [decode_stream] of [ref_flight]: the batches of the messages. *)
Definition ref_decode_stream (l : list (res Status (option FlightDescriptor * list RecordBatch)))
    : list (res string RecordBatch) :=
  l ≫= fun m => match m with Ok (_, bs) => map Ok bs | Err e => [Err (st_message e)] | Panic s => [Panic s] end.

(** A crate whose encoder cuts a batch without columns into batches of one row,
    and sends no message for an empty one. *)
Definition cut_batch (b : RecordBatch) : list RecordBatch :=
  match rb_columns b with [] => replicate (rb_num_rows b) (mkBatch (rb_schema b) [] 1) | _ => [b] end.

Definition cut (bs : list RecordBatch) : list RecordBatch := concat (map cut_batch bs).

Definition cut_flight : FlightCrate := {|
  FlightData := option FlightDescriptor * list RecordBatch;
  data_descriptor := fst;
  encode_batches _ d bs := [Ok (d, cut bs)];
  decode_batches l := map_ok (@concat RecordBatch) (map_err st_message (collect (map_ok snd) l));
  schema_as_ipc _ := Ok [];
  status_string := st_message
|}.

Lemma same_table_nil `{Arrow} s : same_table s [] [].
Proof. by split_and!; try constructor. Qed.

Lemma same_table_refl `{Arrow} s bs : uniform s bs -> same_table s bs bs.
Proof. done. Qed.

Lemma cut_batch_table s b : uniform s [b] -> same_table s (cut_batch b) [b].
Proof.
  intros Hu. unfold cut_batch. destruct (rb_columns b) as [|c cs] eqn:Ec; [|done].
  pose proof Hu as [[(Hl & _ & _) Hs] _]%Forall_cons. rewrite Ec in Hl.
  assert (fields s = []) as Hf by (rewrite <-Hs; by destruct (fields (rb_schema b))).
  split_and!; [|done| |intros c Hc; rewrite Hf in Hc; by apply elem_of_nil in Hc].
  - apply Forall_replicate. rewrite Hs. split; [|done]. unfold wf_batch. cbn. rewrite Hf. by split_and!.
  - unfold total_rows. cbn. rewrite Nat.add_0_r. induction (rb_num_rows b) as [|n IH]; [done|]. cbn. by f_equal.
Qed.

Lemma cut_table s bs : uniform s bs -> same_table s (cut bs) bs.
Proof.
  unfold cut. induction 1 as [|b bs Hb Hbs IH]; [apply same_table_nil|]. cbn [map concat].
  apply (same_table_app s (cut_batch b) [b]); [|exact IH]. apply cut_batch_table. by constructor.
Qed.

Lemma decoded_stream_Ok (bs bs' : list RecordBatch) : map (@Ok string _) bs = map Ok bs' -> bs' = bs.
Proof. revert bs'. induction bs as [|b bs IH]; intros [|b' bs']; cbn; try done. intros [= <- Hm%IH]. by subst. Qed.

#[local] Instance cut_flight_laws : FlightLaws (H0 := cut_flight) ref_decode_stream.
Proof.
  split; cbn.
  - intros s d bs [|m ms] bs' _ Hu; cbn; [done|]. intros [= <- Hm]. symmetry in Hm. apply map_eq_nil in Hm as ->.
    cbn. rewrite app_nil_r. intros [= <-]. by apply cut_table.
  - intros s bs bs' _ Hu. rewrite app_nil_r. intros ->%decoded_stream_Ok. by apply cut_table.
  - by intros s d bs first rest [= <- _].
Qed.

(** An upload of batches of two rows and of none under the command "x". *)
Definition unary_log : list (@Update cut_flight) :=
  [@UPut cut_flight [Ok (Some (mkDescriptor DESCRIPTOR_CMD (as_bytes "x") []), [unary_batch 1; unary_batch 1])]].

Notation cut_net := (net (H2 := cut_flight) (fun _ => Ok (mkSchema [])) ref_decode_stream (fun _ => InTime)).

Lemma put_then_get_witness :
  exists m srv bs, flight_client_do_get (H1 := cut_net) (new_mutex ()) srv (as_bytes "x")
      = (ROk (StreamBinary m), new_mutex (), srv) /\
    delivers (StreamBinary m) bs /\ same_table (mkSchema []) bs [unary_batch 2; unary_batch 0] /\
    ipc_drain 3 (StreamBinary m) = [ROk (unary_batch 1); ROk (unary_batch 1); RAtom "done"].
Proof.
  set (t := BTuple [BAtom "cmd"; BBin (as_bytes "x")]).
  set (srv := @after cut_flight unary_log).
  assert (flight_client_do_get (H1 := cut_net) (new_mutex ()) srv (as_bytes "x")
    = (ROk (StreamBinary (new_mutex [Ok (unary_batch 1); Ok (unary_batch 1)])), new_mutex (), srv))
    as Hget by (vm_compute; reflexivity).
  set (d := Some (mkDescriptor DESCRIPTOR_CMD (as_bytes "x") [])).
  destruct (put_then_get (Term := beam) (H2 := cut_flight) (fun _ => Ok (mkSchema [])) ref_decode_stream (fun _ => InTime)
    [] (new_mutex ()) (mkSchema []) [unary_batch 2; unary_batch 0] t d [(d, [unary_batch 1; unary_batch 1])]
    (new_mutex ()) srv) as (_ & _ & _ & Hall); [by repeat constructor..|reflexivity|reflexivity|reflexivity|].
  destruct (Hall _ _ _ Hget) as (_ & _ & bs & Hdel & Htab).
  exists (new_mutex [Ok (unary_batch 1); Ok (unary_batch 1)]), srv, bs.
  split; [exact Hget|]. split; [exact Hdel|]. split; [exact Htab|]. vm_compute. reflexivity.
Defined.

(** A crate that sends a message per batch and refuses a batch whose number of
    columns is not the schema's. *)
Fixpoint encode_checked (s : Schema) (d : option FlightDescriptor) (bs : list RecordBatch)
    : list (res string (option FlightDescriptor * list RecordBatch)) :=
  match bs with
  | [] => []
  | b :: bs' =>
      (if (length (fields (rb_schema b)) =? length (fields s))%nat then Ok (d, [b])
       else Err "column types must match schema types") :: encode_checked s None bs'
  end.

Definition checked_flight : FlightCrate := {|
  FlightData := option FlightDescriptor * list RecordBatch;
  data_descriptor := fst;
  encode_batches := encode_checked;
  decode_batches l := map_ok (@concat RecordBatch) (map_err st_message (collect (map_ok snd) l));
  schema_as_ipc _ := Ok [];
  status_string := st_message
|}.

Lemma checked_decodes s d bs ms bs' :
  encode_checked s d bs = map Ok ms ->
  @decode_batches checked_flight (map Ok ms) = Ok bs' -> bs' = bs.
Proof.
  intros He. cbn. assert (collect (E := Status) (map_ok snd) (map Ok ms) = Ok (map (fun b => [b]) bs)) as ->.
  { revert d ms He. induction bs as [|b bs IH]; intros d [|m ms] He; cbn in *; try done.
    case_match; [|done]. injection He as <- He. cbn. by rewrite (IH None ms He). }
  cbn. intros [= <-]. clear. induction bs as [|b bs IH]; [done|]. cbn in *. congruence.
Qed.

Lemma checked_laws : FlightLaws (H0 := checked_flight) ref_decode_stream.
Proof.
  split; [intros s d bs ms bs' _ Hu He Hd; rewrite (checked_decodes _ _ _ _ _ He Hd); by apply same_table_refl| |]; cbn.
  - intros s bs bs' _ Hu Hs. assert (bs' = bs) as ->; [|by apply same_table_refl]. revert bs' Hs. clear Hu. generalize (@None FlightDescriptor). induction bs as [|b bs IH]; intros d [|b' bs']; cbn; try done.
    + by destruct (_ =? _)%nat.
    + destruct (_ =? _)%nat; cbn; [|done]. intros [= <- Hm%IH]. by subst.
  - intros s d [|b bs] first rest; cbn; [done|]. case_match; [|done]. by intros [= <- _].
Qed.

(** The second of two batches does not fit the schema. *)
Lemma put_truncated_reported_ok_witness :
  exists srv', flight_client_do_put
        (H1 := net (H2 := checked_flight) (fun _ => Ok (mkSchema [])) ref_decode_stream (fun _ => InTime))
        (new_mutex ()) (@after checked_flight []) (mkSchema []) [unary_batch 2; sample_batch] (BAtom "none")
    = (RAtom "ok", new_mutex (), srv') /\
    (m_value srv' : gmap string _) !! "echo" = Some (mkSchema [], [unary_batch 2]).
Proof.
  apply (put_truncated_reported_ok (Term := beam) (H2 := checked_flight) (FL := checked_laws) (fun _ => Ok (mkSchema [])) ref_decode_stream
    (fun _ => InTime) [] (new_mutex ()) (mkSchema []) [unary_batch 2; sample_batch] (BAtom "none") None
    (None, [unary_batch 2]) [] "column types must match schema types" [] (unary_batch 2) []); reflexivity.
Defined.
