(* ===== verification/FlightLock.v ===== *)
(** * The lock of a Flight client

    Every client NIF takes the connection's mutex, and a panic while it is
    held poisons it.  [client_call] is a call on the handle and the other
    side, [under_lock] the part of it that runs with the lock held. *)

From S2P Require Import Prelude Float Utf8 Term Arrow ArrowRef Stream Ipc IpcThms IpcRound FlightServer FlightClient FlightFacts FlightThms FlightEnd ComputeThms.

Section calls.
Context `{Rustler Term} `{FlightRpc Srv} `{Arrow} `{IpcCrate}.

Inductive ClientCall :=
| ClPut (schema : Schema) (batches : list RecordBatch) (descriptor : Term)
| ClGet (ticket_bytes : bytes)
| ClListFlights (criteria_bytes : bytes) (timeout_ms : Z)
| ClGetFlightInfo (descriptor : Term) (timeout_ms : Z)
| ClGetSchema (descriptor : Term) (timeout_ms : Z)
| ClListActions (timeout_ms : Z)
| ClDoAction (action_type : string) (action_body : bytes) (timeout_ms : Z).

Inductive ClientReply :=
| ClUnit (r : Reply unit)
| ClStream (r : Reply IpcStreamBacking)
| ClTerms (r : Reply (list Term))
| ClTerm (r : Reply Term)
| ClSchema (r : Reply Schema)
| ClActions (r : Reply (list (string * string))).

Definition client_call (call : ClientCall) (st : Client * Srv) : ClientReply * (Client * Srv) :=
  let '(client, srv) := st in
  let on {V} (wrap : Reply V -> ClientReply) (x : (Reply V * Client) * Srv) :=
    let '(r, client, srv) := x in (wrap r, (client, srv)) in
  match call with
  | ClPut schema batches descriptor => on ClUnit (flight_client_do_put client srv schema batches descriptor)
  | ClGet ticket => on ClStream (flight_client_do_get client srv ticket)
  | ClListFlights criteria timeout => on ClTerms (flight_client_list_flights client srv criteria timeout)
  | ClGetFlightInfo descriptor timeout => on ClTerm (flight_client_get_flight_info client srv descriptor timeout)
  | ClGetSchema descriptor timeout => on ClSchema (flight_client_get_schema client srv descriptor timeout)
  | ClListActions timeout => on ClActions (flight_client_list_actions client srv timeout)
  | ClDoAction action body timeout => on ClTerms (flight_client_do_action client srv action body timeout)
  end.

Fixpoint client_run (calls : list ClientCall) (st : Client * Srv) : list ClientReply * (Client * Srv) :=
  match calls with
  | [] => ([], st)
  | call :: rest =>
      let '(r, st) := client_call call st in
      let '(rs, st) := client_run rest st in (r :: rs, st)
  end.

Definition raised (r : ClientReply) : option string :=
  match r with
  | ClUnit (RRaise s) | ClStream (RRaise s) | ClTerms (RRaise s) | ClTerm (RRaise s) | ClSchema (RRaise s)
  | ClActions (RRaise s) => Some s
  | _ => None
  end.

Definition error_message (r : ClientReply) : option NifError :=
  match r with
  | ClUnit (RErr e) | ClStream (RErr e) | ClTerms (RErr e) | ClTerm (RErr e) | ClSchema (RErr e)
  | ClActions (RErr e) => Some e
  | _ => None
  end.

(** What the call does while it holds the lock. *)
Definition under_lock (call : ClientCall) (srv : Srv) : res string unit * Srv :=
  let done {A} (x : res string A * Srv) := (map_ok (fun _ => ()) (fst x), snd x) in
  match call with
  | ClPut schema batches descriptor =>
      match put_descriptor descriptor with
      | Ok d =>
          let '(r, srv) := rpc_do_put srv (encode_batches schema d batches) in
          (result_stream ← r; drain_results result_stream, srv)
      | _ => (Ok (), srv)
      end
  | ClGet ticket => done (rpc_do_get srv ticket)
  | ClListFlights criteria timeout =>
      done (with_timeout srv timeout "list_flights" (fun srv => rpc_list_flights srv criteria))
  | ClGetFlightInfo descriptor timeout =>
      match decode_descriptor descriptor with
      | Ok d => done (with_timeout srv timeout "get_flight_info" (fun srv => rpc_get_flight_info srv d))
      | _ => (Ok (), srv)
      end
  | ClGetSchema descriptor timeout =>
      match decode_descriptor descriptor with
      | Ok d => done (with_timeout srv timeout "get_schema" (fun srv => rpc_get_schema srv d))
      | _ => (Ok (), srv)
      end
  | ClListActions timeout => done (with_timeout srv timeout "list_actions" rpc_list_actions)
  | ClDoAction action body timeout =>
      done (with_timeout srv timeout "do_action" (fun srv => rpc_do_action srv action body))
  end.

Lemma panicking {E A} (m : res E A) : (exists s, m = Panic s) \/ no_panic m.
Proof. destruct m; [by right|by right|left; eauto]. Qed.

Ltac section_end := (split; [done|]); cbn; by intros ? [= ->].

(** The descriptor of a call, which is decoded before the lock is taken. *)
Definition descriptor_of (call : ClientCall) : option Term :=
  match call with ClPut _ _ t | ClGetFlightInfo t _ | ClGetSchema t _ => Some t | _ => None end.

(** A call is refused: an error, or an exception for a descriptor with an
    improper list. *)
Definition refused (call : ClientCall) (r : ClientReply) : Prop :=
  is_Some (error_message r) \/ is_Some (raised r) /\ exists t, descriptor_of call = Some t /\ ~ proper_lists t.

Lemma put_descriptor_no_panic (t : Term) : proper_lists t -> no_panic (put_descriptor t).
Proof.
  intros Hp. unfold put_descriptor. case_bool_decide; [done|].
  apply bind_no_panic; [by apply decode_descriptor_no_panic|done].
Qed.

(** A call on a usable handle: the lock outlives exactly the sections that do
    not panic, and a panic in one is raised. *)
Lemma client_call_usable call srv :
  let '(r, st) := client_call call (new_mutex (), srv) in
  st = (release (fst (under_lock call srv)) (), snd (under_lock call srv)) /\
  forall s, fst (under_lock call srv) = Panic s -> raised r = Some s.
Proof.
  destruct call as [schema batches t|ticket|criteria ms|t ms|t ms|ms|action body ms]; cbn [client_call under_lock].
  - unfold flight_client_do_put.
    destruct (put_descriptor t) as [d| |]; [|done..]. cbn.
    destruct (rpc_do_put srv (encode_batches schema d batches)) as [[l| |] srv']; cbn; [|section_end..].
    destruct (drain_results l); section_end.
  - unfold flight_client_do_get. cbn. destruct (rpc_do_get srv ticket) as [[l| |] srv']; section_end.
  - unfold flight_client_list_flights. cbn. destruct (with_timeout _ _ _ _) as [[l| |] srv']; section_end.
  - unfold flight_client_get_flight_info.
    destruct (decode_descriptor t) as [d| |]; [|done..]. cbn. destruct (with_timeout _ _ _ _) as [[l| |] srv']; section_end.
  - unfold flight_client_get_schema.
    destruct (decode_descriptor t) as [d| |]; [|done..]. cbn. destruct (with_timeout _ _ _ _) as [[l| |] srv']; section_end.
  - unfold flight_client_list_actions. cbn. destruct (with_timeout _ _ _ _) as [[l| |] srv']; section_end.
  - unfold flight_client_do_action. cbn. destruct (with_timeout _ _ _ _) as [[l| |] srv']; section_end.
Qed.

(** A call on a poisoned handle is refused and changes nothing. *)
Lemma client_call_poisoned call srv :
  exists r, client_call call (poison (), srv) = (r, (poison (), srv)) /\ refused call r.
Proof.
  destruct call as [schema batches t|ticket|criteria ms|t ms|t ms|ms|action body ms]; cbn [client_call];
    unfold flight_client_do_put, flight_client_get_flight_info, flight_client_get_schema, refused; cbn [descriptor_of];
    try pose proof (put_descriptor_no_panic t); try pose proof (decode_descriptor_no_panic t);
    try destruct (put_descriptor t); try destruct (decode_descriptor t);
    eexists; (split; [reflexivity|]); first [left; cbn; by eexists | right; split; [by eexists|exists t; split; [done|tauto]]].
Qed.

Lemma run_poisoned calls srv :
  exists rs, client_run calls (poison (), srv) = (rs, (poison (), srv)) /\
    Forall2 refused calls rs.
Proof.
  induction calls as [|call rest (rs & IH & He)]; [by exists []|]. cbn [client_run].
  destruct (client_call_poisoned call srv) as (r & -> & Hr). rewrite IH.
  exists (r :: rs). split; [done|]. by constructor.
Qed.

(** C26: A panic while the lock is held loses the connection, and nothing else
    does.  Over any calls on a new handle, either no call panicked while it
    held the lock and the handle is still usable; or there is a first call
    that did: it raises, and every call after it is refused without reaching
    the server: it answers an error (that of its descriptor, or of the lock),
    or raises because its descriptor holds an improper list. *)
Theorem client_lock_poisoning calls srv :
  let '(rs, (client, srv')) := client_run calls (new_mutex (), srv) in
  (client = new_mutex () /\
   forall before call after rs1 srv1, calls = before ++ call :: after ->
     client_run before (new_mutex (), srv) = (rs1, (new_mutex (), srv1)) -> no_panic (fst (under_lock call srv1))) \/
  (client = poison () /\
   exists before call after rs1 r rs2 srv1 s,
     calls = before ++ call :: after /\ rs = rs1 ++ r :: rs2 /\
     client_run before (new_mutex (), srv) = (rs1, (new_mutex (), srv1)) /\
     fst (under_lock call srv1) = Panic s /\ raised r = Some s /\ srv' = snd (under_lock call srv1) /\
     Forall2 refused after rs2).
Proof.
  revert srv. induction calls as [|call rest IH]; intros srv.
  - left. split; [done|]. by intros [].
  - cbn [client_run]. pose proof (client_call_usable call srv) as Hc. destruct (client_call call (new_mutex (), srv)) as [r st] eqn:Ec.
    destruct Hc as [-> Hp]. destruct (under_lock call srv) as [x srv1] eqn:Eu. cbn [fst snd] in *.
    destruct (panicking x) as [[s ->]|Hnp].
    + destruct (run_poisoned rest srv1) as (rs & Hr & He). change (release (Panic s) ()) with (poison ()).
      rewrite Hr. right. split; [done|]. exists [], call, rest, [], r, rs, srv, s. rewrite Eu. by split_and!; auto.
    + rewrite release_quiet by done. specialize (IH srv1). destruct (client_run rest (new_mutex (), srv1)) as [rs [client srv']].
      destruct IH as [[-> IH]|(-> & before & c & after & rs1 & r1 & rs2 & srv2 & s & -> & -> & Hb & Hu & Hx)]; [left|right].
      * split; [done|]. intros [|c0 before] c after rs1 srv2 [= <- Hrest] Hb; cbn [client_run] in Hb.
        { injection Hb as _ <-. by rewrite Eu. }
        rewrite Ec, release_quiet in Hb by done. destruct (client_run before (new_mutex (), srv1)) as [rs' st'] eqn:Eb.
        injection Hb as _ ->. by eapply IH.
      * split; [done|]. exists (call :: before), c, after, (r :: rs1), r1, rs2, srv2, s. split; [done|]. split; [done|].
        split; [|done]. cbn [client_run]. by rewrite Ec, release_quiet, Hb.
Qed.

End calls.

(** ** One runtime for all connections *)

Section runtime.
Context `{Rustler Term} `{ChannelEnv}.

(** A connection attempt: host, port, timeout and TLS option. *)
Definition Attempt : Type := string * Z * Z * Term.

Fixpoint connects (attempts : list Attempt) (cell : RuntimeCell) : list (Reply (Runtime * Channel)) * RuntimeCell :=
  match attempts with
  | [] => ([], cell)
  | (host, port, timeout, tls) :: rest =>
      let '(r, cell) := flight_client_connect host port timeout tls cell in
      let '(rs, cell) := connects rest cell in (r :: rs, cell)
  end.

Lemma get_or_init_spec msg cell r cell' :
  get_or_init msg cell = (r, cell') ->
  (forall rt, rc_value cell = Some rt -> cell' = cell) /\ (forall rt, r = Ok rt -> rc_value cell' = Some rt).
Proof.
  unfold get_or_init. destruct (rc_value cell) as [rt|] eqn:E; [intros [= <- <-]|].
  - split; [done|]. by intros ? [= <-].
  - destruct (build_runtime (rc_builds cell)); intros [= <- <-]; (split; [done|]); [|done..]. by intros ? [= <-].
Qed.

(** Every connection of the process runs on the one runtime that the cell holds
    from the first success on; attempts that fail earlier build none. *)
Lemma runtime_shared attempts cell :
  let '(rs, cell') := connects attempts cell in
  (forall rt, rc_value cell = Some rt -> cell' = cell) /\
  Forall (fun r => match r with ROk (rt, _) => rc_value cell' = Some rt | _ => True end) rs.
Proof.
  revert cell. induction attempts as [|[[[host port] timeout] tls] rest IH]; intros cell; [by split|]. cbn [connects].
  unfold flight_client_connect. set (endpoint := parse_tls_mode tls ≫= _). clearbody endpoint.
  assert (forall (r : Reply (Runtime * Channel)), (match r with ROk _ => False | _ => True end) ->
    let '(rs, cell') := (let '(rs, cell) := connects rest cell in (r :: rs, cell)) in
    (forall rt, rc_value cell = Some rt -> cell' = cell) /\
    Forall (fun r => match r with ROk (rt, _) => rc_value cell' = Some rt | _ => True end) rs) as Hskip.
  { intros r Hr. specialize (IH cell). destruct (connects rest cell) as [rs cell']. destruct IH as [IH1 IH2].
    split; [done|]. constructor; [|done]. by destruct r. }
  destruct endpoint as [e|e|s]; [|by apply Hskip..]. unfold client_runtime.
  destruct (get_or_init _ cell) as [rt cell1] eqn:Eg. destruct (get_or_init_spec _ _ _ _ Eg) as [H1 H2].
  specialize (IH cell1). destruct (connects rest cell1) as [rs cell']. destruct IH as [IH1 IH2].
  split.
  - intros r Hr. pose proof (H1 r Hr). subst cell1. by eapply IH1.
  - constructor; [|done]. destruct rt as [rt| |]; cbn; [|done..]. destruct (connect_channel e); cbn; [|done..].
    specialize (H2 rt eq_refl). by rewrite (IH1 rt H2).
Qed.

End runtime.

(** A transport whose third call panics: the first two and the list of actions
    answer, then the connection is lost. *)
#[local] Instance fragile : @FlightRpc ref_flight nat := {|
  rpc_do_put n _ := (Ok [], S n);
  rpc_do_get n _ := (Err "no data", S n);
  rpc_list_flights n _ := (Ok [], S n);
  rpc_get_flight_info n _ := (Err "no data", S n);
  rpc_get_schema n _ := (Err "no data", S n);
  rpc_list_actions n := (if (n =? 2)%nat then Panic "h2" else Ok [], S n);
  rpc_do_action n _ _ := (Ok [], S n);
  rpc_deadline _ _ := InTime
|}.

Definition fragile_calls : list (ClientCall (Term := beam)) :=
  [ClListActions 0; ClGet []; ClListActions 0; ClListActions 0; ClPut (mkSchema []) [] (BInt 1)].

(** The third call raises; the fourth finds the lock poisoned and the fifth has
    a bad descriptor: neither reaches the server. *)
Example lock_lost :
  let '(rs, (client, calls)) := client_run (H1 := fragile) (H3 := unary_ipc) fragile_calls (new_mutex (), 0%nat) in
  map raised rs = [None; None; Some "h2"; None; None] /\ client = poison () /\ calls = 3%nat.
Proof. vm_compute. split_and!; reflexivity. Qed.
