(* ===== verification/FlightSql.v ===== *)
(** * The Flight SQL client (flight_sql.rs)

    The error codec (gRPC codes to atoms, and the recovery of a status from
    its debug text), the connection, queries and metadata calls that turn a
    [FlightInfo] into a record-batch stream, and the prepared-statement
    handle.  The arrow-flight SQL client is the class [SqlCrate], its calls
    acting on the state [W] of the server and the channel. *)

From Stdlib Require Import Ascii.
From S2P Require Import Prelude Float Utf8 Term Arrow Stream FlightServer FlightClient.

(** ** Errors *)

(** [tonic::Code]. *)
Inductive Code :=
| CodeOk | CodeCancelled | CodeUnknown | CodeInvalidArgument | CodeDeadlineExceeded
| CodeNotFound | CodeAlreadyExists | CodePermissionDenied | CodeResourceExhausted
| CodeFailedPrecondition | CodeAborted | CodeOutOfRange | CodeUnimplemented | CodeInternal
| CodeUnavailable | CodeDataLoss | CodeUnauthenticated.

(** [FlightError]; the other variants are reported by their text. *)
Inductive FlightError :=
| FETonic (code : Code) (message : string)
| FEArrow (e : ArrowError)
| FEDecodeError (msg : string)
| FEProtocolError (msg : string)
| FEOther (display : string).

Definition encode_sql_error {V} (code : string) (grpc_status : Z) (msg : string) : Reply V :=
  RErr (ESql code grpc_status msg).

(** [code as i32], for the codes that reach the last arm. *)
Definition code_as_i32 (code : Code) : Z :=
  match code with
  | CodeOk => 0 | CodeCancelled => 1 | CodeUnknown => 2 | CodeInvalidArgument => 3
  | CodeDeadlineExceeded => 4 | CodeNotFound => 5 | CodeAlreadyExists => 6
  | CodePermissionDenied => 7 | CodeResourceExhausted => 8 | CodeFailedPrecondition => 9
  | CodeAborted => 10 | CodeOutOfRange => 11 | CodeUnimplemented => 12 | CodeInternal => 13
  | CodeUnavailable => 14 | CodeDataLoss => 15 | CodeUnauthenticated => 16
  end.

Definition tonic_code_to_atom (code : Code) : string * Z :=
  match code with
  | CodeCancelled => ("transport_error", 1)
  | CodeUnavailable => ("transport_error", 14)
  | CodeDeadlineExceeded => ("transport_error", 4)
  | CodeUnauthenticated => ("unauthenticated", 16)
  | CodePermissionDenied => ("permission_denied", 7)
  | CodeNotFound => ("not_found", 5)
  | CodeInvalidArgument => ("invalid_argument", 3)
  | CodeOutOfRange => ("invalid_argument", 11)
  | CodeUnimplemented => ("unimplemented", 12)
  | CodeInternal => ("server_error", 13)
  | CodeUnknown => ("server_error", 2)
  | CodeResourceExhausted => ("server_error", 8)
  | CodeFailedPrecondition => ("server_error", 9)
  | CodeAborted => ("server_error", 10)
  | CodeAlreadyExists => ("server_error", 6)
  | CodeDataLoss => ("server_error", 15)
  | other => ("server_error", code_as_i32 other)
  end.

Definition tonic_code_name_to_atom (name : string) : string * Z :=
  if String.eqb name "Ok" then ("ok", 0)
  else if String.eqb name "Cancelled" then ("transport_error", 1)
  else if String.eqb name "Unknown" then ("server_error", 2)
  else if String.eqb name "InvalidArgument" then ("invalid_argument", 3)
  else if String.eqb name "DeadlineExceeded" then ("transport_error", 4)
  else if String.eqb name "NotFound" then ("not_found", 5)
  else if String.eqb name "AlreadyExists" then ("server_error", 6)
  else if String.eqb name "PermissionDenied" then ("permission_denied", 7)
  else if String.eqb name "ResourceExhausted" then ("server_error", 8)
  else if String.eqb name "FailedPrecondition" then ("server_error", 9)
  else if String.eqb name "Aborted" then ("server_error", 10)
  else if String.eqb name "OutOfRange" then ("invalid_argument", 11)
  else if String.eqb name "Unimplemented" then ("unimplemented", 12)
  else if String.eqb name "Internal" then ("server_error", 13)
  else if String.eqb name "Unavailable" then ("transport_error", 14)
  else if String.eqb name "DataLoss" then ("server_error", 15)
  else if String.eqb name "Unauthenticated" then ("unauthenticated", 16)
  else ("server_error", 2).

(** ** The debug text of a status

    Strings are UTF-8 bytes.  The characters the parser looks for are ASCII,
    which never occur inside a multi-byte character, so that walking the bytes
    is walking the characters. *)

(** [s.find(p)] and [&s[n..]]. *)
Definition str_find (p s : string) : option nat := String.index 0 p s.

Fixpoint str_from (n : nat) (s : string) : string :=
  match n, s with
  | S n', String _ s' => str_from n' s'
  | _, _ => s
  end.

Definition extract_field (s prefix suffix : string) : option string :=
  i ← str_find prefix s;
  let start := (i + String.length prefix)%nat in
  j ← str_find suffix (str_from start s);
  Some (String.substring 0 j (str_from start s)).

Definition dquote : Ascii.ascii := "034"%char.
Definition backslash : Ascii.ascii := "092"%char.
Definition newline : Ascii.ascii := "010"%char.
Definition tab : Ascii.ascii := "009"%char.

(** The loop of [extract_quoted_field], after the opening quote. *)
Fixpoint unquote (chars : string) : option string :=
  match chars with
  | EmptyString => None
  | String c rest =>
      if Ascii.eqb c dquote then Some EmptyString
      else if Ascii.eqb c backslash then
        match rest with
        | EmptyString => None
        | String e rest' =>
            r ← unquote rest';
            if Ascii.eqb e dquote then Some (String dquote r)
            else if Ascii.eqb e "n" then Some (String newline r)
            else if Ascii.eqb e "t" then Some (String tab r)
            else if Ascii.eqb e backslash then Some (String backslash r)
            else Some (String backslash (String e r))
        end
      else r ← unquote rest; Some (String c r)
  end.

Definition extract_quoted_field (s prefix : string) : option string :=
  i ← str_find prefix s;
  unquote (str_from (i + String.length prefix)%nat s).

(** The encodings of the characters with the White_Space property. *)
Definition whitespace : list bytes :=
  [[Byte.x09]; [Byte.x0a]; [Byte.x0b]; [Byte.x0c]; [Byte.x0d]; [Byte.x20];
   [Byte.xc2; Byte.x85]; [Byte.xc2; Byte.xa0]; [Byte.xe1; Byte.x9a; Byte.x80];
   [Byte.xe2; Byte.x80; Byte.x80]; [Byte.xe2; Byte.x80; Byte.x81]; [Byte.xe2; Byte.x80; Byte.x82];
   [Byte.xe2; Byte.x80; Byte.x83]; [Byte.xe2; Byte.x80; Byte.x84]; [Byte.xe2; Byte.x80; Byte.x85];
   [Byte.xe2; Byte.x80; Byte.x86]; [Byte.xe2; Byte.x80; Byte.x87]; [Byte.xe2; Byte.x80; Byte.x88];
   [Byte.xe2; Byte.x80; Byte.x89]; [Byte.xe2; Byte.x80; Byte.x8a]; [Byte.xe2; Byte.x80; Byte.xa8];
   [Byte.xe2; Byte.x80; Byte.xa9]; [Byte.xe2; Byte.x80; Byte.xaf]; [Byte.xe2; Byte.x81; Byte.x9f];
   [Byte.xe3; Byte.x80; Byte.x80]].

Fixpoint strip_prefix (p b : bytes) : option bytes :=
  match p, b with
  | [], _ => Some b
  | x :: p', y :: b' => if Byte.eqb x y then strip_prefix p' b' else None
  | _ :: _, [] => None
  end.

(** Removes leading occurrences of the patterns; [n] bounds their number. *)
Fixpoint strip_all (n : nat) (patterns : list bytes) (b : bytes) : bytes :=
  match n with
  | O => b
  | S n' =>
      match list_find (fun p => is_Some (strip_prefix p b)) patterns with
      | Some (_, p) => strip_all n' patterns (default b (strip_prefix p b))
      | None => b
      end
  end.

(** [str::trim]. *)
Definition trim (s : string) : string :=
  let b := strip_all (String.length s) whitespace (as_bytes s) in
  of_bytes (rev (strip_all (length b) (map (@rev byte) whitespace) (rev b))).

Definition parse_tonic_status_debug (s : string) : option (string * Z * string) :=
  if String.prefix "Status {" s then
    code_str ← extract_field s "code: " ",";
    let '(atom, grpc_int) := tonic_code_name_to_atom (trim code_str) in
    let message := default EmptyString (extract_quoted_field s ("message: " +:+ String dquote EmptyString)) in
    Some (atom, grpc_int, message)
  else None.

Section errors.
Context `{Arrow}.

Definition arrow_error_to_term {V} (err : ArrowError) : Reply V :=
  match match err with IpcError s => parse_tonic_status_debug s | _ => None end with
  | Some (atom, grpc_int, msg) => encode_sql_error atom grpc_int msg
  | None => encode_sql_error "transport_error" 0 (error_string err)
  end.

Definition flight_error_to_term {V} (err : FlightError) : Reply V :=
  match err with
  | FETonic code message =>
      let '(atom, grpc_code) := tonic_code_to_atom code in encode_sql_error atom grpc_code message
  | FEArrow inner => arrow_error_to_term inner
  | FEDecodeError msg => encode_sql_error "protocol_error" 0 msg
  | FEProtocolError msg => encode_sql_error "protocol_error" 0 msg
  | FEOther display => encode_sql_error "transport_error" 0 display
  end.

End errors.

(** The module's own [parse_tls_mode] has the body of that of flight.rs. *)
Definition sql_parse_tls_mode `{Rustler Term} (term : Term) : res string TlsMode :=
  FlightServer.parse_tls_mode term.

(** ** The SQL client of arrow-flight *)

Record CommandGetTables := mkGetTables {
  gt_catalog : option string;
  gt_db_schema_filter_pattern : option string;
  gt_table_name_filter_pattern : option string;
  gt_table_types : list string;
  gt_include_schema : bool
}.

Record CommandGetDbSchemas := mkGetDbSchemas {
  gs_catalog : option string;
  gs_db_schema_filter_pattern : option string
}.

Class SqlCrate (Channel W : Type) := {
  SqlServiceClient : Type;
  DataStream : Type;                 (* FlightRecordBatchStream *)
  PreparedStatement : Type;
  data_stream_iter : BatchIter DataStream FlightError;
  service_client_new : Channel -> SqlServiceClient;
  set_header : string -> string -> SqlServiceClient -> SqlServiceClient;
  schema_from_ipc_message : bytes -> res string Schema;
  rpc_execute : SqlServiceClient -> string -> W -> res FlightError FlightInfo * W;
  rpc_execute_update : SqlServiceClient -> string -> W -> res FlightError Z * W;
  rpc_ticket : SqlServiceClient -> bytes -> W -> res FlightError DataStream * W;     (* do_get *)
  rpc_get_tables : SqlServiceClient -> CommandGetTables -> W -> res FlightError FlightInfo * W;
  rpc_get_db_schemas : SqlServiceClient -> CommandGetDbSchemas -> W -> res FlightError FlightInfo * W;
  rpc_get_sql_info : SqlServiceClient -> list Z -> W -> res FlightError FlightInfo * W;
  rpc_prepare : SqlServiceClient -> string -> W -> res FlightError PreparedStatement * W;
  (* the methods of a prepared statement; those with &mut self give its next state *)
  set_parameters : PreparedStatement -> RecordBatch -> res FlightError unit * PreparedStatement;
  parameter_schema : PreparedStatement -> res FlightError Schema;
  stmt_execute : PreparedStatement -> W -> (res FlightError FlightInfo * PreparedStatement) * W;
  stmt_execute_update : PreparedStatement -> W -> (res FlightError Z * PreparedStatement) * W;
  stmt_close : PreparedStatement -> W -> res FlightError unit * W
}.
#[export] Existing Instance data_stream_iter.

(** The count of an update, [:unknown] when the server does not report one. *)
Inductive UpdateCount := Unknown | Affected (n : Z).

Definition update_count (n : Z) : UpdateCount := if n <? 0 then Unknown else Affected (wrap_u 64 n).

Section client.
Context `{Rustler Term} `{Arrow} `{ChannelEnv} {W : Type} `{!SqlCrate Channel W}.

(** The resources.  The client's mutex is shared by a connection and the
    statements prepared on it; a statement is [None] once closed. *)
Definition SqlClientHandle := Mutex SqlServiceClient.

Record SqlStreamResource := mkSqlStream {
  ss_schema : Schema;
  ss_stream : Mutex DataStream
}.

Record PreparedStatementResource := mkPrepared {
  ps_client : SqlClientHandle;
  ps_stmt : Mutex (option PreparedStatement)
}.

(** The arms of [match r { Ok(a) => k(a), Err(e) => flight_error_to_term(e) }]. *)
Definition sql_reply_with {A V} (r : res FlightError A) (k : A -> Reply V) : Reply V :=
  match r with
  | Ok a => k a
  | Err e => flight_error_to_term e
  | Panic s => RRaise s
  end.

Definition sql_runtime : RuntimeCell -> res string Runtime * RuntimeCell :=
  get_or_init "flight_sql tokio runtime".

Definition flight_sql_connect (host : string) (port : Z) (tls_mode_term : Term)
    (headers : list (string * string)) (cell : RuntimeCell)
    : Reply (Runtime * SqlClientHandle) * RuntimeCell :=
  let endpoint :=
    mode ← sql_parse_tls_mode tls_mode_term;
    let '(scheme, tls_cfg) := tls_scheme mode in
    let uri := scheme +:+ "://" +:+ host +:+ ":" +:+ pretty port in
    endpoint ← from_shared uri;
    if tls_cfg : bool then endpoint_tls_config mode endpoint else Ok endpoint in
  match endpoint with
  | Err e => (err_encode e, cell)
  | Panic s => (RRaise s, cell)
  | Ok endpoint =>
      let '(rt, cell) := sql_runtime cell in
      (reply (
        rt ← rt;
        channel ← connect_channel endpoint;
        let client :=
          foldl (fun c '(k, v) => set_header k v c) (service_client_new channel) headers in
        Ok (rt, new_mutex client)), cell)
  end.

Definition decode_flight_schema (bytes : bytes) : res string Schema :=
  match bytes with
  | [] => Ok (mkSchema [])
  | _ => map_err (fun e => "schema decode: " +:+ e) (schema_from_ipc_message bytes)
  end.

Definition endpoint_error (n : nat) : string :=
  "expected exactly 1 endpoint, got " +:+ pretty (N.of_nat n) +:+ "; "
  +:+ "multi-endpoint distribution is not supported in v0.5.0".

Definition flight_sql_query (client : SqlClientHandle) (sql : string) (w : W)
    : (Reply SqlStreamResource * SqlClientHandle) * W :=
  match lock client with
  | None => (err_encode "client lock poisoned", client, w)
  | Some guard =>
      let '(r, w) := rpc_execute guard sql w in
      match r with
      | Err e => (flight_error_to_term e, client, w)
      | Panic s => (RRaise s, poison guard, w)
      | Ok flight_info =>
          let endpoint_count := length (fi_endpoint flight_info) in
          if negb (endpoint_count =? 1)%nat
          then (encode_sql_error "multi_endpoint" 0 (endpoint_error endpoint_count), client, w)
          else
            match fi_endpoint flight_info !! 0%nat with
            | None => (RRaise "index out of bounds", poison guard, w)
            | Some endpoint =>
                match ep_ticket endpoint with
                | None => (encode_sql_error "protocol_error" 0 "FlightEndpoint has no ticket", client, w)
                | Some ticket =>
                    match decode_flight_schema (fi_schema flight_info) with
                    | Err e => (encode_sql_error "protocol_error" 0 e, client, w)
                    | Panic s => (RRaise s, poison guard, w)
                    | Ok schema =>
                        let '(r, w) := rpc_ticket guard ticket w in
                        (sql_reply_with r (fun stream =>
                           ok_encode (mkSqlStream schema (new_mutex stream))), release r guard, w)
                    end
                end
            end
      end
  end.

Definition flight_sql_execute (client : SqlClientHandle) (sql : string) (w : W)
    : (Reply UpdateCount * SqlClientHandle) * W :=
  match lock client with
  | None => (err_encode "client lock poisoned", client, w)
  | Some guard =>
      let '(r, w) := rpc_execute_update guard sql w in
      (sql_reply_with r (fun n => ok_encode (update_count n)), release r guard, w)
  end.

Definition flight_sql_stream_schema (stream : SqlStreamResource) : Reply Schema :=
  ok_encode (ss_schema stream).

Definition flight_sql_stream_next (m : Mutex DataStream) : Reply RecordBatch * Mutex DataStream :=
  next_reply (err_encode "stream lock poisoned") flight_error_to_term m.

(** From a [FlightInfo] to its stream; the client is locked only for [DoGet]. *)
Definition flight_info_to_stream (client : SqlClientHandle) (flight_info : FlightInfo) (w : W)
    : (Reply SqlStreamResource * SqlClientHandle) * W :=
  let endpoint_count := length (fi_endpoint flight_info) in
  if negb (endpoint_count =? 1)%nat
  then (encode_sql_error "multi_endpoint" 0 (endpoint_error endpoint_count), client, w)
  else
    match fi_endpoint flight_info !! 0%nat with
    | None => (RRaise "index out of bounds", client, w)
    | Some endpoint =>
        match ep_ticket endpoint with
        | None => (encode_sql_error "protocol_error" 0 "FlightEndpoint has no ticket", client, w)
        | Some ticket =>
            match decode_flight_schema (fi_schema flight_info) with
            | Err e => (encode_sql_error "protocol_error" 0 e, client, w)
            | Panic s => (RRaise s, client, w)
            | Ok schema =>
                match lock client with
                | None => (err_encode "client lock poisoned", client, w)
                | Some guard =>
                    let '(r, w) := rpc_ticket guard ticket w in
                    (sql_reply_with r (fun stream =>
                       ok_encode (mkSqlStream schema (new_mutex stream))), release r guard, w)
                end
            end
        end
    end.

(** A call that gives a [FlightInfo], under the client lock, and then its stream. *)
Definition info_call (client : SqlClientHandle) (w : W)
    (rpc : SqlServiceClient -> W -> res FlightError FlightInfo * W) : (Reply SqlStreamResource * SqlClientHandle) * W :=
  match lock client with
  | None => (err_encode "client lock poisoned", client, w)
  | Some guard =>
      let '(r, w) := rpc guard w in
      match r with
      | Err e => (flight_error_to_term e, client, w)
      | Panic s => (RRaise s, poison guard, w)
      | Ok flight_info => flight_info_to_stream client flight_info w
      end
  end.

Definition flight_sql_get_tables (client : SqlClientHandle)
    (catalog db_schema_filter table_name_filter : option string) (table_types : list string)
    (include_schema : bool) (w : W) : (Reply SqlStreamResource * SqlClientHandle) * W :=
  let cmd := mkGetTables catalog db_schema_filter table_name_filter table_types include_schema in
  info_call client w (fun guard => rpc_get_tables guard cmd).

Definition flight_sql_get_db_schemas (client : SqlClientHandle)
    (catalog db_schema_filter : option string) (w : W) : (Reply SqlStreamResource * SqlClientHandle) * W :=
  let cmd := mkGetDbSchemas catalog db_schema_filter in
  info_call client w (fun guard => rpc_get_db_schemas guard cmd).

Definition flight_sql_get_sql_info (client : SqlClientHandle) (w : W)
    : (Reply SqlStreamResource * SqlClientHandle) * W :=
  info_call client w (fun guard => rpc_get_sql_info guard []).

(** ** Prepared statements *)

Definition flight_sql_prepare (client : SqlClientHandle) (sql : string) (w : W)
    : (Reply PreparedStatementResource * SqlClientHandle) * W :=
  match lock client with
  | None => (err_encode "client lock poisoned", client, w)
  | Some guard =>
      let '(r, w) := rpc_prepare guard sql w in
      (sql_reply_with r (fun stmt => ok_encode (mkPrepared client (new_mutex (Some stmt)))), release r guard, w)
  end.

Definition statement_closed {V} : Reply V := encode_sql_error "protocol_error" 0 "statement is closed".

(** The reply to a success is [ok_encode(env, atom::ok())]: the pair [{:ok, :ok}]. *)
Definition ok_ok : Reply string := ok_encode "ok".

Definition flight_sql_prepared_bind (m : Mutex (option PreparedStatement)) (batch : RecordBatch)
    : Reply string * Mutex (option PreparedStatement) :=
  match lock m with
  | None => (err_encode "statement lock poisoned", m)
  | Some None => (statement_closed, m)
  | Some (Some stmt) =>
      let '(r, stmt) := set_parameters stmt batch in
      (sql_reply_with r (fun _ => ok_ok), release r (Some stmt))
  end.

Definition flight_sql_prepared_parameter_schema (m : Mutex (option PreparedStatement))
    : Reply Schema * Mutex (option PreparedStatement) :=
  match lock m with
  | None => (err_encode "statement lock poisoned", m)
  | Some None => (statement_closed, m)
  | Some (Some stmt) =>
      let r := parameter_schema stmt in
      (sql_reply_with r (fun schema => ok_encode schema), release r (Some stmt))
  end.

Definition flight_sql_prepared_execute (client : SqlClientHandle)
    (m : Mutex (option PreparedStatement)) (w : W)
    : (Reply SqlStreamResource * SqlClientHandle * Mutex (option PreparedStatement)) * W :=
  match lock m with
  | None => (err_encode "statement lock poisoned", client, m, w)
  | Some None => (statement_closed, client, m, w)
  | Some (Some stmt) =>
      let '(r, stmt, w) := stmt_execute stmt w in
      let m := release r (Some stmt) in
      match r with
      | Err e => (flight_error_to_term e, client, m, w)
      | Panic s => (RRaise s, client, m, w)
      | Ok flight_info =>
          let '(reply, client, w) := flight_info_to_stream client flight_info w in (reply, client, m, w)
      end
  end.

Definition flight_sql_prepared_execute_update (m : Mutex (option PreparedStatement)) (w : W)
    : (Reply UpdateCount * Mutex (option PreparedStatement)) * W :=
  match lock m with
  | None => (err_encode "statement lock poisoned", m, w)
  | Some None => (statement_closed, m, w)
  | Some (Some stmt) =>
      let '(r, stmt, w) := stmt_execute_update stmt w in
      (sql_reply_with r (fun n => ok_encode (update_count n)), release r (Some stmt), w)
  end.

(** The statement is taken before the call: a panic of [close] poisons nothing. *)
Definition flight_sql_prepared_close (m : Mutex (option PreparedStatement)) (w : W)
    : (Reply string * Mutex (option PreparedStatement)) * W :=
  match lock m with
  | None => (err_encode "statement lock poisoned", m, w)
  | Some None => (ok_ok, mkMutex None false, w)
  | Some (Some stmt) =>
      let '(r, w) := stmt_close stmt w in
      (sql_reply_with r (fun _ => ok_ok), mkMutex None false, w)
  end.

End client.

(** ** The Elixir callers of [bind] and [close] (statement.ex) *)

(** [case reply do :ok -> :ok; {:error, e} -> ... end]; [None] is the
    [CaseClauseError] of a reply without a clause. *)
Definition elixir_ok_or_error (r : Reply string) : option (option NifError) :=
  match r with
  | RAtom a => if String.eqb a "ok" then Some None else None
  | RErr e => Some (Some e)
  | _ => None
  end.
