(* ===== verification/FlightSqlThms.v ===== *)
(** * Theorems about the Flight SQL client

    The error codec, the calls that open a stream, and the life of a prepared
    statement. *)

From Stdlib Require Import Ascii.
From S2P Require Import Prelude Float Utf8 Term Arrow ArrowRef Stream FlightServer FlightClient FlightSql ComputeThms.

(** ** Errors *)

(** The name of a code in a status' debug text. *)
Definition code_name (c : Code) : string :=
  match c with
  | CodeOk => "Ok" | CodeCancelled => "Cancelled" | CodeUnknown => "Unknown"
  | CodeInvalidArgument => "InvalidArgument" | CodeDeadlineExceeded => "DeadlineExceeded"
  | CodeNotFound => "NotFound" | CodeAlreadyExists => "AlreadyExists"
  | CodePermissionDenied => "PermissionDenied" | CodeResourceExhausted => "ResourceExhausted"
  | CodeFailedPrecondition => "FailedPrecondition" | CodeAborted => "Aborted"
  | CodeOutOfRange => "OutOfRange" | CodeUnimplemented => "Unimplemented"
  | CodeInternal => "Internal" | CodeUnavailable => "Unavailable" | CodeDataLoss => "DataLoss"
  | CodeUnauthenticated => "Unauthenticated"
  end.

Definition esc (c : ascii) : string -> string := fun s => String backslash (String c s).

Definition carriage_return : ascii := "013"%char.

(** Rust's [{:?}] of a string, for the characters it escapes by a letter; the
    others are taken to be printable. *)
Fixpoint escape_debug (s : string) : string :=
  match s with
  | EmptyString => EmptyString
  | String c s' =>
      let r := escape_debug s' in
      if Ascii.eqb c dquote then esc dquote r
      else if Ascii.eqb c backslash then esc backslash r
      else if Ascii.eqb c newline then esc "n" r
      else if Ascii.eqb c tab then esc "t" r
      else if Ascii.eqb c carriage_return then esc "r" r
      else if Ascii.eqb c Ascii.zero then esc "0" r
      else String c r
  end.

(** [Status { code: .., message: "..", .. }], as the comments of flight_sql.rs
    describe it; [rest] is what follows the message. *)
Definition status_debug (code : Code) (msg rest : string) : string :=
  "Status { code: " +:+ code_name code +:+ ", message: "
  +:+ String dquote (escape_debug msg +:+ String dquote rest).

Fixpoint recoverable (s : string) : bool :=
  match s with
  | EmptyString => true
  | String c s' => negb (Ascii.eqb c carriage_return) && negb (Ascii.eqb c Ascii.zero) && recoverable s'
  end.

(** [\r] and [\0] keep their backslash. *)
Fixpoint recovered (s : string) : string :=
  match s with
  | EmptyString => EmptyString
  | String c s' =>
      if Ascii.eqb c carriage_return then esc "r" (recovered s')
      else if Ascii.eqb c Ascii.zero then esc "0" (recovered s')
      else String c (recovered s')
  end.

Lemma append_cons c s t : String c s +:+ t = String c (s +:+ t).
Proof. done. Qed.

Lemma unquote_escape msg rest : unquote (escape_debug msg +:+ String dquote rest) = Some (recovered msg).
Proof.
  induction msg as [|c msg IH]; [done|]. cbn [escape_debug recovered].
  destruct (Ascii.eqb_spec c dquote) as [->|H1]; [unfold esc; rewrite !append_cons; cbn; by rewrite IH|].
  destruct (Ascii.eqb_spec c backslash) as [->|H2]; [unfold esc; rewrite !append_cons; cbn; by rewrite IH|].
  destruct (Ascii.eqb_spec c newline) as [->|H3]; [unfold esc; rewrite !append_cons; cbn; by rewrite IH|].
  destruct (Ascii.eqb_spec c tab) as [->|H4]; [unfold esc; rewrite !append_cons; cbn; by rewrite IH|].
  destruct (Ascii.eqb_spec c carriage_return) as [->|H5]; [unfold esc; rewrite !append_cons; cbn; by rewrite IH|].
  destruct (Ascii.eqb_spec c Ascii.zero) as [->|H6]; [unfold esc; rewrite !append_cons; cbn; by rewrite IH|].
  rewrite append_cons. cbn [unquote].
  rewrite (proj2 (Ascii.eqb_neq c dquote) H1), (proj2 (Ascii.eqb_neq c backslash) H2), IH. done.
Qed.

Lemma recovered_id s : recoverable s = true -> recovered s = s.
Proof.
  induction s as [|c s IH]; [done|]. cbn. intros [[H1 H2]%andb_true_iff H3]%andb_true_iff.
  apply negb_true_iff in H1, H2. rewrite H1, H2. by rewrite IH.
Qed.

Lemma parse_status_debug code msg rest :
  parse_tonic_status_debug (status_debug code msg rest)
  = Some (tonic_code_name_to_atom (code_name code), recovered msg).
Proof.
  pose proof (unquote_escape msg rest) as Hu. unfold status_debug. revert Hu.
  generalize (escape_debug msg +:+ String dquote rest). intros body Hu.
  assert (parse_tonic_status_debug
    ("Status { code: " +:+ code_name code +:+ ", message: " +:+ String dquote body)
    = Some (tonic_code_name_to_atom (code_name code), default EmptyString (unquote body))) as ->
    by (clear; destruct code, body; reflexivity).
  by rewrite Hu.
Qed.

Section errors.
Context `{Arrow}.

(** A gRPC status survives its detour through an Arrow error.  The crate
    wraps a status into [IpcError] as its debug text; for every code but [Ok]
    and every message without carriage returns and NULs the reply built from
    that text is the reply built from the status itself.  [Ok] gives [:ok]
    instead of [:server_error], and a carriage return in the message comes
    back as a backslash and an r. *)
Theorem sql_status_recovered V code msg rest :
  (code <> CodeOk -> recoverable msg = true ->
   flight_error_to_term (V := V) (FEArrow (IpcError (status_debug code msg rest)))
   = flight_error_to_term (FETonic code msg)) /\
  flight_error_to_term (V := V) (FEArrow (IpcError (status_debug CodeOk msg rest)))
    = encode_sql_error "ok" 0 (recovered msg) /\
  flight_error_to_term (V := V) (FETonic CodeOk msg) = encode_sql_error "server_error" 0 msg /\
  flight_error_to_term (V := V) (FEArrow (IpcError (status_debug CodeInternal (String carriage_return msg) rest)))
    = encode_sql_error "server_error" 13 (String backslash (String "r" (recovered msg))).
Proof.
  cbn [flight_error_to_term]. unfold arrow_error_to_term. rewrite !parse_status_debug.
  split; [|done]. intros Hc Hm. rewrite recovered_id by done. by destruct code.
Qed.

End errors.

(** ** Opening a stream *)

Section streams.
Context `{Rustler Term} `{Arrow} `{ChannelEnv} {W : Type} `{!SqlCrate Channel W}.

(** A panic while the schema is decoded is the only way in which a query and a
    metadata call leave different handles: the query holds the lock then. *)
Definition schema_decodes (info : FlightInfo) : Prop := no_panic (decode_flight_schema (fi_schema info)).

Lemma query_is_info_call (client : SqlClientHandle) (sql : string) (w : W) :
  (forall guard info w1, rpc_execute guard sql w = (Ok info, w1) -> schema_decodes info) ->
  flight_sql_query client sql w = info_call client w (fun guard => rpc_execute guard sql).
Proof.
  intros Hd. unfold flight_sql_query, info_call, flight_info_to_stream, schema_decodes in *.
  destruct (lock client) as [guard|] eqn:Hl; [|done]. specialize (Hd guard).
  destruct (rpc_execute guard sql w) as [[info| |] w1]; try done. specialize (Hd info w1 eq_refl).
  destruct (fi_endpoint info) as [|ep []]; try done. cbn. destruct (ep_ticket ep); [|done].
  by destruct (decode_flight_schema (fi_schema info)).
Qed.

(** A query gives a stream exactly when every step succeeds.  A query and
    the metadata calls (here any call [rpc] that gives a [FlightInfo]) have
    one behaviour, short of a panic while the schema is decoded: they return a
    stream if and only if the client is usable, the server answers with a
    single endpoint that has a ticket, the schema (empty, or IPC bytes)
    decodes, and [DoGet] accepts the ticket; the stream then has that schema
    and the client stays usable.  Another number of endpoints is reported as
    [:multi_endpoint], without a [DoGet]. *)
Theorem sql_stream_opened (client : SqlClientHandle) (rpc : SqlServiceClient -> W -> res FlightError FlightInfo * W)
    (sql : string) (w w2 : W) (client2 : SqlClientHandle) (stream : SqlStreamResource) :
  ((forall guard info w1, rpc_execute guard sql w = (Ok info, w1) -> schema_decodes info) ->
   flight_sql_query client sql w = info_call client w (fun guard => rpc_execute guard sql)) /\
  (info_call client w rpc = (ROk stream, client2, w2) <->
   client2 = client /\
   exists guard info endpoint ticket schema data w1,
     lock client = Some guard /\ rpc guard w = (Ok info, w1) /\
     fi_endpoint info = [endpoint] /\ ep_ticket endpoint = Some ticket /\
     decode_flight_schema (fi_schema info) = Ok schema /\
     rpc_ticket guard ticket w1 = (Ok data, w2) /\
     stream = mkSqlStream schema (new_mutex data)) /\
  (forall guard info w1, lock client = Some guard -> rpc guard w = (Ok info, w1) ->
   length (fi_endpoint info) <> 1%nat ->
   info_call client w rpc
   = (encode_sql_error "multi_endpoint" 0 (endpoint_error (length (fi_endpoint info))), client, w1)).
Proof.
  split; [apply query_is_info_call|split].
  - unfold info_call, flight_info_to_stream. split.
    + destruct (lock client) as [guard|] eqn:Hl; [|done]. destruct (rpc guard w) as [[info|e|s] w1] eqn:Hr; try done.
      2: { unfold flight_error_to_term, arrow_error_to_term. by repeat case_match. }
      destruct (fi_endpoint info) as [|ep []] eqn:He; try done. cbn.
      destruct (ep_ticket ep) as [ticket|] eqn:Ht; [|done].
      destruct (decode_flight_schema _) as [schema| |] eqn:Hd; try done.
      destruct (rpc_ticket guard ticket w1) as [[data|e|s] w2'] eqn:Hg; cbn; try done.
      * intros [= <- <- <-]. apply lock_Some in Hl as ->. split; [done|]. eauto 20.
      * unfold flight_error_to_term, arrow_error_to_term. by repeat case_match.
    + intros (-> & guard & info & ep & ticket & schema & data & w1 & Hl & Hr & He & Ht & Hd & Hg & ->).
      rewrite Hl, Hr, He. cbn. rewrite Ht, Hd, Hg. cbn. by apply lock_Some in Hl as ->.
  - intros guard info w1 Hl Hr Hn. unfold info_call, flight_info_to_stream. rewrite Hl, Hr.
    by rewrite (proj2 (Nat.eqb_neq _ _) Hn).
Qed.

(** ** Prepared statements *)

Inductive StmtOp :=
| OpBind (b : RecordBatch)
| OpParameterSchema
| OpExecute
| OpExecuteUpdate
| OpClose.

Inductive StmtReply :=
| RpUnit (r : Reply string)
| RpSchema (r : Reply Schema)
| RpStream (r : Reply SqlStreamResource)
| RpCount (r : Reply UpdateCount).

(** A connection and one statement prepared on it: the client's handle, the
    statement's, the world. *)
Definition StmtState : Type := SqlClientHandle * Mutex (option PreparedStatement) * W.

Definition st_stmt (st : StmtState) : Mutex (option PreparedStatement) := snd (fst st).

(** A call on the statement's handle. *)
Definition stmt_step (st : StmtState) (op : StmtOp) : StmtReply * StmtState :=
  let '(client, m, w) := st in
  match op with
  | OpBind b => let '(r, m) := flight_sql_prepared_bind m b in (RpUnit r, (client, m, w))
  | OpParameterSchema => let '(r, m) := flight_sql_prepared_parameter_schema m in (RpSchema r, (client, m, w))
  | OpExecute => let '(r, client, m, w) := flight_sql_prepared_execute client m w in (RpStream r, (client, m, w))
  | OpExecuteUpdate => let '(r, m, w) := flight_sql_prepared_execute_update m w in (RpCount r, (client, m, w))
  | OpClose => let '(r, m, w) := flight_sql_prepared_close m w in (RpUnit r, (client, m, w))
  end.

Fixpoint stmt_run (ops : list StmtOp) (st : StmtState) : list StmtReply * StmtState :=
  match ops with
  | [] => ([], st)
  | op :: ops =>
      let '(r, st) := stmt_step st op in
      let '(rs, st) := stmt_run ops st in (r :: rs, st)
  end.

(** What a closed statement answers. *)
Definition closed_reply (op : StmtOp) : StmtReply :=
  match op with
  | OpBind _ => RpUnit statement_closed
  | OpParameterSchema => RpSchema statement_closed
  | OpExecute => RpStream statement_closed
  | OpExecuteUpdate => RpCount statement_closed
  | OpClose => RpUnit ok_ok
  end.

(** The methods called under the statement's lock do not panic. *)
Record quiet := {
  quiet_set s b : no_panic (fst (set_parameters s b));
  quiet_schema s : no_panic (parameter_schema s);
  quiet_execute s w : no_panic (fst (fst (stmt_execute s w)));
  quiet_update s w : no_panic (fst (fst (stmt_execute_update s w)))
}.

Lemma closed_stays client op w :
  stmt_step (client, mkMutex None false, w) op = (closed_reply op, (client, mkMutex None false, w)).
Proof. by destruct op. Qed.

(** Every call but [close] leaves an open statement open; [close] closes it. *)
Lemma open_step client op s w :
  quiet ->
  exists v, st_stmt (snd (stmt_step (client, new_mutex (Some s), w) op)) = new_mutex v /\
    (v = None <-> op = OpClose).
Proof.
  intros Hq. destruct op as [b| | | |]; cbn.
  - pose proof (quiet_set Hq s b) as Hn. destruct (set_parameters s b) as [r s']. cbn in *.
    rewrite release_quiet by done. by eexists.
  - rewrite release_quiet by apply (quiet_schema Hq). by eexists.
  - pose proof (quiet_execute Hq s w) as Hn. unfold flight_sql_prepared_execute. cbn.
    destruct (stmt_execute s w) as [[r s'] w']. cbn in *. exists (Some s').
    destruct r; try done. by destruct (flight_info_to_stream _ _ _) as [[??] ?].
  - pose proof (quiet_update Hq s w) as Hn. unfold flight_sql_prepared_execute_update. cbn.
    destruct (stmt_execute_update s w) as [[r s'] w']. cbn in *. rewrite release_quiet by done. by eexists.
  - unfold flight_sql_prepared_close. cbn. destruct (stmt_close s w) as [r w']. by eexists.
Qed.

Lemma run_state client ops v w :
  quiet ->
  exists v', st_stmt (snd (stmt_run ops (client, new_mutex v, w))) = new_mutex v' /\
    (v' = None <-> v = None \/ OpClose ∈ ops).
Proof.
  intros Hq. revert client v w. induction ops as [|op ops IH]; intros client v w.
  - exists v. split; [done|]. set_solver.
  - cbn [stmt_run]. destruct v as [s|].
    + destruct (open_step client op s w Hq) as (v1 & Hv1 & Hc).
      destruct (stmt_step (client, new_mutex (Some s), w) op) as [r [[c1 m1] w1]]. cbn in Hv1. subst m1.
      destruct (IH c1 v1 w1) as (v2 & Hv2 & Hc2). destruct (stmt_run ops _) as [rs st]. cbn in *.
      exists v2. split; [done|]. rewrite Hc2, Hc. set_solver.
    + unfold new_mutex. rewrite closed_stays. destruct (IH client None w) as (v2 & Hv2 & Hc2). unfold new_mutex in Hv2.
      destruct (stmt_run ops _) as [rs st]. cbn in *. exists v2. split; [done|]. set_solver.
Qed.

(** C21: A prepared statement is open until it is closed, and then closed for
    ever.  After any calls its handle is usable, and holds the statement
    exactly if [close] was not among them.  Whatever [close] answers, an
    error included, every later call is answered without reaching the server:
    "statement is closed" for the others, success for another [close]. *)
Theorem prepared_statement_lifecycle client s w before later :
  quiet ->
  let st := snd (stmt_run before (client, new_mutex (Some s), w)) in
  m_poisoned (st_stmt st) = false /\
  (m_value (st_stmt st) = None <-> OpClose ∈ before) /\
  let st' := snd (stmt_step st OpClose) in
  stmt_run later st' = (map closed_reply later, st').
Proof.
  intros Hq. cbv zeta. destruct (run_state client before (Some s) w Hq) as (v & Hv & Hc).
  destruct (snd (stmt_run before (client, new_mutex (Some s), w))) as [[c1 m] w1]. cbn in Hv. subst m.
  split; [done|]. split; [cbn; naive_solver|].
  assert (exists w2, snd (stmt_step (c1, new_mutex v, w1) OpClose) = (c1, mkMutex None false, w2)) as [w2 ->].
  { cbn. unfold flight_sql_prepared_close. destruct v; cbn; [|by eexists]. destruct (stmt_close _ _). by eexists. }
  clear. induction later as [|op later IH]; [done|]. cbn [stmt_run map]. rewrite closed_stays. by rewrite IH.
Qed.

Lemma flight_error_read e : elixir_ok_or_error (flight_error_to_term e) <> Some None.
Proof.
  unfold flight_error_to_term, arrow_error_to_term. destruct e as [c ?|err| | |]; [|case_match|..]; try done.
  - by destruct c.
  - by repeat case_match.
Qed.

(** Successful [bind] and [close] calls crash their Elixir callers.
    [ExArrow.FlightSQL.Statement] expects [:ok] or [{:error, _}], and the NIFs
    answer [{:ok, :ok}]: no reply is read as [:ok], and a success matches no
    clause. *)
Theorem bind_close_success_unmatched (m : Mutex (option PreparedStatement)) b w :
  elixir_ok_or_error (fst (flight_sql_prepared_bind m b)) <> Some None /\
  elixir_ok_or_error (fst (fst (flight_sql_prepared_close m w))) <> Some None /\
  (forall s s', lock m = Some (Some s) -> set_parameters s b = (Ok (), s') ->
     elixir_ok_or_error (fst (flight_sql_prepared_bind m b)) = None) /\
  (forall s w', lock m = Some (Some s) -> stmt_close s w = (Ok (), w') ->
     elixir_ok_or_error (fst (fst (flight_sql_prepared_close m w))) = None).
Proof.
  unfold flight_sql_prepared_bind, flight_sql_prepared_close. split_and!.
  - destruct (lock m) as [[s|]|]; [|done|done].
    destruct (set_parameters s b) as [[] ?]; cbn; [done|apply flight_error_read|done].
  - destruct (lock m) as [[s|]|]; [|done|done].
    destruct (stmt_close s w) as [[] ?]; cbn; [done|apply flight_error_read|done].
  - by intros s s' -> ->.
  - by intros s w' -> ->.
Qed.

End streams.

(** ** Witnesses *)

#[export] Instance ref_channel : ChannelEnv := {|
  Endpoint := string;
  Channel := string;
  from_shared u := Ok u;
  with_connect_timeout _ e := e;
  endpoint_tls_config _ e := Ok e;
  connect_channel e := Ok e;
  Runtime := nat;
  build_runtime n := Ok n
|}.

(** A server that logs its calls; queries answer [sample_batch]. *)
#[export] Instance ref_sql : SqlCrate (@Channel ref_channel) (list string) := {|
  SqlServiceClient := string;
  DataStream := list (res FlightError RecordBatch);
  PreparedStatement := string;
  data_stream_iter := list_iter;
  service_client_new c := c;
  set_header _ _ c := c;
  schema_from_ipc_message _ := Ok sample_schema;
  rpc_execute _ sql w := (Ok (mkFlightInfo [] None [mkEndpoint (Some (as_bytes sql)) []] (-1) (-1)), w ++ [sql]);
  rpc_execute_update _ sql w := (Ok (-1), w ++ [sql]);
  rpc_ticket _ t w := (Ok [Ok sample_batch], w ++ ["do_get"]);
  rpc_get_tables _ _ w := (Ok (mkFlightInfo [] None [] (-1) (-1)), w);
  rpc_get_db_schemas _ _ w := (Ok (mkFlightInfo [] None [] (-1) (-1)), w);
  rpc_get_sql_info _ _ w := (Ok (mkFlightInfo [] None [] (-1) (-1)), w);
  rpc_prepare _ sql w := (Ok sql, w ++ ["prepare"]);
  set_parameters s _ := (Ok (), s);
  parameter_schema _ := Ok sample_schema;
  stmt_execute s w := (Ok (mkFlightInfo [] None [mkEndpoint (Some (as_bytes s)) []] (-1) (-1)), s, w ++ ["execute"]);
  stmt_execute_update s w := (Ok 1, s, w ++ ["update"]);
  stmt_close s w := (Err (FETonic CodeUnavailable "gone"), w ++ ["close"])
|}.

Lemma sql_status_recovered_witness :
  flight_error_to_term (V := unit)
    (FEArrow (IpcError (status_debug CodeNotFound "no table" ", source: None }")))
  = encode_sql_error "not_found" 5 "no table".
Proof.
  exact (proj1 (sql_status_recovered unit CodeNotFound "no table" ", source: None }")
           (fun H => eq_ind CodeNotFound (fun c => match c with CodeNotFound => True | _ => False end) I CodeOk H)
           eq_refl).
Defined.

Lemma prepared_statement_lifecycle_witness :
  stmt_run (W := list string) [OpExecute; OpClose]
    (snd (stmt_step (snd (stmt_run [OpExecute] (new_mutex "c", new_mutex (Some "q"), []))) OpClose))
  = ([RpStream statement_closed; RpUnit ok_ok],
     (new_mutex "c", new_mutex None, ["execute"; "do_get"; "close"])).
Proof.
  assert (quiet (W := list string)) as Hq by (by split).
  exact (proj2 (proj2 (prepared_statement_lifecycle (new_mutex "c") "q" [] [OpExecute] [OpExecute; OpClose] Hq))).
Defined.

Lemma bind_close_success_unmatched_witness :
  elixir_ok_or_error (fst (flight_sql_prepared_bind (W := list string) (new_mutex (Some "q")) sample_batch)) = None.
Proof.
  exact (proj1 (proj2 (proj2 (bind_close_success_unmatched (W := list string) (new_mutex (Some "q")) sample_batch [])))
    "q" "q" eq_refl eq_refl).
Defined.
