(* ===== verification/SqlConc.v ===== *)
(** * Concurrent calls on one SQL connection (flight_sql.rs)

    The NIFs run on dirty schedulers, so calls on one connection overlap.  Here
    each call is a process: it takes the locks the NIF takes, makes the RPCs of
    the NIF while it holds them, and drops them where the NIF does.  A process
    that runs alone is the NIF of [FlightSql]; [step] interleaves any number of
    them over the client, the prepared statements and the server. *)

From S2P Require Import Prelude Float Utf8 Term Arrow Stream FlightServer FlightClient FlightSql FlightSqlThms.

(** The mutexes of a connection: the client's and one for each statement. *)
Inductive LockId := LkClient | LkStmt (i : nat).

#[export] Instance LockId_eq_dec : EqDecision LockId.
Proof. solve_decision. Defined.

Section processes.
Context `{Rustler Term} `{Arrow} `{ChannelEnv} {W : Type} `{!SqlCrate Channel W}.

(** What the calls share. *)
Record Store := mkStore {
  so_client : SqlClientHandle;
  so_stmts : list (Mutex (option PreparedStatement));
  so_world : W
}.

Definition stmt_of (i : nat) (st : Store) : Mutex (option PreparedStatement) :=
  default (new_mutex None) (so_stmts st !! i).

Definition set_client (m : SqlClientHandle) (st : Store) : Store := mkStore m (so_stmts st) (so_world st).
Definition set_world (w : W) (st : Store) : Store := mkStore (so_client st) (so_stmts st) w.
Definition set_stmt (i : nat) (m : Mutex (option PreparedStatement)) (st : Store) : Store :=
  mkStore (so_client st) (<[i := m]> (so_stmts st)) (so_world st).

Definition lock_poisoned (l : LockId) (st : Store) : bool :=
  match l with LkClient => m_poisoned (so_client st) | LkStmt i => m_poisoned (stmt_of i st) end.

(** Dropping a guard while panicking. *)
Definition poison_lock (l : LockId) (st : Store) : Store :=
  match l with
  | LkClient => set_client (poison (m_value (so_client st))) st
  | LkStmt i => set_stmt i (poison (m_value (stmt_of i st))) st
  end.

(** The RPCs, as they show on the wire. *)
Inductive Event :=
| EvExecute (sql : string)             (* GetFlightInfo of a query *)
| EvUpdate (sql : string)
| EvInfo                               (* GetFlightInfo of a metadata call *)
| EvTicket (ticket : bytes)            (* DoGet *)
| EvPrepare (sql : string)
| EvStmt (i : nat).                    (* an RPC of a prepared statement *)

Inductive CallReply :=
| CrStream (r : Reply SqlStreamResource)
| CrCount (r : Reply UpdateCount)
| CrPrepared (r : Reply PreparedStatementResource)
| CrUnit (r : Reply string)
| CrSchema (r : Reply Schema).

(** A call in progress. *)
Inductive proc :=
| PDone (r : CallReply)
| PLock (l : LockId) (poisoned : CallReply) (k : proc)
| PAct (act : Store -> proc * Store * option Event)
| PUnlock (l : LockId) (panicked : bool) (k : proc).

(** The end of a critical section: the guard is dropped, the call replies. *)
Definition finish {E A} (l : LockId) (r : res E A) (reply : CallReply) : proc :=
  PUnlock l (match r with Panic _ => true | _ => false end) (PDone reply).

(** ** The calls *)

(** The endpoint, ticket and schema checks between [GetFlightInfo] and [DoGet]:
    what to fetch, or the reply and whether it is a panic. *)
Definition check_info (info : FlightInfo) : (bytes * Schema) + (bool * Reply SqlStreamResource) :=
  let endpoint_count := length (fi_endpoint info) in
  if negb (endpoint_count =? 1)%nat
  then inr (false, encode_sql_error "multi_endpoint" 0 (endpoint_error endpoint_count))
  else
    match fi_endpoint info !! 0%nat with
    | None => inr (true, RRaise "index out of bounds")
    | Some endpoint =>
        match ep_ticket endpoint with
        | None => inr (false, encode_sql_error "protocol_error" 0 "FlightEndpoint has no ticket")
        | Some ticket =>
            match decode_flight_schema (fi_schema info) with
            | Err e => inr (false, encode_sql_error "protocol_error" 0 e)
            | Panic s => inr (true, RRaise s)
            | Ok schema => inl (ticket, schema)
            end
        end
    end.

Definition client_poisoned {V} : Reply V := err_encode "client lock poisoned".
Definition stmt_poisoned {V} : Reply V := err_encode "statement lock poisoned".

(** [DoGet] under the client's lock. *)
Definition get_proc (ticket : bytes) (schema : Schema) : proc :=
  PAct (fun st =>
    let '(r, w) := rpc_ticket (m_value (so_client st)) ticket (so_world st) in
    (finish LkClient r (CrStream (sql_reply_with r (fun stream =>
       ok_encode (mkSqlStream schema (new_mutex stream))))), set_world w st, Some (EvTicket ticket))).

(** [flight_sql_query]: one critical section with both RPCs. *)
Definition query_proc (sql : string) : proc :=
  PLock LkClient (CrStream client_poisoned) (PAct (fun st =>
    let '(r, w) := rpc_execute (m_value (so_client st)) sql (so_world st) in
    (match r with
     | Err e => PUnlock LkClient false (PDone (CrStream (flight_error_to_term e)))
     | Panic s => PUnlock LkClient true (PDone (CrStream (RRaise s)))
     | Ok info =>
         match check_info info with
         | inl (ticket, schema) => get_proc ticket schema
         | inr (panics, reply) => PUnlock LkClient panics (PDone (CrStream reply))
         end
     end, set_world w st, Some (EvExecute sql)))).

(** [flight_info_to_stream]: the lock is taken for [DoGet] alone. *)
Definition info_proc (info : FlightInfo) : proc :=
  match check_info info with
  | inl (ticket, schema) => PLock LkClient (CrStream client_poisoned) (get_proc ticket schema)
  | inr (_, reply) => PDone (CrStream reply)
  end.

(** The metadata calls: two critical sections. *)
Definition metadata_proc (rpc : SqlServiceClient -> W -> res FlightError FlightInfo * W) : proc :=
  PLock LkClient (CrStream client_poisoned) (PAct (fun st =>
    let '(r, w) := rpc (m_value (so_client st)) (so_world st) in
    (match r with
     | Err e => PUnlock LkClient false (PDone (CrStream (flight_error_to_term e)))
     | Panic s => PUnlock LkClient true (PDone (CrStream (RRaise s)))
     | Ok info => PUnlock LkClient false (info_proc info)
     end, set_world w st, Some EvInfo))).

(** [flight_sql_execute]. *)
Definition update_proc (sql : string) : proc :=
  PLock LkClient (CrCount client_poisoned) (PAct (fun st =>
    let '(r, w) := rpc_execute_update (m_value (so_client st)) sql (so_world st) in
    (finish LkClient r (CrCount (sql_reply_with r (fun n => ok_encode (update_count n)))), set_world w st, Some (EvUpdate sql)))).

Definition prepare_proc (sql : string) : proc :=
  PLock LkClient (CrPrepared client_poisoned) (PAct (fun st =>
    let '(r, w) := rpc_prepare (m_value (so_client st)) sql (so_world st) in
    (finish LkClient r (CrPrepared (sql_reply_with r (fun stmt =>
       ok_encode (mkPrepared (so_client st) (new_mutex (Some stmt)))))), set_world w st, Some (EvPrepare sql)))).

(** A statement's call: under its own lock, [on_open] on the statement while it
    is open; [e] is its RPC, if it makes one. *)
Definition stmt_proc (i : nat) (e : option Event) (poisoned closed : CallReply)
    (on_open : PreparedStatement -> W -> proc * option PreparedStatement * W) : proc :=
  PLock (LkStmt i) poisoned (PAct (fun st =>
    match m_value (stmt_of i st) with
    | None => (PUnlock (LkStmt i) false (PDone closed), st, None)
    | Some stmt =>
        let '(p, v, w) := on_open stmt (so_world st) in
        (p, set_world w (set_stmt i (mkMutex v (m_poisoned (stmt_of i st))) st), e)
    end)).

Definition prepared_proc (i : nat) (op : StmtOp) : proc :=
  match op with
  | OpBind b =>
      stmt_proc i None (CrUnit stmt_poisoned) (CrUnit statement_closed) (fun stmt w =>
        let '(r, stmt) := set_parameters stmt b in
        (finish (LkStmt i) r (CrUnit (sql_reply_with r (fun _ => ok_ok))), Some stmt, w))
  | OpParameterSchema =>
      stmt_proc i None (CrSchema stmt_poisoned) (CrSchema statement_closed) (fun stmt w =>
        let r := parameter_schema stmt in
        (finish (LkStmt i) r (CrSchema (sql_reply_with r (fun schema => ok_encode schema))), Some stmt, w))
  | OpExecute =>
      stmt_proc i (Some (EvStmt i)) (CrStream stmt_poisoned) (CrStream statement_closed) (fun stmt w =>
        let '(r, stmt, w) := stmt_execute stmt w in
        (match r with
         | Err e => PUnlock (LkStmt i) false (PDone (CrStream (flight_error_to_term e)))
         | Panic s => PUnlock (LkStmt i) true (PDone (CrStream (RRaise s)))
         | Ok info => PUnlock (LkStmt i) false (info_proc info)
         end, Some stmt, w))
  | OpExecuteUpdate =>
      stmt_proc i (Some (EvStmt i)) (CrCount stmt_poisoned) (CrCount statement_closed) (fun stmt w =>
        let '(r, stmt, w) := stmt_execute_update stmt w in
        (finish (LkStmt i) r (CrCount (sql_reply_with r (fun n => ok_encode (update_count n)))), Some stmt, w))
  | OpClose =>
      (* taken out under the lock, closed after it is dropped *)
      PLock (LkStmt i) (CrUnit stmt_poisoned) (PAct (fun st =>
        (PUnlock (LkStmt i) false
           (match m_value (stmt_of i st) with
            | None => PDone (CrUnit ok_ok)
            | Some stmt =>
                PAct (fun st =>
                  let '(r, w) := stmt_close stmt (so_world st) in
                  (PDone (CrUnit (sql_reply_with r (fun _ => ok_ok))), set_world w st, Some (EvStmt i)))
            end), set_stmt i (mkMutex None (m_poisoned (stmt_of i st))) st, None)))
  end.

Inductive SqlCall :=
| CQuery (sql : string)
| CUpdate (sql : string)
| CTables (cmd : CommandGetTables)
| CDbSchemas (cmd : CommandGetDbSchemas)
| CSqlInfo
| CPrepare (sql : string)
| CStmt (i : nat) (op : StmtOp).

Definition call_proc (call : SqlCall) : proc :=
  match call with
  | CQuery sql => query_proc sql
  | CUpdate sql => update_proc sql
  | CTables cmd => metadata_proc (fun guard => rpc_get_tables guard cmd)
  | CDbSchemas cmd => metadata_proc (fun guard => rpc_get_db_schemas guard cmd)
  | CSqlInfo => metadata_proc (fun guard => rpc_get_sql_info guard [])
  | CPrepare sql => prepare_proc sql
  | CStmt i op => prepared_proc i op
  end.

(** ** Running *)

(** A process with nobody else on the connection. *)
Fixpoint alone (p : proc) (st : Store) : CallReply * Store :=
  match p with
  | PDone r => (r, st)
  | PLock l poisoned k => if lock_poisoned l st then (poisoned, st) else alone k st
  | PAct act => let '(p', st', _) := act st in alone p' st'
  | PUnlock l panicked k => alone k (if panicked then poison_lock l st else st)
  end.

(** A connection with its calls, who holds which lock, and the RPCs so far. *)
Record Conn := mkConn {
  cn_store : Store;
  cn_owner : LockId -> option nat;
  cn_procs : list proc;
  cn_trace : list (nat * Event)
}.

Definition free (l : LockId) (owner : LockId -> option nat) : LockId -> option nat :=
  fun l' => if decide (l' = l) then None else owner l'.
Definition take_lock (l : LockId) (i : nat) (owner : LockId -> option nat) : LockId -> option nat :=
  fun l' => if decide (l' = l) then Some i else owner l'.

(** The next action of call [i]; [None] when it waits for a lock or is done. *)
Definition step (i : nat) (c : Conn) : option Conn :=
  p ← cn_procs c !! i;
  match p with
  | PDone _ => None
  | PLock l poisoned k =>
      match cn_owner c l with
      | Some _ => None
      | None =>
          if lock_poisoned l (cn_store c)
          then Some (mkConn (cn_store c) (cn_owner c) (<[i := PDone poisoned]> (cn_procs c)) (cn_trace c))
          else Some (mkConn (cn_store c) (take_lock l i (cn_owner c)) (<[i := k]> (cn_procs c)) (cn_trace c))
      end
  | PAct act =>
      let '(p', st', e) := act (cn_store c) in
      Some (mkConn st' (cn_owner c) (<[i := p']> (cn_procs c)) (cn_trace c ++ (pair i <$> option_list e)))
  | PUnlock l panicked k =>
      Some (mkConn (if panicked then poison_lock l (cn_store c) else cn_store c) (free l (cn_owner c))
              (<[i := k]> (cn_procs c)) (cn_trace c))
  end.

Fixpoint run (schedule : list nat) (c : Conn) : option Conn :=
  match schedule with
  | [] => Some c
  | i :: rest => c' ← step i c; run rest c'
  end.

(** The calls have all been made and none has started. *)
Definition connection (st : Store) (calls : list SqlCall) : Conn :=
  mkConn st (fun _ => None) (map call_proc calls) [].

(** ** A process alone is the NIF *)

(** The NIFs on the shared state. *)
Definition on_client {V} (wrap : Reply V -> CallReply) (st : Store) (r : (Reply V * SqlClientHandle) * W)
    : CallReply * Store :=
  let '(reply, client, w) := r in (wrap reply, set_world w (set_client client st)).

Definition nif (call : SqlCall) (st : Store) : CallReply * Store :=
  let client := so_client st in
  let w := so_world st in
  match call with
  | CQuery sql => on_client CrStream st (flight_sql_query client sql w)
  | CUpdate sql => on_client CrCount st (flight_sql_execute client sql w)
  | CTables cmd =>
      on_client CrStream st (flight_sql_get_tables client (gt_catalog cmd) (gt_db_schema_filter_pattern cmd)
        (gt_table_name_filter_pattern cmd) (gt_table_types cmd) (gt_include_schema cmd) w)
  | CDbSchemas cmd =>
      on_client CrStream st (flight_sql_get_db_schemas client (gs_catalog cmd) (gs_db_schema_filter_pattern cmd) w)
  | CSqlInfo => on_client CrStream st (flight_sql_get_sql_info client w)
  | CPrepare sql => on_client CrPrepared st (flight_sql_prepare client sql w)
  | CStmt i op =>
      let '(r, (client, m, w)) := stmt_step (client, stmt_of i st, w) op in
      (match r with
       | RpUnit r => CrUnit r | RpSchema r => CrSchema r | RpStream r => CrStream r | RpCount r => CrCount r
       end, set_world w (set_stmt i m (set_client client st)))
  end.

(** [DoGet] with the usable client [g]. *)
Lemma get_alone ticket schema g st :
  so_client st = new_mutex g ->
  alone (get_proc ticket schema) st =
  (let '(r, w) := rpc_ticket g ticket (so_world st) in
   (CrStream (sql_reply_with r (fun stream => ok_encode (mkSqlStream schema (new_mutex stream)))),
    set_world w (set_client (release r g) st))).
Proof.
  intros Hg. unfold get_proc, finish. cbn. rewrite Hg. cbn.
  destruct (rpc_ticket g ticket (so_world st)) as [[] w]; cbn; destruct st; cbn in *; by subst.
Qed.

Lemma set_back st : set_world (so_world st) (set_client (so_client st) st) = st.
Proof. by destruct st. Qed.

Lemma info_alone info st :
  alone (info_proc info) st = on_client CrStream st (flight_info_to_stream (so_client st) info (so_world st)).
Proof.
  assert (forall r : Reply SqlStreamResource,
    (CrStream r, st) = on_client CrStream st (r, so_client st, so_world st)) as Hr by (intros r; by destruct st).
  unfold info_proc, flight_info_to_stream, check_info, on_client in *.
  destruct (negb _); [apply Hr|]. destruct (fi_endpoint info !! 0%nat) as [ep|]; [|apply Hr].
  destruct (ep_ticket ep) as [t|]; [|apply Hr].
  destruct (decode_flight_schema _) as [sc| |]; [|apply Hr|apply Hr].
  cbn [alone lock_poisoned]. destruct (so_client st) as [g []] eqn:Hg; cbn [m_poisoned lock m_value].
  - unfold lock. cbn. by rewrite <-Hg, set_back.
  - unfold lock. cbn [m_poisoned m_value]. rewrite (get_alone t sc g) by done. by destruct (rpc_ticket _ _ _).
Qed.

Lemma metadata_alone (rpc : SqlServiceClient -> W -> res FlightError FlightInfo * W) st :
  alone (metadata_proc rpc) st = on_client CrStream st (info_call (so_client st) (so_world st) rpc).
Proof.
  unfold metadata_proc, info_call, lock. cbn [alone lock_poisoned].
  destruct (so_client st) as [g []] eqn:Hg; cbn [m_poisoned m_value].
  - unfold on_client. by rewrite <-Hg, set_back.
  - destruct (rpc g (so_world st)) as [[info|e|s] w].
    + cbn [alone]. rewrite info_alone. unfold on_client. cbn [set_world so_client so_world]. rewrite Hg.
      by destruct (flight_info_to_stream _ _ _) as [[??] ?].
    + cbn. destruct st; cbn in *; by subst.
    + cbn. destruct st; cbn in *; by subst.
Qed.

Lemma query_alone sql st :
  alone (query_proc sql) st = on_client CrStream st (flight_sql_query (so_client st) sql (so_world st)).
Proof.
  unfold query_proc, flight_sql_query, lock, check_info. cbn [alone lock_poisoned].
  destruct (so_client st) as [g []] eqn:Hg; cbn [m_poisoned m_value].
  - unfold on_client. by rewrite <-Hg, set_back.
  - assert (forall (panics : bool) w (r : Reply SqlStreamResource),
      (r, (if panics then poison_lock LkClient (set_world w st) else set_world w st))
      = (r, set_world w (set_client (mkMutex g panics) st))) as Hst.
    { intros [] w r; destruct st; cbn in *; by subst. }
    pose proof (fun p w r => f_equal (fun '(r, s) => (CrStream r, s)) (Hst p w r)) as Hst'. cbv beta iota in Hst'.
    destruct (rpc_execute g sql (so_world st)) as [[info|e|s] w]; [|exact (Hst' false w _)|exact (Hst' true w _)].
    destruct (negb _); [exact (Hst' false w _)|].
    destruct (fi_endpoint info !! 0%nat) as [ep|]; [|exact (Hst' true w _)].
    destruct (ep_ticket ep) as [t|]; [|exact (Hst' false w _)].
    destruct (decode_flight_schema _) as [sc| |]; [|exact (Hst' false w _)|exact (Hst' true w _)].
    rewrite (get_alone t sc g) by done. cbn [set_world so_world]. by destruct (rpc_ticket _ _ _).
Qed.

(** An open statement that is there. *)
Lemma set_stmt_id i st m : stmt_of i st = m -> set_stmt i m st = st.
Proof.
  unfold stmt_of, set_stmt. destruct st as [c l w]; cbn. intros <-. f_equal.
  destruct (l !! i) eqn:E; cbn; [by apply list_insert_id|]. apply list_insert_ge, lookup_ge_None. done.
Qed.

Lemma set_stmt_twice i m m' st : set_stmt i m' (set_stmt i m st) = set_stmt i m' st.
Proof. unfold set_stmt. cbn. f_equal. apply list_insert_insert_eq. Qed.

Lemma stmt_of_set i m st s : stmt_of i st = new_mutex (Some s) -> stmt_of i (set_stmt i m st) = m.
Proof.
  unfold stmt_of, set_stmt. cbn. destruct (so_stmts st !! i) eqn:E; [|done]. intros _.
  rewrite list_lookup_insert_eq; [done|]. by eapply lookup_lt_Some.
Qed.

(** The end of a statement's critical section. *)
Lemma finish_stmt {E A} i (r : res E A) (p : proc) v w s st :
  stmt_of i st = new_mutex (Some s) ->
  alone (PUnlock (LkStmt i) (match r with Panic _ => true | _ => false end) p) (set_world w (set_stmt i (mkMutex v false) st))
  = alone p (set_world w (set_stmt i (release r v) st)).
Proof.
  intros Hs. cbn [alone]. unfold release. destruct r; [done..|]. cbn [poison_lock]. f_equal.
  change (stmt_of i (set_world w ?x)) with (stmt_of i x). rewrite (stmt_of_set _ _ _ s) by done.
  unfold set_world, set_stmt. cbn. f_equal. apply list_insert_insert_eq.
Qed.

Lemma stmt_alone i e poisoned closed on_open st :
  alone (stmt_proc i e poisoned closed on_open) st =
  match lock (stmt_of i st) with
  | None => (poisoned, st)
  | Some None => (closed, st)
  | Some (Some stmt) =>
      let '(p, v, w) := on_open stmt (so_world st) in
      alone p (set_world w (set_stmt i (mkMutex v false) st))
  end.
Proof.
  unfold stmt_proc, lock. cbn [alone lock_poisoned]. destruct (stmt_of i st) as [[stmt|] []]; cbn [m_poisoned m_value]; try done.
  by destruct (on_open stmt (so_world st)) as [[??] ?].
Qed.

Lemma prepared_alone i op st : alone (prepared_proc i op) st = nif (CStmt i op) st.
Proof.
  assert (forall r : CallReply, (r, st)
    = (r, set_world (so_world st) (set_stmt i (stmt_of i st) (set_client (so_client st) st)))) as Hid.
  { intros r. by rewrite (set_stmt_id i (set_client _ st)), set_back by (by destruct st). }
  destruct op as [b| | | |]; cbn [prepared_proc nif stmt_step].
  - rewrite stmt_alone. unfold flight_sql_prepared_bind.
    destruct (lock (stmt_of i st)) as [[s|]|] eqn:Hl; [|apply Hid..]. apply lock_Some in Hl.
    destruct (set_parameters s b) as [r s']. unfold finish. rewrite (finish_stmt _ r _ _ _ s) by done. by destruct st.
  - rewrite stmt_alone. unfold flight_sql_prepared_parameter_schema.
    destruct (lock (stmt_of i st)) as [[s|]|] eqn:Hl; [|apply Hid..]. apply lock_Some in Hl.
    unfold finish. rewrite (finish_stmt _ (parameter_schema s) _ _ _ s) by done. by destruct st.
  - rewrite stmt_alone. unfold flight_sql_prepared_execute.
    destruct (lock (stmt_of i st)) as [[s|]|] eqn:Hl; [|apply Hid..]. apply lock_Some in Hl.
    destruct (stmt_execute s (so_world st)) as [[r s'] w]. destruct r as [info|e|p].
    + etransitivity; [exact (finish_stmt i (@Ok string unit ()) (info_proc info) (Some s') w s st Hl)|].
      rewrite info_alone. cbn [set_world so_client so_world set_stmt].
      destruct (flight_info_to_stream _ _ _) as [[??] ?]. by destruct st.
    + etransitivity; [exact (finish_stmt i (@Ok string unit ()) (PDone _) (Some s') w s st Hl)|]. by destruct st.
    + etransitivity; [exact (finish_stmt i (@Panic string unit p) (PDone _) (Some s') w s st Hl)|]. by destruct st.
  - rewrite stmt_alone. unfold flight_sql_prepared_execute_update.
    destruct (lock (stmt_of i st)) as [[s|]|] eqn:Hl; [|apply Hid..]. apply lock_Some in Hl.
    destruct (stmt_execute_update s (so_world st)) as [[r s'] w]. unfold finish.
    rewrite (finish_stmt _ r _ _ _ s) by done. by destruct st.
  - unfold flight_sql_prepared_close, lock. cbn [alone lock_poisoned].
    destruct (stmt_of i st) as [v []] eqn:Hs; cbn [m_poisoned m_value].
    + apply Hid.
    + destruct v as [s|]; cbn [alone]; [|by destruct st].
      cbn [set_stmt so_world]. destruct (stmt_close s (so_world st)) as [r w]. by destruct st.
Qed.

(** A call that runs alone on its connection is the NIF: the process of every call, its locks, RPCs and unlocks one after the other, gives the reply of
    the NIF and leaves the client, the statements and the server as it does. *)
Lemma alone_nif call st : alone (call_proc call) st = nif call st.
Proof.
  destruct call as [sql|sql|cmd|cmd| |sql|i op]; cbn [call_proc nif].
  - apply query_alone.
  - unfold update_proc, flight_sql_execute, finish, lock. cbn [alone lock_poisoned].
    destruct (so_client st) as [g []] eqn:Hg; cbn [m_poisoned m_value].
    + unfold on_client. by rewrite <-Hg, set_back.
    + destruct (rpc_execute_update g sql (so_world st)) as [[] w]; destruct st; cbn in *; by subst.
  - rewrite metadata_alone. unfold flight_sql_get_tables. by destruct cmd.
  - rewrite metadata_alone. unfold flight_sql_get_db_schemas. by destruct cmd.
  - apply metadata_alone.
  - unfold prepare_proc, flight_sql_prepare, finish, lock. cbn [alone lock_poisoned].
    destruct (so_client st) as [g []] eqn:Hg; cbn [m_poisoned m_value].
    + unfold on_client. by rewrite <-Hg, set_back.
    + destruct (rpc_prepare g sql (so_world st)) as [[] w]; destruct st; cbn in *; by subst.
  - apply prepared_alone.
Qed.

End processes.
