(* ===== verification/SqlConcThms.v ===== *)
(** * Theorems about concurrent calls on one SQL connection

    A discipline that every call follows (a lock is never taken while another
    is held, and the client's RPCs are made under the client's lock) gives
    progress; the critical section of a query gives its atomicity; and calls
    with a single critical section are serialised. *)

From S2P Require Import Prelude Float Utf8 Term Arrow ArrowRef Stream FlightServer FlightClient FlightSql FlightSqlThms SqlConc ComputeThms.

(** The cases of an action: the answers of its RPCs. *)
Ltac act_cases :=
  intros st; repeat match goal with
    | |- context [set_parameters ?s ?b] => destruct (set_parameters s b) as [? ?]
    | |- context [stmt_execute ?s ?w] => destruct (stmt_execute s w) as [[? ?] ?]
    | |- context [stmt_execute_update ?s ?w] => destruct (stmt_execute_update s w) as [[? ?] ?]
    | |- context [let '(_, _) := ?x in _] => destruct x as [? ?] eqn:?
    | |- context [match ?x with _ => _ end] => destruct x eqn:?
    end; cbn [fst snd].

Section discipline.
Context `{Rustler Term} `{Arrow} `{ChannelEnv} {W : Type} `{!SqlCrate Channel W}.

(** Everything but the RPCs of prepared statements goes through the client. *)
Definition client_event (e : Event) : bool := match e with EvStmt _ => false | _ => true end.

(** A process that holds [held] and nothing else. *)
Inductive disciplined : option LockId -> proc -> Prop :=
| disc_done r : disciplined None (PDone r)
| disc_lock l poisoned k : disciplined (Some l) k -> disciplined None (PLock l poisoned k)
| disc_act held act :
    (forall st, disciplined held (fst (fst (act st))) /\
       forall e, snd (act st) = Some e -> client_event e = true -> held = Some LkClient) ->
    disciplined held (PAct act)
| disc_unlock l panicked k : disciplined None k -> disciplined (Some l) (PUnlock l panicked k).

(** A process that ends within [n] steps. *)
Inductive ends_in : nat -> proc -> Prop :=
| ends_done n r : ends_in n (PDone r)
| ends_lock n l poisoned k : ends_in n k -> ends_in (S n) (PLock l poisoned k)
| ends_act n act : (forall st, ends_in n (fst (fst (act st)))) -> ends_in (S n) (PAct act)
| ends_unlock n l panicked k : ends_in n k -> ends_in (S n) (PUnlock l panicked k).

#[local] Hint Constructors disciplined ends_in : proc.

Lemma get_disciplined ticket schema : disciplined (Some LkClient) (get_proc ticket schema).
Proof. unfold get_proc, finish. constructor. act_cases; (split; [eauto with proc|]); by intros ? [= <-]. Qed.

Lemma get_ends n ticket schema : ends_in (S (S n)) (get_proc ticket schema).
Proof. unfold get_proc, finish. constructor. act_cases; eauto with proc. Qed.

#[local] Hint Resolve get_disciplined get_ends : proc.

Lemma info_disciplined info : disciplined None (info_proc info).
Proof. unfold info_proc. destruct (check_info info) as [[]|[]]; eauto with proc. Qed.

Lemma info_ends n info : ends_in (S (S (S n))) (info_proc info).
Proof. unfold info_proc. destruct (check_info info) as [[]|[]]; eauto with proc. Qed.

#[local] Hint Resolve info_disciplined info_ends : proc.

(** The RPC that closes a statement, after its lock was dropped. *)
Lemma close_disciplined i (act : Store -> proc * Store * option Event) :
  (forall st, exists r st', act st = (PDone r, st', Some (EvStmt i))) ->
  disciplined None (PAct act) /\ forall n, ends_in (S (S n)) (PAct act).
Proof.
  intros Ha. split; [|intros n]; constructor; intros st; destruct (Ha st) as (r & st' & ->); cbn; [|eauto with proc].
  split; [eauto with proc|]. by intros ? [= <-].
Qed.

Ltac close_stmt := constructor; eapply close_disciplined; intros st'; destruct (stmt_close _ (so_world st')); eauto.

(** Every call follows the discipline and takes at most six steps. *)
Lemma call_disciplined call : disciplined None (call_proc call).
Proof.
  destruct call as [sql|sql|cmd|cmd| |sql|i []]; cbn [call_proc prepared_proc];
    unfold query_proc, update_proc, metadata_proc, prepare_proc, stmt_proc, finish; constructor; constructor;
    act_cases; (split; [solve [eauto with proc|close_stmt]|]); try (by intros ? [=]); by intros ? [= <-].
Qed.

Lemma call_ends call : ends_in 6 (call_proc call).
Proof.
  destruct call as [sql|sql|cmd|cmd| |sql|i []]; cbn [call_proc prepared_proc];
    unfold query_proc, update_proc, metadata_proc, prepare_proc, stmt_proc, finish; constructor; constructor;
    act_cases; solve [eauto with proc|close_stmt].
Qed.

End discipline.

(** ** Progress *)

Section progress.
Context `{Rustler Term} `{Arrow} `{ChannelEnv} {W : Type} `{!SqlCrate Channel W}.

Definition is_done (p : proc) : bool := match p with PDone _ => true | _ => false end.

(** Every process holds the locks it is registered for, and no others. *)
Definition well_locked (c : Conn) : Prop :=
  (forall i p, cn_procs c !! i = Some p ->
     exists held, disciplined held p /\ forall l, cn_owner c l = Some i <-> held = Some l) /\
  (forall l i, cn_owner c l = Some i -> is_Some (cn_procs c !! i)).

Lemma connection_well_locked st calls : well_locked (connection st calls).
Proof.
  split; [|done]. intros i p Hp. unfold connection in Hp. cbn in Hp. rewrite list_lookup_fmap in Hp.
  destruct (calls !! i); [|done]. injection Hp as <-. exists None. split; [apply call_disciplined|done].
Qed.

(** The pieces of a step. *)
Lemma step_inv i c c' :
  step i c = Some c' ->
  exists p p', cn_procs c !! i = Some p /\ cn_procs c' = <[i := p']> (cn_procs c) /\
    match p with
    | PDone _ => False
    | PLock l poisoned k =>
        cn_owner c l = None /\ cn_store c' = cn_store c /\ cn_trace c' = cn_trace c /\
        (if lock_poisoned l (cn_store c) then p' = PDone poisoned /\ cn_owner c' = cn_owner c
         else p' = k /\ cn_owner c' = take_lock l i (cn_owner c))
    | PAct act =>
        p' = fst (fst (act (cn_store c))) /\ cn_store c' = snd (fst (act (cn_store c))) /\
        cn_owner c' = cn_owner c /\
        cn_trace c' = cn_trace c ++ (pair i <$> option_list (snd (act (cn_store c))))
    | PUnlock l panicked k =>
        p' = k /\ cn_store c' = (if panicked then poison_lock l (cn_store c) else cn_store c) /\
        cn_owner c' = free l (cn_owner c) /\ cn_trace c' = cn_trace c
    end.
Proof.
  unfold step. intros (p & Hp & Hs)%bind_Some. destruct p as [r|l poisoned k|act|l panicked k]; [done|..].
  - destruct (cn_owner c l) eqn:Ho; [done|]. destruct (lock_poisoned l (cn_store c)) eqn:Hl; injection Hs as <-;
      exists (PLock l poisoned k); eexists; rewrite Hl; split_and!; (exact Hp || reflexivity || done).
  - destruct (act (cn_store c)) as [[p' st'] e] eqn:Ha. injection Hs as <-. exists (PAct act), p'. rewrite Ha. cbn. eauto 10.
  - injection Hs as <-. exists (PUnlock l panicked k), k. cbn. eauto 10.
Qed.

Lemma well_locked_step i c c' : well_locked c -> step i c = Some c' -> well_locked c'.
Proof.
  intros [Hw Hr] Hs. destruct (step_inv _ _ _ Hs) as (p & p' & Hp & Hps & Hstep).
  pose proof (lookup_lt_Some _ _ _ Hp) as Hi. destruct (Hw i p Hp) as (held & Hd & Ho).
  assert (forall l j, cn_owner c' l = Some j -> cn_owner c l = Some j \/ j = i) as Hown.
  { intros l j Hj. destruct p as [r|l' ? k|act|l' ? k]; [done|..].
    - destruct Hstep as (_ & _ & _ & Hc). case_match; destruct Hc as [_ Hc]; rewrite Hc in Hj; [by left|].
      unfold take_lock in Hj. case_decide; [right; congruence|by left].
    - destruct Hstep as (_ & _ & Hc & _). rewrite Hc in Hj. by left.
    - destruct Hstep as (_ & _ & Hc & _). rewrite Hc in Hj. unfold free in Hj. case_decide; [done|by left]. }
  split.
  2: { intros l j [Hj| ->]%Hown; rewrite Hps.
       - destruct (Hr l j Hj) as [q Hq]. apply lookup_lt_is_Some. rewrite length_insert. by apply lookup_lt_is_Some.
       - rewrite list_lookup_insert_eq by done. eauto. }
  intros j q Hq. rewrite Hps in Hq. destruct (decide (j = i)) as [->|Hne].
  - rewrite list_lookup_insert_eq in Hq by done. injection Hq as ->.
    inversion Hd as [r|l e k Hk|h act Hact|l b k Hk]; subst; [done|..].
    + destruct Hstep as (Hf & _ & _ & Hc). case_match; destruct Hc as [-> Hc]; rewrite Hc.
      * exists None. split; [constructor|done].
      * exists (Some l). split; [done|]. intros l'. unfold take_lock. case_decide; [naive_solver|].
        rewrite Ho. naive_solver.
    + destruct Hstep as (-> & _ & Hc & _). rewrite Hc. exists held. split; [apply Hact|done].
    + destruct Hstep as (-> & _ & Hc & _). rewrite Hc. exists None. split; [done|]. intros l'. unfold free.
      case_decide; [done|]. rewrite Ho. naive_solver.
  - rewrite list_lookup_insert_ne in Hq by done. destruct (Hw j q Hq) as (h' & Hd' & Ho'). exists h'.
    split; [done|]. intros l. rewrite <-Ho'. split; [intros [Hj|Hj]%Hown; [done|congruence]|].
    intros Hj. destruct p as [r|l' ? k|act|l' ? k]; [done|..].
    + destruct Hstep as (Hf & _ & _ & Hc). case_match; destruct Hc as [_ Hc]; rewrite Hc; [done|].
      unfold take_lock. case_decide; [congruence|done].
    + destruct Hstep as (_ & _ & Hc & _). by rewrite Hc.
    + destruct Hstep as (_ & _ & Hc & _). rewrite Hc. unfold free. case_decide; [|done]. subst l'.
      inversion Hd as [| | |? ? ? Hk]; subst. pose proof (proj2 (Ho l) eq_refl). congruence.
Qed.

(** A waiting call never waits for a call that waits: some call can move. *)
Lemma well_locked_progress c :
  well_locked c -> (exists p, p ∈ cn_procs c /\ is_done p = false) -> exists i c', step i c = Some c'.
Proof.
  intros [Hw Hr] (p & Hp & Hnd).
  set (moving := fun p => match p with PAct _ | PUnlock _ _ _ => True | _ => False end).
  assert (forall i q, cn_procs c !! i = Some q -> moving q -> exists c', step i c = Some c') as Hmove.
  { intros i q Hq Hm. unfold step. rewrite Hq. cbn. destruct q as [| |act|]; try done; [|eauto].
    destruct (act (cn_store c)) as [[??] ?]. eauto. }
  destruct (decide (Exists (fun q => match q with PAct _ | PUnlock _ _ _ => true | _ => false end = true) (cn_procs c))) as [He|He].
  { apply Exists_exists in He as (q & Hq & Hm). apply list_elem_of_lookup in Hq as [i Hi].
    destruct (Hmove i q Hi) as [c' Hc]; [by destruct q|eauto]. }
  apply list_elem_of_lookup in Hp as [i Hi]. exists i. unfold step. rewrite Hi. cbn.
  assert (forall j q, cn_procs c !! j = Some q -> forall l, cn_owner c l <> Some j) as Hfree.
  { intros j q Hq l Hl. destruct (Hw j q Hq) as (held & Hd & Ho). apply Ho in Hl as ->.
    apply He, Exists_exists. exists q. split; [by eapply list_elem_of_lookup_2|]. by inversion Hd. }
  destruct p as [|l e k|act|l b k]; [done| | |].
  - destruct (cn_owner c l) as [j|] eqn:Hl; [|case_match; eauto].
    destruct (Hr l j Hl) as [q Hq]. by destruct (Hfree j q Hq l).
  - destruct (act (cn_store c)) as [[??] ?]. eauto.
  - eauto.
Qed.

(** The steps that are left. *)
Definition steps_left (ns : list nat) (c : Conn) : Prop := Forall2 ends_in ns (cn_procs c).

Lemma steps_left_step ns i c c' :
  steps_left ns c -> step i c = Some c' -> exists ns', steps_left ns' c' /\ (S (list_sum ns') <= list_sum ns)%nat.
Proof.
  intros Hn Hs. destruct (step_inv _ _ _ Hs) as (p & p' & Hp & Hps & Hstep).
  destruct (Forall2_lookup_r _ _ _ _ _ Hn Hp) as (n & Hi & He).
  assert (exists m, n = S m /\ ends_in m p') as (m & -> & Hm).
  { inversion He as [|? ? ? ? Hk|? ? Hk|? ? ? ? Hk]; subst; [done| | |].
    - destruct Hstep as (_ & _ & _ & Hc). case_match; destruct Hc as [-> _]; eexists; (split; [done|]); [constructor|done].
    - destruct Hstep as (-> & _). eauto.
    - destruct Hstep as (-> & _). eauto. }
  exists (<[i := m]> ns). split; [unfold steps_left; rewrite Hps; by apply Forall2_insert|].
  apply list_elem_of_split_length in Hi as (l1 & l2 & -> & ->).
  rewrite insert_app_r_alt, Nat.sub_diag by done. cbn. rewrite !list_sum_app. cbn. lia.
Qed.

Lemma run_left schedule c c' ns :
  steps_left ns c -> run schedule c = Some c' ->
  exists ns', steps_left ns' c' /\ (length schedule + list_sum ns' <= list_sum ns)%nat.
Proof.
  revert c ns. induction schedule as [|i rest IH]; intros c ns Hn; cbn; [intros [= <-]; eauto|].
  intros (c1 & Hs & Hr)%bind_Some. destruct (steps_left_step _ _ _ _ Hn Hs) as (ns1 & Hn1 & Hle).
  destruct (IH _ _ Hn1 Hr) as (ns' & Hn' & Hle'). exists ns'. split; [done|]. lia.
Qed.

Lemma run_app s1 s2 c : run (s1 ++ s2) c = (c' ← run s1 c; run s2 c').
Proof. revert c. induction s1 as [|i s1 IH]; intros c; [done|]. cbn. destruct (step i c); [apply IH|done]. Qed.

Lemma run_well_locked schedule c c' : well_locked c -> run schedule c = Some c' -> well_locked c'.
Proof.
  revert c. induction schedule as [|i rest IH]; intros c Hw; cbn; [by intros [= <-]|].
  intros (c1 & Hs & Hr)%bind_Some. eapply IH; [|done]. by eapply well_locked_step.
Qed.

(** A state can be run to its end. *)
Lemma completes ns c :
  steps_left ns c -> well_locked c -> exists rest c', run rest c = Some c' /\ Forall (fun p => is_done p = true) (cn_procs c').
Proof.
  remember (list_sum ns) as n eqn:Hn. revert ns c Hn. induction n as [n IH] using lt_wf_ind.
  intros ns c -> Hl Hw. destruct (decide (Forall (fun p => is_done p = true) (cn_procs c))) as [Hd|Hd]; [by exists [], c|].
  apply not_Forall_Exists in Hd; [|intros ?; apply _]. apply Exists_exists in Hd as (p & Hp & Hnd).
  destruct (well_locked_progress c Hw) as (i & c1 & Hs); [exists p; split; [done|by apply not_true_is_false]|].
  destruct (steps_left_step _ _ _ _ Hl Hs) as (ns1 & Hl1 & Hlt).
  destruct (IH (list_sum ns1)) with (ns := ns1) (c := c1) as (rest & c' & Hr & Hd'); [lia|done|done|by eapply well_locked_step|].
  exists (i :: rest), c'. cbn. by rewrite Hs.
Qed.

(** C17: Concurrent calls on a connection always finish.  However the calls are
    interleaved, a run has at most six steps per call; in every state it can
    reach in which some call has not replied, some call can make a step (no
    deadlock, and a poisoned lock blocks nobody); and from there all of them
    can be brought to their replies. *)
Theorem sql_calls_complete st calls schedule c :
  run schedule (connection st calls) = Some c ->
  (length schedule <= 6 * length calls)%nat /\
  ((exists p, p ∈ cn_procs c /\ is_done p = false) -> exists i c', step i c = Some c') /\
  exists rest c', run rest c = Some c' /\ Forall (fun p => is_done p = true) (cn_procs c').
Proof.
  intros Hr. assert (steps_left (replicate (length calls) 6%nat) (connection st calls)) as Hl.
  { unfold steps_left, connection. cbn. apply Forall2_fmap_r. clear. induction calls; cbn; constructor; [apply call_ends|done]. }
  pose proof (run_well_locked _ _ _ (connection_well_locked st calls) Hr) as Hw.
  destruct (run_left _ _ _ _ Hl Hr) as (ns & Hn & Hle).
  split; [|split; [by apply well_locked_progress|by eapply completes]].
  assert (list_sum (replicate (length calls) 6%nat) = 6 * length calls)%nat as Hsum; [|lia].
  clear. induction calls as [|? calls IH]; cbn [length replicate list_sum foldr]; [done|]. unfold list_sum in IH. lia.
Qed.

End progress.

(** ** Queries are not interrupted *)

Section queries.
Context `{Rustler Term} `{Arrow} `{ChannelEnv} {W : Type} `{!SqlCrate Channel W}.

Definition stmt_rpc (ev : nat * Event) : Prop := client_event (snd ev) = false.

(** Call [i]'s [GetFlightInfo] was sent, and nothing but RPCs of prepared
    statements since. *)
Definition executing (i : nat) (sql : string) (trace : list (nat * Event)) : Prop :=
  exists pre mid, trace = pre ++ (i, EvExecute sql) :: mid /\ Forall stmt_rpc mid.

(** How far a query is. *)
Inductive query_stage (i : nat) (sql : string) (c : Conn) : proc -> Prop :=
| qs_waiting : query_stage i sql c (query_proc sql)
| qs_locked k : query_proc sql = PLock LkClient (CrStream client_poisoned) k -> query_stage i sql c k
| qs_executed ticket schema :
    executing i sql (cn_trace c) -> cn_owner c LkClient = Some i -> query_stage i sql c (get_proc ticket schema)
| qs_leaving panicked r : query_stage i sql c (PUnlock LkClient panicked (PDone r))
| qs_done r : query_stage i sql c (PDone r).

(** Every [DoGet] of a query comes from its own [GetFlightInfo]. *)
Definition uninterrupted (calls : list SqlCall) (trace : list (nat * Event)) : Prop :=
  forall i sql pre ticket post,
    calls !! i = Some (CQuery sql) -> trace = pre ++ (i, EvTicket ticket) :: post -> executing i sql pre.

Record query_inv (calls : list SqlCall) (c : Conn) : Prop := {
  qi_locked : well_locked c;
  qi_stage i sql p : calls !! i = Some (CQuery sql) -> cn_procs c !! i = Some p -> query_stage i sql c p;
  qi_trace : uninterrupted calls (cn_trace c)
}.

Lemma executing_snoc i sql trace ev : executing i sql trace -> stmt_rpc ev -> executing i sql (trace ++ [ev]).
Proof.
  intros (pre & mid & -> & Hm) He. exists pre, (mid ++ [ev]). rewrite <-app_assoc. split; [done|].
  apply Forall_app. split; [done|by constructor].
Qed.

Lemma uninterrupted_snoc calls trace i e :
  uninterrupted calls trace ->
  (forall sql ticket, calls !! i = Some (CQuery sql) -> e = EvTicket ticket -> executing i sql trace) ->
  uninterrupted calls (trace ++ [(i, e)]).
Proof.
  intros Hu He j sql pre ticket post Hj Ht. destruct post as [|ev post _] using rev_ind.
  - apply app_inj_tail in Ht as [<- [= -> ->]]. by eapply He.
  - rewrite app_comm_cons, app_assoc in Ht. apply app_inj_tail in Ht as [-> _]. by eapply Hu.
Qed.

(** What the action of a query does: its RPC, and where it goes from there. *)
Lemma query_act sql k :
  query_proc sql = PLock LkClient (CrStream client_poisoned) k ->
  exists act, k = PAct act /\ forall st, snd (act st) = Some (EvExecute sql) /\
    ((exists ticket schema, fst (fst (act st)) = get_proc ticket schema) \/
     exists panicked r, fst (fst (act st)) = PUnlock LkClient panicked (PDone r)).
Proof.
  intros [= <-]. eexists. split; [reflexivity|]. intros st. cbv beta.
  destruct (rpc_execute (m_value (so_client st)) sql (so_world st)) as [[info| |] w]; cbn; (split; [done|]);
    [|right; by do 2 eexists..].
  destruct (check_info info) as [[]|[]]; cbn; [left|right]; by do 2 eexists.
Qed.

(** One step of one call, as the others see it: the trace grows by at most one
    event, and only a holder of the client's lock adds one of the client's. *)
Lemma step_event i c c' :
  well_locked c -> step i c = Some c' ->
  cn_trace c' = cn_trace c \/
  exists e, cn_trace c' = cn_trace c ++ [(i, e)] /\ (client_event e = true -> cn_owner c LkClient = Some i).
Proof.
  intros [Hw _] Hs. destruct (step_inv _ _ _ Hs) as (p & p' & Hp & _ & Hstep).
  destruct (Hw i p Hp) as (held & Hd & Ho). destruct p as [r|l ? k|act|l ? k]; [done| | |].
  - left. by destruct Hstep as (_ & _ & ? & _).
  - destruct Hstep as (_ & _ & _ & ->). inversion Hd as [| |? ? Hact|]; subst.
    destruct (Hact (cn_store c)) as [_ He]. destruct (snd (act (cn_store c))) as [e|]; [|left; by rewrite app_nil_r].
    right. exists e. split; [done|]. intros Hc. by apply Ho, (He e).
  - left. by destruct Hstep as (_ & _ & _ & ?).
Qed.

(** Only the holder gives the client's lock away. *)
Lemma step_owner i j c c' :
  well_locked c -> step i c = Some c' -> j <> i -> cn_owner c LkClient = Some j -> cn_owner c' LkClient = Some j.
Proof.
  intros [Hw _] Hs Hne Hj. destruct (step_inv _ _ _ Hs) as (p & p' & Hp & _ & Hstep).
  destruct (Hw i p Hp) as (held & Hd & Ho). destruct p as [r|l ? k|act|l ? k]; [done| | |].
  - destruct Hstep as (Hf & _ & _ & Hc). case_match; destruct Hc as [_ ->]; [done|].
    unfold take_lock. case_decide; [congruence|done].
  - by destruct Hstep as (_ & _ & -> & _).
  - destruct Hstep as (_ & _ & -> & _). unfold free. case_decide as E; [|done]. subst l.
    inversion Hd; subst. pose proof (proj2 (Ho LkClient) eq_refl). congruence.
Qed.

Lemma query_inv_step calls i c c' : query_inv calls c -> step i c = Some c' -> query_inv calls c'.
Proof.
  intros [Hwl Hst Htr] Hs. pose proof (well_locked_step _ _ _ Hwl Hs) as Hwl'.
  destruct (step_inv _ _ _ Hs) as (p & p' & Hp & Hps & Hstep).
  pose proof (lookup_lt_Some _ _ _ Hp) as Hi. destruct (proj1 Hwl i p Hp) as (held & Hd & Ho).
  split; [done| |].
  - intros j sql q Hj Hq. rewrite Hps in Hq. destruct (decide (j = i)) as [->|Hne].
    + rewrite list_lookup_insert_eq in Hq by done. injection Hq as ->.
      destruct (Hst i sql p Hj Hp) as [|k Hk|ticket schema Hex How|panicked r|r]; [| | | |done].
      * destruct Hstep as (_ & _ & _ & Hc). case_match; destruct Hc as [-> _]; [apply qs_done|by eapply qs_locked].
      * destruct (query_act sql k Hk) as (act & -> & Hact). destruct (Hact (cn_store c)) as [He Hn].
        destruct Hstep as (-> & _ & Hown & Ht).
        destruct Hn as [(ticket & schema & ->)|(panicked & r & ->)]; [|apply qs_leaving]. apply qs_executed.
        { rewrite Ht, He. exists (cn_trace c), []. split; [done|constructor]. }
        rewrite Hown. apply Ho. inversion Hd as [| |? ? Hx|]; subst. destruct (Hx (cn_store c)) as [_ Hy]. by apply (Hy _ He).
      * destruct Hstep as (-> & _). cbn. destruct (rpc_ticket (m_value (so_client (cn_store c))) ticket (so_world (cn_store c))) as [? ?]. apply qs_leaving.
      * destruct Hstep as (-> & _). apply qs_done.
    + rewrite list_lookup_insert_ne in Hq by done.
      destruct (Hst j sql q Hj Hq) as [|k Hk|ticket schema Hex How|panicked r|r]; [apply qs_waiting|by eapply qs_locked| |apply qs_leaving|apply qs_done].
      apply qs_executed; [|by apply (step_owner i j c c' Hwl Hs Hne)].
      destruct (step_event _ _ _ Hwl Hs) as [->|(e & -> & He)]; [done|]. apply executing_snoc; [done|].
      unfold stmt_rpc. cbn. destruct (client_event e); [|done]. specialize (He eq_refl). congruence.
  - destruct p as [r|l ? k|act|l ? k]; [done|by destruct Hstep as (_ & _ & -> & _)| |by destruct Hstep as (_ & _ & _ & ->)].
    destruct Hstep as (_ & _ & _ & ->). destruct (snd (act (cn_store c))) as [e|] eqn:He; [|by rewrite app_nil_r].
    apply uninterrupted_snoc; [done|]. intros sql ticket Hj ->.
    remember (PAct act) as q eqn:Hq.
    destruct (Hst i sql q Hj Hp) as [|k Hk|tk sc Hex How|panicked r|r]; try discriminate Hq; [|done].
    destruct (query_act sql k Hk) as (act' & -> & Hact). injection Hq as ->. destruct (Hact (cn_store c)) as [Hx _]. congruence.
Qed.

(** C8: Nothing slips into a query.  A query holds the client's lock from
    [GetFlightInfo] to [DoGet], so whatever calls overlap with it, each
    [DoGet] of a query is preceded on the connection by its own
    [GetFlightInfo] with no RPC of another query, update, metadata call,
    prepare or [DoGet] in between; only RPCs of prepared statements, which do
    not use the client's lock, can come between the two. *)
Theorem sql_query_uninterrupted st calls schedule c i sql pre ticket post :
  run schedule (connection st calls) = Some c ->
  calls !! i = Some (CQuery sql) ->
  cn_trace c = pre ++ (i, EvTicket ticket) :: post ->
  exists before mid, pre = before ++ (i, EvExecute sql) :: mid /\ Forall stmt_rpc mid.
Proof.
  intros Hr Hi Ht. assert (query_inv calls c) as [_ _ Hu]; [|by eapply Hu].
  assert (query_inv calls (connection st calls)) as Hinv.
  { split; [apply connection_well_locked| |].
    - intros j sql' p Hj Hp. unfold connection in Hp. cbn in Hp. rewrite list_lookup_fmap, Hj in Hp.
      injection Hp as <-. apply qs_waiting.
    - intros j sql' pre' tk post' _ Hn. by destruct pre'. }
  revert Hr Hinv. generalize (connection st calls). clear. induction schedule as [|j rest IH]; intros c0; cbn; [by intros [= <-]|].
  intros (c1 & Hs & Hr)%bind_Some Hinv. eapply IH; [done|]. by eapply query_inv_step.
Qed.

End queries.

(** ** Serialisation *)

Section serial.
Context `{Rustler Term} `{Arrow} `{ChannelEnv} {W : Type} `{!SqlCrate Channel W}.

(** The calls that keep the client locked from their first RPC to their last. *)
Definition one_section (call : SqlCall) : Prop :=
  match call with CQuery _ | CUpdate _ | CPrepare _ => True | _ => False end.

(** The NIFs called one after the other, in the order [order] of the calls. *)
Fixpoint serial (calls : list SqlCall) (order : list nat) (st : Store) : list (nat * CallReply) * Store :=
  match order with
  | [] => ([], st)
  | i :: rest =>
      match calls !! i with
      | None => serial calls rest st
      | Some call =>
          let '(r, st) := nif call st in
          let '(rs, st) := serial calls rest st in ((i, r) :: rs, st)
      end
  end.

(** The rest of a critical section of the client. *)
Inductive in_section : proc -> Prop :=
| is_act act : (forall st, in_section (fst (fst (act st)))) -> in_section (PAct act)
| is_unlock panicked r : in_section (PUnlock LkClient panicked (PDone r)).

#[local] Hint Constructors in_section : proc.

Lemma get_in_section ticket schema : in_section (get_proc ticket schema).
Proof. constructor. act_cases. apply is_unlock. Qed.

#[local] Hint Resolve get_in_section : proc.

Lemma one_section_proc call :
  one_section call -> exists poisoned k, call_proc call = PLock LkClient poisoned k /\ in_section k.
Proof.
  destruct call as [sql|sql| | | |sql|]; intros Hc; try done; eexists _, _; (split; [reflexivity|]);
    unfold finish; constructor; act_cases; eauto with proc.
Qed.

Lemma serial_snoc calls order i call st :
  calls !! i = Some call ->
  serial calls (order ++ [i]) st =
  (fst (serial calls order st) ++ [(i, fst (nif call (snd (serial calls order st))))],
   snd (nif call (snd (serial calls order st)))).
Proof.
  intros Hi. revert st. induction order as [|j order IH]; intros st; cbn [app serial].
  - rewrite Hi. cbn. by destruct (nif call st).
  - destruct (calls !! j) as [cj|]; [|apply IH]. destruct (nif cj st) as [r st1]. rewrite IH.
    by destruct (serial calls order st1).
Qed.

Lemma serial_elem calls order st i :
  i ∈ order -> is_Some (calls !! i) -> exists r, (i, r) ∈ fst (serial calls order st).
Proof.
  revert st. induction order as [|j order IH]; intros st Hin Hs; [by apply elem_of_nil in Hin|]. cbn.
  destruct (decide (i = j)) as [->|Hne].
  - destruct Hs as [call ->]. destruct (nif call st) as [r st1]. destruct (serial calls order st1). eexists. by left.
  - apply elem_of_cons in Hin as [?|Hin]; [done|]. destruct (calls !! j) as [cj|]; [|by apply IH].
    destruct (nif cj st) as [r st1]. destruct (IH st1 Hin Hs) as [r' Hr]. destruct (serial calls order st1).
    exists r'. by right.
Qed.

(** A state of a run of such calls: the calls of [order] have replied as if
    made one after the other, at most one is in its critical section, and the
    others have not begun. *)
Record serialised (calls : list SqlCall) (st0 : Store) (c : Conn) (order : list nat) : Prop := {
  sr_nodup : NoDup order;
  sr_procs : length (cn_procs c) = length calls;
  sr_replies i r : (i, r) ∈ fst (serial calls order st0) -> cn_procs c !! i = Some (PDone r);
  sr_range i : i ∈ order -> (i < length calls)%nat;
  sr_waiting i : i ∉ order -> cn_owner c LkClient <> Some i -> cn_procs c !! i = call_proc <$> calls !! i;
  sr_store :
    match cn_owner c LkClient with
    | None => cn_store c = snd (serial calls order st0)
    | Some j => j ∉ order /\ exists p call, cn_procs c !! j = Some p /\ in_section p /\ calls !! j = Some call /\
                  alone p (cn_store c) = nif call (snd (serial calls order st0))
    end
}.

(** A call that replies joins the order. *)
Lemma serialised_reply calls st0 c order i call r st' :
  serialised calls st0 c order -> i ∉ order -> calls !! i = Some call ->
  nif call (snd (serial calls order st0)) = (r, st') ->
  forall c', cn_procs c' = <[i := PDone r]> (cn_procs c) -> cn_owner c' LkClient = None -> cn_store c' = st' ->
    (cn_owner c LkClient = None \/ cn_owner c LkClient = Some i) ->
    serialised calls st0 c' (order ++ [i]).
Proof.
  intros [Hn Hl Hr Hin Hw Hs] Hi Hc Hnif c' Hp Ho Hst Hown.
  pose proof (lookup_lt_Some _ _ _ Hc) as Hlt.
  split; rewrite ?(serial_snoc _ _ _ _ _ Hc), ?Hnif; cbn [fst snd].
  - apply NoDup_app. split_and!; [done| |apply NoDup_singleton]. intros x Hx ->%list_elem_of_singleton. done.
  - by rewrite Hp, length_insert.
  - intros j r' [Hj|Hj]%elem_of_app; rewrite Hp.
    + pose proof (Hr j r' Hj) as Hd. destruct (decide (j = i)) as [->|]; [|by rewrite list_lookup_insert_ne].
      exfalso. apply Hi. clear -Hj. revert st0 Hj. induction order as [|k order IH]; intros st0; cbn; [by intros ?%elem_of_nil|].
      destruct (calls !! k) as [ck|]; [|intros ?; right; by eapply IH]. destruct (nif ck st0) as [rk st1].
      pose proof (IH st1) as IH1. destruct (serial calls order st1) as [rs st2].
      intros [[= <- _]|Hj]%elem_of_cons; [by left|right; by apply IH1].
    + apply list_elem_of_singleton in Hj as [= -> ->]. rewrite list_lookup_insert_eq; [done|]. by rewrite Hl.
  - intros j [Hj| ->%list_elem_of_singleton]%elem_of_app; [by apply Hin|done].
  - intros j Hj _. rewrite Hp. apply not_elem_of_app in Hj as [Hj1 Hj2%not_elem_of_cons].
    rewrite list_lookup_insert_ne by naive_solver. apply Hw; [done|]. destruct Hown as [-> | ->]; [done|].
    intros [= <-]. by destruct Hj2.
  - by rewrite Ho.
Qed.

Lemma serialised_step calls st0 c order i c' :
  Forall one_section calls -> serialised calls st0 c order -> step i c = Some c' ->
  exists order', serialised calls st0 c' order'.
Proof.
  intros Hone Hser Hs. pose proof Hser as [Hn Hl Hr Hin Hw Hst].
  destruct (step_inv _ _ _ Hs) as (p & p' & Hp & Hps & Hstep).
  pose proof (lookup_lt_Some _ _ _ Hp) as Hi. assert (is_Some (calls !! i)) as [call Hcall] by (apply lookup_lt_is_Some; lia).
  assert (i ∉ order) as Hni.
  { intros Ho. destruct (serial_elem calls order st0 i Ho) as [r Hir]; [eauto|]. apply Hr in Hir.
    rewrite Hp in Hir. by injection Hir as ->. }
  destruct (decide (cn_owner c LkClient = Some i)) as [How|How].
  - rewrite How in Hst. destruct Hst as (_ & q & call' & Hq & Hsec & Hcall' & Hal).
    rewrite Hp in Hq. injection Hq as <-. rewrite Hcall in Hcall'. injection Hcall' as <-.
    destruct Hsec as [act Hact|panicked r].
    + destruct Hstep as (-> & Hst' & Ho & _). exists order. split; try done.
      * by rewrite Hps, length_insert.
      * intros j r Hj. rewrite Hps. apply Hr in Hj as Hj'. destruct (decide (j = i)) as [->|]; [congruence|].
        by rewrite list_lookup_insert_ne.
      * intros j Hj Hjo. rewrite Hps. rewrite Ho in Hjo. rewrite list_lookup_insert_ne by congruence. by apply Hw.
      * rewrite Ho, How. split; [done|]. eexists _, call. rewrite Hps, list_lookup_insert_eq by done.
        split_and!; [done|apply Hact|done|]. rewrite <-Hal, Hst'. cbn. by destruct (act (cn_store c)) as [[??] ?].
    + destruct Hstep as (-> & Hst' & Ho & _). exists (order ++ [i]). cbn [alone] in Hal.
      eapply serialised_reply; [done|done|done|by rewrite <-Hal|done| |done|by right].
      rewrite Ho. unfold free. by rewrite decide_True.
  - pose proof (Hw i Hni How) as Hpi. rewrite Hp, Hcall in Hpi. injection Hpi as ->.
    rewrite Forall_forall in Hone.
    destruct (one_section_proc call) as (poisoned & k & Hk & Hsec); [by eapply Hone, list_elem_of_lookup_2|].
    rewrite Hk in Hstep. destruct Hstep as (Hfree & Hst' & _ & Hc). rewrite Hfree in Hst.
    pose proof (alone_nif call (cn_store c)) as Hal. rewrite Hk in Hal. cbn [alone] in Hal.
    destruct (lock_poisoned LkClient (cn_store c)); destruct Hc as [-> Ho].
    + exists (order ++ [i]). eapply serialised_reply; [done|done|done|by rewrite <-Hst, <-Hal|done|by rewrite Ho|done|by left].
    + exists order. split; try done.
      * by rewrite Hps, length_insert.
      * intros j r Hj. rewrite Hps. apply Hr in Hj as Hj'. destruct (decide (j = i)) as [->|].
        { rewrite Hp, Hk in Hj'. done. }
        by rewrite list_lookup_insert_ne.
      * intros j Hj Hjo. rewrite Ho in Hjo. unfold take_lock in Hjo. rewrite decide_True in Hjo by done.
        rewrite Hps, list_lookup_insert_ne by congruence. apply Hw; [done|]. by rewrite Hfree.
      * rewrite Ho. unfold take_lock. rewrite decide_True by done. split; [done|]. exists k, call.
        rewrite Hps, list_lookup_insert_eq by done. split_and!; [done..|]. by rewrite Hst', Hal, Hst.
Qed.

(** C7: Concurrent queries, updates and prepares are serialised.  When such
    calls have all replied, however their steps were interleaved, every reply
    and the final state of the client, the statements and the server are those
    of the NIFs called one after the other in some order. *)
Theorem sql_calls_serialised st calls schedule c :
  Forall one_section calls -> run schedule (connection st calls) = Some c ->
  Forall (fun p => is_done p = true) (cn_procs c) ->
  exists order, Permutation order (seq 0 (length calls)) /\
    cn_store c = snd (serial calls order st) /\
    forall i call, calls !! i = Some call ->
      exists r, (i, r) ∈ fst (serial calls order st) /\ cn_procs c !! i = Some (PDone r).
Proof.
  intros Hone Hr Hd. assert (exists order, serialised calls st c order) as [order [Hn Hl Hre Hin Hw Hst]].
  { assert (exists order, serialised calls st (connection st calls) order) as Hinit.
    { exists []. split; cbn; try done; [constructor|by rewrite length_map|by intros i r ?%elem_of_nil|by intros i ?%elem_of_nil|].
      intros i _ _. by rewrite list_lookup_fmap. }
    revert Hr Hinit. generalize (connection st calls). clear -Hone. induction schedule as [|j rest IH]; intros c0; cbn.
    - by intros [= <-].
    - intros (c1 & Hs & Hr)%bind_Some [order Ho]. eapply IH; [done|]. by eapply serialised_step. }
  rewrite Forall_forall in Hd. assert (cn_owner c LkClient = None) as Hfree.
  { destruct (cn_owner c LkClient) as [j|]; [|done]. destruct Hst as (_ & p & call & Hp & Hsec & _).
    apply list_elem_of_lookup_2, Hd in Hp. by destruct Hsec. }
  rewrite Hfree in Hst. assert (forall i call, calls !! i = Some call -> i ∈ order) as Hall.
  { intros i call Hc. destruct (decide (i ∈ order)) as [|Hi]; [done|]. exfalso.
    assert (cn_procs c !! i = Some (call_proc call)) as Hp by (rewrite Hw, Hc; [done|done|by rewrite Hfree]).
    apply list_elem_of_lookup_2, Hd in Hp. rewrite Forall_forall in Hone.
    destruct (one_section_proc call) as (? & ? & Hk & _); [by eapply Hone, list_elem_of_lookup_2|]. by rewrite Hk in Hp. }
  exists order. split; [|split; [done|]].
  - apply NoDup_Permutation; [done|apply NoDup_seq|]. intros i. rewrite elem_of_seq. split; [intros ?%Hin; lia|].
    intros [_ Hi]. destruct (lookup_lt_is_Some_2 calls i) as [call Hc]; [lia|by eapply Hall].
  - intros i call Hc. destruct (serial_elem calls order st i) as [r Hi]; [by eapply Hall|eauto|]. eauto.
Qed.

End serial.

(** ** Witnesses *)

(** Two queries and an execution of the prepared statement "p" overlap: while
    the first query is between its two RPCs, the statement's RPC goes out. *)
Definition busy : @Store ref_channel (list string) ref_sql := mkStore (new_mutex "c") [new_mutex (Some "p")] [].
Definition busy_calls : list SqlCall := [CQuery "a"; CQuery "b"; CStmt 0 OpExecute].
Definition busy_schedule : list nat := [0; 0; 2; 2; 2; 0; 0; 1; 1; 1]%nat.

Definition busy_trace : list (nat * Event) :=
  [(0%nat, EvExecute "a"); (2%nat, EvStmt 0); (0%nat, EvTicket (as_bytes "a"));
   (1%nat, EvExecute "b"); (1%nat, EvTicket (as_bytes "b"))].

Lemma sql_query_uninterrupted_witness :
  exists c, run busy_schedule (connection busy busy_calls) = Some c /\ cn_trace c = busy_trace /\
    exists before mid, [(0%nat, EvExecute "a"); (2%nat, EvStmt 0)] = before ++ (0%nat, EvExecute "a") :: mid /\
      Forall stmt_rpc mid.
Proof.
  destruct (run busy_schedule (connection busy busy_calls)) as [c|] eqn:Hr; [|by vm_compute in Hr].
  exists c. split; [reflexivity|]. assert (cn_trace c = busy_trace) as Ht.
  { vm_compute in Hr. injection Hr as <-. reflexivity. }
  split; [exact Ht|]. exact (sql_query_uninterrupted busy busy_calls busy_schedule c 0 "a"
    [(0%nat, EvExecute "a"); (2%nat, EvStmt 0)] (as_bytes "a")
    [(1%nat, EvExecute "b"); (1%nat, EvTicket (as_bytes "b"))] Hr eq_refl Ht).
Defined.

Lemma sql_calls_complete_witness :
  exists c, run (take 4 busy_schedule) (connection busy busy_calls) = Some c /\
    (4 <= 18)%nat /\ exists rest c', run rest c = Some c' /\ Forall (fun p => is_done p = true) (cn_procs c').
Proof.
  destruct (run (take 4 busy_schedule) (connection busy busy_calls)) as [c|] eqn:Hr; [|by vm_compute in Hr].
  exists c. split; [reflexivity|]. destruct (sql_calls_complete _ _ _ _ Hr) as (Hn & _ & Hc). split; [exact Hn|exact Hc].
Defined.

(** Two queries and an update, the second query first. *)
Lemma sql_calls_serialised_witness :
  exists c order, run [1; 1; 1; 1; 0; 0; 0; 0; 2; 2; 2]%nat (connection busy [CQuery "a"; CQuery "b"; CUpdate "c"]) = Some c /\
    so_world (cn_store c) = ["b"; "do_get"; "a"; "do_get"; "c"] /\
    Permutation order [0; 1; 2]%nat /\ cn_store c = snd (serial [CQuery "a"; CQuery "b"; CUpdate "c"] order busy).
Proof.
  destruct (run [1; 1; 1; 1; 0; 0; 0; 0; 2; 2; 2]%nat (connection busy [CQuery "a"; CQuery "b"; CUpdate "c"])) as [c|] eqn:Hr;
    [|by vm_compute in Hr].
  destruct (sql_calls_serialised busy [CQuery "a"; CQuery "b"; CUpdate "c"] [1; 1; 1; 1; 0; 0; 0; 0; 2; 2; 2]%nat c) with (2 := Hr) as (order & Hp & Hs & _).
  - by repeat constructor.
  - vm_compute in Hr. injection Hr as <-. by repeat constructor.
  - exists c, order. split; [reflexivity|]. split; [vm_compute in Hr; injection Hr as <-; reflexivity|].
    split; [exact Hp|exact Hs].
Defined.
