(* ===== verification/Adbc.v ===== *)
(** * ADBC databases, connections, statements and results (adbc.rs)

    The driver manager is the class [AdbcCrate]; its calls act on the state
    [W] of the driver.  A result stream is a vector of batches and an index,
    each behind its own lock: [adbc_stream_next] is given both as a sequential
    function and as the three critical sections that concurrent callers
    interleave. *)

From S2P Require Import Prelude Float Utf8 Term Arrow Stream.

(** ** The driver manager *)

Inductive OptionDatabase := OptUri | OptOther (name : string).

Inductive ObjectDepth := DepthAll | DepthCatalogs | DepthSchemas | DepthTables | DepthColumns.

(** Errors are reported by their text.  A result reader is its schema and the
    items it gives. *)
Record AdbcReader := mkAdbcReader {
  ar_schema : Schema;
  ar_items : list (res ArrowError RecordBatch)
}.

Class AdbcCrate (W : Type) := {
  ManagedDriver : Type;
  ManagedDatabase : Type;
  ManagedConnection : Type;
  ManagedStatement : Type;
  load_dynamic_from_filename : string -> option bytes -> W -> res string ManagedDriver * W;
  load_dynamic_from_name : string -> option bytes -> W -> res string ManagedDriver * W;
  new_database : ManagedDriver -> W -> (res string ManagedDatabase * ManagedDriver) * W;
  new_database_with_opts : ManagedDriver -> list (OptionDatabase * string) -> W ->
    (res string ManagedDatabase * ManagedDriver) * W;
  new_connection : ManagedDatabase -> W -> res string ManagedConnection * W;
  new_statement : ManagedConnection -> W -> (res string ManagedStatement * ManagedConnection) * W;
  set_sql_query : ManagedStatement -> string -> W -> (res string unit * ManagedStatement) * W;
  bind_batch : ManagedStatement -> RecordBatch -> W -> (res string unit * ManagedStatement) * W;
  execute : ManagedStatement -> W -> (res string AdbcReader * ManagedStatement) * W;
  get_table_types : ManagedConnection -> W -> res string AdbcReader * W;
  get_table_schema : ManagedConnection -> option string -> option string -> string -> W ->
    res string Schema * W;
  get_objects : ManagedConnection -> ObjectDepth -> option string -> option string ->
    option string -> option string -> W -> res string AdbcReader * W
}.

(** ** Opening a database *)

Inductive DriverSpec :=
| SpecPath (path : string) (uri db_path entrypoint : option string)
| SpecName (name : string) (uri : option string).

(** The values collected by the loop of [decode_driver_spec]. *)
Record DriverOpts := mkDriverOpts {
  do_driver_path : option string;
  do_driver_name : option string;
  do_uri : option string;
  do_db_path : option string;
  do_entrypoint : option string
}.

Section spec.
Context `{Rustler Term}.

Definition no_opts : DriverOpts := mkDriverOpts None None None None None.

Definition decode_opt (o : DriverOpts) (item : Term) : res string DriverOpts :=
  tuple ← ok_or "opt must be {key, value}" (get_tuple item);
  match tuple with
  | [t0; t1] =>
      let 'mkDriverOpts p n u d e := o in
      key ← ok_or "opt key must be atom" (get_atom t0);
      if String.eqb key "driver_path" then
        v ← ok_or "driver_path must be string" (get_string t1);
        Ok (mkDriverOpts (Some v) n u d e)
      else if String.eqb key "driver_name" then
        v ← ok_or "driver_name must be string" (get_string t1);
        Ok (mkDriverOpts p (Some v) u d e)
      else if String.eqb key "uri" then
        v ← ok_or "uri must be string" (get_string t1);
        Ok (mkDriverOpts p n (Some v) d e)
      else if String.eqb key "path" then
        v ← ok_or "path must be string" (get_string t1);
        Ok (mkDriverOpts p n u (Some v) e)
      else if String.eqb key "entrypoint" then
        v ← ok_or "entrypoint must be string" (get_string t1);
        Ok (mkDriverOpts p n u d (Some v))
      else Ok o
  | _ => Ok o
  end.

Fixpoint decode_opts (o : DriverOpts) (list : list Term) : res string DriverOpts :=
  match list with
  | [] => Ok o
  | item :: rest => o' ← decode_opt o item; decode_opts o' rest
  end.

Definition decode_driver_spec (term : Term) : res string DriverSpec :=
  match get_string term with
  | Some path => Ok (SpecPath path None None None)
  | None =>
      list ← ok_or "opts must be a list" (get_list term);
      o ← decode_opts no_opts (list_items list);
      _ ← list_end list;
      match do_driver_path o with
      | Some p => Ok (SpecPath p (do_uri o) (do_db_path o) (do_entrypoint o))
      | None =>
          match do_driver_name o with
          | Some n => Ok (SpecName n (do_uri o))
          | None => Err "opts must include driver_path or driver_name"
          end
      end
  end.

Definition decode_optional_string (term : Term) : option string := get_string term.

Definition decode_object_depth (s : string) : res string ObjectDepth :=
  if String.eqb s "all" then Ok DepthAll
  else if String.eqb s "catalogs" then Ok DepthCatalogs
  else if String.eqb s "schemas" then Ok DepthSchemas
  else if String.eqb s "tables" then Ok DepthTables
  else if String.eqb s "columns" then Ok DepthColumns
  else Err ("depth must be one of: all, catalogs, schemas, tables, columns; got: " +:+ s).

End spec.

(** ** Result streams *)

Record AdbcResultStream := mkResultStream {
  as_schema : Schema;
  as_batches : Mutex (list RecordBatch);
  as_index : Mutex nat
}.

Definition new_result_stream (schema : Schema) (batches : list RecordBatch) : AdbcResultStream :=
  mkResultStream schema (new_mutex batches) (new_mutex 0%nat).

(** A call of [adbc_stream_next]: before it, after reading the length, after
    claiming an index, returned. *)
Inductive NextPc :=
| NStart
| NHaveLen (len : nat)
| NTaken (i : nat)
| NReturned (r : Reply RecordBatch).

(** The critical section a call runs next. *)
Definition next_pc (stream : AdbcResultStream) (pc : NextPc) : NextPc * AdbcResultStream :=
  match pc with
  | NStart =>
      match lock (as_batches stream) with
      | None => (NReturned (err_encode "stream lock"), stream)
      | Some batches => (NHaveLen (length batches), stream)
      end
  | NHaveLen len =>
      match lock (as_index stream) with
      | None => (NReturned (err_encode "stream index lock"), stream)
      | Some index =>
          if (len <=? index)%nat then (NReturned (RAtom "done"), stream)
          else (NTaken index, mkResultStream (as_schema stream) (as_batches stream)
                                (mkMutex (index + 1)%nat false))
      end
  | NTaken i =>
      match lock (as_batches stream) with
      | None => (NReturned (err_encode "stream lock"), stream)
      | Some batches =>
          match batches !! i with
          | Some batch => (NReturned (ok_encode batch), stream)
          | None => (NReturned (RRaise "index out of bounds"),
                     mkResultStream (as_schema stream) (mkMutex batches true) (as_index stream))
          end
      end
  | NReturned r => (NReturned r, stream)
  end.

(** A call that nothing interrupts. *)
Definition adbc_stream_next (stream : AdbcResultStream) : Reply RecordBatch * AdbcResultStream :=
  let '(pc, stream) := next_pc stream NStart in
  let '(pc, stream) := next_pc stream pc in
  let '(pc, stream) := next_pc stream pc in
  match pc with
  | NReturned r => (r, stream)
  | _ => (RRaise "unreachable", stream)
  end.

Definition adbc_stream_schema (stream : AdbcResultStream) : Reply Schema := RBare (as_schema stream).

(** One step of caller [i], among the callers at [pcs]. *)
Definition sched_step (st : AdbcResultStream * list NextPc) (i : nat)
    : AdbcResultStream * list NextPc :=
  match st.2 !! i with
  | None => st
  | Some pc => let '(pc', stream') := next_pc st.1 pc in (stream', <[i := pc']> st.2)
  end.

Definition run_schedule (stream : AdbcResultStream) (callers : nat) (sched : list nat)
    : AdbcResultStream * list NextPc :=
  foldl sched_step (stream, replicate callers NStart) sched.

(** ** The NIFs *)

Section nifs.
Context `{Rustler Term} `{Arrow} {W : Type} `{!AdbcCrate W}.

(** The database handle keeps its driver alive. *)
Record AdbcDatabase := mkAdbcDatabase { ad_driver : ManagedDriver; ad_database : ManagedDatabase }.

Definition AdbcConnection := Mutex ManagedConnection.
Definition AdbcStatement := Mutex ManagedStatement.

Definition open_with (loaded : res string ManagedDriver * W)
    (db : ManagedDriver -> W -> (res string ManagedDatabase * ManagedDriver) * W)
    : Reply AdbcDatabase * W :=
  let '(d, w) := loaded in
  match d with
  | Err e => (err_encode e, w)
  | Panic s => (RRaise s, w)
  | Ok d =>
      let '(r, d, w) := db d w in
      (reply_with r (fun database => ok_encode (mkAdbcDatabase d database)), w)
  end.

Definition database_opts (uri db_path : option string) : list (OptionDatabase * string) :=
  match uri with Some u => [(OptUri, u)] | None => [] end
  ++ match db_path with Some p => [(OptOther "path", p)] | None => [] end.

Definition adbc_database_open (driver_path_or_opts : Term) (w : W) : Reply AdbcDatabase * W :=
  match decode_driver_spec driver_path_or_opts with
  | Err e => (err_encode e, w)
  | Panic s => (RRaise s, w)
  | Ok (SpecPath path uri db_path entrypoint) =>
      open_with (load_dynamic_from_filename path (as_bytes <$> entrypoint) w) (fun d w =>
        let db_opts := database_opts uri db_path in
        match db_opts with
        | [] => new_database d w
        | _ => new_database_with_opts d db_opts w
        end)
  | Ok (SpecName name uri) =>
      open_with (load_dynamic_from_name name None w) (fun d w =>
        match uri with
        | Some u => new_database_with_opts d [(OptUri, u)] w
        | None => new_database d w
        end)
  end.

Definition adbc_connection_open (database : AdbcDatabase) (w : W) : Reply AdbcConnection * W :=
  let '(r, w) := new_connection (ad_database database) w in
  (reply_with r (fun conn => ok_encode (new_mutex conn)), w).

(** A call on a locked object: its reply, the mutex afterwards, the driver. *)
Definition locked_call {O A V} (m : Mutex O) (poisoned : string) (w : W)
    (call : O -> W -> (res string A * O) * W) (k : A -> Reply V) : (Reply V * Mutex O) * W :=
  match lock m with
  | None => (err_encode poisoned, m, w)
  | Some guard =>
      let '(r, guard, w) := call guard w in
      (reply_with r k, mkMutex guard (match r with Panic _ => true | _ => false end), w)
  end.

Definition adbc_statement_new (connection : AdbcConnection) (w : W)
    : (Reply AdbcStatement * AdbcConnection) * W :=
  locked_call connection "connection lock" w new_statement (fun stmt => ok_encode (new_mutex stmt)).

Definition adbc_statement_set_sql (statement : AdbcStatement) (sql : string) (w : W)
    : (Reply unit * AdbcStatement) * W :=
  locked_call statement "statement lock" w (fun s w => set_sql_query s sql w) (fun _ => RAtom "ok").

Definition adbc_statement_bind (statement : AdbcStatement) (batch : RecordBatch) (w : W)
    : (Reply unit * AdbcStatement) * W :=
  locked_call statement "statement lock" w (fun s w => bind_batch s batch w) (fun _ => RAtom "ok").

(** [reader.collect()]: all the batches, or the first error. *)
Definition read_all (reader : AdbcReader) : res string AdbcResultStream :=
  batches ← map_err error_string (collect (fun x => x) (ar_items reader));
  Ok (new_result_stream (ar_schema reader) batches).

(** The reading happens under the object's lock. *)
Definition reading {O} (call : O -> W -> (res string AdbcReader * O) * W)
    : O -> W -> (res string AdbcResultStream * O) * W :=
  fun o w => let '(r, o, w) := call o w in (r ≫= read_all, o, w).

(** A call by shared reference. *)
Definition shared {O A} (call : O -> W -> res string A * W) : O -> W -> (res string A * O) * W :=
  fun o w => let '(r, w) := call o w in (r, o, w).

Definition adbc_statement_execute (statement : AdbcStatement) (w : W)
    : (Reply AdbcResultStream * AdbcStatement) * W :=
  locked_call statement "statement lock" w (reading execute) ok_encode.

Definition adbc_connection_get_table_types (connection : AdbcConnection) (w : W)
    : (Reply AdbcResultStream * AdbcConnection) * W :=
  locked_call connection "connection lock" w (reading (shared get_table_types)) ok_encode.

Definition adbc_connection_get_table_schema (connection : AdbcConnection)
    (catalog db_schema table_name : Term) (w : W) : (Reply Schema * AdbcConnection) * W :=
  match get_string table_name with
  | None => (err_encode "table_name must be a string", connection, w)
  | Some table_name_str =>
      let catalog_opt := decode_optional_string catalog in
      let db_schema_opt := decode_optional_string db_schema in
      locked_call connection "connection lock" w
        (shared (fun c w => get_table_schema c catalog_opt db_schema_opt table_name_str w)) RBare
  end.

Definition adbc_connection_get_objects (connection : AdbcConnection)
    (depth catalog db_schema table_name column_name : Term) (w : W)
    : (Reply AdbcResultStream * AdbcConnection) * W :=
  match get_string depth with
  | None => (err_encode "depth must be a string", connection, w)
  | Some depth_str =>
      match decode_object_depth depth_str with
      | Err e => (err_encode e, connection, w)
      | Panic s => (RRaise s, connection, w)
      | Ok depth_val =>
          locked_call connection "connection lock" w
            (reading (shared (fun c w =>
               get_objects c depth_val (decode_optional_string catalog)
                 (decode_optional_string db_schema) (decode_optional_string table_name)
                 (decode_optional_string column_name) w))) ok_encode
      end
  end.

End nifs.
