(* ===== verification/AdbcThms.v ===== *)
(** * Theorems about ADBC

    Result streams under concurrent callers, the options of a database, and
    the all-or-nothing reading of results. *)

From S2P Require Import Prelude Float Utf8 Term Arrow ArrowRef Stream Adbc ComputeThms.

(** ** Concurrent callers of a result stream *)

(** The batch a call has claimed or returned. *)
Definition claimed (bs : list RecordBatch) (pc : NextPc) : option RecordBatch :=
  match pc with
  | NTaken i => bs !! i
  | NReturned (ROk b) => Some b
  | _ => None
  end.

Definition pc_left (pc : NextPc) : nat :=
  match pc with NStart => 3 | NHaveLen _ => 2 | NTaken _ => 1 | NReturned _ => 0 end.

Definition pc_ok (bs : list RecordBatch) (idx : nat) (pc : NextPc) : Prop :=
  match pc with
  | NStart => True
  | NHaveLen len => len = length bs
  | NTaken i => (i < length bs)%nat
  | NReturned r => (exists b, r = ROk b) \/ (r = RAtom "done" /\ idx = length bs)
  end.

(** The stream is intact, [idx] batches are claimed, each by one call. *)
Definition stream_inv (schema : Schema) (bs : list RecordBatch)
    (st : AdbcResultStream * list NextPc) : Prop :=
  exists idx,
    st.1 = mkResultStream schema (new_mutex bs) (mkMutex idx false) /\
    (idx <= length bs)%nat /\
    Forall (pc_ok bs idx) st.2 /\
    omap (claimed bs) st.2 ≡ₚ take idx bs.

Lemma pc_ok_mono bs i j pc : (i <= j)%nat -> (j <= length bs)%nat -> pc_ok bs i pc -> pc_ok bs j pc.
Proof. destruct pc; cbn; try done. intros ?? [?|[? ->]]; [by left|]. right. split; [done|lia]. Qed.

Lemma insert_middle {A} (l1 l2 : list A) x y : <[length l1 := y]> (l1 ++ x :: l2) = l1 ++ y :: l2.
Proof. rewrite insert_app_r_alt by lia. by rewrite Nat.sub_diag. Qed.

(** Replacing one caller's state. *)
Lemma inv_update schema bs idx stream l1 l2 pc pc' idx' :
  (idx <= idx')%nat -> (idx' <= length bs)%nat -> pc_ok bs idx' pc' ->
  option_list (claimed bs pc') ++ take idx bs ≡ₚ option_list (claimed bs pc) ++ take idx' bs ->
  stream = mkResultStream schema (new_mutex bs) (mkMutex idx' false) ->
  Forall (pc_ok bs idx) (l1 ++ pc :: l2) ->
  omap (claimed bs) (l1 ++ pc :: l2) ≡ₚ take idx bs ->
  stream_inv schema bs (stream, l1 ++ pc' :: l2).
Proof.
  intros Hle Hlen Hok Hp Hs Hf Hc. exists idx'. split_and!; [done..| |]; cbn.
  - apply Forall_app in Hf as [H1 H2]. apply Forall_cons in H2 as [_ H2].
    apply Forall_app. split; [|apply Forall_cons; split; [done|]];
      eapply Forall_impl; try done; intros; by eapply pc_ok_mono.
  - rewrite omap_app in *. cbn [omap list_omap] in *. revert Hc Hp.
    generalize (omap (claimed bs) l1) (omap (claimed bs) l2). intros a b.
    destruct (claimed bs pc) as [x|], (claimed bs pc') as [y|]; cbn; intros Hc Hp.
    + rewrite <-Permutation_middle in *. rewrite <-Hc in Hp. rewrite Permutation_swap in Hp.
      by apply Permutation_cons_inv in Hp.
    + rewrite <-Permutation_middle in Hc. rewrite <-Hc in Hp. by apply Permutation_cons_inv in Hp.
    + rewrite <-Permutation_middle. by rewrite Hc.
    + by rewrite Hc.
Qed.

Lemma sched_step_inv schema bs st i : stream_inv schema bs st -> stream_inv schema bs (sched_step st i).
Proof.
  destruct st as [stream pcs]. intros (idx & Hs & Hb & Hf & Hc). unfold sched_step. cbn [fst snd] in *.
  destruct (pcs !! i) as [pc|] eqn:Ei; [|by exists idx].
  apply list_elem_of_split_length in Ei as (l1 & l2 & -> & ->).
  pose proof Hf as Hpc. apply Forall_app in Hpc as [_ Hpc]. apply Forall_cons in Hpc as [Hpc _].
  destruct (next_pc stream pc) as [pc' stream'] eqn:En. rewrite insert_middle.
  subst stream. destruct pc as [|len|j|r]; cbn in En, Hpc.
  - injection En as <- <-. by apply (inv_update _ _ idx _ _ _ NStart _ idx).
  - subst len. destruct (Nat.leb_spec (length bs) idx); injection En as <- <-.
    + eapply (inv_update _ _ idx _ _ _ (NHaveLen _) _ idx); try done. right. split; [done|lia].
    + eapply (inv_update _ _ idx _ _ _ (NHaveLen _) _ (S idx)); try done; try lia.
      * cbn. destruct (lookup_lt_is_Some_2 bs idx) as [b E]; [lia|]. rewrite E. cbn.
        rewrite (take_S_r _ _ b) by done. by rewrite Permutation_app_comm.
      * by rewrite Nat.add_1_r.
  - destruct (lookup_lt_is_Some_2 bs j Hpc) as [b E]. rewrite E in En. injection En as <- <-.
    apply (inv_update _ _ idx _ _ _ (NTaken j) _ idx); try done; cbn; [by left; eexists|by rewrite E].
  - injection En as <- <-. by apply (inv_update _ _ idx _ _ _ (NReturned r) _ idx).
Qed.

Lemma run_schedule_inv schema bs n sched :
  stream_inv schema bs (run_schedule (new_result_stream schema bs) n sched).
Proof.
  unfold run_schedule. induction sched as [|i sched IH] using rev_ind.
  - exists 0%nat. split_and!; [done|cbn; lia|by apply Forall_replicate|].
    cbn. induction n as [|n IH]; [done|]. exact IH.
  - rewrite foldl_snoc. by apply sched_step_inv.
Qed.

(** Each step of a caller brings it closer to its return. *)
Lemma next_pc_left stream pc : (pc_left (fst (next_pc stream pc)) <= pc_left pc - 1)%nat.
Proof.
  destruct pc; cbn; repeat case_match; cbn; lia.
Qed.

Lemma sched_step_lookup st i j :
  (sched_step st i).2 !! j = (fun pc => if decide (i = j) then fst (next_pc st.1 pc) else pc) <$> st.2 !! j.
Proof.
  unfold sched_step. destruct (st.2 !! i) as [pc|] eqn:Ei.
  - destruct (next_pc st.1 pc) as [pc' s'] eqn:En. cbn. case_decide as Hij.
    + subst j. rewrite list_lookup_insert_eq by (by eapply lookup_lt_Some). by rewrite Ei; cbn; rewrite En.
    + rewrite list_lookup_insert_ne by done. by destruct (st.2 !! j).
  - case_decide as Hij; [subst j; by rewrite Ei|]. by destruct (st.2 !! j).
Qed.

Lemma run_schedule_left stream n sched j :
  (j < n)%nat -> exists pc, (run_schedule stream n sched).2 !! j = Some pc /\
    (pc_left pc <= 3 - count_occ Nat.eq_dec sched j)%nat.
Proof.
  intros Hj. unfold run_schedule. induction sched as [|i sched IH] using rev_ind.
  - exists NStart. cbn. split; [by apply lookup_replicate_2|lia].
  - rewrite foldl_snoc. destruct IH as (pc & Hpc & Hle). rewrite sched_step_lookup, Hpc.
    rewrite count_occ_app. cbn [fmap option_fmap option_map count_occ].
    destruct (Nat.eq_dec i j) as [->|Hne].
    + rewrite decide_True by done. eexists. split; [done|].
      pose proof (next_pc_left (foldl sched_step (stream, replicate n NStart) sched).1 pc). lia.
    + rewrite decide_False by done. eexists. split; [done|]. lia.
Qed.

Lemma run_schedule_callers stream n sched : length (run_schedule stream n sched).2 = n.
Proof.
  unfold run_schedule. induction sched as [|i sched IH] using rev_ind; [apply length_replicate|].
  rewrite foldl_snoc. unfold sched_step. case_match; [|done]. case_match. cbn. by rewrite length_insert.
Qed.

Lemma replies_count bs idx rs :
  Forall (pc_ok bs idx) (map NReturned rs) ->
  (length (omap (claimed bs) (map NReturned rs)) <= length rs)%nat /\
  (length (omap (claimed bs) (map NReturned rs)) = length rs \/ idx = length bs).
Proof.
  induction rs as [|r rs IH]; cbn; [lia|]. intros [Hr Hf]%Forall_cons. apply IH in Hf as [Hl He].
  destruct Hr as [[b ->]|[-> Hi]]; cbn; lia.
Qed.

(** C20: Concurrent callers share a result stream safely.  However the critical
    sections of [n] calls of [adbc_stream_next] interleave, no call panics on
    an index out of range and no lock is poisoned; a call that was scheduled
    three times has returned; and once all have returned, the batches they
    returned are, up to order, the first [n] batches of the result, each once,
    the other calls having answered [:done]. *)
Theorem adbc_stream_each_batch_once schema bs n sched :
  let st := run_schedule (new_result_stream schema bs) n sched in
  (forall r, NReturned r ∈ st.2 -> r = RAtom "done" \/ exists b, b ∈ bs /\ r = ROk b) /\
  m_poisoned (as_batches st.1) = false /\ m_poisoned (as_index st.1) = false /\
  ((forall j, (j < n)%nat -> (3 <= count_occ Nat.eq_dec sched j)%nat) ->
   exists replies, st.2 = map NReturned replies /\
     omap (fun r => match r with ROk b => Some b | _ => None end) replies ≡ₚ take n bs).
Proof.
  cbv zeta. set (st := run_schedule _ n sched).
  destruct (run_schedule_inv schema bs n sched) as (idx & Hs & Hb & Hf & Hc). fold st in Hs, Hf, Hc.
  pose proof (run_schedule_callers (new_result_stream schema bs) n sched) as Hst. fold st in Hst.
  split_and!; try (by rewrite Hs).
  - intros r Hr. pose proof Hf as Hr'. rewrite Forall_forall in Hr'. apply Hr' in Hr as Ho.
    destruct Ho as [[b ->]|[-> _]]; [right|by left]. exists b. split; [|done].
    assert (b ∈ omap (claimed bs) st.2) as Hin by (apply list_elem_of_omap; by exists (NReturned (ROk b))).
    rewrite Hc in Hin. rewrite <-(take_drop idx bs). apply elem_of_app. by left.
  - intros Hall. assert (exists replies, st.2 = map NReturned replies) as [rs Hrs].
    { assert (Forall (fun pc => exists r, pc = NReturned r) st.2) as Hd.
      { apply Forall_lookup. intros j pc Hpc.
        assert (j < n)%nat as Hj by (apply lookup_lt_Some in Hpc; by rewrite Hst in Hpc).
        destruct (run_schedule_left (new_result_stream schema bs) n sched j Hj) as (pc' & Hpc' & Hl).
        fold st in Hpc'. assert (pc' = pc) as -> by congruence. specialize (Hall j Hj).
        destruct pc; cbn in Hl; try lia. eauto. }
      clear -Hd. induction Hd as [|pc l [r ->] _ [rs ->]]; [by exists []|]. by exists (r :: rs). }
    exists rs. split; [done|]. rewrite Hrs in *.
    rewrite length_map in Hst.
    replace (omap _ rs) with (omap (claimed bs) (map NReturned rs)) by
      (clear; induction rs as [|[] rs IH]; cbn; congruence).
    rewrite Hc. apply Permutation_length in Hc as Hlen. rewrite length_take in Hlen.
    destruct (replies_count bs idx rs Hf) as [Hle [Heq| ->]].
    + by replace idx with n by lia.
    + by rewrite !take_ge by lia.
Qed.

(** ** Results are read all or nothing, in order *)

Fixpoint adbc_drain (n : nat) (stream : AdbcResultStream) : list (Reply RecordBatch) :=
  match n with
  | O => []
  | S n' => let '(r, stream') := adbc_stream_next stream in r :: adbc_drain n' stream'
  end.

Lemma adbc_drain_spec schema bs n idx :
  (idx <= length bs)%nat ->
  adbc_drain (length bs - idx + n) (mkResultStream schema (new_mutex bs) (mkMutex idx false))
  = map ROk (drop idx bs) ++ replicate n (RAtom "done").
Proof.
  intros Hi. remember (length bs - idx)%nat as k eqn:Hk. revert idx Hi Hk.
  induction k as [|k IH]; intros idx Hi Hk.
  - rewrite drop_ge by lia. cbn. induction n as [|n IH]; [done|].
    cbn. unfold adbc_stream_next. cbn. destruct (Nat.leb_spec (length bs) idx); [|lia]. cbn. by rewrite IH.
  - destruct (lookup_lt_is_Some_2 bs idx) as [b E]; [lia|].
    rewrite (drop_S _ b) by done. cbn [Nat.add adbc_drain map app]. unfold adbc_stream_next. cbn.
    destruct (Nat.leb_spec (length bs) idx); [lia|]. cbn. rewrite E. cbn. f_equal.
    rewrite Nat.add_1_r. apply IH; lia.
Qed.

Section results.
Context `{Arrow} {W : Type} `{!AdbcCrate W}.

(** A statement's result is all or nothing.  When the driver executes the
    statement, the reply is a stream exactly if every item of the driver's
    reader is a batch, and the stream then delivers those batches in order,
    each once, and answers [:done] for ever after; if the first item that is
    not a batch is an error, its text is the reply and the statement stays
    usable. *)
Theorem adbc_execute_delivers (m : AdbcStatement) w reader guard guard' w' :
  lock m = Some guard -> execute guard w = (Ok reader, guard', w') ->
  (forall bs, ar_items reader = map Ok bs ->
     exists stream, adbc_statement_execute m w = (ROk stream, mkMutex guard' false, w') /\
       adbc_stream_schema stream = RBare (ar_schema reader) /\
       forall k, adbc_drain (length bs + k) stream = map ROk bs ++ replicate k (RAtom "done")) /\
  (forall bs e rest, ar_items reader = map Ok bs ++ Err e :: rest ->
     adbc_statement_execute m w = (err_encode (error_string e), mkMutex guard' false, w')).
Proof.
  intros Hl He. unfold adbc_statement_execute, locked_call, reading. rewrite Hl, He.
  split.
  - intros bs Hi. assert (read_all reader = Ok (new_result_stream (ar_schema reader) bs)) as Hr.
    { unfold read_all. rewrite Hi. clear. by rewrite (collect_map_Ok Ok (fun x => x) (fun x => x)), list_fmap_id. }
    cbn [mbind res_bind]. rewrite Hr. eexists. split; [done|]. split; [done|]. intros k.
    pose proof (adbc_drain_spec (ar_schema reader) bs k 0 ltac:(lia)) as Hd.
    by rewrite Nat.sub_0_r in Hd.
  - intros bs e rest Hi. assert (read_all reader = Err (error_string e)) as Hr.
    { unfold read_all. rewrite Hi. clear. induction bs as [|b bs IH]; [done|]. cbn.
      destruct (collect _ _) as [|e'|]; cbn in *; congruence. }
    cbn [mbind res_bind]. by rewrite Hr.
Qed.

End results.

(** ** Options *)

(** The value of the last option of a key. *)
Definition last_value (key : string) (l : list (string * string)) : option string :=
  foldl (fun o '(k, v) => if String.eqb k key then Some v else o) None l.

Section options.
Context `{RustlerLaws Term}.

Definition opts_term (l : list (string * string)) : Term :=
  mk_list (map (fun '(k, v) => mk_tuple [mk_atom k; mk_string v]) l).

Definition collected (l : list (string * string)) : DriverOpts :=
  mkDriverOpts (last_value "driver_path" l) (last_value "driver_name" l) (last_value "uri" l)
    (last_value "path" l) (last_value "entrypoint" l).

Lemma last_value_snoc key l k v :
  last_value key (l ++ [(k, v)]) = if String.eqb k key then Some v else last_value key l.
Proof. unfold last_value. by rewrite foldl_snoc. Qed.

Lemma decode_opt_collected l k v :
  valid_str v = true ->
  decode_opt (collected l) (mk_tuple [mk_atom k; mk_string v]) = Ok (collected (l ++ [(k, v)])).
Proof.
  intros Hv. unfold decode_opt, collected. rewrite get_mk_tuple. cbn [ok_or mbind res_bind].
  rewrite get_mk_atom, get_mk_string by done. cbn [ok_or mbind res_bind]. rewrite !last_value_snoc.
  repeat match goal with |- context [String.eqb k ?s] =>
    destruct (String.eqb_spec k s) as [->|]; [done|] end. done.
Qed.

Lemma decode_opts_collected l0 l :
  Forall (fun kv => valid_str kv.2 = true) l ->
  decode_opts (collected l0) (map (fun '(k, v) => mk_tuple [mk_atom k; mk_string v]) l)
  = Ok (collected (l0 ++ l)).
Proof.
  intros Hl. revert l0. induction Hl as [|[k v] l Hv _ IH]; intros l0; [by rewrite app_nil_r|].
  cbn [map decode_opts]. rewrite decode_opt_collected by done. cbn [mbind res_bind].
  rewrite IH. by rewrite <-app_assoc.
Qed.

Lemma decode_spec_opts l :
  Forall (fun kv => valid_str kv.2 = true) l ->
  decode_driver_spec (opts_term l) =
    match last_value "driver_path" l, last_value "driver_name" l with
    | Some p, _ => Ok (SpecPath p (last_value "uri" l) (last_value "path" l) (last_value "entrypoint" l))
    | None, Some n => Ok (SpecName n (last_value "uri" l))
    | None, None => Err "opts must include driver_path or driver_name"
    end.
Proof.
  intros Hl. unfold decode_driver_spec, opts_term. rewrite get_string_list, get_mk_list.
  cbn [ok_or mbind res_bind list_items].
  pose proof (decode_opts_collected [] l Hl) as Hd. cbn [app] in Hd.
  change (collected []) with no_opts in Hd. rewrite Hd. cbn. by repeat case_match.
Qed.

Lemma last_value_filter key l (P : string -> bool) :
  P key = true -> last_value key (filter (fun kv => P kv.1 = true) l) = last_value key l.
Proof.
  intros Hk. induction l as [|[k v] l IH] using rev_ind; [done|].
  rewrite filter_app, last_value_snoc. rewrite filter_cons, filter_nil. cbn [fst].
  case_decide as Hp; [by rewrite last_value_snoc, IH|].
  rewrite app_nil_r, IH. destruct (String.eqb_spec k key) as [->|]; [done|done].
Qed.

Context {W : Type} `{!AdbcCrate W}.

(** What the options of [open] mean.  Of repeated keys the last counts;
    a [driver_path] wins over a [driver_name]; with a [driver_path] the driver
    gets the [uri] and the [path] as database options, in that order, and the
    [entrypoint]; with only a [driver_name] the options [path] and
    [entrypoint] are ignored: leaving them out opens the same database. *)
Theorem adbc_open_options l w :
  Forall (fun kv => valid_str kv.2 = true) l ->
  match last_value "driver_path" l, last_value "driver_name" l with
  | Some p, _ =>
      adbc_database_open (opts_term l) w =
        open_with (load_dynamic_from_filename p (as_bytes <$> last_value "entrypoint" l) w)
          (fun d w => match database_opts (last_value "uri" l) (last_value "path" l) with
                      | [] => new_database d w
                      | _ => new_database_with_opts d
                               (database_opts (last_value "uri" l) (last_value "path" l)) w
                      end)
  | None, Some n =>
      adbc_database_open (opts_term l) w =
        adbc_database_open
          (opts_term (filter (fun kv => negb (String.eqb kv.1 "path" || String.eqb kv.1 "entrypoint") = true) l)) w
  | None, None =>
      adbc_database_open (opts_term l) w
      = (err_encode "opts must include driver_path or driver_name", w)
  end.
Proof.
  intros Hl. pose proof (decode_spec_opts l Hl) as Hd.
  destruct (last_value "driver_path" l) as [p|] eqn:Ep; [|destruct (last_value "driver_name" l) as [n|] eqn:En].
  - unfold adbc_database_open. by rewrite Hd.
  - unfold adbc_database_open. rewrite Hd, decode_spec_opts by (rewrite Forall_forall in *; intros x [_ Hx]%list_elem_of_filter; by apply Hl).
    pose proof (fun key => last_value_filter key l
      (fun k => negb (String.eqb k "path" || String.eqb k "entrypoint"))) as Hf.
    rewrite (Hf "driver_path"), (Hf "driver_name"), (Hf "uri") by done.
    by rewrite Ep, En.
  - unfold adbc_database_open. by rewrite Hd.
Qed.

End options.

(** ** Witnesses *)

(** A driver that logs its calls and answers queries with two batches. *)
#[export] Instance ref_adbc : AdbcCrate (list string) := {|
  ManagedDriver := string;
  ManagedDatabase := list (OptionDatabase * string);
  ManagedConnection := unit;
  ManagedStatement := option string;
  load_dynamic_from_filename p e w := (Ok p, w ++ ["load " +:+ p]);
  load_dynamic_from_name n e w := (Ok n, w ++ ["load " +:+ n]);
  new_database d w := (Ok [], d, w ++ ["database"]);
  new_database_with_opts d o w := (Ok o, d, w ++ ["database with options"]);
  new_connection _ w := (Ok (), w);
  new_statement _ w := (Ok None, (), w);
  set_sql_query _ sql w := (Ok (), Some sql, w);
  bind_batch s _ w := (Ok (), s, w);
  execute s w :=
    (match s with
     | Some sql => Ok (mkAdbcReader sample_schema [Ok sample_batch; Ok sample_batch])
     | None => Err "no query"
     end, s, w);
  get_table_types _ w := (Ok (mkAdbcReader sample_schema []), w);
  get_table_schema _ _ _ _ w := (Ok sample_schema, w);
  get_objects _ _ _ _ _ _ w := (Ok (mkAdbcReader sample_schema []), w)
|}.

Lemma adbc_execute_delivers_witness :
  exists stream, adbc_statement_execute (W := list string) (new_mutex (Some "select 1")) []
      = (ROk stream, new_mutex (Some "select 1"), []) /\
    adbc_stream_schema stream = RBare sample_schema /\
    forall k, adbc_drain (2 + k) stream = [ROk sample_batch; ROk sample_batch] ++ replicate k (RAtom "done").
Proof.
  exact (proj1 (adbc_execute_delivers (new_mutex (Some "select 1")) []
    (mkAdbcReader sample_schema [Ok sample_batch; Ok sample_batch]) (Some "select 1") (Some "select 1") []
    eq_refl eq_refl) [sample_batch; sample_batch] eq_refl).
Defined.

Lemma adbc_open_options_witness :
  adbc_database_open (opts_term (Term := beam) [("driver_name", "duckdb"); ("path", "a.db")]) ([] : list string)
  = (ROk (mkAdbcDatabase "duckdb" []), ["load duckdb"; "database"]).
Proof.
  etransitivity; [exact (adbc_open_options (Term := beam) (W := list string)
    [("driver_name", "duckdb"); ("path", "a.db")] [] ltac:(by repeat constructor))|].
  vm_compute. reflexivity.
Defined.
