(* ===== verification/Elixir.v ===== *)
(** * Elixir values (the callers under lib/ex_arrow/)

    The values that the dataset modules of the library compare and pass to the
    NIFs: numbers, booleans, binaries and calendar structs, with what the code
    uses of Elixir's standard library on them: the term order of the operators
    [==], [<] and [>], which compares structs as maps, and differences of dates
    and times in Calendar.ISO. *)

From S2P Require Import Prelude Float Utf8 Term.

(** ** Calendar structs *)

Record Date := mkDate { d_year : Z; d_month : Z; d_day : Z }.

(** [microsecond] is the pair of the value and its precision. *)
Record NaiveDateTime := mkNaive {
  n_date : Date;
  n_hour : Z; n_minute : Z; n_second : Z;
  n_microsecond : Z * Z
}.

Record DateTime := mkDateTime {
  dt_naive : NaiveDateTime;
  dt_utc_offset : Z; dt_std_offset : Z;
  dt_time_zone : string; dt_zone_abbr : string
}.

Definition leap_year (y : Z) : bool :=
  (y mod 4 =? 0) && (negb (y mod 100 =? 0) || (y mod 400 =? 0)).

Definition days_before_month (m : Z) : Z :=
  nth (Z.to_nat (m - 1)) [0; 31; 59; 90; 120; 151; 181; 212; 243; 273; 304; 334] 0.

Definition days_in_previous_years (y : Z) : Z :=
  let p := y - 1 in p / 4 - p / 100 + p / 400 + 365 * p + 366.

(** Days since the year 0. *)
Definition date_to_iso_days (d : Date) : Z :=
  days_in_previous_years (d_year d) + days_before_month (d_month d)
  + (if (2 <? d_month d) && leap_year (d_year d) then 1 else 0) + d_day d - 1.

(** [Date.diff]. *)
Definition date_diff (a b : Date) : Z := date_to_iso_days a - date_to_iso_days b.

Definition micros_of_day (n : NaiveDateTime) : Z :=
  ((n_hour n * 60 + n_minute n) * 60 + n_second n) * 1000000 + fst (n_microsecond n).

(** [NaiveDateTime.diff(a, b, :microsecond)]. *)
Definition naive_diff_micros (a b : NaiveDateTime) : Z :=
  date_diff (n_date a) (n_date b) * 86400000000 + (micros_of_day a - micros_of_day b).

Definition unix_epoch : NaiveDateTime := mkNaive (mkDate 1970 1 1) 0 0 0 (0, 0).

(** [DateTime.to_unix(dt, :microsecond)]. *)
Definition to_unix_micros (dt : DateTime) : Z :=
  naive_diff_micros (dt_naive dt) unix_epoch - (dt_utc_offset dt + dt_std_offset dt) * 1000000.

(** ** Scalars *)

Inductive Lit :=
| LInt (v : Z)
| LFloat (x : f64)
| LBool (b : bool)
| LBin (s : string)
| LDate (d : Date)
| LNaive (n : NaiveDateTime)
| LDateTime (dt : DateTime).

(** ** Erlang's term order

    Numbers, then atoms, then maps, then binaries.  Numbers by value.  Structs
    are maps: by size, and at equal keys by the values in the order of the
    keys, so that a date is ordered by its day first. *)

(** The value of a finite float is [m * 2 ^ e]: an exact comparison. *)
Definition compare_int_float (v : Z) (x : f64) : comparison :=
  match x with
  | S754_zero _ => v ?= 0
  | S754_infinity s => if s then Gt else Lt
  | S754_nan => Eq
  | S754_finite s m e =>
      let n := cond_Zopp s (Zpos m) in
      if 0 <=? e then v ?= n * 2 ^ e else v * 2 ^ (- e) ?= n
  end.

Definition compare_floats (x y : f64) : comparison :=
  match SFcompare x y with Some c => c | None => Eq end.

(** The values of a struct's fields. *)
Inductive FieldValue := FvNum (v : Z) | FvBin (s : string).

Definition compare_field (a b : FieldValue) : comparison :=
  match a, b with
  | FvNum x, FvNum y => x ?= y
  | FvBin x, FvBin y => String.compare x y
  | FvNum _, FvBin _ => Lt
  | FvBin _, FvNum _ => Gt
  end.

Fixpoint compare_fields (a b : list FieldValue) : comparison :=
  match a, b with
  | x :: a', y :: b' => match compare_field x y with Eq => compare_fields a' b' | c => c end
  | [], [] => Eq
  | [], _ => Lt
  | _, [] => Gt
  end.

(** The keys below are in the order of their names, after [__struct__] and
    [calendar]. *)
Definition naive_fields (n : NaiveDateTime) : list FieldValue :=
  [FvNum (d_day (n_date n)); FvNum (n_hour n); FvNum (fst (n_microsecond n)); FvNum (snd (n_microsecond n));
   FvNum (n_minute n); FvNum (d_month (n_date n)); FvNum (n_second n)].

Definition struct_fields (l : Lit) : list FieldValue :=
  match l with
  | LDate d => [FvNum (d_day d); FvNum (d_month d); FvNum (d_year d)]
  | LNaive n => naive_fields n ++ [FvNum (d_year (n_date n))]
  | LDateTime dt =>
      naive_fields (dt_naive dt) ++
      [FvNum (dt_std_offset dt); FvBin (dt_time_zone dt); FvNum (dt_utc_offset dt);
       FvNum (d_year (n_date (dt_naive dt))); FvBin (dt_zone_abbr dt)]
  | _ => []
  end.

(** The class of a term in the order; structs by their number of keys. *)
Definition term_rank (l : Lit) : Z :=
  match l with
  | LInt _ | LFloat _ => 0
  | LBool _ => 1
  | LDate _ => 5
  | LNaive _ => 9
  | LDateTime _ => 13
  | LBin _ => 100
  end.

Definition term_compare (a b : Lit) : comparison :=
  match a, b with
  | LInt x, LInt y => x ?= y
  | LInt x, LFloat y => compare_int_float x y
  | LFloat x, LInt y => CompOpp (compare_int_float y x)
  | LFloat x, LFloat y => compare_floats x y
  | LBool x, LBool y => Z.b2z x ?= Z.b2z y
  | LBin x, LBin y => String.compare x y
  | LDate _, LDate _ | LNaive _, LNaive _ | LDateTime _, LDateTime _ =>
      compare_fields (struct_fields a) (struct_fields b)
  | _, _ => term_rank a ?= term_rank b
  end.

(** [String.valid?]. *)
Definition string_valid (s : string) : bool := valid_str s.

(** [String.contains?(s, part)]. *)
Definition string_contains (s part : string) : bool :=
  match String.index 0 part s with Some _ => true | None => false end.

(** ** Lemmas *)

Example unix_epoch_days : date_to_iso_days (mkDate 1970 1 1) = 719528.
Proof. reflexivity. Qed.

Example leap_day_days : date_diff (mkDate 2024 3 1) (mkDate 2024 2 28) = 2.
Proof. reflexivity. Qed.
