(* ===== verification/Expression.v ===== *)
(** * The expression language (lib/ex_arrow/compute/expression.ex)

    [ExArrow.Compute.Expression]: the expression tree that callers build,
    [validate] against field types, the split into a Parquet filter and a
    residual expression, and the encoding for [compute_filter_expr]. *)

From S2P Require Import Prelude Float Utf8 Term Arrow Elixir Compute ComputeEval.

(** ** Data *)

(** [{:field, name}], [{:scalar, value}], [{:call, op, args}]. *)
Inductive Node :=
| NField (name : string)
| NScalar (v : Lit)
| NCall (op : Op) (args : list Node).

(** The filter tuples of the Parquet reader: [{op, col, value}], [{:and, kids}]
    and [{:or, kids}]. *)
Inductive Filter :=
| TCmp (op : Op) (col : string) (v : Lit)
| TAnd (kids : list Filter)
| TOr (kids : list Filter).

(** [op in @compare_ops]. *)
Definition is_compare_op (op : Op) : bool :=
  match op with OpAnd | OpOr | OpNot => false | _ => true end.

(** The builder [scalar/1]: it raises on a string that is not UTF-8. *)
Definition scalar (v : Lit) : res string Node :=
  match v with
  | LBin s => if string_valid s then Ok (NScalar v) else Panic "scalar string must be valid UTF-8"
  | _ => Ok (NScalar v)
  end.

(** ** Validation *)

(** The messages of [validate/2]. *)
Inductive ValidateError :=
| UnknownField (name : string)
| TypeMismatch (col_type : string) (value : Lit)
| CannotCompare (t1 t2 : string)
| OperandNotLeaf
| NoFieldReference
| InvalidNode.

Definition in_i32 (v : Z) : bool := (-2147483648 <=? v) && (v <=? 2147483647).

Definition is_timestamp (t : string) : bool :=
  existsb (String.eqb t)
    ["timestamp"; "timestamp_seconds"; "timestamp_millis"; "timestamp_micros"; "timestamp_nanos"].

Definition is_duration (t : string) : bool :=
  existsb (String.eqb t)
    ["duration_seconds"; "duration_millis"; "duration_micros"; "duration_nanos"].

Definition int_matches_type (v : Z) (t : string) : bool :=
  if String.eqb t "int64" then true
  else if String.eqb t "int32" then in_i32 v
  else if String.eqb t "int16" then (-32768 <=? v) && (v <=? 32767)
  else if String.eqb t "int8" then (-128 <=? v) && (v <=? 127)
  else if String.eqb t "uint64" then 0 <=? v
  else if String.eqb t "uint32" then (0 <=? v) && (v <=? 4294967295)
  else if String.eqb t "uint16" then (0 <=? v) && (v <=? 65535)
  else if String.eqb t "uint8" then (0 <=? v) && (v <=? 255)
  else if String.eqb t "float64" || String.eqb t "float32" then true
  else if String.eqb t "date32" then in_i32 v
  else if String.eqb t "date64" then true
  else is_timestamp t || is_duration t.

Definition scalar_matches_type (v : Lit) (t : string) : bool :=
  match v with
  | LInt i => int_matches_type i t
  | LFloat _ => String.eqb t "float64" || String.eqb t "float32"
  | LBool _ => String.eqb t "boolean"
  | LBin s => (String.eqb t "utf8" || String.eqb t "large_utf8") && string_valid s
  | LDate _ => String.eqb t "date32" || String.eqb t "date64"
  | LNaive _ | LDateTime _ => is_timestamp t
  end.

Definition types_comparable (a b : string) : bool :=
  let ints := ["int8"; "int16"; "int32"; "int64"] in
  let floats := ["float32"; "float64"] in
  String.eqb a b
  || (existsb (String.eqb a) ints && existsb (String.eqb b) ints)
  || (existsb (String.eqb a) floats && existsb (String.eqb b) floats)
  || (String.eqb a "utf8" && String.eqb b "large_utf8")
  || (String.eqb a "large_utf8" && String.eqb b "utf8").

(** [{:column, type}] or [{:scalar, value}]. *)
Inductive NodeType := ColumnType (t : string) | ScalarType (v : Lit).

Definition node_type (fields : gmap string string) (n : Node) : res ValidateError NodeType :=
  match n with
  | NField name => t ← ok_or (UnknownField name) (fields !! name); Ok (ColumnType t)
  | NScalar v => Ok (ScalarType v)
  | NCall _ _ => Err OperandNotLeaf
  end.

Definition compatible_compare (l r : NodeType) : res ValidateError unit :=
  match l, r with
  | ColumnType t, ScalarType v | ScalarType v, ColumnType t =>
      if scalar_matches_type v t then Ok () else Err (TypeMismatch t v)
  | ColumnType t1, ColumnType t2 =>
      if types_comparable t1 t2 then Ok () else Err (CannotCompare t1 t2)
  | ScalarType _, ScalarType _ => Err NoFieldReference
  end.

(** Every [Lit] is a supported scalar. *)
Fixpoint validate_node (fields : gmap string string) (n : Node) : res ValidateError unit :=
  match n with
  | NField name => _ ← ok_or (UnknownField name) (fields !! name); Ok ()
  | NScalar _ => Ok ()
  | NCall OpNot [inner] => validate_node fields inner
  | NCall OpAnd [lhs; rhs] | NCall OpOr [lhs; rhs] =>
      _ ← validate_node fields lhs;
      validate_node fields rhs
  | NCall op [lhs; rhs] =>
      if is_compare_op op then
        lt ← node_type fields lhs;
        rt ← node_type fields rhs;
        compatible_compare lt rt
      else Err InvalidNode
  | NCall _ _ => Err InvalidNode
  end.

Definition validate (expr : Node) (fields : gmap string string) : res ValidateError Node :=
  map_ok (fun _ => expr) (validate_node fields expr).

(** ** The split into a Parquet filter and a residual *)

Definition flip_op (op : Op) : Op :=
  match op with OpGt => OpLt | OpGte => OpLte | OpLt => OpGt | OpLte => OpGte | op => op end.

Definition parquet_scalar (v : Lit) : option Lit :=
  match v with
  | LInt _ | LFloat _ | LBool _ => Some v
  | LBin s => if string_valid s then Some v else None
  | LDate _ | LNaive _ | LDateTime _ => None
  end.

Definition pushable_compare (op : Op) (lhs rhs : Node) : option Filter :=
  match lhs, rhs with
  | NField col, NScalar value => v ← parquet_scalar value; Some (TCmp op col v)
  | NScalar value, NField col => v ← parquet_scalar value; Some (TCmp (flip_op op) col v)
  | _, _ => None
  end.

(** [case {l, r}]: nothing, one of the two, or both under a connective. *)
Definition join_parts {A} (both : A -> A -> A) (l r : option A) : option A :=
  match l, r with
  | None, None => None
  | Some l, None => Some l
  | None, Some r => Some r
  | Some l, Some r => Some (both l r)
  end.

Fixpoint split_node (n : Node) : option Filter * option Node :=
  match n with
  | NCall OpAnd [lhs; rhs] =>
      let '(lp, lr) := split_node lhs in
      let '(rp, rr) := split_node rhs in
      (join_parts (fun l r => TAnd [l; r]) lp rp, join_parts (fun l r => NCall OpAnd [l; r]) lr rr)
  | NCall OpOr [lhs; rhs] =>
      match split_node lhs, split_node rhs with
      | (Some lp, None), (Some rp, None) => (Some (TOr [lp; rp]), None)
      | _, _ => (None, Some n)
      end
  | NCall OpNot [inner] => (None, Some n)
  | NCall op [lhs; rhs] =>
      if is_compare_op op then
        match pushable_compare op lhs rhs with
        | Some tuple => (Some tuple, None)
        | None => (None, Some n)
        end
      else (None, Some n)
  | _ => (None, Some n)
  end.

Definition to_parquet_filters (expr : Node) : option Filter * option Node := split_node expr.

(** ** Encoding for the NIF *)

Section encode.
Context `{Rustler Term}.

Definition encode_lit (v : Lit) : res string Term :=
  match v with
  | LInt i => Ok (mk_int i)
  | LFloat x => Ok (mk_float x)
  | LBool b => Ok (mk_atom (if b then "true" else "false"))
  | LBin s => if string_valid s then Ok (mk_string s) else Panic "invalid UTF-8 scalar"
  | LDate d => Ok (mk_tuple [mk_atom "date32"; mk_int (date_diff d (mkDate 1970 1 1))])
  | LNaive n => Ok (mk_tuple [mk_atom "timestamp_micros"; mk_int (naive_diff_micros n unix_epoch)])
  | LDateTime dt => Ok (mk_tuple [mk_atom "timestamp_micros"; mk_int (to_unix_micros dt)])
  end.

Fixpoint encode_node (n : Node) : res string Term :=
  match n with
  | NField name => Ok (mk_tuple [mk_atom "field"; mk_string name])
  | NScalar v => t ← encode_lit v; Ok (mk_tuple [mk_atom "scalar"; t])
  | NCall op args =>
      ts ← collect encode_node args;
      Ok (mk_tuple [mk_atom "call"; mk_atom (op_atom op); mk_list ts])
  end.

Definition encode_for_nif (expr : Node) : res string Term := encode_node expr.

(** [Compute.filter(batch, expr)] (compute.ex): a raise of the encoding or of
    the NIF is one of the caller. *)
Definition compute_filter_node `{Arrow} (batch : RecordBatch) (expr : Node) : Reply RecordBatch :=
  reply_with (encode_for_nif expr) (compute_filter_expr batch).

End encode.
