(* ===== verification/ParquetOpts.v ===== *)
(** * Parquet options from Elixir (lib/ex_arrow/parquet/opts.ex, parquet/reader.ex, parquet/writer.ex)

    The checks that [ExArrow.Parquet.Opts] makes before a keyword list goes to
    the NIFs, the terms the NIFs get, and opening a reader.  Options are typed:
    the clauses that refuse a value of another type have no counterpart. *)

From S2P Require Import Prelude Float Utf8 Term Arrow Stream Elixir Compute ComputeEval Expression Parquet.

(** ** Read options *)

(** [:filters] is an expression or a filter tuple. *)
Inductive FiltersOpt := FiltersExpr (e : Node) | FiltersTuple (f : Filter).

Record ReadKeywords := mkReadKeywords {
  kw_columns : option (list string);
  kw_row_groups : option (list Z);
  kw_filters : option FiltersOpt
}.

(** The normalised keyword list; [maybe_put] puts a key in front. *)
Record ReadOptions := mkReadOptions {
  op_columns : option (list string);
  op_row_groups : option (list Z);
  op_filters : option Filter
}.

Definition no_read_options : ReadOptions := mkReadOptions None None None.

Definition validate_columns (cols : option (list string)) : res string (option (list string)) :=
  match cols with
  | Some [] => Err ":columns must be a non-empty list of strings"
  | cols => Ok cols
  end.

Definition validate_row_groups (rgs : option (list Z)) : res string (option (list Z)) :=
  match rgs with
  | None => Ok None
  | Some l => if forallb (fun i => 0 <=? i) l then Ok (Some l)
              else Err ":row_groups must be a list of non-negative integers"
  end.

(** [filter_value?]. *)
Definition is_filter_value (v : Lit) : bool :=
  match v with
  | LInt _ | LFloat _ | LBool _ | LBin _ => true
  | LDate _ | LNaive _ | LDateTime _ => false
  end.

Definition bad_filter : string :=
  "filter must be {:eq|:ne|:gt|:gte|:lt|:lte, col, value} or {:and|:or, [filters]}".

Fixpoint check_filter (f : Filter) : res string unit :=
  match f with
  | TCmp op col value =>
      if is_compare_op op then
        if is_filter_value value then Ok ()
        else Err ":filters value must be integer, float, string, or boolean"
      else Err bad_filter
  | TAnd list =>
      match list with
      | [] => Err ":and filter list must not be empty"
      | _ => _ ← collect check_filter list; Ok ()
      end
  | TOr list =>
      match list with
      | [] => Err ":or filter list must not be empty"
      | _ => _ ← collect check_filter list; Ok ()
      end
  end.

(** The rendering of the residual is left out of its message. *)
Definition validate_filters (filters : option FiltersOpt) : res string (option Filter) :=
  match filters with
  | None => Ok None
  | Some (FiltersExpr e) =>
      match to_parquet_filters e with
      | (None, _) =>
          Err ":filters expression has no Parquet-pushable part (use Scanner for residual-only filters)"
      | (Some pushed, None) => _ ← check_filter pushed; Ok (Some pushed)
      | (Some _, Some _) => Err ":filters expression has a non-pushable residual"
      end
  | Some (FiltersTuple f) => _ ← check_filter f; Ok (Some f)
  end.

Definition validate_read (opts : ReadKeywords) : res string ReadOptions :=
  columns ← validate_columns (kw_columns opts);
  row_groups ← validate_row_groups (kw_row_groups opts);
  filters ← validate_filters (kw_filters opts);
  Ok (mkReadOptions columns row_groups filters).

(** Normalised options given again, as [Parquet.Reader.from_file] gets them
    from the scanner. *)
Definition as_keywords (o : ReadOptions) : ReadKeywords :=
  mkReadKeywords (op_columns o) (op_row_groups o) (FiltersTuple <$> op_filters o).

(** ** Write options *)

Inductive CompressionOpt := CoAtom (a : string) | CoZstd (level : Z).

Record WriteKeywords := mkWriteKeywords {
  kw_compression : option CompressionOpt;
  kw_row_group_size : option Z;
  kw_dictionary : option bool
}.

Definition compressions : list string := ["none"; "uncompressed"; "snappy"; "zstd"; "lz4"; "gzip"].

Definition validate_compression (c : option CompressionOpt) : res string (option CompressionOpt) :=
  match c with
  | None => Ok None
  | Some (CoAtom a) =>
      if existsb (String.eqb a) compressions then Ok c
      else Err ":compression must be :none | :uncompressed | :snappy | :zstd | {:zstd, level} | :lz4 | :gzip"
  | Some (CoZstd level) =>
      if (1 <=? level) && (level <=? 22) then Ok c
      else Err ":compression {:zstd, level} requires level in 1..22"
  end.

Definition validate_row_group_size (n : option Z) : res string (option Z) :=
  match n with
  | None => Ok None
  | Some n => if 0 <? n then Ok (Some n) else Err ":row_group_size must be a positive integer"
  end.

Definition validate_write (opts : WriteKeywords) : res string WriteKeywords :=
  compression ← validate_compression (kw_compression opts);
  row_group_size ← validate_row_group_size (kw_row_group_size opts);
  Ok (mkWriteKeywords compression row_group_size (kw_dictionary opts)).

(** ** The terms of the NIFs *)

Section terms.
Context `{Rustler Term}.

(** A structure as a value is refused by [check_filter]. *)
Definition filter_value_term (v : Lit) : option Term :=
  match v with
  | LInt i => Some (mk_int i)
  | LFloat x => Some (mk_float x)
  | LBool b => Some (mk_atom (if b then "true" else "false"))
  | LBin s => Some (mk_string s)
  | LDate _ | LNaive _ | LDateTime _ => None
  end.

Fixpoint filter_term (f : Filter) : option Term :=
  match f with
  | TCmp op col v => t ← filter_value_term v; Some (mk_tuple [mk_atom (op_atom op); mk_string col; t])
  | TAnd kids => ts ← collect_opt filter_term kids; Some (mk_tuple [mk_atom "and"; mk_list ts])
  | TOr kids => ts ← collect_opt filter_term kids; Some (mk_tuple [mk_atom "or"; mk_list ts])
  end.

Definition option_item (key : string) (v : option Term) : list Term :=
  match v with Some t => [mk_tuple [mk_atom key; t]] | None => [] end.

Definition read_options_term (o : ReadOptions) : Term :=
  mk_list (option_item "filters" (f ← op_filters o; filter_term f)
           ++ option_item "row_groups" ((fun l => mk_list (map mk_int l)) <$> op_row_groups o)
           ++ option_item "columns" ((fun l => mk_list (map mk_string l)) <$> op_columns o)).

Definition compression_term (c : CompressionOpt) : Term :=
  match c with
  | CoAtom a => mk_atom a
  | CoZstd level => mk_tuple [mk_atom "zstd"; mk_int level]
  end.

Definition write_options_term (o : WriteKeywords) : Term :=
  mk_list (option_item "dictionary" ((fun b : bool => mk_atom (if b then "true" else "false")) <$> kw_dictionary o)
           ++ option_item "row_group_size" (mk_int <$> kw_row_group_size o)
           ++ option_item "compression" (compression_term <$> kw_compression o)).

Context `{Arrow, ParquetCrate}.

(** [Parquet.Reader.from_file] and [from_binary]. *)
Definition reader_from_file (file : res string bytes) (opts : ReadKeywords) : Reply ExArrowParquetStream :=
  reply_with (validate_read opts) (fun o => parquet_reader_from_file file (read_options_term o)).

Definition reader_from_binary (binary : bytes) (opts : ReadKeywords) : Reply ExArrowParquetStream :=
  reply_with (validate_read opts) (fun o => parquet_reader_from_binary binary (read_options_term o)).

(** [Parquet.Writer.to_binary]. *)
Definition writer_to_binary (schema : Schema) (batches : list RecordBatch) (opts : WriteKeywords) : Reply bytes :=
  reply_with (validate_write opts) (fun o => parquet_writer_to_binary schema batches (write_options_term o)).

End terms.
