(* ===== verification/ScanPlan.v ===== *)
(** * Planning a dataset scan (lib/ex_arrow/scanner/compile.ex, scanner/partition.ex)

    [Compile] splits a filter into what the Parquet reader evaluates and a
    residual expression, with the partition keys taken out of the former;
    [Partition] decides, from a fragment's partition values alone, whether the
    fragment may hold a matching row. *)

From S2P Require Import Prelude Float Utf8 Term Arrow Elixir Compute Expression.

(** Partition values of a fragment: column name to value. *)
Notation PartitionValues := (gmap string Lit).

Definition keys_member (keys : list string) (col : string) : bool := existsb (String.eqb col) keys.

(** ** Compile *)

(** [case kids]: a connective of what is left of its children. *)
Definition rebuild (conn : list Filter -> Filter) (kids : list Filter) : option Filter :=
  match kids with
  | [] => None
  | [one] => Some one
  | many => Some (conn many)
  end.

Fixpoint references_partition (keys : list string) (f : Filter) : bool :=
  match f with
  | TCmp op col _ => if is_compare_op op then keys_member keys col else false
  | TAnd kids | TOr kids => existsb (references_partition keys) kids
  end.

Fixpoint strip_pushed (keys : list string) (f : Filter) : option Filter :=
  match f with
  | TAnd kids => rebuild TAnd (omap (strip_pushed keys) kids)
  | TOr kids =>
      if existsb (references_partition keys) kids then None
      else rebuild TOr (omap (strip_pushed keys) kids)
  | TCmp op col _ => if is_compare_op op && keys_member keys col then None else Some f
  end.

Fixpoint pushed_only_partitions (keys : list string) (f : Filter) : bool :=
  match f with
  | TAnd kids | TOr kids => forallb (pushed_only_partitions keys) kids
  | TCmp op col _ => if is_compare_op op then keys_member keys col else false
  end.

Fixpoint partition_only_node (keys : list string) (n : Node) : bool :=
  match n with
  | NField name => keys_member keys name
  | NScalar _ => true
  | NCall OpNot [inner] => partition_only_node keys inner
  | NCall OpNot _ => false
  | NCall _ args => forallb (partition_only_node keys) args
  end.

(** [:filter] of a scanner: an expression or a filter tuple. *)
Inductive ScanFilter := SfExpr (e : Node) | SfTuple (f : Filter).

Definition compile_expr (expr : Node) (keys : list string) : option Filter * option Node :=
  let '(pushed0, residual0) := to_parquet_filters expr in
  let pushed := f ← pushed0; strip_pushed keys f in
  let residual :=
    if partition_only_node keys expr then None
    else match residual0 with
         | Some r => Some r
         | None =>
             match pushed, pushed0 with
             | None, Some p0 => if pushed_only_partitions keys p0 then None else Some expr
             | None, None => Some expr
             | Some _, _ => None
             end
         end in
  (pushed, residual).

Definition compile (filter : option ScanFilter) (keys : list string) : option Filter * option Node :=
  match filter with
  | None => (None, None)
  | Some (SfExpr expr) => compile_expr expr keys
  | Some (SfTuple tuple) => (strip_pushed keys tuple, None)
  end.

Fixpoint bind_node (pv : PartitionValues) (n : Node) : Node :=
  match n with
  | NField name => match pv !! name with Some v => NScalar v | None => NField name end
  | NScalar v => NScalar v
  | NCall op args => NCall op (map (bind_node pv) args)
  end.

Definition bind_partitions (expr : Node) (pv : PartitionValues) : Node := bind_node pv expr.

(** ** Partition pruning *)

(** [{:value, v}], [true], [false] and [:unknown]. *)
Inductive Tri := TriValue (v : Lit) | TriTrue | TriFalse | TriUnknown.

Definition tri_bool (b : bool) : Tri := if b then TriTrue else TriFalse.

(** [==] and the ordering operators of the language. *)
Definition compare (op : Op) (a b : Lit) : bool :=
  match op, term_compare a b with
  | OpEq, Eq => true
  | OpNe, (Lt | Gt) => true
  | OpGt, Gt => true
  | OpGte, (Gt | Eq) => true
  | OpLt, Lt => true
  | OpLte, (Lt | Eq) => true
  | _, _ => false
  end.

Definition tri_and (l r : Tri) : Tri :=
  match l, r with
  | TriFalse, _ | _, TriFalse => TriFalse
  | TriTrue, TriTrue => TriTrue
  | _, _ => TriUnknown
  end.

Definition tri_or (l r : Tri) : Tri :=
  match l, r with
  | TriTrue, _ | _, TriTrue => TriTrue
  | TriFalse, TriFalse => TriFalse
  | _, _ => TriUnknown
  end.

Definition tri_not (t : Tri) : Tri :=
  match t with TriTrue => TriFalse | TriFalse => TriTrue | _ => TriUnknown end.

Fixpoint eval (pv : PartitionValues) (n : Node) : Tri :=
  match n with
  | NField name => match pv !! name with Some v => TriValue v | None => TriUnknown end
  | NScalar v => TriValue v
  | NCall OpAnd [lhs; rhs] => tri_and (eval pv lhs) (eval pv rhs)
  | NCall OpOr [lhs; rhs] => tri_or (eval pv lhs) (eval pv rhs)
  | NCall OpNot [inner] => tri_not (eval pv inner)
  | NCall op [lhs; rhs] =>
      if is_compare_op op then
        match eval pv lhs, eval pv rhs with
        | TriValue a, TriValue b => tri_bool (compare op a b)
        | _, _ => TriUnknown
        end
      else TriUnknown
  | NCall _ _ => TriUnknown
  end.

(** [Enum.reduce_while] over the children, from [acc]. *)
Definition reduce_and (eval_kid : Filter -> Tri) :=
  fix go (kids : list Filter) (acc : Tri) : Tri :=
    match kids with
    | [] => acc
    | kid :: rest =>
        match acc, eval_kid kid with
        | _, TriFalse => TriFalse
        | TriTrue, TriTrue => go rest TriTrue
        | _, _ => go rest TriUnknown
        end
    end.

Definition reduce_or (eval_kid : Filter -> Tri) :=
  fix go (kids : list Filter) (acc : Tri) : Tri :=
    match kids with
    | [] => acc
    | kid :: rest =>
        match acc, eval_kid kid with
        | _, TriTrue => TriTrue
        | TriFalse, TriFalse => go rest TriFalse
        | _, _ => go rest TriUnknown
        end
    end.

Fixpoint eval_legacy (pv : PartitionValues) (f : Filter) : Tri :=
  match f with
  | TAnd kids => reduce_and (eval_legacy pv) kids TriTrue
  | TOr kids => reduce_or (eval_legacy pv) kids TriFalse
  | TCmp op col value =>
      if is_compare_op op then
        match pv !! col with
        | Some actual => tri_bool (compare op actual value)
        | None => TriUnknown
        end
      else TriUnknown
  end.

Definition not_false (t : Tri) : bool := match t with TriFalse => false | _ => true end.

Definition may_match (filter : ScanFilter) (pv : PartitionValues) : bool :=
  match filter with
  | SfExpr node => not_false (eval pv node)
  | SfTuple tuple => not_false (eval_legacy pv tuple)
  end.

(** The fragments that may match, in order, and the number of the others. *)
Definition select_fragments {Fragment} (values : Fragment -> PartitionValues) (fragments : list Fragment)
    (filter : option ScanFilter) : list Fragment * nat :=
  match filter with
  | None => (fragments, 0%nat)
  | Some filter =>
      let '(kept, pruned) :=
        foldl (fun '(acc, pruned) frag =>
                 if may_match filter (values frag) then (frag :: acc, pruned) else (acc, S pruned))
              ([], 0%nat) fragments in
      (rev kept, pruned)
  end.
