(* ===== verification/ScanPlanFacts.v ===== *)
(** * Facts about planning a scan

    What an expression means on a row of a fragment (its partition fields bound
    to the fragment's values, then the row-by-row semantics of the compute
    kernel), what a filter tuple means there, and that the split, the
    stripping of partition keys and partition pruning respect these meanings. *)

From S2P Require Import Prelude Float Utf8 Term Arrow ArrowRef Elixir Compute ComputeEval Expression ParquetOpts ScanPlan.

(** ** Structure *)

Section node_induction.
Context (P : Node -> Prop).
Context (Hfield : forall n, P (NField n)).
Context (Hscalar : forall v, P (NScalar v)).
Context (Hcall : forall op args, Forall P args -> P (NCall op args)).

Fixpoint node_ind (n : Node) : P n :=
  match n with
  | NField c => Hfield c
  | NScalar v => Hscalar v
  | NCall op args =>
      Hcall op args ((fix go l : Forall P l :=
        match l with
        | [] => Forall_nil_2 P
        | x :: l' => Forall_cons_2 P x l' (node_ind x) (go l')
        end) args)
  end.

End node_induction.

Section tuple_induction.
Context (P : Filter -> Prop).
Context (Hcmp : forall op col v, P (TCmp op col v)).
Context (Hand : forall xs, Forall P xs -> P (TAnd xs)).
Context (Hor : forall xs, Forall P xs -> P (TOr xs)).

Fixpoint tuple_ind (f : Filter) : P f :=
  let go := fix go l : Forall P l :=
    match l with
    | [] => Forall_nil_2 P
    | x :: l' => Forall_cons_2 P x l' (tuple_ind x) (go l')
    end in
  match f with
  | TCmp op col v => Hcmp op col v
  | TAnd xs => Hand xs (go xs)
  | TOr xs => Hor xs (go xs)
  end.

End tuple_induction.

(** Filters with an operator the reader knows and no empty connective: what
    [check_filter] accepts and [split_node] builds. *)
Inductive wf_tuple : Filter -> Prop :=
| wft_cmp op col v : is_compare_op op = true -> wf_tuple (TCmp op col v)
| wft_and x xs : Forall wf_tuple (x :: xs) -> wf_tuple (TAnd (x :: xs))
| wft_or x xs : Forall wf_tuple (x :: xs) -> wf_tuple (TOr (x :: xs)).

(** ** The term order *)

Lemma compare_field_antisym a b : compare_field b a = CompOpp (compare_field a b).
Proof. destruct a, b; cbn; [apply Z.compare_antisym|done..|apply String.compare_antisym]. Qed.

Lemma compare_fields_antisym a b : compare_fields b a = CompOpp (compare_fields a b).
Proof.
  revert b. induction a as [|x a IH]; intros [|y b]; cbn; try done.
  rewrite (compare_field_antisym x y). destruct (compare_field x y); cbn; auto.
Qed.

Lemma compare_floats_antisym x y : compare_floats y x = CompOpp (compare_floats x y).
Proof.
  unfold compare_floats. destruct (is_nan x) eqn:Ex.
  { by rewrite (SFcompare_nan_l x y), (SFcompare_nan_r y x). }
  destruct (is_nan y) eqn:Ey.
  { by rewrite (SFcompare_nan_r x y), (SFcompare_nan_l y x). }
  rewrite !SFcompare_key by done. by rewrite lex_cmp_antisym.
Qed.

Lemma term_compare_antisym a b : term_compare b a = CompOpp (term_compare a b).
Proof.
  destruct a, b; cbn [term_compare]; try apply Z.compare_antisym; try apply compare_fields_antisym; try done.
  - by rewrite CompOpp_involutive.
  - apply compare_floats_antisym.
  - apply String.compare_antisym.
Qed.

Lemma compare_flip op a b : compare (flip_op op) b a = compare op a b.
Proof. unfold compare. rewrite (term_compare_antisym a b). by destruct op, (term_compare a b). Qed.

(** ** Meanings *)

Definition embed_lit (v : Lit) : ScalarValue :=
  match v with
  | LInt i => SInt i
  | LFloat x => SFloat x
  | LBool b => SBool b
  | LBin s => SUtf8 s
  | LDate d => SDate32 (date_diff d (mkDate 1970 1 1))
  | LNaive n => STimestampMicros (naive_diff_micros n unix_epoch)
  | LDateTime dt => STimestampMicros (to_unix_micros dt)
  end.

(** The expression that the NIF decodes. *)
Fixpoint embed (n : Node) : Expr :=
  match n with
  | NField name => EField name
  | NScalar v => EScalar (embed_lit v)
  | NCall op args => ECall op (map embed args)
  end.

Section meaning.
Context `{Arrow}.
Context (pv : PartitionValues) (b : RecordBatch).

(** What the expression says of row [i] of a fragment with values [pv]. *)
Definition row_holds (n : Node) (i : nat) : option bool := row_bool b (embed (bind_node pv n)) i.

(** What a filter tuple says of it. *)
Fixpoint tuple_holds (f : Filter) (i : nat) : option bool :=
  match f with
  | TCmp op col v => row_holds (NCall op [NField col; NScalar v]) i
  | TAnd (x :: xs) => foldl and_cells (tuple_holds x i) (map (fun c => tuple_holds c i) xs)
  | TOr (x :: xs) => foldl or_cells (tuple_holds x i) (map (fun c => tuple_holds c i) xs)
  | TAnd [] | TOr [] => None
  end.

Definition holds (o : option bool) : Prop := o = Some true.

(** An absent filter or expression holds everywhere. *)
Definition pushed_holds (f : option Filter) (i : nat) : Prop :=
  match f with Some f => holds (tuple_holds f i) | None => True end.

Definition residual_holds (n : option Node) (i : nat) : Prop :=
  match n with Some n => holds (row_holds n i) | None => True end.

(** ** Connectives *)

Lemma row_and x y i : row_holds (NCall OpAnd [x; y]) i = and_cells (row_holds x i) (row_holds y i).
Proof. done. Qed.

Lemma row_or x y i : row_holds (NCall OpOr [x; y]) i = or_cells (row_holds x i) (row_holds y i).
Proof. done. Qed.

Lemma row_not x i : row_holds (NCall OpNot [x]) i = not_cell (row_holds x i).
Proof. done. Qed.

Lemma kernel_compare op : is_compare_op op = true <-> exists k, kernel op = Some k.
Proof. destruct op; cbn; naive_solver. Qed.

Lemma flip_compare op : is_compare_op (flip_op op) = is_compare_op op.
Proof. by destruct op. Qed.

Lemma cell_compare_flip x y : cell_compare y x = CompOpp <$> cell_compare x y.
Proof.
  destruct x, y; cbn; try done; f_equal; try apply Z.compare_antisym; try apply String.compare_antisym.
  rewrite !total_cmp_key. apply lex_cmp_antisym.
Qed.

Lemma cmp_cells_flip op k x y :
  kernel op = Some k -> exists k', kernel (flip_op op) = Some k' /\ cmp_cells k' y x = cmp_cells k x y.
Proof.
  intros Hk. assert (exists k', kernel (flip_op op) = Some k') as [k' Hk'].
  { apply kernel_compare. rewrite flip_compare. by apply kernel_compare; exists k. }
  exists k'. split; [done|]. destruct x as [x|], y as [y|]; cbn; try done.
  rewrite (cell_compare_flip x y). destruct (cell_compare x y) as [[]|]; cbn; [..|done];
    destruct op; cbn in Hk, Hk'; by simplify_eq.
Qed.

Lemma infer_swap s t : match infer_lit_compare_type s t with Ok dt => Some dt | _ => None end
  = match infer_lit_compare_type t s with Ok dt => Some dt | _ => None end.
Proof. by destruct s, t. Qed.

(** A comparison read from right to left. *)
Lemma row_bool_flip op x y i :
  is_compare_op op = true -> row_bool b (ECall (flip_op op) [y; x]) i = row_bool b (ECall op [x; y]) i.
Proof.
  intros [k Hk]%kernel_compare. destruct (cmp_cells_flip op k (operand_cell b x y i) (operand_cell b y x i) Hk) as (k' & Hk' & E).
  by rewrite (row_bool_cmp b (flip_op op) k' y x i Hk'), (row_bool_cmp b op k x y i Hk).
Qed.

(** ** The split *)

Lemma foldl_one (f : option bool -> option bool -> option bool) x y : foldl f x [y] = f x y.
Proof. done. Qed.

Lemma pushable_holds op x y f i :
  is_compare_op op = true -> pushable_compare op x y = Some f ->
  tuple_holds f i = row_holds (NCall op [x; y]) i /\ wf_tuple f.
Proof.
  intros Hop Hp. assert (forall v v', parquet_scalar v = Some v' -> v' = v) as Hv.
  { intros [] v'; cbn; try case_match; naive_solver. }
  destruct x as [c|v|], y as [c'|v'|]; try done; cbn in Hp;
    apply bind_Some in Hp as (w & ->%Hv & [= <-]); (split; [|constructor; by rewrite ?flip_compare]); [done|].
  cbn [tuple_holds]. unfold row_holds. cbn [bind_node embed map]. by apply row_bool_flip.
Qed.

(** The parts of a split: a pushed filter is well formed; with no residual it
    has the meaning of the expression; and a row satisfies the expression
    exactly if it satisfies both parts. *)
Definition split_ok (n : Node) (p : option Filter) (r : option Node) : Prop :=
  (forall f, p = Some f -> wf_tuple f) /\
  (r = None -> exists f, p = Some f /\ forall i, tuple_holds f i = row_holds n i) /\
  forall i, holds (row_holds n i) <-> pushed_holds p i /\ residual_holds r i.

Lemma all_residual n : split_ok n None (Some n).
Proof. split_and!; [done..|]. cbn. tauto. Qed.

Lemma split_and x y lp lr rp rr :
  split_ok x lp lr -> split_ok y rp rr ->
  split_ok (NCall OpAnd [x; y]) (join_parts (fun l r => TAnd [l; r]) lp rp)
    (join_parts (fun l r => NCall OpAnd [l; r]) lr rr).
Proof.
  intros (Wx & Sx & Hx) (Wy & Sy & Hy). split_and!.
  - intros f Hf. destruct lp as [lp|], rp as [rp|]; cbn in Hf; simplify_eq; auto. constructor. auto.
  - intros Hr. destruct lr, rr; try done. destruct (Sx eq_refl) as (f & -> & Hf), (Sy eq_refl) as (g & -> & Hg).
    eexists. split; [done|]. intros i. cbn. by rewrite Hf, Hg.
  - intros i. rewrite row_and. unfold holds in *. rewrite and_cells_true, Hx, Hy.
    destruct lp, rp, lr, rr; cbn; unfold holds; rewrite ?row_and, ?and_cells_true; tauto.
Qed.

Lemma split_or x y lp rp :
  split_ok x (Some lp) None -> split_ok y (Some rp) None ->
  split_ok (NCall OpOr [x; y]) (Some (TOr [lp; rp])) None.
Proof.
  intros (Wx & Sx & _) (Wy & Sy & _).
  destruct (Sx eq_refl) as (f & [= <-] & Hf), (Sy eq_refl) as (g & [= <-] & Hg).
  assert (forall i, tuple_holds (TOr [lp; rp]) i = row_holds (NCall OpOr [x; y]) i) as E.
  { intros i. cbn [tuple_holds map foldl]. by rewrite Hf, Hg, row_or. }
  split_and!.
  - intros f [= <-]. constructor. auto.
  - intros _. by eexists.
  - intros i. unfold pushed_holds. rewrite E. cbn. tauto.
Qed.

Lemma split_node_compare op x y :
  is_compare_op op = true ->
  split_node (NCall op [x; y]) = match pushable_compare op x y with
    | Some t => (Some t, None) | None => (None, Some (NCall op [x; y])) end.
Proof. by destruct op. Qed.

Lemma split_spec n p r : split_node n = (p, r) -> split_ok n p r.
Proof.
  revert p r. induction n as [c|v|op args IH] using node_ind; intros p r Hs; [injection Hs as <- <-; apply all_residual..|].
  assert ((None, Some (NCall op args)) = (p, r) -> split_ok (NCall op args) p r) as Hres.
  { intros [= <- <-]. apply all_residual. }
  destruct args as [|x [|y [|z args]]]; [destruct op; by apply Hres..| |destruct op; by apply Hres].
  pose proof (Forall_inv IH) as IHx. pose proof (Forall_inv (Forall_inv_tail IH)) as IHy. clear IH.
  destruct (split_node x) as [lp lr] eqn:Ex, (split_node y) as [rp rr] eqn:Ey.
  specialize (IHx _ _ Ex). specialize (IHy _ _ Ey). destruct (is_compare_op op) eqn:Hop.
  { rewrite split_node_compare in Hs by done. destruct (pushable_compare op x y) as [t|] eqn:Et; [|by apply Hres].
    injection Hs as <- <-. destruct (pushable_holds op x y t 0 Hop Et) as [_ Ht]. split_and!.
    - by intros f [= <-].
    - intros _. exists t. split; [done|]. intros i. by apply pushable_holds.
    - intros i. cbn. rewrite (proj1 (pushable_holds op x y t i Hop Et)). tauto. }
  destruct op; try done; cbn [split_node] in Hs; [rewrite Ex, Ey in Hs..|by apply Hres].
  - injection Hs as <- <-. by apply split_and.
  - destruct lp as [lp|], lr as [lr|]; try (by apply Hres); destruct rp as [rp|], rr as [rr|]; try (by apply Hres).
    injection Hs as <- <-. by apply split_or.
Qed.

End meaning.

(** ** Values that Erlang and the kernels order alike *)

(** Values of one kind; dates and times are not: a struct is compared by its
    fields.  The kernels tell the two zeros apart. *)
Definition same_order (a v : Lit) : bool :=
  match a, v with
  | LInt _, LInt _ | LBool _, LBool _ | LBin _, LBin _ => true
  | LFloat x, LFloat y => negb (is_nan x) && negb (is_nan y) && negb (is_zero x && is_zero y)
  | _, _ => false
  end.

Lemma same_order_sym a v : same_order a v = same_order v a.
Proof.
  destruct a as [|x| | | | |], v as [|y| | | | |]; try done. cbn.
  destruct (is_nan x), (is_nan y), (is_zero x), (is_zero y); done.
Qed.

Lemma compare_floats_total x y :
  is_nan x = false -> is_nan y = false -> is_zero x && is_zero y = false -> total_cmp x y = compare_floats x y.
Proof.
  intros Hx Hy Hz. unfold compare_floats. rewrite SFcompare_key by done.
  destruct (is_zero y) eqn:Ey; [|by apply total_cmp_num].
  rewrite andb_true_r in Hz. rewrite (lex_cmp_antisym (fkey y) (fkey x)), <-(total_cmp_num y x) by done.
  by rewrite !total_cmp_key, lex_cmp_antisym.
Qed.

Section pruning.
Context `{Arrow}.
Context (pv : PartitionValues) (b : RecordBatch) (keys : list string).

Notation row_holds := (row_holds pv b).
Notation tuple_holds := (tuple_holds pv b).
Notation pushed_holds := (pushed_holds pv b).

(** The comparison of two literals in the kernel. *)
Lemma literal_comparison op a v i :
  is_compare_op op = true -> same_order a v = true ->
  row_bool b (ECall op [EScalar (embed_lit a); EScalar (embed_lit v)]) i = Some (compare op a v).
Proof.
  intros [k Hk]%kernel_compare Hs. rewrite (row_bool_cmp b op k _ _ _ Hk).
  assert (forall c, cell_compare
      match a with LInt x => CInt x | LFloat x => CFloat x | LBool x => CBool x | LBin s => CBytes s | _ => CInt 0 end
      match v with LInt x => CInt x | LFloat x => CFloat x | LBool x => CBool x | LBin s => CBytes s | _ => CInt 0 end = Some c ->
      c = term_compare a v) as Hc.
  { intros c. destruct a as [|x| | | | |], v as [|y| | | | |]; try done; cbn [cell_compare term_compare]; intros [= <-]; [done| |done..].
    cbn in Hs. apply andb_true_iff in Hs as [[? ?]%andb_true_iff ?]. apply compare_floats_total; by apply negb_true_iff. }
  destruct a, v; try done; cbn [embed_lit operand_cell lit_type infer_lit_compare_type literal_cell make_scalar_array cells map
    option_map head mjoin option_join cmp_cells cell_compare] in *; unfold compare; rewrite <-(Hc _ eq_refl);
    destruct op; cbn in Hk; simplify_eq; cbn; by case_match.
Qed.

(** ** Soundness of pruning *)

(** Every comparison that partition values decide is between values of one order. *)
Fixpoint orders_alike (n : Node) : bool :=
  match n with
  | NCall op [x; y] =>
      if is_compare_op op then
        match eval pv x, eval pv y with TriValue a, TriValue v => same_order a v | _, _ => true end
      else orders_alike x && orders_alike y
  | NCall OpNot [x] => orders_alike x
  | _ => true
  end.

Lemma orders_alike_call op x y :
  orders_alike (NCall op [x; y]) =
  (if is_compare_op op then
     match eval pv x, eval pv y with TriValue a, TriValue v => same_order a v | _, _ => true end
   else orders_alike x && orders_alike y).
Proof. by destruct op. Qed.

Lemma eval_value n v : eval pv n = TriValue v -> bind_node pv n = NScalar v.
Proof.
  destruct n as [c|w|op [|x [|y [|z l]]]]; cbn; try by destruct op.
  - case_match; by intros [= ->].
  - by intros [= ->].
  - destruct op; try done. by destruct (eval pv x).
  - destruct op, (eval pv x), (eval pv y); cbn; try done; unfold tri_bool; by case_match.
Qed.

Lemma value_comparison op x y a v i :
  is_compare_op op = true -> eval pv x = TriValue a -> eval pv y = TriValue v -> same_order a v = true ->
  row_holds (NCall op [x; y]) i = Some (compare op a v).
Proof.
  intros Hop Hx%eval_value Hy%eval_value Hs. unfold ScanPlanFacts.row_holds. cbn [bind_node map].
  rewrite Hx, Hy. by apply literal_comparison.
Qed.

Lemma eval_compare op x y :
  is_compare_op op = true ->
  eval pv (NCall op [x; y]) =
  match eval pv x, eval pv y with TriValue a, TriValue v => tri_bool (compare op a v) | _, _ => TriUnknown end.
Proof. by destruct op. Qed.

(** A verdict on the partition values is never contradicted by a row. *)
Lemma eval_sound n i :
  orders_alike n = true ->
  (eval pv n = TriTrue -> row_holds n i <> Some false) /\ (eval pv n = TriFalse -> row_holds n i <> Some true).
Proof.
  induction n as [c|v|op args IH] using node_ind; intros Ho.
  { cbn. by case_match. } { done. }
  destruct args as [|x [|y [|z l]]]; [by destruct op| | |by destruct op].
  { destruct op; try done. apply Forall_inv in IH. destruct (IH Ho) as [Ht Hf].
    rewrite (row_not pv b x i). cbn. unfold not_cell. destruct (eval pv x), (ScanPlanFacts.row_holds pv b x i) as [[]|]; cbn; naive_solver. }
  pose proof (Forall_inv IH) as IHx. pose proof (Forall_inv (Forall_inv_tail IH)) as IHy. clear IH.
  destruct (is_compare_op op) eqn:Hop.
  { rewrite eval_compare by done. rewrite orders_alike_call, Hop in Ho.
    destruct (eval pv x) eqn:Ex; try done. destruct (eval pv y) eqn:Ey; try done. rewrite ?Ex, ?Ey in Ho.
    rewrite (value_comparison op x y v v0 i) by done. unfold tri_bool. case_match; naive_solver. }
  rewrite orders_alike_call, Hop in Ho. apply andb_true_iff in Ho as [Hox Hoy].
  destruct (IHx Hox) as [Tx Fx], (IHy Hoy) as [Ty Fy]. destruct op; try done; cbn [eval].
  - rewrite (row_and pv b x y i).
    destruct (eval pv x), (eval pv y), (ScanPlanFacts.row_holds pv b x i) as [[]|], (ScanPlanFacts.row_holds pv b y i) as [[]|];
      cbn; naive_solver.
  - rewrite (row_or pv b x y i).
    destruct (eval pv x), (eval pv y), (ScanPlanFacts.row_holds pv b x i) as [[]|], (ScanPlanFacts.row_holds pv b y i) as [[]|];
      cbn; naive_solver.
Qed.

End pruning.

(** ** Stripping partition keys *)

(** Connectives of optional truth values. *)
Lemma foldl_and_iff a l : foldl and_cells a l = Some true <-> a = Some true /\ Forall (.= Some true) l.
Proof.
  revert a. induction l as [|x l IH]; intros a; cbn; [by split; [intros ->|intros [? _]]|].
  rewrite IH, and_cells_true, Forall_cons. tauto.
Qed.

Lemma foldl_and_bools a l :
  foldl and_cells (Some a) (map Some l) = Some (foldl andb a l) /\ foldl or_cells (Some a) (map Some l) = Some (foldl orb a l).
Proof. revert a. induction l as [|x l IH]; intros a; [done|]. split; cbn; apply IH. Qed.

Section stripping.
Context `{Arrow}.
Context (pv : PartitionValues) (b : RecordBatch) (keys : list string).
Context (Hkeys : forall c, keys_member keys c = true <-> is_Some (pv !! c)).

Notation row_holds := (row_holds pv b).
Notation tuple_holds := (tuple_holds pv b).
Notation pushed_holds := (pushed_holds pv b).

(** The tuples' version of [orders_alike]. *)
Fixpoint tuple_orders_alike (f : Filter) : bool :=
  match f with
  | TCmp _ col v => match pv !! col with Some a => same_order a v | None => true end
  | TAnd kids | TOr kids => forallb tuple_orders_alike kids
  end.

(** The filters whose disjunctions are on partition keys only or on data
    columns only: the others are dropped by [strip_pushed]. *)
Fixpoint strippable (f : Filter) : bool :=
  match f with
  | TCmp _ _ _ => true
  | TAnd kids => forallb strippable kids
  | TOr kids => forallb (pushed_only_partitions keys) kids || negb (existsb (references_partition keys) kids)
  end.

Lemma reduce_and_spec eval_kid kids acc :
  (acc = TriTrue \/ acc = TriUnknown) ->
  (reduce_and eval_kid kids acc <> TriFalse -> Forall (fun k => eval_kid k <> TriFalse) kids) /\
  (forall bl : list bool, eval_kid <$> kids = tri_bool <$> bl -> acc = TriTrue -> reduce_and eval_kid kids acc = tri_bool (foldl andb true bl)).
Proof.
  revert acc. induction kids as [|k kids IH]; intros acc Ha; cbn.
  - split; [constructor|]. intros [|]; [|done]. by intros _ ->.
  - split.
    + intros Hr. destruct (eval_kid k) eqn:Ek; destruct Ha as [-> | ->]; try done;
        (constructor; [by rewrite Ek|]); eapply IH; try exact Hr; auto.
    + intros [|x bl] Hb ->; [done|]. cbn in Hb. injection Hb as Hk Hb. rewrite Hk. destruct x; cbn.
      * by apply IH; [left|..].
      * clear. by induction bl as [|[] bl IH].
Qed.

Lemma reduce_or_spec eval_kid kids acc :
  (forall bl : list bool, eval_kid <$> kids = tri_bool <$> bl -> acc = TriFalse -> reduce_or eval_kid kids acc = tri_bool (foldl orb false bl)).
Proof.
  revert acc. induction kids as [|k kids IH]; intros acc; cbn.
  - intros [|]; [|done]. by intros _ ->.
  - intros [|x bl] Hb ->; [done|]. cbn in Hb. injection Hb as Hk Hb. rewrite Hk. destruct x; cbn.
    + clear. by induction bl as [|[] bl IH].
    + by apply IH.
Qed.

Lemma tuple_holds_bools (P : Filter -> bool -> Prop) i x xs :
  (forall f y, P f y -> tuple_holds f i = Some y) -> Forall (fun f => exists y, P f y) (x :: xs) ->
  exists y ys, Forall2 P (x :: xs) (y :: ys) /\ tuple_holds (TAnd (x :: xs)) i = Some (foldl andb y ys) /\ tuple_holds (TOr (x :: xs)) i = Some (foldl orb y ys).
Proof.
  intros HP Hx. assert (exists l, Forall2 P (x :: xs) l) as [l Hl].
  { clear HP. induction Hx as [|f l [y Hy] _ [k Hk]]; [by exists []|]. exists (y :: k). by constructor. }
  inversion Hl as [|? y ? ys Hy Hys]; subst. exists y, ys. split; [done|].
  cbn. rewrite (HP _ _ Hy). assert (map (fun c => tuple_holds c i) xs = map Some ys) as ->; [|apply foldl_and_bools].
  clear -HP Hys. induction Hys as [|f z l k Hz _ IH]; [done|]. cbn. by rewrite (HP _ _ Hz), IH.
Qed.

(** Partition values decide a filter on partition keys, and the rows agree. *)
Lemma partitions_decide f i :
  wf_tuple f -> pushed_only_partitions keys f = true -> tuple_orders_alike f = true ->
  exists x, eval_legacy pv f = tri_bool x /\ tuple_holds f i = Some x.
Proof.
  assert (forall xs, Forall (fun f => wf_tuple f -> pushed_only_partitions keys f = true -> tuple_orders_alike f = true ->
      exists x, eval_legacy pv f = tri_bool x /\ tuple_holds f i = Some x) xs -> Forall wf_tuple xs ->
    forallb (pushed_only_partitions keys) xs = true -> forallb tuple_orders_alike xs = true ->
    Forall (fun f => exists x, eval_legacy pv f = tri_bool x /\ tuple_holds f i = Some x) xs) as Hkids.
  { intros xs IH Hw Hp%forallb_Forall Ho%forallb_Forall. rewrite Forall_forall in *. auto. }
  assert (forall l bl, Forall2 (fun f x => eval_legacy pv f = tri_bool x /\ tuple_holds f i = Some x) l bl ->
    eval_legacy pv <$> l = tri_bool <$> bl) as Hmap.
  { clear f. induction 1 as [|f x l bl [Hx _] _ IH]; [done|]. rewrite !fmap_cons. by rewrite Hx, IH. }
  induction f as [op col v|xs IH|xs IH] using tuple_ind; intros Hw Hp Ho.
  - inversion Hw as [? ? ? Hop| |]; subst. cbn [pushed_only_partitions tuple_orders_alike eval_legacy] in *.
    rewrite Hop in *. apply Hkeys in Hp as [a Ha]. rewrite Ha in *. exists (compare op a v). split; [done|].
    change (row_holds (NCall op [NField col; NScalar v]) i = Some (compare op a v)).
    apply value_comparison; try done. cbn. by rewrite Ha.
  - inversion Hw as [|x xs' Hxs|]; subst.
    destruct (tuple_holds_bools _ i x xs' (fun f y H => proj2 H) (Hkids _ IH Hxs Hp Ho)) as (y & ys & Hys & Hand & _).
    exists (foldl andb y ys). split; [|done]. cbn [eval_legacy].
    rewrite (proj2 (reduce_and_spec (eval_legacy pv) (x :: xs') TriTrue ltac:(by left)) (y :: ys)) by (auto; by apply Hmap).
    by destruct y.
  - inversion Hw as [| |x xs' Hxs]; subst.
    destruct (tuple_holds_bools _ i x xs' (fun f y H => proj2 H) (Hkids _ IH Hxs Hp Ho)) as (y & ys & Hys & _ & Hor).
    exists (foldl orb y ys). split; [|done]. cbn [eval_legacy].
    rewrite (reduce_or_spec (eval_legacy pv) (x :: xs') TriFalse (y :: ys)) by (auto; by apply Hmap).
    by destruct y.
Qed.


Lemma holds_and xs i : xs <> [] -> holds (tuple_holds (TAnd xs) i) <-> Forall (fun x => holds (tuple_holds x i)) xs.
Proof.
  destruct xs as [|x xs]; [done|]. intros _. unfold holds. cbn [ScanPlanFacts.tuple_holds].
  rewrite foldl_and_iff, Forall_cons. by rewrite Forall_map.
Qed.

(** What is rebuilt from the kept children of a conjunction. *)
Lemma rebuild_and l i : pushed_holds (rebuild TAnd l) i <-> Forall (fun x => holds (tuple_holds x i)) l.
Proof.
  destruct l as [|x [|y l]]; cbn [rebuild ScanPlanFacts.pushed_holds]; [by split|by rewrite Forall_singleton|].
  by apply holds_and.
Qed.

Lemma rebuild_wf (conn : list Filter -> Filter) l g :
  conn = TAnd \/ conn = TOr -> rebuild conn l = Some g ->
  Forall (fun x => wf_tuple x /\ references_partition keys x = false) l -> wf_tuple g /\ references_partition keys g = false.
Proof.
  intros Hc Hg Hl. assert (wf_tuple (conn l) /\ references_partition keys (conn l) = false \/ l = []) as Hcl.
  { destruct l as [|x l]; [by right|left]. split.
    - destruct Hc as [-> | ->]; constructor; (eapply Forall_impl; [exact Hl|]); naive_solver.
    - assert (existsb (references_partition keys) (x :: l) = false) as He; [|by destruct Hc as [-> | ->]].
      apply not_true_iff_false. intros (y & Hy & Hr)%existsb_exists. rewrite Forall_forall in Hl.
      destruct (Hl y) as [_ Hn]; [by apply list_elem_of_In|congruence]. }
  destruct l as [|x [|y l]]; cbn in Hg; [done|injection Hg as <-; by apply Forall_inv in Hl|].
  injection Hg as <-. by destruct Hcl.
Qed.

Lemma only_references f : wf_tuple f -> pushed_only_partitions keys f = true -> references_partition keys f = true.
Proof.
  assert (forall x xs, (wf_tuple x -> pushed_only_partitions keys x = true -> references_partition keys x = true) ->
    wf_tuple x -> forallb (pushed_only_partitions keys) (x :: xs) = true -> existsb (references_partition keys) (x :: xs) = true) as Hl.
  { intros x xs IH Hw [Hx _]%andb_true_iff. cbn. by rewrite IH. }
  induction f as [op col v|xs IH|xs IH] using tuple_ind; intros Hw; [done|..];
    inversion Hw as [|x xs' Hx|x xs' Hx]; subst; intros Hp; (apply Hl; [by apply Forall_inv in IH|by apply Forall_inv in Hx|done]).
Qed.

Lemma omap_none {A B} (f : A -> option B) l : Forall (fun x => f x = None) l -> omap f l = [].
Proof. induction 1 as [|x l Hx _ IH]; [done|]. cbn. by rewrite Hx. Qed.

Lemma strip_all f : wf_tuple f -> pushed_only_partitions keys f = true -> strip_pushed keys f = None.
Proof.
  induction f as [op col v|xs IH|xs IH] using tuple_ind; intros Hw Hp.
  - inversion Hw as [? ? ? Hop| |]; subst. cbn in *. rewrite Hop in *. by rewrite Hp.
  - inversion Hw as [|x xs' Hx|]; subst. cbn [strip_pushed pushed_only_partitions] in *. apply forallb_Forall in Hp.
    rewrite (omap_none _ (x :: xs')); [done|]. rewrite Forall_forall in *. auto.
  - pose proof (only_references (TOr xs) Hw Hp) as Hr. cbn [strip_pushed references_partition] in *. by rewrite Hr.
Qed.

(** A filter without partition keys keeps its meaning. *)
Lemma strip_free f :
  wf_tuple f -> references_partition keys f = false ->
  exists g, strip_pushed keys f = Some g /\ (forall i, tuple_holds g i = tuple_holds f i) /\
    wf_tuple g /\ references_partition keys g = false.
Proof.
  assert (forall conn xs, conn = TAnd \/ conn = TOr -> xs <> [] ->
    Forall (fun f => wf_tuple f -> references_partition keys f = false ->
      exists g, strip_pushed keys f = Some g /\ (forall i, tuple_holds g i = tuple_holds f i) /\
        wf_tuple g /\ references_partition keys g = false) xs ->
    Forall wf_tuple xs -> existsb (references_partition keys) xs = false ->
    exists g, rebuild conn (omap (strip_pushed keys) xs) = Some g /\ (forall i, tuple_holds g i = tuple_holds (conn xs) i) /\
      wf_tuple g /\ references_partition keys g = false) as Hl.
  { clear f. intros conn xs Hc Hne IH Hw Hr.
    assert (exists ys, omap (strip_pushed keys) xs = ys /\
      Forall2 (fun g f => (forall i, tuple_holds g i = tuple_holds f i) /\ wf_tuple g /\ references_partition keys g = false) ys xs)
      as (ys & -> & Hys).
    { clear Hne. induction IH as [|f l Hf _ IHl]; [by exists []|]. inversion Hw; subst.
      cbn in Hr. apply orb_false_iff in Hr as [Hr1 Hr2]. destruct Hf as (g & Hg & Hm); [done..|].
      destruct IHl as (ys & Hy1 & Hy2); [done..|]. exists (g :: ys). cbn. rewrite Hg, Hy1. split; [done|]. by constructor. }
    assert (forall i, tuple_holds (conn ys) i = tuple_holds (conn xs) i) as Hm.
    { intros i. assert (map (fun c => tuple_holds c i) ys = map (fun c => tuple_holds c i) xs) as Hmap.
      { clear -Hys. induction Hys as [|g f ys xs [Hg _] _ IH]; [done|]. cbn. by rewrite Hg, IH. }
      destruct Hys as [|g f ys xs [Hg _] _]; [done|]. cbn in Hmap. injection Hmap as _ Hmap.
      destruct Hc as [-> | ->]; cbn [ScanPlanFacts.tuple_holds]; by rewrite Hg, Hmap. }
    assert (exists g, rebuild conn ys = Some g /\ forall i, tuple_holds g i = tuple_holds (conn ys) i) as (g & Hg & Hgm).
    { destruct Hys as [|g f ys xs ? Hys]; [done|]. destruct ys as [|g' ys]; cbn; eexists; (split; [done|]); [|done].
      intros i. by destruct Hc as [-> | ->]. }
    exists g. split; [done|]. split; [intros i; by rewrite Hgm|]. eapply rebuild_wf; [done..|].
    clear -Hys. induction Hys as [|? ? ? ? (? & ? & ?) _ IH]; constructor; auto. }
  induction f as [op col v|xs IH|xs IH] using tuple_ind; intros Hw Hr; inversion Hw as [? ? ? Hop|x xs' Hx|x xs' Hx]; subst.
  - exists (TCmp op col v). cbn [strip_pushed references_partition] in *. rewrite Hop in *. by rewrite Hr.
  - by apply (Hl TAnd); auto.
  - cbn [strip_pushed references_partition] in *. rewrite Hr. by apply (Hl TOr); auto.
Qed.

(** In a fragment that partition values do not exclude, what is stripped holds
    for every row. *)
Lemma strip_exact f :
  wf_tuple f -> strippable f = true -> tuple_orders_alike f = true -> eval_legacy pv f <> TriFalse ->
  (forall i, holds (tuple_holds f i) <-> pushed_holds (strip_pushed keys f) i) /\
  (forall g, strip_pushed keys f = Some g -> wf_tuple g /\ references_partition keys g = false).
Proof.
  assert (forall f, wf_tuple f -> pushed_only_partitions keys f = true -> tuple_orders_alike f = true ->
    eval_legacy pv f <> TriFalse ->
    (forall i, holds (tuple_holds f i) <-> pushed_holds (strip_pushed keys f) i) /\
    (forall g, strip_pushed keys f = Some g -> wf_tuple g /\ references_partition keys g = false)) as Honly.
  { clear f. intros f Hw Hp Ho He. rewrite strip_all by done. split; [|done]. intros i.
    destruct (partitions_decide f i Hw Hp Ho) as ([] & Hx & Hh); [by cbn; rewrite Hh|by destruct He]. }
  assert (forall f, wf_tuple f -> references_partition keys f = false ->
    (forall i, holds (tuple_holds f i) <-> pushed_holds (strip_pushed keys f) i) /\
    (forall g, strip_pushed keys f = Some g -> wf_tuple g /\ references_partition keys g = false)) as Hfree.
  { clear f. intros f Hw Hr. destruct (strip_free f Hw Hr) as (g & -> & Hg & Hwg & Hrg). split; [intros i; cbn; by rewrite Hg|].
    by intros ? [= <-]. }
  induction f as [op col v|xs IH|xs IH] using tuple_ind; intros Hw Hs Ho He.
  - destruct (pushed_only_partitions keys (TCmp op col v)) eqn:Hp; [by apply Honly|by apply Hfree].
  - inversion Hw as [|x xs' Hx|]; subst. cbn [strippable tuple_orders_alike eval_legacy strip_pushed] in *.
    apply forallb_Forall in Hs, Ho. apply reduce_and_spec in He; [|by left].
    assert (Forall (fun f => (forall i, holds (tuple_holds f i) <-> pushed_holds (strip_pushed keys f) i) /\
      (forall g, strip_pushed keys f = Some g -> wf_tuple g /\ references_partition keys g = false)) (x :: xs')) as Hkids.
    { rewrite Forall_forall in *. auto. }
    split.
    + intros i. rewrite holds_and, rebuild_and by done. clear -Hkids.
      induction Hkids as [|f l [Hf _] _ IHl]; [done|]. rewrite Forall_cons, IHl, Hf. cbn [omap list_omap].
      destruct (strip_pushed keys f); cbn; [by rewrite Forall_cons|]. tauto.
    + intros g Hg. eapply rebuild_wf; [by left|exact Hg|]. clear -Hkids.
      induction Hkids as [|f l [_ Hf] _ IHl]; [constructor|]. cbn. case_match; [|done]. constructor; auto.
  - cbn [strippable] in Hs. apply orb_true_iff in Hs as [Hs|Hs%negb_true_iff]; [by apply Honly|by apply Hfree].
Qed.

End stripping.
