(* ===== verification/ScanPlanThms.v ===== *)
(** * Theorems about planning a scan

    The plan of an expression is exact on every fragment: a fragment that is
    skipped has no matching row, and in the others the rows that satisfy the
    expression are those that satisfy the Parquet filter and the residual.  The
    hypotheses name what the planner gets wrong; [mixed_tuple_dropped],
    [mixed_or_dropped], [bare_field_ignored] and [date_partition_pruned] say
    what happens without them. *)

From S2P Require Import Prelude Float Utf8 Term Arrow ArrowRef Elixir Compute ComputeEval Expression ParquetOpts ScanPlan ScanPlanFacts ComputeThms.

(** ** Conditions *)

(** An operand that partition values resolve. *)
Definition resolved (keys : list string) (n : Node) : bool :=
  match n with NField c => keys_member keys c | NScalar _ => true | NCall _ _ => false end.

(** Comparisons of partition keys and literals, under connectives. *)
Fixpoint decided (keys : list string) (n : Node) : bool :=
  match n with
  | NCall OpNot [x] => decided keys x
  | NCall OpNot _ => false
  | NCall op [x; y] =>
      if is_compare_op op then resolved keys x && resolved keys y else decided keys x && decided keys y
  | _ => false
  end.

(** The expressions that are planned faithfully: no bare partition field, and
    no disjunction over partition keys and data columns in a conjunction of
    which another part is pushed or residual. *)
Definition plannable (keys : list string) (n : Node) : bool :=
  if partition_only_node keys n then decided keys n
  else match split_node n with
       | (Some p, r) =>
           match strip_pushed keys p, r with
           | None, None => true
           | _, _ => strippable keys p
           end
       | (None, _) => true
       end.

Section plan.
Context `{Arrow}.
Context (pv : PartitionValues) (b : RecordBatch) (keys : list string).
Context (Hkeys : forall c, keys_member keys c = true <-> is_Some (pv !! c)).

Notation row_holds := (row_holds pv b).
Notation tuple_holds := (tuple_holds pv b).
Notation pushed_holds := (pushed_holds pv b).
Notation residual_holds := (residual_holds pv b).

Lemma decided_call op x y :
  decided keys (NCall op [x; y]) =
  (if is_compare_op op then resolved keys x && resolved keys y
   else match op with OpNot => false | _ => decided keys x && decided keys y end).
Proof. by destruct op. Qed.

(** Partition values decide such an expression, and the rows agree. *)
Lemma decided_spec n i :
  decided keys n = true -> orders_alike pv n = true -> exists x, eval pv n = tri_bool x /\ row_holds n i = Some x.
Proof.
  assert (forall m, resolved keys m = true -> exists v, eval pv m = TriValue v) as Hres.
  { intros [c|v|]; cbn; [|by eexists|done]. intros [v Hv]%Hkeys. rewrite Hv. by eexists. }
  induction n as [c|v|op args IH] using node_ind; intros Hd Ho; [done..|].
  destruct args as [|x [|y [|z l]]]; [by destruct op| | |by destruct op].
  - destruct op; try done. apply Forall_inv in IH. destruct (IH Hd Ho) as (x' & Hx & Hh).
    exists (negb x'). cbn [eval]. rewrite (row_not pv b x i), Hx, Hh. by destruct x'.
  - rewrite decided_call in Hd. rewrite orders_alike_call in Ho. destruct (is_compare_op op) eqn:Hop.
    + apply andb_true_iff in Hd as [[a Ha]%Hres [v Hv]%Hres]. rewrite Ha, Hv in Ho. exists (compare op a v).
      rewrite eval_compare, Ha, Hv by done. split; [done|]. by apply value_comparison.
    + pose proof (Forall_inv IH) as IHx. pose proof (Forall_inv (Forall_inv_tail IH)) as IHy.
      destruct op; try done; apply andb_true_iff in Hd as [Hdx Hdy], Ho as [Hox Hoy];
        destruct (IHx Hdx Hox) as (x' & Hx & Hhx), (IHy Hdy Hoy) as (y' & Hy & Hhy); cbn [eval]; rewrite Hx, Hy.
      * exists (x' && y'). rewrite (row_and pv b x y i), Hhx, Hhy. by destruct x', y'.
      * exists (x' || y'). rewrite (row_or pv b x y i), Hhx, Hhy. by destruct x', y'.
Qed.

(** ** Partition values and the pushed part *)

Definition boolean (t : Tri) : Prop := match t with TriValue _ => False | _ => True end.

Lemma reduce_and_pair f g :
  boolean (eval_legacy pv f) -> eval_legacy pv (TAnd [f; g]) = tri_and (eval_legacy pv f) (eval_legacy pv g).
Proof. cbn. by destruct (eval_legacy pv f), (eval_legacy pv g). Qed.

Lemma reduce_or_pair f g :
  boolean (eval_legacy pv f) -> eval_legacy pv (TOr [f; g]) = tri_or (eval_legacy pv f) (eval_legacy pv g).
Proof. cbn. by destruct (eval_legacy pv f), (eval_legacy pv g). Qed.

(** A comparison has one verdict, as an expression and as a tuple. *)
Lemma pushable_eval op x y f :
  is_compare_op op = true -> pushable_compare op x y = Some f ->
  eval_legacy pv f = eval pv (NCall op [x; y]) /\ boolean (eval_legacy pv f) /\
  tuple_orders_alike pv f = orders_alike pv (NCall op [x; y]).
Proof.
  intros Hop Hp. rewrite eval_compare, orders_alike_call, Hop by done.
  assert (forall v v', parquet_scalar v = Some v' -> v' = v) as Hv.
  { intros [] v'; cbn; try case_match; naive_solver. }
  destruct x as [c|v|], y as [c'|v'|]; try done; cbn in Hp; apply bind_Some in Hp as (w & ->%Hv & [= <-]);
    cbn [eval_legacy eval tuple_orders_alike]; rewrite ?flip_compare, Hop.
  - destruct (pv !! c); split_and!; try done. unfold tri_bool; by case_match.
  - destruct (pv !! c') as [a|]; split_and!; try done; [by rewrite compare_flip|unfold tri_bool; by case_match|apply same_order_sym].
Qed.

(** The pushed part of a split, seen from the partition values. *)
Record pushed_part (n : Node) (f : Filter) (r : option Node) : Prop := {
  pp_boolean : boolean (eval_legacy pv f);
  pp_verdict : eval pv n <> TriFalse -> eval_legacy pv f <> TriFalse;
  pp_whole : r = None -> eval_legacy pv f = eval pv n;
  pp_orders : orders_alike pv n = true -> tuple_orders_alike pv f = true;
  pp_keys : partition_only_node keys n = true -> pushed_only_partitions keys f = true
}.

Lemma pushed_compare op x y f :
  is_compare_op op = true -> pushable_compare op x y = Some f -> pushed_part (NCall op [x; y]) f None.
Proof.
  intros Hop Hp. destruct (pushable_eval op x y f Hop Hp) as (He & Hb & Ho).
  split; rewrite ?He, ?Ho; try done; [by rewrite <-He|]. intros Hk.
  assert (forallb (partition_only_node keys) [x; y] = true) as Hxy by (by destruct op).
  cbn in Hxy. rewrite andb_true_r in Hxy. apply andb_true_iff in Hxy as [Hx Hy].
  destruct x as [c|v|], y as [c'|v'|]; try done; cbn in Hp; apply bind_Some in Hp as (w & _ & [= <-]);
    cbn; by rewrite ?flip_compare, Hop.
Qed.

Lemma tri_and_false l r : tri_and l r <> TriFalse -> l <> TriFalse /\ r <> TriFalse.
Proof. by destruct l, r. Qed.

Lemma orders_connective op x y :
  is_compare_op op = false -> orders_alike pv (NCall op [x; y]) = true -> orders_alike pv x = true /\ orders_alike pv y = true.
Proof. intros Hop. rewrite orders_alike_call, Hop. apply andb_true_iff. Qed.

Lemma partition_connective op x y :
  op = OpAnd \/ op = OpOr -> partition_only_node keys (NCall op [x; y]) = true ->
  partition_only_node keys x = true /\ partition_only_node keys y = true.
Proof. intros [-> | ->]; cbn; rewrite andb_true_r; apply andb_true_iff. Qed.

Lemma pushed_and x y lp lr rp rr :
  pushed_part x lp lr -> pushed_part y rp rr ->
  pushed_part (NCall OpAnd [x; y]) (TAnd [lp; rp]) (join_parts (fun l r => NCall OpAnd [l; r]) lr rr).
Proof.
  intros [B1 V1 W1 O1 K1] [B2 V2 W2 O2 K2].
  pose proof (reduce_and_pair lp rp B1) as E. split; rewrite ?E; cbn [eval].
  - by destruct (eval_legacy pv lp), (eval_legacy pv rp).
  - intros [Hx%V1 Hy%V2]%tri_and_false. by destruct (eval_legacy pv lp), (eval_legacy pv rp).
  - intros Hr. destruct lr, rr; try done. by rewrite W1, W2.
  - intros [Hx%O1 Hy%O2]%orders_connective; [|done]. cbn. by rewrite Hx, Hy.
  - intros [Hx%K1 Hy%K2]%partition_connective; [|by left]. cbn. by rewrite Hx, Hy.
Qed.

(** Only one side is pushed; the other leaves a residual. *)
Lemma pushed_one x y f r r' :
  r' <> None -> pushed_part x f r ->
  pushed_part (NCall OpAnd [x; y]) f (join_parts (fun l r => NCall OpAnd [l; r]) r r') /\
  pushed_part (NCall OpAnd [y; x]) f (join_parts (fun l r => NCall OpAnd [l; r]) r' r).
Proof.
  intros Hr' [B1 V1 W1 O1 K1].
  split; (split; cbn [eval]; [done|intros [??]%tri_and_false; by apply V1|by destruct r, r'|
    intros [??]%orders_connective; [by apply O1|done]|intros [??]%partition_connective; [by apply K1|by left]]).
Qed.

Lemma pushed_or x y lp rp :
  pushed_part x lp None -> pushed_part y rp None -> pushed_part (NCall OpOr [x; y]) (TOr [lp; rp]) None.
Proof.
  intros [B1 V1 W1 O1 K1] [B2 V2 W2 O2 K2]. pose proof (reduce_or_pair lp rp B1) as E.
  assert (eval pv (NCall OpOr [x; y]) = tri_or (eval_legacy pv lp) (eval_legacy pv rp)) as E'.
  { cbn [eval]. by rewrite W1, W2. }
  split; rewrite ?E, ?E'; try done.
  - by destruct (eval_legacy pv lp), (eval_legacy pv rp).
  - intros [Hx%O1 Hy%O2]%orders_connective; [|done]. cbn. by rewrite Hx, Hy.
  - intros [Hx%K1 Hy%K2]%partition_connective; [|by right]. cbn. by rewrite Hx, Hy.
Qed.

Lemma split_pushed n f r : split_node n = (Some f, r) -> pushed_part n f r.
Proof.
  revert f r. induction n as [c|v|op args IH] using node_ind; intros f r Hs; [done..|].
  destruct args as [|x [|y [|z args]]]; [by destruct op..| |by destruct op].
  pose proof (Forall_inv IH) as IHx. pose proof (Forall_inv (Forall_inv_tail IH)) as IHy. clear IH.
  destruct (is_compare_op op) eqn:Hop.
  { rewrite split_node_compare in Hs by done. destruct (pushable_compare op x y) as [t|] eqn:Et; [|done].
    injection Hs as <- <-. by apply pushed_compare. }
  assert (forall m r, split_node m = (None, r) -> r <> None) as Hres.
  { intros m q Hm ->. destruct (split_spec pv b m None None Hm) as (_ & Hn & _). by destruct Hn as (? & ? & _). }
  destruct op; try done; cbn [split_node] in Hs;
    destruct (split_node x) as [lp lr] eqn:Ex, (split_node y) as [rp rr] eqn:Ey.
  - destruct lp as [lp|], rp as [rp|]; cbn in Hs; simplify_eq.
    + apply pushed_and; [by apply IHx|by apply IHy].
    + exact (proj1 (pushed_one x y f lr rr (Hres _ _ Ey) (IHx _ _ Ex))).
    + exact (proj2 (pushed_one y x f rr lr (Hres _ _ Ex) (IHy _ _ Ey))).
  - destruct lp as [lp|], lr as [lr|]; try done. destruct rp as [rp|], rr as [rr|]; try done. injection Hs as <- <-.
    apply pushed_or; [by apply IHx|by apply IHy].
Qed.

(** ** The plan *)

Lemma only_strippable f : pushed_only_partitions keys f = true -> strippable keys f = true.
Proof.
  induction f as [op col v|xs IH|xs IH] using tuple_ind; intros Hp; [done| |]; cbn in *; [|by rewrite Hp].
  apply forallb_Forall in Hp. apply forallb_Forall. rewrite Forall_forall in *. auto.
Qed.

(** What [compile_expr] makes of an expression, row by row. *)
Lemma compile_exact n p r :
  plannable keys n = true -> orders_alike pv n = true -> eval pv n <> TriFalse -> compile_expr n keys = (p, r) ->
  (forall i, holds (row_holds n i) <-> pushed_holds p i /\ residual_holds r i) /\
  (forall f, p = Some f -> wf_tuple f /\ references_partition keys f = false).
Proof.
  intros Hp Ho He. unfold compile_expr, to_parquet_filters. destruct (split_node n) as [p0 r0] eqn:Es.
  destruct (split_spec pv b n p0 r0 Es) as (Hw & Hwhole & Hsplit). unfold plannable in Hp. rewrite Es in Hp.
  assert (forall f, p0 = Some f -> strippable keys f = true ->
    (forall i, holds (tuple_holds f i) <-> pushed_holds (strip_pushed keys f) i) /\
    (forall g, strip_pushed keys f = Some g -> wf_tuple g /\ references_partition keys g = false)) as Hstrip.
  { intros f -> Hf. destruct (split_pushed n f r0 Es) as [_ Hv _ Hor _]. apply strip_exact; auto. }
  intros [= <- <-]. destruct (partition_only_node keys n) eqn:Hk.
  { destruct (decided_spec n 0 Hp Ho) as ([] & Hx & _); [|by destruct He].
    split; [|intros f [g [-> Hg]]%bind_Some; destruct (split_pushed n g r0 Es) as [_ _ _ _ Hok];
      by rewrite (strip_all keys g (Hw g eq_refl) (Hok Hk)) in Hg].
    intros i. destruct (decided_spec n i Hp Ho) as (y & Hy & Hh). assert (y = true) as -> by (destruct y; [done|by rewrite Hx in Hy]).
    rewrite Hh. split; [|done]. intros _. split; [|done]. destruct p0 as [f|]; [|done]. cbn.
    destruct (split_pushed n f r0 Es) as [_ _ _ _ Hok]. by rewrite strip_all by auto. }
  destruct p0 as [f|]; cbn [mbind option_bind] in *.
  2: { split; [|done]. intros i. rewrite Hsplit. destruct r0 as [m|]; [done|]. by destruct Hwhole as (? & ? & _). }
  destruct (strip_pushed keys f) as [g|] eqn:Eg.
  { destruct (Hstrip f eq_refl Hp) as [Hs Hg]. rewrite Eg in *. split; [|intros ? [= <-]; by apply Hg].
    intros i. rewrite Hsplit. cbn [ScanPlanFacts.pushed_holds] in *. rewrite Hs. by destruct r0. }
  split; [|done]. intros i. rewrite Hsplit. cbn [ScanPlanFacts.pushed_holds].
  destruct r0 as [m|].
  { destruct (Hstrip f eq_refl Hp) as [Hs _]. rewrite Hs, Eg. done. }
  destruct (pushed_only_partitions keys f) eqn:Eo.
  { destruct (Hstrip f eq_refl (only_strippable f Eo)) as [Hs _]. rewrite Hs, Eg. done. }
  destruct (Hwhole eq_refl) as (f' & [= <-] & Hf). cbn. rewrite Hf. tauto.
Qed.

End plan.

(** ** The plan over the fragments of a dataset *)

(** [select_fragments] keeps, in order, the fragments that may match. *)
Lemma select_fragments_spec {Fragment} (values : Fragment -> PartitionValues) l f :
  select_fragments values l f =
    match f with
    | None => (l, 0%nat)
    | Some f =>
        (List.filter (fun frag => may_match f (values frag)) l,
         length (List.filter (fun frag => negb (may_match f (values frag))) l))
    end.
Proof.
  destruct f as [f|]; [|done]. unfold select_fragments.
  assert (forall acc k, foldl (fun '(acc, pruned) frag =>
      if may_match f (values frag) then (frag :: acc, pruned) else (acc, S pruned)) (acc, k) l
    = (rev (List.filter (fun frag => may_match f (values frag)) l) ++ acc,
       k + length (List.filter (fun frag => negb (may_match f (values frag))) l))%nat) as ->.
  { induction l as [|x l IH]; intros acc k; cbn; [by rewrite Nat.add_0_r|].
    destruct (may_match f (values x)); rewrite IH; cbn; [by rewrite <-app_assoc|f_equal; lia]. }
  by rewrite app_nil_r, rev_involutive.
Qed.

Section fragments.
Context `{Arrow}.

(** C6: A plan loses no row and invents none, for an expression that the
    planner handles ([plannable]: no bare partition column where only partition
    columns occur, and no disjunction over partition and data columns in a
    conjunction of which another part is pushed or left over) and fragments with values
    for exactly the partition keys, each comparison of which that partition
    values decide relates two values of one order ([orders_alike]: two
    integers, two booleans, two strings, or two floats that are not NaN nor
    both zero; no dates, no timestamps, no mixed kinds).  Compiled against the
    partition keys, the
    fragments it selects are those, in order, that may match, and the others
    are counted as pruned; in a pruned fragment no row satisfies the
    expression; and in a selected one a row satisfies it exactly if it
    satisfies both the filter handed to the Parquet reader, which is well
    formed and names no partition key, and the residual expression.  The
    partition columns of the expression stand for the fragment's values. *)
Theorem scan_plan_exact {Fragment} (values : Fragment -> PartitionValues) keys fragments e pushed resid :
  plannable keys e = true -> compile (Some (SfExpr e)) keys = (pushed, resid) ->
  (forall frag, frag ∈ fragments ->
     (forall c, keys_member keys c = true <-> is_Some (values frag !! c)) /\ orders_alike (values frag) e = true) ->
  let '(kept, pruned) := select_fragments values fragments (Some (SfExpr e)) in
  kept = List.filter (fun frag => may_match (SfExpr e) (values frag)) fragments /\
  (length kept + pruned = length fragments)%nat /\
  (forall f, kept <> [] -> pushed = Some f -> wf_tuple f /\ references_partition keys f = false) /\
  forall frag b i, frag ∈ fragments ->
    if may_match (SfExpr e) (values frag)
    then row_holds (values frag) b e i = Some true <->
         pushed_holds (values frag) b pushed i /\ residual_holds (values frag) b resid i
    else row_holds (values frag) b e i <> Some true.
Proof.
  intros Hp Hc Hv. rewrite select_fragments_spec.
  assert (forall frag, may_match (SfExpr e) (values frag) = true -> eval (values frag) e <> TriFalse) as Hm.
  { intros frag. cbn. by destruct (eval _ e). }
  split; [done|]. split; [|split].
  - clear. induction fragments as [|x l IH]; [done|]. cbn [List.filter].
    destruct (may_match (SfExpr e) (values x)); cbn [negb length]; lia.
  - intros f Hk Hf. destruct (List.filter _ fragments) as [|frag l] eqn:E; [done|].
    assert (frag ∈ fragments /\ may_match (SfExpr e) (values frag) = true) as [Hin%Hv Hfrag%Hm].
    { rewrite list_elem_of_In, <-(filter_In (fun x => may_match (SfExpr e) (values x))), E. by left. }
    destruct Hin as [Hk' Ho]. by apply (compile_exact (values frag) (mkBatch (mkSchema []) [] 0) keys Hk' e pushed resid).
  - intros frag b i [Hk Ho]%Hv. destruct (may_match (SfExpr e) (values frag)) eqn:E.
    + by apply (compile_exact (values frag) b keys Hk e pushed resid Hp Ho (Hm _ E) Hc).
    + apply eval_sound; [done|]. cbn in E. by destruct (eval _ e).
Qed.

End fragments.

(** ** Fragments by year *)

(** [year >= 2026 and x > 0 and not (s == "a")]: pruned, pushed and residual. *)
Definition planned_filter : Node :=
  NCall OpAnd [NCall OpAnd [NCall OpGte [NField "year"; NScalar (LInt 2026)]; NCall OpGt [NField "x"; NScalar (LInt 0)]];
               NCall OpNot [NCall OpEq [NField "s"; NScalar (LBin "a")]]].

Definition year_of (y : Z) : PartitionValues := <["year" := LInt y]> ∅.

Lemma year_keys y c : keys_member ["year"] c = true <-> is_Some (year_of y !! c).
Proof.
  unfold year_of, keys_member. cbn [existsb]. rewrite orb_false_r, String.eqb_eq. split.
  - intros ->. by rewrite lookup_insert_eq.
  - intros [v [[-> _]|[_ Hv]]%lookup_insert_Some]; [done|]. by rewrite lookup_empty in Hv.
Qed.

Lemma scan_plan_exact_witness :
  select_fragments (fun v => v) [year_of 2025; year_of 2026] (Some (SfExpr planned_filter)) = ([year_of 2026], 1%nat) /\
  compile (Some (SfExpr planned_filter)) ["year"]
  = (Some (TCmp OpGt "x" (LInt 0)), Some (NCall OpNot [NCall OpEq [NField "s"; NScalar (LBin "a")]])) /\
  (forall i, row_holds (year_of 2025) sample_batch planned_filter i <> Some true) /\
  row_holds (year_of 2026) sample_batch planned_filter 3 = Some true.
Proof.
  assert (forall y, In y [2025; 2026] -> orders_alike (year_of y) planned_filter = true) as Ho.
  { intros y [<-|[<-|[]]]; by vm_compute. }
  pose proof (scan_plan_exact (fun v => v) ["year"] [year_of 2025; year_of 2026] planned_filter
    (Some (TCmp OpGt "x" (LInt 0))) (Some (NCall OpNot [NCall OpEq [NField "s"; NScalar (LBin "a")]]))
    eq_refl eq_refl) as H.
  assert (select_fragments (fun v => v) [year_of 2025; year_of 2026] (Some (SfExpr planned_filter)) = ([year_of 2026], 1%nat)) as E
    by (vm_compute; reflexivity).
  split; [exact E|]. split; [reflexivity|]. rewrite E in H. destruct H as (_ & _ & _ & H).
  { intros frag [-> | ->%list_elem_of_singleton]%elem_of_cons; (split; [apply year_keys|]); apply Ho; cbn; auto. }
  split.
  - intros i. specialize (H (year_of 2025) sample_batch i ltac:(by left)).
    assert (may_match (SfExpr planned_filter) (year_of 2025) = false) as Em by (vm_compute; reflexivity).
    rewrite Em in H. exact H.
  - specialize (H (year_of 2026) sample_batch 3%nat ltac:(by right; left)).
    assert (may_match (SfExpr planned_filter) (year_of 2026) = true) as Em by (vm_compute; reflexivity).
    rewrite Em in H. apply H. split; vm_compute; reflexivity.
Defined.

(** ** What the planner gets wrong *)

Section limits.
Context `{Arrow}.
Context (keys : list string).

(** A filter tuple that has a disjunction over a partition key and anything
    else is dropped as a whole, and a tuple never leaves a residual. *)
Lemma mixed_tuple_dropped kids :
  existsb (references_partition keys) kids = true -> compile (Some (SfTuple (TOr kids))) keys = (None, None).
Proof. intros Hk. cbn [compile strip_pushed]. by rewrite Hk. Qed.

(** In a conjunction with a comparison that is pushed, a disjunction of a
    partition comparison and a data comparison is gone: neither pushed nor left
    over.  So a row that satisfies the rest alone is delivered. *)
Lemma mixed_or_dropped op1 op2 op3 k c d v1 v2 v3 :
  is_compare_op op1 = true -> is_compare_op op2 = true -> is_compare_op op3 = true ->
  parquet_scalar v1 = Some v1 -> parquet_scalar v2 = Some v2 -> parquet_scalar v3 = Some v3 ->
  keys_member keys k = true -> keys_member keys c = false -> keys_member keys d = false ->
  compile (Some (SfExpr (NCall OpAnd [NCall OpOr [NCall op1 [NField k; NScalar v1]; NCall op2 [NField c; NScalar v2]];
                                      NCall op3 [NField d; NScalar v3]]))) keys
  = (Some (TCmp op3 d v3), None).
Proof.
  intros O1 O2 O3 P1 P2 P3 Hk Hc Hd.
  assert (forall op x v, is_compare_op op = true -> parquet_scalar v = Some v ->
    split_node (NCall op [NField x; NScalar v]) = (Some (TCmp op x v), None)) as Hs.
  { intros op x v Hop Hv. destruct op; try done; cbn; by rewrite Hv. }
  assert (forall x y p q, split_node x = (Some p, None) -> split_node y = (Some q, None) ->
    split_node (NCall OpAnd [x; y]) = (Some (TAnd [p; q]), None) /\ split_node (NCall OpOr [x; y]) = (Some (TOr [p; q]), None)) as Hj.
  { intros x y p q Hx Hy. cbn. by rewrite Hx, Hy. }
  unfold compile, compile_expr, to_parquet_filters.
  rewrite (proj1 (Hj _ _ _ _ (proj2 (Hj _ _ _ _ (Hs op1 k v1 O1 P1) (Hs op2 c v2 O2 P2))) (Hs op3 d v3 O3 P3))).
  assert (forall op x v, is_compare_op op = true -> partition_only_node keys (NCall op [NField x; NScalar v]) = keys_member keys x) as Hp.
  { intros op x v Hop. destruct op; try done; cbn; by rewrite andb_true_r. }
  assert (partition_only_node keys (NCall OpAnd [NCall OpOr [NCall op1 [NField k; NScalar v1]; NCall op2 [NField c; NScalar v2]];
    NCall op3 [NField d; NScalar v3]]) = false) as ->.
  { assert (forall l, partition_only_node keys (NCall OpAnd l) = forallb (partition_only_node keys) l) as -> by done.
    cbn [forallb]. rewrite (Hp op3), Hd by done. by rewrite andb_false_r. }
  cbn. rewrite O1, O3, Hk, Hd. done.
Qed.

(** A bare partition column neither prunes nor filters: whatever the fragment's
    value, the fragment is selected and nothing is left to filter it with. *)
Lemma bare_field_ignored c pv :
  keys_member keys c = true -> compile (Some (SfExpr (NField c))) keys = (None, None) /\ may_match (SfExpr (NField c)) pv = true.
Proof. intros Hc. unfold compile, compile_expr. cbn. rewrite Hc. split; [done|]. by destruct (pv !! c). Qed.

(** Dates are compared as terms, by the day of the month first: a fragment of a
    later date with an earlier day of the month is pruned by [c >= date],
    though every row of it satisfies that. *)
Lemma date_partition_pruned c d1 d2 pv b i :
  pv !! c = Some (LDate d1) -> d_day d1 < d_day d2 -> date_to_iso_days d2 <= date_to_iso_days d1 ->
  may_match (SfExpr (NCall OpGte [NField c; NScalar (LDate d2)])) pv = false /\
  row_holds pv b (NCall OpGte [NField c; NScalar (LDate d2)]) i = Some true.
Proof.
  intros Hc Hd Hle. split.
  - cbn. rewrite Hc. unfold compare. cbn. destruct (Z.compare_spec (d_day d1) (d_day d2)); [lia|done|lia].
  - unfold row_holds. cbn [bind_node map]. rewrite Hc. cbn. unfold date_diff.
    destruct (Z.compare_spec (date_to_iso_days d1 - date_to_iso_days (mkDate 1970 1 1)) (date_to_iso_days d2 - date_to_iso_days (mkDate 1970 1 1))); [done|lia|done].
Qed.
End limits.

(** One row that satisfies neither half of the disjunction, and New Year's Day
    after a filter from mid-December on. *)
Example plan_limits_seen :
  let both := NCall OpAnd [NCall OpOr [NCall OpEq [NField "year"; NScalar (LInt 2025)]; NCall OpGt [NField "x"; NScalar (LInt 4)]];
                           NCall OpLt [NField "x"; NScalar (LInt 9)]] in
  (pushed_holds (year_of 2026) sample_batch (fst (compile (Some (SfExpr both)) ["year"])) 0 /\
   row_holds (year_of 2026) sample_batch both 0 = Some false) /\
  may_match (SfExpr (NCall OpGte [NField "day"; NScalar (LDate (mkDate 2025 12 15))])) (<["day" := LDate (mkDate 2026 1 1)]> ∅) = false.
Proof.
  split; [by split; vm_compute|].
  by apply (date_partition_pruned "day" (mkDate 2026 1 1) (mkDate 2025 12 15) _ sample_batch 0).
Qed.
