(* ===== verification/ExpressionThms.v ===== *)
(** * Theorems about the expression language

    What the builder's checks are worth at the NIF: an expression that
    [ExArrow.Compute.Expression.validate] accepts, and whose operands the
    kernels can compare exactly, is encoded to a term that
    [compute_filter_expr] decodes to the same expression, evaluates without an
    error and filters with.  [validate_limits] lists what validation accepts
    and the NIF refuses. *)

From S2P Require Import Prelude Float Utf8 Term Arrow ArrowRef Elixir Compute ComputeFacts ComputeEval ComputeTyped ComputeThms Ipc Parquet ParquetRows Expression ScanPlan ScanPlanFacts.

(** ** Encoding *)

(** Strings are UTF-8, as [scalar/1] checks. *)
Definition lit_valid (v : Lit) : bool := match v with LBin s => string_valid s | _ => true end.

Fixpoint strings_valid (n : Node) : bool :=
  match n with
  | NField _ => true
  | NScalar v => lit_valid v
  | NCall _ args => forallb strings_valid args
  end.

Section encoding.
Context `{Rustler Term}.

Lemma encode_lit_embed v : lit_valid v = true -> encode_lit (Term := Term) v = Ok (encode_scalar (embed_lit v)).
Proof. destruct v; try done. cbn. by intros ->. Qed.

Lemma encode_node_embed n : strings_valid n = true -> encode_node (Term := Term) n = Ok (encode_expr (embed n)).
Proof.
  induction n as [c|v|op args IH] using node_ind; cbn [encode_node embed encode_expr strings_valid]; intros Hs.
  - done.
  - by rewrite encode_lit_embed.
  - assert (collect (encode_node (Term := Term)) args = Ok (map encode_expr (map embed args))) as ->; [|done].
    apply collect_Ok. rewrite map_map, Forall2_fmap_r. apply Forall_Forall2_diag.
    apply forallb_Forall in Hs. rewrite Forall_forall in *. auto.
Qed.

(** The builder's [scalar/1] makes valid strings only. *)
Lemma scalar_valid v n : scalar v = Ok n -> n = NScalar v /\ lit_valid v = true.
Proof. destruct v; cbn; try by intros [= <-]. destruct (string_valid s) eqn:Hs; [|done]. by intros [= <-]. Qed.

Lemma compute_filter_node_embed `{Arrow} b n :
  strings_valid n = true ->
  compute_filter_node (Term := Term) b n = compute_filter_expr b (encode_expr (Term := Term) (embed n)).
Proof. intros Hs. unfold compute_filter_node, encode_for_nif. by rewrite encode_node_embed. Qed.

End encoding.

(** ** Validated expressions *)

Section validated.
Context `{Arrow, !CmpLaws, !BoolLaws, !BatchLaws}.
Context (b : RecordBatch) (Hwf : wf_batch b).
Context (fields : gmap string string).
Context (Hfields : forall c t, fields !! c = Some t ->
  exists f, field_with_name (rb_schema b) c = Some f /\ t = data_type_to_atom (field_type f)).

(** A literal whose conversion to the column's type is exact: the types'
    names do not tell. *)
Definition literal_fits (v : Lit) (dt : DataType) : bool :=
  match v, dt with
  | LInt _, (TFloat64 | TFloat32 | TTimestamp _ _)
  | LFloat _, TFloat32
  | (LNaive _ | LDateTime _), TTimestamp _ _ =>
      match make_scalar_array (embed_lit v) dt with Ok _ => true | _ => false end
  | LDate d, (TDate32 | TDate64) => in_i32 (date_diff d (mkDate 1970 1 1))
  | _, _ => true
  end.

Definition column_type (c : string) : option DataType := field_type <$> field_with_name (rb_schema b) c.

(** Two columns have one type that the kernels compare; a literal fits its column. *)
Definition operands_fit (x y : Node) : bool :=
  match x, y with
  | NField c, NField d =>
      match column_type c, column_type d with Some s, Some t => type_eqb s t && comparable s | _, _ => false end
  | NField c, NScalar v | NScalar v, NField c =>
      match column_type c with Some t => literal_fits v t | None => false end
  | _, _ => true
  end.

(** Boolean operands are Boolean columns or booleans, and compared ones fit. *)
Fixpoint boolean_node (n : Node) : bool :=
  match n with
  | NField c => match column_by_name b c with Some (BooleanArray _) => true | _ => false end
  | NScalar (LBool _) => true
  | NScalar _ => false
  | NCall OpNot [x] => boolean_node x
  | NCall op [x; y] => if is_compare_op op then operands_fit x y else boolean_node x && boolean_node y
  | NCall _ _ => true
  end.

Lemma column_found c t :
  fields !! c = Some t ->
  exists a f, column_by_name b c = Some a /\ data_type a = field_type f /\ field_with_name (rb_schema b) c = Some f /\
    t = data_type_to_atom (field_type f).
Proof.
  intros (f & Hf & Ht)%Hfields. destruct (column_of_field b c f Hwf Hf) as (a & Ha & Hty & _). by exists a, f.
Qed.

Lemma in_i32_range d : in_i32 d = true -> s_range 32 d.
Proof. unfold in_i32, s_range. cbn. lia. Qed.

(** A literal of the column's type name that fits is converted. *)
Lemma literal_converts v dt :
  scalar_matches_type v (data_type_to_atom dt) = true -> literal_fits v dt = true ->
  is_ok (make_scalar_array (embed_lit v) dt).
Proof.
  intros Hm Hf. destruct v; destruct dt; try done; cbn [literal_fits] in Hf;
    try (by destruct (make_scalar_array _ _)); cbn in Hm, Hf |- *; unfold in_i32 in *;
    try (unfold try_from_s, try_from_u, in_s, in_u; cbn; case_match; [done|lia]).
  - by destruct (Z.ltb_spec v 0); [lia|].
  - set (days := date_diff _ _) in *. unfold checked_mul_i64.
    rewrite (proj2 (try_from_s_Some 64 _ (days * 86400000))); [done|]. unfold s_range. cbn. lia.
Qed.

Lemma literal_comparable v dt : scalar_matches_type v (data_type_to_atom dt) = true -> comparable dt = true.
Proof. by destruct v, dt. Qed.

Lemma operand_field c t other wt :
  column_type c = Some t -> operand_dt wt b (EField c) other = Some t.
Proof.
  unfold column_type. intros (f & Hf & ->)%fmap_Some. destruct (column_of_field b c f Hwf Hf) as (a & Ha & Hty & _).
  cbn. by rewrite Ha, <-Hty.
Qed.

Lemma fits_field_literal c v t wt :
  column_type c = Some t ->
  scalar_matches_type v (data_type_to_atom t) = true -> literal_fits v t = true ->
  operand_dt wt b (EField c) (EScalar (embed_lit v)) = Some t /\
  operand_dt wt b (EScalar (embed_lit v)) (EField c) = Some t /\ comparable t = true.
Proof.
  intros Hc Hm Hf. pose proof (literal_converts v t Hm Hf) as Ha.
  split; [by apply operand_field|]. split; [|by eapply literal_comparable].
  unfold column_type in Hc. apply fmap_Some in Hc as (f & Hc & ->).
  destruct (column_of_field b c f Hwf Hc) as (a & Hcol & Hty & _).
  cbn. rewrite Hcol. cbn. rewrite Hty. by destruct (make_scalar_array _ _).
Qed.

Lemma same_comparable_refl t : comparable t = true -> same_comparable (Some t) (Some t) = true.
Proof. intros Ht. cbn. rewrite Ht, andb_true_r. destruct t; try done; cbn; by rewrite ?(bool_decide_eq_true_2 _ eq_refl). Qed.

Lemma column_typed c t : fields !! c = Some t -> exists dt, column_type c = Some dt /\ t = data_type_to_atom dt.
Proof. intros (f & Hf & ->)%Hfields. exists (field_type f). unfold column_type. by rewrite Hf. Qed.

(** A comparison that is validated and whose operands fit is well typed. *)
Lemma validated_comparison op x y :
  is_compare_op op = true -> validate_node fields (NCall op [x; y]) = Ok () -> operands_fit x y = true ->
  well_typed b (embed (NCall op [x; y])) = true.
Proof.
  intros Hop Hv Hf. assert (exists lt rt, node_type fields x = Ok lt /\ node_type fields y = Ok rt /\
    compatible_compare lt rt = Ok ()) as (lt & rt & Hl & Hr & Hc).
  { destruct op; try done; apply bind_Ok in Hv as (lt & Hl & (rt & Hr & Hc)%bind_Ok); by exists lt, rt. }
  assert (well_typed b (embed (NCall op [x; y])) =
    same_comparable (operand_dt (well_typed b) b (embed x) (embed y)) (operand_dt (well_typed b) b (embed y) (embed x))) as ->.
  { by destruct op. }
  destruct x as [c|v|], y as [d|w|]; try done; cbn in Hl, Hr.
  - apply bind_Ok in Hl as (t1 & Ht1%ok_or_Ok & [= <-]), Hr as (t2 & Ht2%ok_or_Ok & [= <-]).
    cbn in Hf. destruct (column_type c) as [s1|] eqn:E1; [|done]. destruct (column_type d) as [s2|] eqn:E2; [|done].
    apply andb_true_iff in Hf as [->%type_eqb_eq Hk]. cbn [embed]. erewrite !operand_field by done.
    by apply same_comparable_refl.
  - apply bind_Ok in Hl as (t1 & Ht1%ok_or_Ok & [= <-]). injection Hr as <-. cbn in Hc. case_match; [|done].
    destruct (column_typed c t1 Ht1) as (dt & Hdt & ->). cbn in Hf. rewrite Hdt in Hf.
    destruct (fits_field_literal c w dt (well_typed b) Hdt) as (H1' & H2' & Hk); try done.
    cbn [embed]. rewrite H1', H2'. by apply same_comparable_refl.
  - apply bind_Ok in Hr as (t1 & Ht1%ok_or_Ok & [= <-]). injection Hl as <-. cbn in Hc. case_match; [|done].
    destruct (column_typed d t1 Ht1) as (dt & Hdt & ->). cbn in Hf. rewrite Hdt in Hf.
    destruct (fits_field_literal d v dt (well_typed b) Hdt) as (H1' & H2' & Hk); try done.
    cbn [embed]. rewrite H1', H2'. by apply same_comparable_refl.
  - injection Hl as <-. by injection Hr as <-.
Qed.

Lemma validated_well_typed n :
  validate_node fields n = Ok () -> boolean_node n = true -> well_typed b (embed n) = true.
Proof.
  induction n as [c|v|op args IH] using node_ind; intros Hv Hb; [done|by destruct v|].
  destruct args as [|x [|y [|z args]]]; [by destruct op| | |by destruct op].
  { destruct op; try done. apply Forall_inv in IH. by apply IH. }
  destruct (is_compare_op op) eqn:Hop.
  { apply validated_comparison; [done..|]. destruct op; try done; exact Hb. }
  pose proof (Forall_inv IH) as IHx. pose proof (Forall_inv (Forall_inv_tail IH)) as IHy.
  destruct op; try done; apply bind_Ok in Hv as ([] & Hx & Hy); apply andb_true_iff in Hb as [Hbx Hby];
    cbn [embed map well_typed]; by rewrite (IHx Hx Hbx), (IHy Hy Hby).
Qed.

End validated.

(** ** Filtering a batch with an expression *)

Lemma in_range_valid n : expr_in_range (embed n) -> strings_valid n = true.
Proof.
  induction n as [c|v|op args IH] using node_ind; cbn; [done|by destruct v|].
  intros Hr. apply forallb_Forall. induction IH as [|x l Hx _ IHl]; [constructor|]. cbn in Hr. destruct Hr. auto.
Qed.

Section filtering.
Context `{RustlerLaws Term}.
Context `{Arrow, !CmpLaws, !BoolLaws, !BatchLaws}.

(** C12: Validation, encoding and filtering together.  Let an expression pass
    [Expression.validate] against fields that describe a batch, let its boolean
    operands be Boolean columns or booleans, the columns it compares be of one
    type, its literals exact in the types of their columns and within the
    NIF's integers.  Then [Compute.filter] replies with a batch of the same
    schema that holds exactly the rows for which the row-by-row meaning of the
    expression is true: nothing of the expression is lost on the way, and the
    kernels have no error left to report. *)
Theorem validated_filter_selects b fields n :
  wf_batch b ->
  (forall c t, fields !! c = Some t ->
     exists f, field_with_name (rb_schema b) c = Some f /\ t = data_type_to_atom (field_type f)) ->
  validate n fields = Ok n -> boolean_node b n = true -> expr_in_range (embed n) ->
  exists b', compute_filter_node (Term := Term) b n = ROk b' /\ rb_schema b' = rb_schema b /\
    Forall2 (fun c' c => data_type c' = data_type c /\ cells c' = select (cells c) (row_mask b (embed n)))
      (rb_columns b') (rb_columns b).
Proof.
  intros Hwf Hf Hv Hb Hr. assert (validate_node fields n = Ok ()) as Hn.
  { unfold validate in Hv. by destruct (validate_node fields n) as [[]| |]. }
  pose proof (validated_well_typed b Hwf fields Hf n Hn Hb) as Ht.
  rewrite compute_filter_node_embed by (by apply in_range_valid).
  destruct (filter_expr_selects b (embed n) Hwf Ht Hr) as (b' & Hb' & _ & Hs). by exists b'.
Qed.

End filtering.

(** A batch with an Int32 column [a], an Int64 column [c] and a Boolean [ok]. *)
Definition typed_schema : Schema :=
  mkSchema [mkField "a" TInt32 true; mkField "c" TInt64 true; mkField "ok" TBoolean true].

Definition typed_batch : RecordBatch :=
  mkBatch typed_schema
    [IntArray TInt32 [Some 5; Some 1; None]; IntArray TInt64 [Some 5; Some 9; Some 2];
     BooleanArray [Some true; Some true; Some false]] 3.

Definition typed_fields : gmap string string :=
  <["a" := "int32"]> (<["c" := "int64"]> (<["ok" := "boolean"]> ∅)).

Lemma typed_fields_describe c t :
  typed_fields !! c = Some t ->
  exists f, field_with_name (rb_schema typed_batch) c = Some f /\ t = data_type_to_atom (field_type f).
Proof.
  unfold typed_fields. rewrite !lookup_insert_Some, lookup_empty.
  intros [[<- <-]|[_ [[<- <-]|[_ [[<- <-]|[_ [=]]]]]]]; eexists; split; reflexivity.
Qed.

(** [3 < a and ok]. *)
Definition typed_filter : Node := NCall OpAnd [NCall OpLt [NScalar (LInt 3); NField "a"]; NField "ok"].

Lemma validated_filter_selects_witness :
  validate typed_filter typed_fields = Ok typed_filter /\
  exists b', compute_filter_node (Term := beam) typed_batch typed_filter = ROk b' /\
    Forall2 (fun c' c => data_type c' = data_type c /\ cells c' = select (cells c) [Some true; Some false; None])
      (rb_columns b') (rb_columns typed_batch).
Proof.
  assert (validate typed_filter typed_fields = Ok typed_filter) as Hv by (vm_compute; reflexivity).
  split; [exact Hv|].
  assert (row_mask typed_batch (embed typed_filter) = [Some true; Some false; None]) as <- by (vm_compute; reflexivity).
  destruct (validated_filter_selects (Term := beam) typed_batch typed_fields typed_filter) as (b' & Hb & _ & Hc);
    [split_and!; repeat constructor|exact typed_fields_describe|exact Hv|reflexivity|by vm_compute|].
  exists b'. by split.
Defined.

(** What validation accepts and the NIF refuses.  Columns of different
    integer types are declared comparable, but the kernels compare arrays of
    one type only, so every such filter is an error; a non-boolean column
    passes as an operand of [and]; and an [int64] literal is not bounded, so
    one beyond 64 bits passes and cannot be decoded. *)
Theorem validate_limits :
  let filter n := compute_filter_node (Term := beam) typed_batch n in
  let columns := NCall OpEq [NField "a"; NField "c"] in
  let operand := NCall OpAnd [NField "ok"; NField "c"] in
  let large := NCall OpLt [NField "c"; NScalar (LInt (2 ^ 63))] in
  (validate columns typed_fields = Ok columns /\ exists e, filter columns = RErr e) /\
  (validate operand typed_fields = Ok operand /\ exists e, filter operand = RErr e) /\
  (validate large typed_fields = Ok large /\ exists e, filter large = RErr e).
Proof. cbv zeta. repeat split; try (vm_compute; reflexivity); eexists; vm_compute; reflexivity. Qed.
