(* ===== verification/ParquetOptsThms.v ===== *)
(** * Theorems about Parquet options from Elixir

    What [ExArrow.Parquet.Opts] accepts is decoded by the NIF to the options it
    stands for, and a filter tuple means for the reader's row filter what it
    means as an expression for the compute kernel. *)

From S2P Require Import Prelude Float Utf8 Term Arrow ArrowRef Stream Elixir Compute ComputeFacts ComputeEval Expression Parquet ParquetFacts ParquetRows ParquetThms ParquetOpts ScanPlan ScanPlanFacts.

(** ** The filter that the NIF decodes *)

Definition filter_value (v : Lit) : option FilterValue :=
  match v with
  | LInt i => Some (FInt i)
  | LFloat x => Some (FFloat x)
  | LBool b => Some (FBool b)
  | LBin s => Some (FUtf8 s)
  | LDate _ | LNaive _ | LDateTime _ => None
  end.

Definition comparison (op : Op) (col : string) (v : FilterValue) : option FilterExpr :=
  match op with
  | OpEq => Some (FEq col v) | OpNe => Some (FNe col v) | OpGt => Some (FGt col v)
  | OpGte => Some (FGte col v) | OpLt => Some (FLt col v) | OpLte => Some (FLte col v)
  | OpAnd | OpOr | OpNot => None
  end.

Fixpoint rust_filter (f : Filter) : option FilterExpr :=
  match f with
  | TCmp op col v => w ← filter_value v; comparison op col w
  | TAnd kids => FAnd <$> collect_opt rust_filter kids
  | TOr kids => FOr <$> collect_opt rust_filter kids
  end.

Definition rust_opts (o : ReadOptions) : option ReadOpts :=
  match op_filters o with
  | None => Some (mkReadOpts (op_columns o) (op_row_groups o) None)
  | Some f => e ← rust_filter f; Some (mkReadOpts (op_columns o) (op_row_groups o) (Some e))
  end.

Lemma comparison_spec op col v e :
  comparison op col v = Some e -> exists k, kernel op = Some k /\ comparison_parts e = Some (col, v, k).
Proof. destruct op; intros [= <-]; eexists; by split. Qed.

(** What the checks accept is well formed and can be encoded. *)
Lemma check_filter_spec f : check_filter f = Ok () -> wf_tuple f /\ exists e, rust_filter f = Some e /\ wf_filter e.
Proof.
  assert (forall xs (conn : list FilterExpr -> FilterExpr),
    (forall y ys, Forall wf_filter (y :: ys) -> wf_filter (conn (y :: ys))) -> xs <> [] ->
    Forall (fun f => check_filter f = Ok () -> wf_tuple f /\ exists e, rust_filter f = Some e /\ wf_filter e) xs ->
    (_ ← collect check_filter xs; Ok ()) = Ok () ->
    Forall wf_tuple xs /\ exists e, conn <$> collect_opt rust_filter xs = Some e /\ wf_filter e) as Hl.
  { intros xs conn Hc Hne IH (us & Hus%collect_Ok & _)%bind_Ok.
    assert (Forall (fun f => wf_tuple f /\ exists e, rust_filter f = Some e /\ wf_filter e) xs) as Hx.
    { clear -IH Hus. induction Hus as [|f [] l us Hf _ IHl]; [constructor|]. inversion IH; subst. constructor; auto. }
    split; [eapply Forall_impl; [exact Hx|]; by intros ? [? _]|].
    assert (exists es, collect_opt rust_filter xs = Some es /\ Forall wf_filter es /\ length es = length xs) as (es & -> & Hes & Hlen).
    { clear -Hx. induction Hx as [|f l (_ & e & He & Hw) _ (es & IH & Hes & Hlen)]; [by exists []|].
      exists (e :: es). cbn. rewrite He, IH. split_and!; [done|by constructor|cbn; lia]. }
    destruct es as [|e es]; [by destruct xs|]. exists (conn (e :: es)). split; [done|by apply Hc]. }
  induction f as [op col v|xs IH|xs IH] using tuple_ind.
  - cbn. destruct (is_compare_op op) eqn:Hop; [|done]. destruct v; try done; intros _;
      (split; [by constructor|]); destruct op; try done; eexists; (split; [reflexivity|by constructor]).
  - destruct xs as [|x xs]; [done|]. intros Hc. destruct (Hl (x :: xs) FAnd) as [Hw (e & He & Hwe)]; try done.
    { intros. by constructor. } split; [by constructor|]. exists e. by split.
  - destruct xs as [|x xs]; [done|]. intros Hc. destruct (Hl (x :: xs) FOr) as [Hw (e & He & Hwe)]; try done.
    { intros. by constructor. } split; [by constructor|]. exists e. by split.
Qed.

Section terms.
Context `{RustlerLaws Term}.

Lemma filter_term_encode f e :
  rust_filter f = Some e -> filter_term (Term := Term) f = Some (encode_filter e).
Proof.
  assert (forall xs es, Forall (fun f => forall e, rust_filter f = Some e -> filter_term (Term := Term) f = Some (encode_filter e)) xs ->
    collect_opt rust_filter xs = Some es -> collect_opt (filter_term (Term := Term)) xs = Some (map encode_filter es)) as Hl.
  { intros xs es IH Hes%collect_opt_Some. apply collect_opt_Some. revert IH.
    induction Hes as [|f' e' xs es He _ IHl]; intros IH; [constructor|]. inversion IH; subst. constructor; auto. }
  revert e. induction f as [op col v|xs IH|xs IH] using tuple_ind; intros e He.
  - apply bind_Some in He as (w & Hw & He). destruct v; try done; injection Hw as <-; destruct op; try done; by injection He as <-.
  - apply fmap_Some in He as (es & Hes & ->). cbn. by rewrite (Hl _ _ IH Hes).
  - apply fmap_Some in He as (es & Hes & ->). cbn. by rewrite (Hl _ _ IH Hes).
Qed.


(** Names and strings are UTF-8 and integers have 64 bits. *)
Definition options_in_range (o : ReadOptions) : Prop :=
  (forall l, op_columns o = Some l -> Forall (fun c => valid_str c = true) l) /\
  (forall l, op_row_groups o = Some l -> Forall (s_range 64) l) /\
  (forall f e, op_filters o = Some f -> rust_filter f = Some e -> filter_in_range e).

Context `{ParquetCrate}.

Lemma keyword_item_of key (v : Term) : keyword_item (mk_tuple [mk_atom key; v]) = Ok (key, v).
Proof. unfold keyword_item. rewrite get_mk_tuple. cbn [ok_or mbind res_bind]. by rewrite get_mk_atom. Qed.

Lemma decode_strings l :
  Forall (fun c => valid_str c = true) l -> decode_string_list (mk_list (map (mk_string (Term := Term)) l)) = Ok l.
Proof.
  intros Hl. unfold decode_string_list. rewrite get_mk_list. cbn [ok_or mbind res_bind]. rewrite collect_list_proper.
  apply collect_Ok. rewrite Forall2_fmap_l. apply Forall_Forall2_diag. eapply Forall_impl; [exact Hl|].
  intros c Hc. cbv beta. unfold compose. by rewrite get_mk_string.
Qed.

Lemma decode_indices l :
  Forall (s_range 64) l -> forallb (fun i => 0 <=? i) l = true ->
  decode_usize_list (mk_list (map (mk_int (Term := Term)) l)) = Ok l.
Proof.
  intros Hr Hl%forallb_Forall. unfold decode_usize_list. rewrite get_mk_list. cbn [ok_or mbind res_bind]. rewrite collect_list_proper.
  apply collect_Ok. rewrite Forall2_fmap_l. apply Forall_Forall2_diag. rewrite Forall_forall in *. intros i Hi.
  unfold compose. rewrite get_mk_int by auto. cbn. by destruct (Z.ltb_spec i 0), (Z.leb_spec 0 i); [lia|specialize (Hl i Hi); lia|..].
Qed.

Lemma validate_read_spec kw o :
  validate_read kw = Ok o ->
  op_columns o = kw_columns kw /\ op_row_groups o = kw_row_groups kw /\
  (forall l, op_row_groups o = Some l -> forallb (fun i => 0 <=? i) l = true) /\
  (forall f, op_filters o = Some f -> check_filter f = Ok ()).
Proof.
  unfold validate_read. intros (cs & Hc & (rg & Hr & (fs & Hf & [= <-])%bind_Ok)%bind_Ok)%bind_Ok. cbn. split_and!.
  - unfold validate_columns in Hc. by repeat case_match; simplify_eq.
  - unfold validate_row_groups in Hr. by repeat case_match; simplify_eq.
  - intros l ->. unfold validate_row_groups in Hr. by repeat case_match; simplify_eq.
  - intros f ->. unfold validate_filters in Hf. destruct (kw_filters kw) as [[e|g]|]; [| |done].
    + destruct (to_parquet_filters e) as [[p|] [r|]]; try done. by apply bind_Ok in Hf as ([] & Hp & [= ->]).
    + by apply bind_Ok in Hf as ([] & Hp & [= ->]).
Qed.

Lemma options_decoded kw o :
  validate_read kw = Ok o -> options_in_range o ->
  exists ro, rust_opts o = Some ro /\ decode_read_opts (read_options_term (Term := Term) o) = Ok ro.
Proof.
  intros Hv (Hc & Hr & Hf). apply validate_read_spec in Hv as (_ & _ & Hpos & Hok).
  unfold rust_opts, read_options_term, decode_read_opts, is_nil. rewrite get_atom_list, get_mk_list. cbn [ok_or mbind res_bind list_items list_end list_proper].
  assert (forall l ro items, items = option_item "columns" ((fun l => mk_list (map mk_string l)) <$> l) ->
    (forall c, l = Some c -> Forall (fun c => valid_str c = true) c) -> ro_columns ro = None ->
    read_items items ro = Ok (mkReadOpts l (ro_row_groups ro) (ro_filter ro))) as Hcols.
  { intros [l|] ro items -> Hl Hn; cbn; [|by destruct ro; cbn in *; subst].
    rewrite keyword_item_of. cbn. by rewrite decode_strings by auto. }
  assert (forall ro, ro_columns ro = None -> ro_row_groups ro = None ->
    read_items (option_item "row_groups" ((fun l => mk_list (map mk_int l)) <$> op_row_groups o)
      ++ option_item "columns" ((fun l => mk_list (map (mk_string (Term := Term)) l)) <$> op_columns o)) ro
    = Ok (mkReadOpts (op_columns o) (op_row_groups o) (ro_filter ro))) as Hrest.
  { intros ro Hn Hn'. destruct (op_row_groups o) as [rg|]; cbn [fmap option_fmap option_map option_item app].
    - cbn [read_items]. rewrite keyword_item_of. cbn. rewrite decode_indices by auto. cbn.
      by apply (Hcols _ (mkReadOpts (ro_columns ro) (Some rg) (ro_filter ro))).
    - rewrite <-Hn'. by apply (Hcols _ ro). }
  destruct (op_filters o) as [f|]; cbn [mbind option_bind option_item app].
  - destruct (check_filter_spec f (Hok f eq_refl)) as (_ & e & He & Hwe). rewrite He, (filter_term_encode f e He).
    eexists. split; [done|]. cbn [option_item app read_items]. rewrite keyword_item_of.
    cbn [mbind res_bind]. unfold set_read_opt at 1. cbn [String.eqb Ascii.eqb Bool.eqb].
    rewrite decode_filter_roundtrip by eauto. cbn [mbind res_bind]. by rewrite Hrest.
  - eexists. split; [done|]. by rewrite Hrest.
Qed.

End terms.

(** ** One meaning for the reader and for the kernel *)

(** The reader rounds an integer literal against a Float64 column; the kernel
    refuses one that is not exact. *)
Definition exact_literal (v : Lit) (dt : DataType) : bool :=
  match v, dt with LInt i, TFloat64 => int_of_float 128 (f64_of_int i) =? i | _, _ => true end.

Section agreement.
Context `{Arrow}.

Fixpoint exact_literals (s : Schema) (f : Filter) : bool :=
  match f with
  | TCmp _ col v => match field_with_name s col with Some fld => exact_literal v (field_type fld) | None => true end
  | TAnd kids | TOr kids => forallb (exact_literals s) kids
  end.

Lemma make_scalar_agree v w dt a :
  filter_value v = Some w -> exact_literal v dt = true -> make_scalar w dt = Ok a ->
  make_scalar_array (embed_lit v) dt = Ok a.
Proof.
  destruct v; intros [= <-]; destruct dt; cbn; try done.
  intros He. by rewrite He.
Qed.

Context `{!BatchLaws}.
Context (pv : PartitionValues) (b : RecordBatch) (Hwf : wf_batch b).

Lemma comparison_agrees op col v w e i :
  filter_value v = Some w -> comparison op col w = Some e -> pv !! col = None ->
  validate_filter_types (rb_schema b) e = Ok () -> exact_literals (rb_schema b) (TCmp op col v) = true ->
  tuple_holds pv b (TCmp op col v) i = filter_row b e i.
Proof.
  intros Hv He Hpv Ht Hx. destruct (comparison_spec _ _ _ _ He) as (k & Hk & Hp).
  rewrite (filter_row_cmp b e col w k i Hp). cbn [tuple_holds]. unfold row_holds. cbn [bind_node map embed]. rewrite Hpv.
  cbn [embed]. rewrite (row_bool_cmp b op k _ _ _ Hk). cbn [operand_cell lit_type operand_type field_cell].
  assert (exists fld a, field_with_name (rb_schema b) col = Some fld /\ make_scalar w (field_type fld) = Ok a) as (fld & a & Hf & Ha).
  { destruct op; try done; injection He as <-; cbn in Ht; apply bind_Ok in Ht as (fld & Hf%ok_or_Ok & (a & Ha & _)%bind_Ok); eauto. }
  cbn [exact_literals] in Hx. rewrite Hf in Hx. pose proof (make_scalar_agree v w _ a Hv Hx Ha) as Ha'.
  destruct (column_of_field b col fld Hwf Hf) as (arr & Harr & Hty & _).
  unfold field_cell. rewrite Harr. cbn [mbind option_bind fmap option_fmap option_map]. unfold value_cell, literal_cell.
  rewrite Hty, Ha, Ha'. destruct (cells arr !! i) as [x|]; [done|].
  cbn [mbind option_bind mjoin option_join]. by destruct (cells a).
Qed.

Lemma tuple_agrees f e i :
  rust_filter f = Some e -> (forall c, c ∈ filter_columns e -> pv !! c = None) ->
  validate_filter_types (rb_schema b) e = Ok () -> exact_literals (rb_schema b) f = true ->
  tuple_holds pv b f i = filter_row b e i.
Proof.
  assert (forall xs es, Forall (fun f => forall e, rust_filter f = Some e ->
      (forall c, c ∈ filter_columns e -> pv !! c = None) -> validate_filter_types (rb_schema b) e = Ok () ->
      exact_literals (rb_schema b) f = true -> tuple_holds pv b f i = filter_row b e i) xs ->
    collect_opt rust_filter xs = Some es -> (forall c, c ∈ concat (map filter_columns es) -> pv !! c = None) ->
    (_ ← collect (validate_filter_types (rb_schema b)) es; Ok ()) = Ok () -> forallb (exact_literals (rb_schema b)) xs = true ->
    map (fun f => tuple_holds pv b f i) xs = map (fun e => filter_row b e i) es) as Hl.
  { intros xs es IH Hes%collect_opt_Some Hpv (us & Hus%collect_Ok & _)%bind_Ok Hx%forallb_Forall. revert us IH Hpv Hus Hx.
    induction Hes as [|f' e' xs es He _ IHl]; intros us IH Hpv Hus Hx; [done|]. inversion IH as [|? ? IHf IHx]; subst.
    inversion Hx; subst. inversion Hus as [|? [] ? ? Ht Hts]; subst. cbn in *. f_equal.
    - apply IHf; try done. intros c Hc. apply Hpv, elem_of_app. by left.
    - eapply IHl; try done. intros c Hc. apply Hpv, elem_of_app. by right. }
  revert e. induction f as [op col v|xs IH|xs IH] using tuple_ind; intros e He Hpv Ht Hx.
  - apply bind_Some in He as (w & Hw & He). eapply comparison_agrees; try done. apply Hpv.
    destruct op; try done; injection He as <-; cbn; set_solver.
  - apply fmap_Some in He as (es & Hes & ->). specialize (Hl xs es IH Hes Hpv Ht Hx).
    destruct xs as [|x xs], es as [|y es]; try done. cbn in *. by injection Hl as -> ->.
  - apply fmap_Some in He as (es & Hes & ->). specialize (Hl xs es IH Hes Hpv Ht Hx).
    destruct xs as [|x xs], es as [|y es]; try done. cbn in *. by injection Hl as -> ->.
Qed.

End agreement.
