(* ===== verification/Paths.v ===== *)
(** * Paths

    Path strings as the dataset modules handle them: byte strings with [/]
    between the segments, whose backslashes and repeated slashes are removed
    before anything else; and what is used of the language's [String] and
    [Path] on them. *)

From Stdlib Require Import Ascii.
From S2P Require Import Prelude.

(** ** Strings *)

Definition starts_slash (s : string) : bool := match s with String c _ => Ascii.eqb c "/"%char | "" => false end.

(** [String.replace(path, "\\", "/")]. *)
Fixpoint replace_backslash (s : string) : string :=
  match s with
  | "" => ""
  | String c r => String (if Ascii.eqb c "\"%char then "/"%char else c) (replace_backslash r)
  end.

(** [String.replace(path, ~r/\/+/, "/")]. *)
Fixpoint collapse_slashes (s : string) : string :=
  match s with
  | "" => ""
  | String c r => if Ascii.eqb c "/"%char && starts_slash r then collapse_slashes r else String c (collapse_slashes r)
  end.

(** [String.trim_trailing(path, "/")]. *)
Fixpoint trim_trailing (s : string) : string :=
  match s with
  | "" => ""
  | String c r =>
      match trim_trailing r with
      | "" => if Ascii.eqb c "/"%char then "" else String c ""
      | r' => String c r'
      end
  end.

(** [String.starts_with?] and [String.replace_prefix(s, p, "")]. *)
Fixpoint drop_prefix (p s : string) : option string :=
  match p, s with
  | "", _ => Some s
  | String c p', String d s' => if Ascii.eqb c d then drop_prefix p' s' else None
  | _, _ => None
  end.

(** [String.split(s, "/")]. *)
Fixpoint split_slash (s : string) : list string :=
  match s with
  | "" => [""]
  | String c r =>
      if Ascii.eqb c "/"%char then "" :: split_slash r
      else match split_slash r with x :: l => String c x :: l | [] => [String c ""] end
  end.

(** [Path.basename]. *)
Definition basename (path : string) : string := List.last (split_slash path) "".

(** [Path.split]: the root of an absolute path is a segment. *)
Definition path_split (s : string) : list string :=
  (if starts_slash s then ["/"] else []) ++ List.filter (fun x => negb (String.eqb x "")) (split_slash s).

(** [Path.dirname]. *)
Definition dirname (s : string) : string :=
  match split_slash s with
  | [] | [_] => "."
  | l => match trim_trailing (String.concat "/" (removelast l)) with "" => "/" | d => d end
  end.

(** [Path.join(a, b)] of a relative segment [b]. *)
Definition path_join (a b : string) : string := if String.eqb a "/" then "/" +:+ b else a +:+ "/" +:+ b.

(** [String.ends_with?]. *)
Fixpoint ends_with (suffix s : string) : bool :=
  String.eqb suffix s || match s with String _ r => ends_with suffix r | "" => false end.

(** [String.contains?(s, ["*", "?"])] and the like. *)
Fixpoint contains_char (cs : list ascii) (s : string) : bool :=
  match s with "" => false | String c r => existsb (Ascii.eqb c) cs || contains_char cs r end.

(** Neither a slash nor a backslash. *)
Fixpoint flat (s : string) : bool :=
  match s with "" => true | String c r => negb (Ascii.eqb c "/"%char) && negb (Ascii.eqb c "\"%char) && flat r end.

(** A path that normalisation leaves alone. *)
Definition normalised (s : string) : Prop :=
  replace_backslash s = s /\ collapse_slashes s = s /\ trim_trailing s = s.

(** ** Facts *)

Lemma flat_app a b : flat (a +:+ b) = flat a && flat b.
Proof. induction a as [|c a IH]; [done|]. simpl. by rewrite IH, !andb_assoc. Qed.

Lemma flat_cons c r : flat (String c r) = true -> Ascii.eqb c "/"%char = false /\ Ascii.eqb c "\"%char = false /\ flat r = true.
Proof. simpl. intros [[?%negb_true_iff ?%negb_true_iff]%andb_true_iff ?]%andb_true_iff. done. Qed.

Lemma flat_normalised s : flat s = true -> normalised s /\ starts_slash s = false.
Proof.
  unfold normalised. induction s as [|c s IH]; [done|]. intros (Hs & Hb & Hf)%flat_cons. destruct (IH Hf) as [(H1 & H2 & H3) _].
  simpl. rewrite H1, H2, H3, Hs, Hb. simpl. by destruct s.
Qed.

Lemma replace_app a b : replace_backslash (a +:+ b) = replace_backslash a +:+ replace_backslash b.
Proof. induction a as [|c a IH]; [done|]. simpl. by rewrite IH. Qed.

Lemma trim_app a b : b <> "" -> trim_trailing b = b -> trim_trailing (a +:+ b) = a +:+ b.
Proof.
  intros Hn Hb. induction a as [|c a IH]; [done|]. change (trim_trailing (String c (a +:+ b)) = String c (a +:+ b)).
  simpl. rewrite IH. destruct (a +:+ b) eqn:E; [|done]. exfalso. by destruct a, b.
Qed.

Lemma collapse_step c r :
  collapse_slashes (String c r) = if Ascii.eqb c "/"%char && starts_slash r then collapse_slashes r else String c (collapse_slashes r).
Proof. done. Qed.

Lemma collapse_length s : (String.length (collapse_slashes s) <= String.length s)%nat.
Proof. induction s as [|c s IH]; [done|]. simpl. case_match; simpl; lia. Qed.

Lemma trim_empty d x : trim_trailing (String d x) = "" -> Ascii.eqb d "/"%char = true.
Proof. simpl. destruct (trim_trailing x); [|done]. by case_match. Qed.

Lemma collapse_any root rest :
  collapse_slashes rest = rest -> starts_slash rest = false ->
  collapse_slashes (root +:+ "/" +:+ rest) = trim_trailing (collapse_slashes root) +:+ "/" +:+ rest.
Proof.
  intros Hc Hs. induction root as [|c root IH].
  { change (collapse_slashes (String "/" rest) = String "/" rest). by rewrite collapse_step, Hs, Hc. }
  change (String c root +:+ "/" +:+ rest) with (String c (root +:+ "/" +:+ rest)). rewrite !collapse_step, IH.
  destruct root as [|d root].
  - change (starts_slash ("" +:+ "/" +:+ rest)) with true. simpl. rewrite andb_false_r, andb_true_r. simpl. by destruct (Ascii.eqb c "/"%char).
  - change (starts_slash (String d root +:+ "/" +:+ rest)) with (starts_slash (String d root)).
    destruct (Ascii.eqb c "/"%char && starts_slash (String d root)) eqn:E; [done|].
    cbn [trim_trailing]. destruct (trim_trailing (collapse_slashes (String d root))) as [|x t] eqn:Et; [|done].
    destruct (Ascii.eqb c "/"%char) eqn:Ec; [|done]. exfalso. cbn in E.
    rewrite collapse_step, E in Et. cbn [andb] in Et. apply trim_empty in Et. congruence.
Qed.

(** A normalised root and a normalised rest make a normalised path. *)
Lemma normalised_join root rest :
  normalised root -> normalised rest -> starts_slash rest = false -> rest <> "" -> normalised (root +:+ "/" +:+ rest).
Proof.
  intros (R1 & R2 & R3) (E1 & E2 & E3) Hs Hn. split_and!.
  - by rewrite !replace_app, R1, E1.
  - by rewrite collapse_any, R2, R3.
  - apply trim_app; [done|]. apply (trim_app "/"); done.
Qed.

Lemma drop_prefix_app a b : drop_prefix a (a +:+ b) = Some b.
Proof. induction a as [|c a IH]; [by destruct b|]. simpl. by rewrite Ascii.eqb_refl. Qed.

(** Segments under a directory. *)
Lemma split_flat s : flat s = true -> split_slash s = [s].
Proof. induction s as [|c s IH]; [done|]. intros (Hs & _ & Hf)%flat_cons. simpl. by rewrite Hs, IH. Qed.

Lemma split_flat_app s r : flat s = true -> split_slash (s +:+ "/" +:+ r) = s :: split_slash r.
Proof. induction s as [|c s IH]; [done|]. intros (Hs & _ & Hf)%flat_cons. simpl. by rewrite Hs, (IH Hf). Qed.

Lemma split_concat segs :
  segs <> [] -> Forall (fun s => flat s = true) segs -> split_slash (String.concat "/" segs) = segs.
Proof.
  intros Hn Hf. induction Hf as [|s l Hs Hl IH]; [done|]. destruct l as [|s' l]; [by apply split_flat|].
  change (split_slash (s +:+ "/" +:+ String.concat "/" (s' :: l)) = s :: s' :: l). rewrite split_flat_app by done. by rewrite IH.
Qed.

Lemma string_length_app a b : String.length (a +:+ b) = (String.length a + String.length b)%nat.
Proof. induction a as [|c a IH]; [done|]. cbn. by rewrite <- IH. Qed.

Lemma string_app_assoc a b c : a +:+ b +:+ c = (a +:+ b) +:+ c.
Proof. induction a as [|x a IH]; [done|]. change (String x (a +:+ b +:+ c) = String x ((a +:+ b) +:+ c)). by rewrite IH. Qed.

Lemma ends_with_app suffix a b : ends_with suffix b = true -> ends_with suffix (a +:+ b) = true.
Proof.
  intros Hb. induction a as [|c a IH]; [done|]. change (ends_with suffix (String c (a +:+ b)) = true).
  cbn [ends_with]. by rewrite IH, orb_true_r.
Qed.

(** Normalising twice is normalising once. *)
Lemma starts_collapse s : starts_slash (collapse_slashes s) = starts_slash s.
Proof.
  induction s as [|c s IH]; [done|]. rewrite collapse_step. destruct (Ascii.eqb c "/"%char && starts_slash s) eqn:E; [|done].
  apply andb_true_iff in E as [E1 E2]. rewrite IH, E2. by cbn.
Qed.

Lemma trim_step c r t : trim_trailing r = t -> trim_trailing (String c r) = match t with "" => if Ascii.eqb c "/"%char then "" else String c "" | _ => String c t end.
Proof. intros <-. cbn. by destruct (trim_trailing r). Qed.

Lemma replace_idem s : replace_backslash (replace_backslash s) = replace_backslash s.
Proof. induction s as [|c s IH]; [done|]. cbn. rewrite IH. by destruct (Ascii.eqb c "\"%char) eqn:E; [|rewrite E]. Qed.

Lemma replace_fixed c s : replace_backslash (String c s) = String c s -> Ascii.eqb c "\"%char = false /\ replace_backslash s = s.
Proof. cbn. intros [= Hc Hs]. split; [|done]. by destruct (Ascii.eqb_spec c "\"%char) as [->|]. Qed.

Lemma replace_collapse s : replace_backslash s = s -> replace_backslash (collapse_slashes s) = collapse_slashes s.
Proof.
  induction s as [|c s IH]; [done|]. intros [Hc Hs]%replace_fixed. rewrite collapse_step. case_match; [by apply IH|].
  cbn. by rewrite Hc, (IH Hs).
Qed.

Lemma replace_trim s : replace_backslash s = s -> replace_backslash (trim_trailing s) = trim_trailing s.
Proof.
  induction s as [|c s IH]; [done|]. intros [Hc Hs]%replace_fixed. specialize (IH Hs). cbn.
  destruct (trim_trailing s) as [|d t]; [destruct (Ascii.eqb c "/"%char); [done|]; cbn; by rewrite Hc|].
  change (replace_backslash (String c (String d t))) with
    (String (if Ascii.eqb c "\"%char then "/"%char else c) (replace_backslash (String d t))). by rewrite Hc, IH.
Qed.

Lemma collapse_idem s : collapse_slashes (collapse_slashes s) = collapse_slashes s.
Proof.
  induction s as [|c s IH]; [done|]. rewrite collapse_step. destruct (Ascii.eqb c "/"%char && starts_slash s) eqn:E; [done|].
  by rewrite collapse_step, starts_collapse, E, IH.
Qed.

Lemma starts_trim s : starts_slash (trim_trailing s) = true -> starts_slash s = true.
Proof. destruct s as [|c s]; [done|]. cbn [trim_trailing]. destruct (trim_trailing s); [|done]. by destruct (Ascii.eqb c "/"%char) eqn:E. Qed.

Lemma collapse_trim s : collapse_slashes (trim_trailing (collapse_slashes s)) = trim_trailing (collapse_slashes s).
Proof.
  induction s as [|c s IH]; [done|]. rewrite collapse_step. destruct (Ascii.eqb c "/"%char && starts_slash s) eqn:E; [done|].
  rewrite (trim_step c (collapse_slashes s) _ eq_refl). destruct (trim_trailing (collapse_slashes s)) as [|d t] eqn:Et.
  - destruct (Ascii.eqb c "/"%char); [done|]. by rewrite collapse_step, andb_false_r.
  - rewrite collapse_step, IH. destruct (Ascii.eqb c "/"%char && starts_slash (String d t)) eqn:E'; [|done].
    apply andb_true_iff in E' as [Ec Ed]. rewrite <- Et in Ed. apply starts_trim in Ed. rewrite starts_collapse in Ed. by rewrite Ec, Ed in E.
Qed.

Lemma trim_idem s : trim_trailing (trim_trailing s) = trim_trailing s.
Proof.
  induction s as [|c s IH]; [done|]. rewrite (trim_step c s _ eq_refl). destruct (trim_trailing s) as [|d t] eqn:Et.
  - destruct (Ascii.eqb c "/"%char) eqn:Ec; [done|]. cbn. by rewrite Ec.
  - by rewrite (trim_step c (String d t) _ IH).
Qed.

Lemma starts_append a b : starts_slash a = true -> starts_slash (a +:+ b) = true.
Proof. by destruct a. Qed.

(** A collapsed path that trims to nothing is empty or the root. *)
Lemma trim_to_nothing s : collapse_slashes s = s -> trim_trailing s = "" -> s = "" \/ s = "/".
Proof.
  destruct s as [|c s]; [by left|]. intros Hc Ht. right. pose proof (trim_empty c s Ht) as Hs. rewrite collapse_step, Hs in Hc.
  destruct s as [|d s]; [by apply Ascii.eqb_eq in Hs as ->|]. exfalso.
  destruct (trim_trailing (String d s)) as [|x t] eqn:E; [|by rewrite (trim_step c (String d s) _ E) in Ht].
  apply trim_empty in E. cbn [starts_slash] in Hc. rewrite E in Hc. cbn [andb] in Hc.
  apply (f_equal String.length) in Hc. pose proof (collapse_length (String d s)). cbn in *. lia.
Qed.
