(* ===== verification/Hive.v ===== *)
(** * Hive partitions (lib/ex_arrow/dataset/hive.ex)

    The values of a fragment's partition columns, read from the [key=value]
    directories of its path.  Paths and values are byte strings.  The functions
    of the language's library that it uses are modelled on the paths that
    reach them: normalised, with single slashes.  [Float.parse] on a whole
    string is a parameter. *)

From Stdlib Require Import Ascii.
From S2P Require Import Prelude Float Utf8 Term Elixir Paths.

(** ** Strings *)

Definition normalize (path : string) : string := trim_trailing (collapse_slashes (replace_backslash path)).

(** [String.split(s, "=", parts: 2)]: one part or two. *)
Fixpoint split_equals (s : string) : option (string * string) :=
  match s with
  | "" => None
  | String c r =>
      if Ascii.eqb c "="%char then Some ("", r)
      else '(k, v) ← split_equals r; Some (String c k, v)
  end.

(** [URI.decode]: an escape that is not one stays. *)
Definition hex_to_dec (c : ascii) : option N :=
  let n := N_of_ascii c in
  if ((48 <=? n) && (n <=? 57))%N then Some (n - 48)%N
  else if ((65 <=? n) && (n <=? 70))%N then Some (n - 55)%N
  else if ((97 <=? n) && (n <=? 102))%N then Some (n - 87)%N
  else None.

Fixpoint uri_decode (s : string) : string :=
  match s with
  | "" => ""
  | String c r =>
      match r with
      | String h (String l r') =>
          match hex_to_dec h, hex_to_dec l with
          | Some a, Some b => if Ascii.eqb c "%"%char then String (ascii_of_N (16 * a + b)) (uri_decode r') else String c (uri_decode r)
          | _, _ => String c (uri_decode r)
          end
      | _ => String c (uri_decode r)
      end
  end.

(** [String.downcase], as far as comparing with ASCII words goes. *)
Fixpoint downcase (s : string) : string :=
  match s with
  | "" => ""
  | String c r =>
      let n := N_of_ascii c in
      String (if ((65 <=? n) && (n <=? 90))%N then ascii_of_N (n + 32) else c) (downcase r)
  end.

(** [Integer.parse(s)] with nothing left over. *)
Definition digit (c : ascii) : option Z :=
  let n := N_of_ascii c in if ((48 <=? n) && (n <=? 57))%N then Some (Z.of_N n - 48) else None.

Fixpoint digits (acc : Z) (s : string) : option Z :=
  match s with
  | "" => Some acc
  | String c r => d ← digit c; digits (acc * 10 + d) r
  end.

Definition natural (s : string) : option Z := match s with "" => None | _ => digits 0 s end.

Definition integer_parse (s : string) : option Z :=
  match s with
  | String c r => if Ascii.eqb c "-"%char then Z.opp <$> natural r else if Ascii.eqb c "+"%char then natural r else natural s
  | "" => None
  end.

(** [Date.from_iso8601]: [YYYY-MM-DD], with or without a sign. *)
Definition days_in_month (y m : Z) : Z :=
  if m =? 2 then (if leap_year y then 29 else 28)
  else if existsb (Z.eqb m) [4; 6; 9; 11] then 30 else 31.

Definition parse_date (sign : Z) (s : string) : option Date :=
  match s with
  | String a (String b (String c (String d (String s1 (String e (String f (String s2 (String g (String h ""))))))))) =>
      if Ascii.eqb s1 "-"%char && Ascii.eqb s2 "-"%char then
        y ← digits 0 (String a (String b (String c (String d ""))));
        m ← digits 0 (String e (String f ""));
        day ← digits 0 (String g (String h ""));
        if (1 <=? m) && (m <=? 12) && (1 <=? day) && (day <=? days_in_month (sign * y) m)
        then Some (mkDate (sign * y) m day) else None
      else None
  | _ => None
  end.

Definition date_from_iso8601 (s : string) : option Date :=
  match s with
  | String c r => if Ascii.eqb c "-"%char then parse_date (-1) r else if Ascii.eqb c "+"%char then parse_date 1 r else parse_date 1 s
  | "" => None
  end.

(** ** The schema *)

Definition PartitionSchema := list (string * string).

Definition supported_type (t : string) : bool :=
  existsb (String.eqb t)
    ["int8"; "int16"; "int32"; "int64"; "uint8"; "uint16"; "uint32"; "uint64"; "float32"; "float64"; "utf8"; "boolean"; "date32"].

Fixpoint validate_schema (schema : PartitionSchema) : res string PartitionSchema :=
  match schema with
  | [] => Ok []
  | (name, t) :: rest =>
      if supported_type t then l ← validate_schema rest; Ok ((name, t) :: l)
      else Err ("unsupported partition type " +:+ t +:+ " for " +:+ name)
  end.

(** ** The path *)

Definition relative_path (file_path root : string) : res string string :=
  let file := normalize file_path in
  let root := normalize root in
  if String.eqb file root then Ok (basename file)
  else match drop_prefix (root +:+ "/") file with
       | Some rest => Ok rest
       | None => Err ("path " +:+ file_path +:+ " is not under dataset root " +:+ root)
       end.

(** [Path.split(Path.dirname(relative))] without ["."] and ["/"]. *)
Definition directories (relative : string) : list string :=
  List.filter (fun s => negb (String.eqb s "." || String.eqb s "/")) (removelast (split_slash relative)).

Fixpoint extract_segments (dirs : list string) (acc : list (string * string)) : res string (list (string * string)) :=
  match dirs with
  | [] => Ok acc
  | segment :: rest =>
      match split_equals segment with
      | None => extract_segments rest acc
      | Some ("", _) => Err ("unparseable hive partition segment: " +:+ segment)
      | Some (key, value) => extract_segments rest (acc ++ [(key, uri_decode value)])
      end
  end.

Definition extract_pairs (relative : string) : res string (list (string * string)) :=
  extract_segments (directories relative) [].

(** ** Values *)

Section coerce.
Context (float_parse : string -> option f64).

Definition in_range (i lo hi : Z) (name t : string) : res string Lit :=
  if (lo <=? i) && (i <=? hi) then Ok (LInt i) else Err ("partition " +:+ name +:+ " out of range for " +:+ t).

Definition coerce_int (i : Z) (t name : string) : res string Lit :=
  if String.eqb t "int8" then in_range i (-128) 127 name t
  else if String.eqb t "int16" then in_range i (-32768) 32767 name t
  else if String.eqb t "int32" then in_range i (-2147483648) 2147483647 name t
  else if String.eqb t "int64" then Ok (LInt i)
  else if String.eqb t "uint8" then in_range i 0 255 name t
  else if String.eqb t "uint16" then in_range i 0 65535 name t
  else if String.eqb t "uint32" then in_range i 0 4294967295 name t
  else if 0 <=? i then Ok (LInt i) else Err ("partition " +:+ name +:+ " out of range for uint64").

Definition coerce (raw t name : string) : res string Lit :=
  if String.eqb t "utf8" then
    if string_valid raw then Ok (LBin raw) else Err "invalid UTF-8 partition value"
  else if String.eqb t "boolean" then
    let w := downcase raw in
    if String.eqb w "true" || String.eqb w "1" then Ok (LBool true)
    else if String.eqb w "false" || String.eqb w "0" then Ok (LBool false)
    else Err ("cannot parse boolean partition " +:+ name)
  else if String.eqb t "date32" then
    match date_from_iso8601 raw with
    | Some d => Ok (LDate d)
    | None =>
        match integer_parse raw with
        | Some i => coerce_int i "int32" name
        | None => Err ("cannot parse date32 partition " +:+ name)
        end
    end
  else if String.eqb t "float32" || String.eqb t "float64" then
    x ← ok_or ("cannot parse float partition " +:+ name) (float_parse raw); Ok (LFloat x)
  else
    match integer_parse raw with
    | Some i => coerce_int i t name
    | None => Err ("cannot parse integer partition " +:+ name)
    end.

Fixpoint coerce_schema (by_key : gmap string string) (schema : PartitionSchema) (acc : gmap string Lit) : res string (gmap string Lit) :=
  match schema with
  | [] => Ok acc
  | (name, t) :: rest =>
      match by_key !! name with
      | None => Err ("missing hive partition key " +:+ name)
      | Some raw => v ← coerce raw t name; coerce_schema by_key rest (<[name := v]> acc)
      end
  end.

(** [Map.new(pairs)]: the last of several directories of a key counts. *)
Definition coerce_pairs (pairs : list (string * string)) (schema : PartitionSchema) : res string (gmap string Lit) :=
  let by_key : gmap string string := list_to_map (rev pairs) in
  values ← coerce_schema by_key schema ∅;
  if existsb (fun '(k, _) => negb (existsb (String.eqb k) (map fst schema))) pairs then Err "unexpected hive partition key(s)"
  else Ok values.

Definition parse_path (file_path root : string) (schema : PartitionSchema) : res string (gmap string Lit) :=
  schema ← validate_schema schema;
  relative ← relative_path file_path root;
  pairs ← extract_pairs relative;
  coerce_pairs pairs schema.

End coerce.

(** The examples of the test-suite. *)
Example parse_path_values :
  map_ok map_to_list (parse_path (fun _ => None) "/data/year=2026/month=01/name=hello%20world/part-0.parquet" "/data"
    [("year", "int32"); ("month", "int32"); ("name", "utf8")])
  = Ok (map_to_list (<["year" := LInt 2026]> (<["month" := LInt 1]> (<["name" := LBin "hello world"]> (∅ : gmap string Lit))))).
Proof. vm_compute. reflexivity. Qed.

Example parse_path_missing :
  parse_path (fun _ => None) "/data/month=1/f.parquet" "/data" [("year", "int32")] = Err "missing hive partition key year".
Proof. vm_compute. reflexivity. Qed.
