(* ===== verification/HiveThms.v ===== *)
(** * Theorems about Hive partitions

    The values of a path have the declared keys and types, which is what the
    scan planner relies on. *)

From Stdlib Require Import Ascii.
From S2P Require Import Prelude Float Utf8 Term Elixir Expression Hive ScanPlan.

(** ** Keys and types *)

Section typed.
Context (float_parse : string -> option f64).

Lemma in_range_spec i lo hi name t v : in_range i lo hi name t = Ok v -> v = LInt i /\ lo <= i <= hi.
Proof. unfold in_range. case_match; [|done]. intros [= <-]. split; [done|lia]. Qed.

Lemma coerce_typed raw t name v :
  supported_type t = true -> coerce float_parse raw t name = Ok v -> scalar_matches_type v t = true.
Proof.
  unfold supported_type. intros Ht%existsb_exists Hc. destruct Ht as (t' & Hin & <-%String.eqb_eq).
  assert (forall i n, coerce_int i t n = Ok v -> In t ["int8"; "int16"; "int32"; "int64"; "uint8"; "uint16"; "uint32"; "uint64"] ->
    scalar_matches_type v t = true) as Hint.
  { clear. intros i n Hc Hin. unfold coerce_int in Hc. cbn in Hin. decompose [or] Hin; subst; try done; cbn in Hc;
      first [apply in_range_spec in Hc as [-> ?]; cbn; unfold in_i32; lia
            |by injection Hc as <- |destruct (0 <=? i) eqn:E; [by injection Hc as <-|done]]. }
  cbn in Hin. decompose [or] Hin; subst; try done; cbn in Hc;
    try (destruct (integer_parse raw) as [i|]; [|done]; apply (Hint i name); [exact Hc|cbn; tauto]).
  - apply bind_Ok in Hc as (x & _ & [= <-]). done.
  - apply bind_Ok in Hc as (x & _ & [= <-]). done.
  - destruct (string_valid raw) eqn:E; [|done]. by injection Hc as <-.
  - destruct (String.eqb (downcase raw) "true" || _); [by injection Hc as <-|].
    destruct (String.eqb (downcase raw) "false" || _); [by injection Hc as <-|done].
  - destruct (date_from_iso8601 raw); [by injection Hc as <-|]. destruct (integer_parse raw) as [i|]; [|done].
    apply in_range_spec in Hc as [-> ?]. cbn. unfold in_i32. lia.
Qed.

Lemma coerce_schema_spec by_key schema acc values :
  coerce_schema float_parse by_key schema acc = Ok values ->
  (forall c, c ∉ map fst schema -> values !! c = acc !! c) /\
  forall c, c ∈ map fst schema -> exists t raw v, (c, t) ∈ schema /\ by_key !! c = Some raw /\
    coerce float_parse raw t c = Ok v /\ values !! c = Some v.
Proof.
  revert acc. induction schema as [|[name t] rest IH]; intros acc Hc; cbn in Hc.
  - injection Hc as <-. split; [done|]. intros c Hc%elem_of_nil. done.
  - destruct (by_key !! name) as [raw|] eqn:Ek; [|done]. apply bind_Ok in Hc as (v & Hv & Hc).
    destruct (IH _ Hc) as [Hout Hin]. split.
    + intros c Hn. cbn in Hn. rewrite not_elem_of_cons in Hn. destruct Hn as [Hne Hn].
      rewrite Hout by done. by apply lookup_insert_ne.
    + intros c Hm. cbn in Hm. destruct (decide (c ∈ map fst rest)) as [Hr|Hr].
      * destruct (Hin c Hr) as (t' & raw' & v' & ? & ?). exists t', raw', v'. split; [by right|done].
      * apply elem_of_cons in Hm as [->|?]; [|done]. exists t, raw, v. split; [by left|]. split_and!; [done..|].
        rewrite Hout by done. by rewrite lookup_insert_eq.
Qed.

Lemma validate_schema_spec schema schema' :
  validate_schema schema = Ok schema' -> schema' = schema /\ Forall (fun '(_, t) => supported_type t = true) schema.
Proof.
  revert schema'. induction schema as [|[name t] rest IH]; intros schema' Hv; cbn [validate_schema] in Hv; [injection Hv as <-; by split|].
  destruct (supported_type t) eqn:Et; [|done]. apply bind_Ok in Hv as (l & Hl & [= <-]).
  destruct (IH l Hl) as [-> ?]. split; [done|]. by constructor.
Qed.

Lemma keys_member_spec keys c : keys_member keys c = true <-> c ∈ keys.
Proof.
  unfold keys_member. rewrite existsb_exists, list_elem_of_In. split.
  - by intros (x & Hx & ->%String.eqb_eq).
  - intros Hc. exists c. by rewrite String.eqb_refl.
Qed.

(** The partition values of a path are what the planner takes them for.
    When [parse_path] accepts a path, the fragment has a value for every key of
    the partition schema and for no other, and each value is one that
    expressions accept against a column of the key's declared type: an integer
    in the type's range (from 64 bits on only its sign is checked), a float, a
    boolean, valid UTF-8, a date or a day number. *)
Theorem hive_values_typed file_path root schema values :
  parse_path float_parse file_path root schema = Ok values ->
  (forall c, keys_member (map fst schema) c = true <-> is_Some (values !! c)) /\
  forall c, c ∈ map fst schema -> exists t v, (c, t) ∈ schema /\ values !! c = Some v /\ scalar_matches_type v t = true.
Proof.
  intros Hp. apply bind_Ok in Hp as (schema' & [-> Hs]%validate_schema_spec & Hp).
  apply bind_Ok in Hp as (relative & _ & (pairs & _ & Hp)%bind_Ok). unfold coerce_pairs in Hp.
  apply bind_Ok in Hp as (values' & Hc & Hp). destruct (existsb _ pairs); [done|]. injection Hp as ->.
  destruct (coerce_schema_spec _ _ _ _ Hc) as [Hout Hin].
  assert (forall c, c ∈ map fst schema -> exists t v, (c, t) ∈ schema /\ values !! c = Some v /\ scalar_matches_type v t = true) as Ht.
  { intros c Hm. destruct (Hin c Hm) as (t & raw & v & Hct & _ & Hv & Hl). exists t, v. split_and!; [done..|].
    eapply coerce_typed; [|exact Hv]. rewrite Forall_forall in Hs. exact (Hs (c, t) Hct). }
  split; [|done]. intros c. rewrite keys_member_spec. split.
  - intros Hm. destruct (Ht c Hm) as (t & v & _ & Hv & _). by exists v.
  - intros [v Hv]. destruct (decide (c ∈ map fst schema)) as [|Hn]; [done|]. rewrite Hout in Hv by done. by rewrite lookup_empty in Hv.
Qed.

End typed.

Lemma hive_values_typed_witness :
  exists values, parse_path (fun _ => None) "/data/year=2026/name=a%2Fb/f.parquet" "/data" [("year", "int16"); ("name", "utf8")] = Ok values /\
    (forall c, keys_member ["year"; "name"] c = true <-> is_Some (values !! c)).
Proof.
  assert (exists values, parse_path (fun _ => None) "/data/year=2026/name=a%2Fb/f.parquet" "/data" [("year", "int16"); ("name", "utf8")]
    = Ok values) as [values Hv] by (eexists; vm_compute; reflexivity).
  exists values. split; [exact Hv|]. exact (proj1 (hive_values_typed (fun _ => None) _ _ _ values Hv)).
Defined.
