(* ===== verification/HiveRound.v ===== *)
(** * Hive paths read back

    A dataset laid out by the Hive convention names a directory per partition
    column, [key=value] with the value percent-encoded.  A fragment's path
    written in this way reads back as the values it was written from. *)

From Stdlib Require Import Ascii.
From stdpp Require Import pretty.
From S2P Require Import Prelude Float Utf8 Term Elixir Expression Paths Hive HiveThms.

(** ** The layout *)

Definition digit_char (n : Z) : ascii := ascii_of_N (48 + Z.to_N n).

Definition pad2 (n : Z) : string := String (digit_char (n / 10)) (String (digit_char (n mod 10)) "").

Definition date_text (d : Date) : string :=
  pad2 (d_year d / 100) +:+ pad2 (d_year d mod 100) +:+ "-" +:+ pad2 (d_month d) +:+ "-" +:+ pad2 (d_day d).

(** The text of a value; floats and times have none here. *)
Definition lit_text (v : Lit) : string :=
  match v with
  | LInt i => pretty i
  | LBool b => if b then "true" else "false"
  | LBin s => s
  | LDate d => date_text d
  | LFloat _ | LNaive _ | LDateTime _ => ""
  end.

(** The characters that need no escape: letters, digits and [-._~]. *)
Definition unreserved (c : ascii) : bool :=
  let n := N_of_ascii c in
  ((48 <=? n) && (n <=? 57) || (65 <=? n) && (n <=? 90) || (97 <=? n) && (n <=? 122) || existsb (N.eqb n) [45; 46; 95; 126])%N.

Definition hex_char (n : N) : ascii := ascii_of_N (if (n <? 10)%N then 48 + n else 55 + n).

Fixpoint uri_encode (s : string) : string :=
  match s with
  | "" => ""
  | String c r =>
      if unreserved c then String c (uri_encode r)
      else String "%" (String (hex_char (N_of_ascii c / 16)) (String (hex_char (N_of_ascii c mod 16)) (uri_encode r)))
  end.

Record Column := mkColumn { c_key : string; c_type : string; c_value : Lit }.

Definition segment (c : Column) : string := c_key c +:+ "=" +:+ uri_encode (lit_text (c_value c)).

(** The path of a file below the directories of its columns. *)
Definition relative_to_root (cols : list Column) (file : string) : string := String.concat "/" (map segment cols ++ [file]).

Definition hive_path (root : string) (cols : list Column) (file : string) : string :=
  root +:+ "/" +:+ relative_to_root cols file.

Fixpoint no_equals (s : string) : bool :=
  match s with "" => true | String c r => negb (Ascii.eqb c "="%char) && no_equals r end.

Definition valid_date (d : Date) : bool :=
  (0 <=? d_year d) && (d_year d <=? 9999) && (1 <=? d_month d) && (d_month d <=? 12)
  && (1 <=? d_day d) && (d_day d <=? days_in_month (d_year d) (d_month d)).

Definition int_type (t : string) : bool :=
  existsb (String.eqb t) ["int8"; "int16"; "int32"; "int64"; "uint8"; "uint16"; "uint32"; "uint64"].

(** A value of a column of type [t] that the layout can hold. *)
Definition storable (v : Lit) (t : string) : bool :=
  match v with
  | LInt i => int_type t && int_matches_type i t
  | LBool _ => String.eqb t "boolean"
  | LBin s => String.eqb t "utf8" && string_valid s
  | LDate d => String.eqb t "date32" && valid_date d
  | LFloat _ | LNaive _ | LDateTime _ => false
  end.

Definition column_ok (c : Column) : bool :=
  negb (String.eqb (c_key c) "") && flat (c_key c) && no_equals (c_key c) && storable (c_value c) (c_type c).

Definition texts (cols : list Column) : list (string * string) := map (fun c => (c_key c, lit_text (c_value c))) cols.

Definition column_values (cols : list Column) : list (string * Lit) := map (fun c => (c_key c, c_value c)) cols.

(** ** Normalisation *)

(** Any root will do. *)
Lemma normalize_under root rest :
  normalised rest -> starts_slash rest = false -> rest <> "" -> normalize (root +:+ "/" +:+ rest) = normalize root +:+ "/" +:+ rest.
Proof.
  intros (N1 & N2 & N3) Hs Hn. unfold normalize. rewrite !replace_app, N1.
  change (replace_backslash "/") with "/". rewrite collapse_any by done. apply trim_app; [done|]. by apply (trim_app "/").
Qed.

Lemma normalize_idem s : normalize (normalize s) = normalize s.
Proof.
  unfold normalize. rewrite replace_trim by apply replace_collapse, replace_idem. by rewrite collapse_trim, trim_idem.
Qed.

(** ** Segments *)

Lemma concat_normalised segs :
  segs <> [] -> Forall (fun s => flat s = true /\ s <> "") segs ->
  normalised (String.concat "/" segs) /\ starts_slash (String.concat "/" segs) = false /\ String.concat "/" segs <> "".
Proof.
  intros Hn Hf. induction Hf as [|s l [Hs Hne] Hl IH]; [done|]. destruct (flat_normalised s Hs) as [(N1 & N2 & N3) S1].
  destruct l as [|s' l]; [done|]. destruct (IH ltac:(done)) as (Hnorm & Hst & Hne').
  change (String.concat "/" (s :: s' :: l)) with (s +:+ "/" +:+ String.concat "/" (s' :: l)).
  set (rest := String.concat "/" (s' :: l)) in *. split; [|by destruct s].
  by apply normalised_join.
Qed.

Lemma no_equals_split k v : no_equals k = true -> split_equals (k +:+ "=" +:+ v) = Some (k, v).
Proof.
  induction k as [|c k IH]; [done|]. simpl. intros [Hc%negb_true_iff Hk]%andb_true_iff. rewrite Hc.
  change (split_equals (k +:+ String "=" v)) with (split_equals (k +:+ "=" +:+ v)). by rewrite (IH Hk).
Qed.

(** Escapes. *)
(** A decidable fact about small numbers is checked on each of them. *)
Lemma checked_below (P : N -> Prop) `{forall n, Decision (P n)} k n :
  forallb (fun n => bool_decide (P n)) (map N.of_nat (seq 0 k)) = true -> (n < N.of_nat k)%N -> P n.
Proof.
  intros Hf Hn. rewrite forallb_forall in Hf. apply (bool_decide_unpack _), Is_true_true, Hf, in_map_iff. exists (N.to_nat n).
  split; [apply N2Nat.id|apply in_seq; lia].
Qed.

Lemma hex_char_spec n : (n < 16)%N -> hex_to_dec (hex_char n) = Some n /\ flat (String (hex_char n) "") = true.
Proof. by apply (checked_below (fun n => hex_to_dec (hex_char n) = Some n /\ flat (String (hex_char n) "") = true) 16). Qed.

Lemma nibbles c : (N_of_ascii c / 16 < 16)%N /\ (N_of_ascii c mod 16 < 16)%N.
Proof. pose proof (N_ascii_bounded c). split; [apply N.Div0.div_lt_upper_bound|apply N.mod_lt]; lia. Qed.

Lemma uri_decode_plain c r : Ascii.eqb c "%"%char = false -> uri_decode (String c r) = String c (uri_decode r).
Proof. intros Hc. cbn [uri_decode]. rewrite Hc. by destruct r as [|h [|l r]]; repeat case_match. Qed.

Lemma uri_decode_encode s : uri_decode (uri_encode s) = s.
Proof.
  induction s as [|c s IH]; [done|]. cbn [uri_encode]. destruct (unreserved c) eqn:Ec.
  - rewrite uri_decode_plain, IH; [done|]. by destruct (Ascii.eqb_spec c "%"%char) as [->|].
  - cbn [uri_decode]. destruct (nibbles c) as [[-> _]%hex_char_spec [-> _]%hex_char_spec].
    change (Ascii.eqb "%" "%") with true. cbn match. rewrite IH, <- N.div_mod by done. by rewrite ascii_N_embedding.
Qed.

Lemma flat_encode s : flat (uri_encode s) = true.
Proof.
  induction s as [|c s IH]; [done|]. cbn [uri_encode]. destruct (unreserved c) eqn:Ec.
  - change (flat (String c "" +:+ uri_encode s) = true). rewrite flat_app, IH, andb_true_r. simpl.
    destruct (Ascii.eqb_spec c "/"%char) as [->|]; [done|]. by destruct (Ascii.eqb_spec c "\"%char) as [->|].
  - destruct (nibbles c) as [[_ Hh]%hex_char_spec [_ Hl]%hex_char_spec].
    change (flat (String "%" "" +:+ String (hex_char (N_of_ascii c / 16)) "" +:+ String (hex_char (N_of_ascii c mod 16)) "" +:+ uri_encode s) = true).
    by rewrite !flat_app, IH, Hh, Hl.
Qed.

(** ** The text of a value *)

Lemma digit_pretty n : 0 <= n < 10 -> digit (pretty_N_char (Z.to_N n)) = Some n.
Proof.
  intros Hn. rewrite <- (Z2N.id n) at 2 by lia.
  apply (checked_below (fun n => digit (pretty_N_char n) = Some (Z.of_N n)) 10); [done|lia].
Qed.

Lemma digit_char_spec n : 0 <= n < 10 -> digit (digit_char n) = Some n.
Proof.
  intros Hn. rewrite <- (Z2N.id n) at 2 by lia.
  apply (checked_below (fun n => digit (ascii_of_N (48 + n)) = Some (Z.of_N n)) 10); [done|lia].
Qed.

Lemma digits_step acc c r d : digit c = Some d -> digits acc (String c r) = digits (acc * 10 + d) r.
Proof. intros Hd. cbn [digits]. by rewrite Hd. Qed.

Lemma last_digit x : 0 <= Z.of_N (x mod 10) < 10 /\ Z.of_N x = Z.of_N (x / 10) * 10 + Z.of_N (x mod 10).
Proof. rewrite N2Z.inj_mod, N2Z.inj_div. pose proof (Z.mod_pos_bound (Z.of_N x) 10). pose proof (Z.div_mod (Z.of_N x) 10). lia. Qed.

Lemma digits_pretty x s : (0 < x)%N -> digits 0 (pretty_N_go x s) = digits (Z.of_N x) s.
Proof.
  revert s. induction (N.lt_wf_0 x) as [x _ IH]. intros s Hx. rewrite pretty_N_go_step by done.
  assert (digit (pretty_N_char (x mod 10)) = Some (Z.of_N (x mod 10))) as Hd.
  { rewrite <- (N2Z.id (x mod 10)) at 1. apply digit_pretty. exact (proj1 (last_digit x)). }
  destruct (decide (x / 10 = 0)%N) as [E|E].
  - rewrite E, pretty_N_go_0, (digits_step _ _ _ _ Hd). f_equal. destruct (last_digit x) as [_ Hx']. lia.
  - rewrite IH; [|by apply N.div_lt|by apply N.neq_0_lt_0]. rewrite (digits_step _ _ _ _ Hd). f_equal. destruct (last_digit x) as [_ Hx']. lia.
Qed.

(** The text of a positive number starts with a digit. *)
Lemma pretty_first x s : (0 < x)%N -> exists c r, pretty_N_go x s = String c r /\ is_Some (digit c).
Proof.
  revert s. induction (N.lt_wf_0 x) as [x _ IH]. intros s Hx. rewrite pretty_N_go_step by done.
  destruct (decide (x / 10 = 0)%N) as [E|E]; [|apply IH; [by apply N.div_lt|by apply N.neq_0_lt_0]].
  rewrite E, pretty_N_go_0. eexists _, _. split; [done|].
  rewrite <- (N2Z.id (x mod 10)). rewrite digit_pretty; [done|]. exact (proj1 (last_digit x)).
Qed.

Lemma natural_pretty p : natural (pretty (Npos p)) = Some (Zpos p) /\ exists c r, pretty (Npos p) = String c r /\ is_Some (digit c).
Proof.
  change (pretty (Npos p)) with (pretty_N_go (Npos p) ""). destruct (pretty_first (Npos p) "") as (c & r & E & Hc); [lia|].
  split; [|by exists c, r]. pose proof (digits_pretty (Npos p) "" ltac:(lia)) as Hd. rewrite E in Hd |- *. exact Hd.
Qed.

Lemma digit_not_sign c : is_Some (digit c) -> Ascii.eqb c "-"%char = false /\ Ascii.eqb c "+"%char = false.
Proof.
  intros [d Hd]. split.
  - by destruct (Ascii.eqb_spec c "-"%char) as [->|].
  - by destruct (Ascii.eqb_spec c "+"%char) as [->|].
Qed.

Lemma integer_parse_pretty i : integer_parse (pretty i) = Some i.
Proof.
  destruct i as [|p|p]; [done| |].
  - change (pretty (Zpos p)) with (pretty (Npos p)). destruct (natural_pretty p) as (Hn & c & r & E & [H1 H2]%digit_not_sign).
    rewrite E in Hn |- *. cbn [integer_parse]. by rewrite H1, H2.
  - change (Z.opp <$> natural (pretty (Npos p)) = Some (Zneg p)). by rewrite (proj1 (natural_pretty p)).
Qed.

Lemma digits_pad2 acc n r :
  0 <= n < 100 -> digits acc (String (digit_char (n / 10)) (String (digit_char (n mod 10)) r)) = digits (acc * 100 + n) r.
Proof.
  intros Hn. pose proof (Z.div_mod n 10). pose proof (Z.mod_pos_bound n 10).
  rewrite (digits_step _ _ _ (n / 10)), (digits_step _ _ _ (n mod 10)) by (apply digit_char_spec; lia). f_equal. lia.
Qed.

Lemma days_in_month_bound y m : days_in_month y m <= 31.
Proof. unfold days_in_month. repeat case_match; lia. Qed.

Lemma date_text_chars y m d :
  date_text (mkDate y m d) =
    String (digit_char (y / 100 / 10)) (String (digit_char ((y / 100) mod 10)) (String (digit_char (y mod 100 / 10))
      (String (digit_char ((y mod 100) mod 10)) (String "-" (String (digit_char (m / 10)) (String (digit_char (m mod 10))
        (String "-" (String (digit_char (d / 10)) (String (digit_char (d mod 10)) ""))))))))).
Proof. done. Qed.

Lemma date_text_parse d : valid_date d = true -> date_from_iso8601 (date_text d) = Some d.
Proof.
  destruct d as [y m d]. unfold valid_date. cbn [d_year d_month d_day]. rewrite !andb_true_iff, !Z.leb_le.
  intros (((((Hy0 & Hy1) & Hm0) & Hm1) & Hd0) & Hd1). pose proof (days_in_month_bound y m).
  pose proof (Z.div_mod y 100). pose proof (Z.mod_pos_bound y 100).
  rewrite date_text_chars. unfold date_from_iso8601.
  destruct (digit_not_sign (digit_char (y / 100 / 10))) as [-> ->].
  { rewrite digit_char_spec; [done|]. pose proof (Z.div_mod (y / 100) 10). pose proof (Z.mod_pos_bound (y / 100) 10). lia. }
  unfold parse_date. change (Ascii.eqb "-" "-") with true. cbn [andb].
  rewrite !digits_pad2 by lia. cbn [digits]. cbn [mbind option_bind].
  replace ((0 * 100 + y / 100) * 100 + y mod 100) with y by lia. rewrite !Z.mul_0_l, !Z.add_0_l, Z.mul_1_l.
  rewrite (proj2 (Z.leb_le 1 m)), (proj2 (Z.leb_le m 12)), (proj2 (Z.leb_le 1 d)), (proj2 (Z.leb_le d (days_in_month y m))) by lia.
  done.
Qed.

Lemma coerce_int_in_range i t name : int_type t = true -> int_matches_type i t = true -> coerce_int i t name = Ok (LInt i).
Proof.
  intros (t' & Hin & <-%String.eqb_eq)%existsb_exists Hm. unfold coerce_int, in_range, int_matches_type, in_i32 in *.
  cbn in Hin. decompose [or] Hin; subst; try done; cbn in Hm |- *; by rewrite ?Hm.
Qed.

(** ** Paths *)

Section round.
Context (float_parse : string -> option f64).

Lemma coerce_storable v t name : storable v t = true -> coerce float_parse (lit_text v) t name = Ok v.
Proof.
  destruct v as [i|x|b|s|d|n|dt]; cbn [storable lit_text]; intros Hs; try done.
  - apply andb_true_iff in Hs as [Ht Hm]. pose proof (coerce_int_in_range i t name Ht Hm) as Hc.
    apply existsb_exists in Ht as (t' & Hin & <-%String.eqb_eq).
    cbn in Hin. decompose [or] Hin; subst; try done; unfold coerce; cbn [String.eqb orb]; cbn; by rewrite integer_parse_pretty.
  - apply String.eqb_eq in Hs as ->. by destruct b.
  - apply andb_true_iff in Hs as [->%String.eqb_eq Hv]. unfold coerce. cbn. by rewrite Hv.
  - apply andb_true_iff in Hs as [->%String.eqb_eq Hv]. unfold coerce. cbn. by rewrite date_text_parse.
Qed.

Lemma column_segment c :
  column_ok c = true ->
  flat (segment c) = true /\ segment c <> "" /\ c_key c <> "" /\ split_equals (segment c) = Some (c_key c, uri_encode (lit_text (c_value c))).
Proof.
  unfold column_ok, segment. rewrite !andb_true_iff. intros (((Hk%negb_true_iff%String.eqb_neq & Hf) & He) & _).
  rewrite !flat_app, Hf, flat_encode, no_equals_split by done. split_and!; try done. by destruct (c_key c).
Qed.

Lemma extract_segments_columns cols acc :
  Forall (fun c => column_ok c = true) cols ->
  extract_segments (map segment cols) acc = Ok (acc ++ map (fun c => (c_key c, lit_text (c_value c))) cols).
Proof.
  intros Hc. revert acc. induction Hc as [|c cols Hc Hcols IH]; intros acc; [by rewrite app_nil_r|].
  cbn [map extract_segments]. destruct (column_segment c Hc) as (_ & _ & Hk & ->). destruct (c_key c) as [|k0 k] eqn:Ek; [done|].
  rewrite uri_decode_encode, IH, <- app_assoc. done.
Qed.

Lemma directories_columns cols file :
  Forall (fun c => column_ok c = true) cols -> flat file = true ->
  directories (String.concat "/" (map segment cols ++ [file])) = map segment cols.
Proof.
  intros Hc Hf. unfold directories. rewrite split_concat.
  - rewrite removelast_last. induction Hc as [|c cols Hc Hcols IH]; [done|].
    cbn [map List.filter]. rewrite IH. destruct (column_segment c Hc) as (_ & _ & _ & Hs).
    destruct (String.eqb_spec (segment c) ".") as [E|_]; [by rewrite E in Hs|].
    destruct (String.eqb_spec (segment c) "/") as [E|_]; [by rewrite E in Hs|]. done.
  - by destruct cols.
  - apply Forall_app. split; [|by constructor]. apply Forall_map. eapply Forall_impl; [exact Hc|].
    intros c Hok. by destruct (column_segment c Hok).
Qed.

Lemma relative_path_under path root rest :
  normalize path = normalize root +:+ "/" +:+ rest -> relative_path path root = Ok rest.
Proof.
  intros Hp. unfold relative_path. rewrite Hp.
  destruct (String.eqb_spec (normalize root +:+ "/" +:+ rest) (normalize root)) as [E|_].
  - apply (f_equal String.length) in E. rewrite !string_length_app in E. cbn in E. lia.
  - by rewrite (string_app_assoc (normalize root) "/" rest), drop_prefix_app.
Qed.

Lemma validate_supported schema :
  Forall (fun '(_, t) => supported_type t = true) schema -> validate_schema schema = Ok schema.
Proof. induction 1 as [|[name t] rest Ht Hr IH]; [done|]. cbn [validate_schema]. by rewrite Ht, IH. Qed.

Lemma storable_supported v t : storable v t = true -> supported_type t = true.
Proof.
  destruct v; cbn [storable]; try done.
  - intros [(t' & Hin & <-%String.eqb_eq)%existsb_exists _]%andb_true_iff. cbn in Hin. by decompose [or] Hin; subst.
  - by intros ->%String.eqb_eq.
  - by intros [->%String.eqb_eq _]%andb_true_iff.
  - by intros [->%String.eqb_eq _]%andb_true_iff.
Qed.

(** The schema read against the values of distinct keys. *)
Lemma coerce_schema_ok (by_key : gmap string string) schema acc :
  Forall (fun '(k, t) => exists raw v, by_key !! k = Some raw /\ coerce float_parse raw t k = Ok v) schema ->
  exists values, coerce_schema float_parse by_key schema acc = Ok values.
Proof.
  intros Hs. revert acc. induction Hs as [|[k t] rest (raw & v & Hk & Hv) Hr IH]; intros acc; [by eexists|].
  cbn [coerce_schema]. rewrite Hk, Hv. apply IH.
Qed.

Lemma keys_of {A} (f : Column -> A) cols : (map (fun c => (c_key c, f c)) cols).*1 = map c_key cols.
Proof. induction cols as [|c cols IH]; [done|]. cbn. by f_equal. Qed.

Lemma lookup_columns {A} (f : Column -> A) cols c :
  NoDup (map c_key cols) -> c ∈ cols -> (list_to_map (map (fun c => (c_key c, f c)) cols) : gmap string A) !! c_key c = Some (f c).
Proof.
  intros Hn Hc. apply elem_of_list_to_map_1.
  - by rewrite keys_of.
  - by apply (list_elem_of_fmap_2 (fun c => (c_key c, f c))).
Qed.

Lemma columns_coerce cols schema :
  Forall (fun c => column_ok c = true) cols -> NoDup (map c_key cols) -> schema ≡ₚ map (fun c => (c_key c, c_type c)) cols ->
  coerce_pairs float_parse (texts cols) schema = Ok (list_to_map (column_values cols)).
Proof.
  intros Hc Hn Hp. unfold coerce_pairs.
  assert (list_to_map (rev (texts cols)) = (list_to_map (texts cols) : gmap string string)) as ->.
  { symmetry. apply list_to_map_proper; [|apply Permutation_rev]. unfold texts. by rewrite keys_of. }
  assert (forall c, c ∈ cols -> coerce float_parse (lit_text (c_value c)) (c_type c) (c_key c) = Ok (c_value c)) as Hco.
  { intros c Hin. apply coerce_storable. rewrite Forall_forall in Hc. by destruct (proj1 (andb_true_iff _ _) (Hc c Hin)). }
  assert (forall k t, (k, t) ∈ schema -> exists c, c ∈ cols /\ k = c_key c /\ t = c_type c) as Hsch.
  { intros k t Hin. rewrite Hp in Hin. apply list_elem_of_fmap in Hin as (c & [= -> ->] & Hin). by exists c. }
  destruct (coerce_schema_ok (list_to_map (texts cols)) schema ∅) as [vs Hvs].
  { apply Forall_forall. intros [k t] Hin. destruct (Hsch k t Hin) as (c & Hin' & -> & ->).
    exists (lit_text (c_value c)), (c_value c). split; [by apply (lookup_columns (fun c => lit_text (c_value c)))|by apply Hco]. }
  rewrite Hvs. cbn [mbind res_bind].
  destruct (existsb _ (texts cols)) eqn:E.
  - exfalso. apply existsb_exists in E as ([k r] & Hin%list_elem_of_In & E%negb_true_iff). apply list_elem_of_fmap in Hin as (c & [= -> _] & Hin).
    apply Bool.not_true_iff_false in E. apply E. apply existsb_exists. exists (c_key c). split; [|apply String.eqb_refl].
    apply list_elem_of_In. rewrite Hp, map_map. by apply (list_elem_of_fmap_2 c_key).
  - f_equal. destruct (coerce_schema_spec _ _ _ _ _ Hvs) as [Hout Hin]. apply map_eq. intros k.
    destruct (decide (k ∈ map fst schema)) as [Hk|Hk].
    + destruct (Hin k Hk) as (t & raw & v & Hkt & Hraw & Hv & ->). destruct (Hsch k t Hkt) as (c & Hcin & -> & ->).
      rewrite (lookup_columns (fun c => lit_text (c_value c))) in Hraw by done. injection Hraw as <-.
      rewrite Hco in Hv by done. injection Hv as <-. symmetry. by apply (lookup_columns c_value).
    + rewrite Hout, lookup_empty by done. symmetry. apply not_elem_of_list_to_map. unfold column_values. rewrite keys_of.
      intros Hm. apply Hk. rewrite Hp, map_map. exact Hm.
Qed.

Lemma relative_normalised cols file :
  Forall (fun c => column_ok c = true) cols -> flat file = true -> file <> "" ->
  normalised (relative_to_root cols file) /\ starts_slash (relative_to_root cols file) = false /\ relative_to_root cols file <> "".
Proof.
  intros Hc Hf He. apply concat_normalised; [by destruct cols|].
  apply Forall_app. split; [|by constructor]. apply Forall_map. eapply Forall_impl; [exact Hc|].
  intros c Hok. by destruct (column_segment c Hok) as (? & ? & _).
Qed.

(** However the root and the path are written. *)
Lemma parse_path_columns path root cols file schema :
  Forall (fun c => column_ok c = true) cols -> NoDup (map c_key cols) ->
  schema ≡ₚ map (fun c => (c_key c, c_type c)) cols -> flat file = true ->
  normalize path = normalize root +:+ "/" +:+ relative_to_root cols file ->
  parse_path float_parse path root schema = Ok (list_to_map (column_values cols)).
Proof.
  intros Hc Hn Hp Hf Hpath. unfold parse_path.
  rewrite validate_supported; cbn [mbind res_bind].
  2:{ rewrite Hp. apply Forall_map. eapply Forall_impl; [exact Hc|]. intros c [_ Hs]%andb_true_iff. by eapply storable_supported. }
  rewrite (relative_path_under _ _ _ Hpath). cbn [mbind res_bind]. unfold extract_pairs.
  unfold relative_to_root. rewrite directories_columns, extract_segments_columns by done. by apply columns_coerce.
Qed.

(** A fragment's path read as partition values, for every dataset root.
    When each column of a partition schema (in any order) is stored as a
    directory [key=value], the keys distinct, non-empty and without slashes or
    an equals sign, the values an integer in its type's range, a boolean, valid
    UTF-8 percent-encoded, or a date of the years 0 to 9999, [parse_path] of the
    path of a file below gives exactly these values. *)
Theorem hive_path_roundtrip root cols file schema :
  Forall (fun c => column_ok c = true) cols -> NoDup (map c_key cols) ->
  schema ≡ₚ map (fun c => (c_key c, c_type c)) cols -> flat file = true -> file <> "" ->
  parse_path float_parse (hive_path root cols file) root schema = Ok (list_to_map (column_values cols)).
Proof.
  intros Hc Hn Hp Hf He. destruct (relative_normalised cols file Hc Hf He) as (Hnorm & Hs & Hne).
  eapply parse_path_columns; [done..|]. by apply normalize_under.
Qed.
End round.

Lemma hive_path_roundtrip_witness :
  let cols := [mkColumn "year" "int32" (LInt 2026); mkColumn "day" "date32" (LDate (mkDate 2026 2 28)); mkColumn "name" "utf8" (LBin "a/b=c d")] in
  hive_path "C:\data\" cols "part-0.parquet" = "C:\data\/year=2026/day=2026-02-28/name=a%2Fb%3Dc%20d/part-0.parquet" /\
  parse_path (fun _ => None) (hive_path "C:\data\" cols "part-0.parquet") "C:\data\" [("name", "utf8"); ("year", "int32"); ("day", "date32")]
    = Ok (list_to_map (column_values cols)).
Proof.
  split; [by vm_compute|]. apply (hive_path_roundtrip (fun _ => None)); [by repeat constructor| | |done|done].
  - apply (bool_decide_unpack _). by vm_compute.
  - apply (perm_trans (l' := [("year", "int32"); ("name", "utf8"); ("day", "date32")])); [apply perm_swap|apply perm_skip, perm_swap].
Defined.
