(* ===== verification/FileSystem.v ===== *)
(** * File systems for discovery (lib/ex_arrow/file_system.ex, file_system/memory.ex)

    [FileSystem] is the behaviour that the discovery of datasets calls; its
    in-memory implementation is modelled here, with globs and hidden names.
    The one over the operating system is an instance of the interface that is
    not modelled. *)

From Stdlib Require Import Ascii.
From stdpp Require Import sorting.
From S2P Require Import Prelude Float Utf8 Term Elixir Paths.

(** ** Entries and names *)

Inductive EntryType := EtFile | EtDirectory.

#[export] Instance EntryType_eq_dec : EqDecision EntryType.
Proof. solve_decision. Defined.

Record Entry := mkEntry { en_path : string; en_type : EntryType; en_size : Z }.

Definition is_file (e : Entry) : bool := bool_decide (en_type e = EtFile).

(** The calls of the behaviour: [list(fs, path, recursive:, ignore_hidden:)],
    [glob(fs, pattern, ignore_hidden:)] and [exists?(fs, path)].  [fs_local] is
    [Path.expand] for the local file system, whose paths are expanded. *)
Class FileSystem (FS : Type) := {
  fs_list : FS -> string -> bool -> bool -> res string (list Entry);
  fs_glob : FS -> string -> bool -> res string (list string);
  fs_exists : FS -> string -> bool;
  fs_local : FS -> option (string -> string)
}.

Definition hidden_basename (name : string) : bool :=
  negb (String.eqb name ".") && negb (String.eqb name "..")
  && match name with String c _ => Ascii.eqb c "."%char || Ascii.eqb c "_"%char | "" => false end.

Definition path_has_hidden_component (path : string) : bool := existsb hidden_basename (path_split path).

(** ** Globs *)

Definition newline : ascii := "010"%char.

(** The regular expression of a segment with stars: a star is [.*], which stops
    at a newline, and the end may be before a last newline. *)
Fixpoint match_stars (pat name : string) : bool :=
  match pat with
  | "" => String.eqb name "" || String.eqb name (String newline "")
  | String p pat' =>
      if Ascii.eqb p "*"%char then
        (fix star (name : string) : bool :=
           match_stars pat' name ||
           match name with
           | String c name' => negb (Ascii.eqb c newline) && star name'
           | "" => false
           end) name
      else match name with String c name' => Ascii.eqb c p && match_stars pat' name' | "" => false end
  end.

Definition match_segment (name pat : string) : bool :=
  if String.eqb pat "*" then true
  else if contains_char ["*"%char] pat then match_stars pat name
  else String.eqb name pat.

Fixpoint match_parts (path pat : list string) : bool :=
  match pat with
  | [] => match path with [] => true | _ => false end
  | p :: rest =>
      if String.eqb p "**" then
        match rest with
        | [] => true
        | _ => existsb (fun n => match_parts (drop n path) rest) (seq 0 (S (length path)))
        end
      else
        match path with
        | name :: path' => match_segment name p && match_parts path' rest
        | [] => false
        end
  end.

Definition match_glob (path pattern : string) : bool := match_parts (path_split path) (path_split pattern).

(** ** The file system in memory *)

Record Memory := mkMemory { entries : gmap string Entry }.

Definition ensure_absolute (path : string) : string := if starts_slash path then path else "/" +:+ path.

Definition trim_trailing_slash (path : string) : string := if String.eqb path "/" then "/" else trim_trailing path.

Definition normalize_path (path : string) : res string string :=
  if string_valid path then
    let norm := trim_trailing_slash (ensure_absolute (collapse_slashes (replace_backslash path))) in
    if String.eqb norm "" then Err "path must be a UTF-8 string" else Ok norm
  else Err "path must be a UTF-8 string".

(** [Enum.scan(parts, &Path.join)]: the prefixes of a split path. *)
Fixpoint scan_join (acc : string) (parts : list string) : list string :=
  match parts with
  | [] => []
  | part :: rest => let acc := path_join acc part in acc :: scan_join acc rest
  end.

Definition parent_dirs (path : string) : list string :=
  if String.eqb path "/" then []
  else match removelast (path_split path) with
       | [] => []
       | first :: rest => map ensure_absolute (first :: scan_join first rest)
       end.

(** [Map.put_new]. *)
Definition put_new (dir : string) (m : gmap string Entry) : gmap string Entry :=
  match m !! dir with Some _ => m | None => <[dir := mkEntry dir EtDirectory 0]> m end.

Definition put_file (fs : Memory) (path : string) (size : Z) : res string Memory :=
  norm ← normalize_path path;
  if size <? 0 then Err "size must be a non-negative integer"
  else
    let dirs := fold_left (fun m dir => put_new dir m) (parent_dirs norm) (entries fs) in
    Ok (mkMemory (<[norm := mkEntry norm EtFile size]> dirs)).

(** A negative size is refused by the guard of the reduction. *)
Fixpoint put_all (fs : Memory) (seed : list (string * Z)) : res string Memory :=
  match seed with
  | [] => Ok fs
  | (path, size) :: rest =>
      if size <? 0 then Err "seed entries must be {path, size} pairs"
      else fs2 ← put_file fs path size; put_all fs2 rest
  end.

Definition new_memory (seed : list (string * Z)) : res string Memory := put_all (mkMemory ∅) seed.

Definition under (path root : string) : bool :=
  String.eqb root "/" || match drop_prefix (root +:+ "/") path with Some _ => true | None => false end.

Definition hidden_under_root (path root : string) : bool :=
  let relative :=
    if String.eqb root "/" then path
    else match drop_prefix (root +:+ "/") path with Some r => r | None => path end in
  existsb hidden_basename (path_split relative).

(** With [include_root?: false]. *)
Definition child_path (path root : string) (recursive : bool) : bool :=
  if String.eqb path root then false
  else if negb (under path root) then false
  else if recursive then true
  else String.eqb (dirname path) root.

Definition path_le (a b : Entry) : Prop := String.le (en_path a) (en_path b).

#[export] Instance path_le_dec a b : Decision (path_le a b).
Proof. unfold path_le. apply _. Defined.

(** [Map.values], in any order: the entries are sorted or tested one by one. *)
Definition map_values (fs : Memory) : list Entry := map snd (map_to_list (entries fs)).

Definition select_children (fs : Memory) (root : string) (recursive ignore_hidden : bool) : list Entry :=
  merge_sort path_le
    (List.filter (fun e => negb (ignore_hidden && hidden_under_root (en_path e) root))
       (List.filter (fun e => child_path (en_path e) root recursive) (map_values fs))).

Definition implicit_dir (fs : Memory) (root : string) : bool :=
  existsb (fun '(p, _) => under p root) (map_to_list (entries fs)).

Definition list_at (fs : Memory) (root : string) (recursive ignore_hidden : bool) : res string (list Entry) :=
  match entries fs !! root with
  | Some e =>
      match en_type e with
      | EtFile => if ignore_hidden && path_has_hidden_component root then Ok [] else Ok [e]
      | EtDirectory => Ok (select_children fs root recursive ignore_hidden)
      end
  | None =>
      if implicit_dir fs root then Ok (select_children fs root recursive ignore_hidden)
      else Err ("path does not exist: " +:+ root)
  end.

Definition memory_list (fs : Memory) (path : string) (recursive ignore_hidden : bool) : res string (list Entry) :=
  root ← normalize_path path; list_at fs root recursive ignore_hidden.

Definition memory_glob (fs : Memory) (pattern : string) (ignore_hidden : bool) : res string (list string) :=
  norm_pat ← normalize_path pattern;
  Ok (merge_sort String.le
        (List.filter (fun p => negb (ignore_hidden && path_has_hidden_component p))
           (List.filter (fun p => match_glob p norm_pat) (map en_path (List.filter is_file (map_values fs)))))).

Definition memory_exists (fs : Memory) (path : string) : bool :=
  match normalize_path path with
  | Ok root => match entries fs !! root with Some _ => true | None => implicit_dir fs root end
  | _ => false
  end.

#[export] Instance memory_fs : FileSystem Memory := {|
  fs_list := memory_list;
  fs_glob := memory_glob;
  fs_exists := memory_exists;
  fs_local := fun _ => None
|}.

(** The examples of the test-suite. *)
Example match_glob_examples :
  match_glob "/a/b/c.parquet" "/a/**/*.parquet" = true /\ match_glob "/a/c.parquet" "/a/**/*.parquet" = true /\
  match_glob "/a/b/c.txt" "/a/**/*.parquet" = false /\ match_glob "/a/foo.parquet" "/a/*.parquet" = true /\
  match_glob "/a/b/foo.parquet" "/a/*.parquet" = false /\ match_glob "/a/b/c" "/a/**" = true /\
  match_glob "/a/anything" "/a/*" = true /\ match_glob "/a/b" "/a" = false.
Proof. by vm_compute. Qed.

Example parent_dirs_example : parent_dirs "/data/year=2026/part.parquet" = ["/"; "/data"; "/data/year=2026"].
Proof. by vm_compute. Qed.

Example memory_list_example :
  (fs ← new_memory [("/data/a.parquet", 10); ("data//b/_c.parquet", 5)]; l ← memory_list fs "/data" true true; Ok (map en_path l))
  = Ok ["/data/a.parquet"; "/data/b"].
Proof. by vm_compute. Qed.
