(* ===== verification/FileSystemFacts.v ===== *)
(** * Facts about file systems

    [FileSystemLaws] is what the discovery of datasets relies on: a listing of
    a directory has the files below it, each once.  The file system in memory
    obeys it.  Globs against a relation that says what they match. *)

From Stdlib Require Import Ascii.
From stdpp Require Import sorting.
From S2P Require Import Prelude Float Utf8 Term Elixir Paths FileSystem.

(** [fs_file] is the size of the regular file at a path; [fs_dir fs path root]
    says that [path] names the directory [root]. *)
Class FileSystemLaws (Fs : Type) `{FileSystem Fs} := {
  fs_ok : Fs -> Prop;
  fs_file : Fs -> string -> option Z;
  fs_dir : Fs -> string -> string -> Prop;
  fs_list_dir fs path root ignore_hidden :
    fs_ok fs -> fs_dir fs path root ->
    fs_exists fs path = true /\
    exists l, fs_list fs path true ignore_hidden = Ok l /\ NoDup (map en_path (List.filter is_file l)) /\
      forall p size, (exists e, e ∈ l /\ is_file e = true /\ en_path e = p /\ en_size e = size) <->
        fs_file fs p = Some size /\ under p root = true /\ ignore_hidden && hidden_under_root p root = false
}.

(** What a glob matches. *)
Inductive Stars : string -> string -> Prop :=
| StarsEnd : Stars "" ""
| StarsNewline : Stars "" (String newline "")
| StarsChar c pat name : c <> "*"%char -> Stars pat name -> Stars (String c pat) (String c name)
| StarsNone pat name : Stars pat name -> Stars (String "*" pat) name
| StarsMore c pat name : c <> newline -> Stars (String "*" pat) name -> Stars (String "*" pat) (String c name).

Definition Segment (pat name : string) : Prop :=
  pat = "*" \/ (contains_char ["*"%char] pat = true /\ Stars pat name) \/ (contains_char ["*"%char] pat = false /\ name = pat).

Inductive Glob : list string -> list string -> Prop :=
| GlobEnd : Glob [] []
| GlobSegment p pat name path : p <> "**" -> Segment p name -> Glob pat path -> Glob (p :: pat) (name :: path)
| GlobDirs pat dirs path : Glob pat path -> Glob ("**" :: pat) (dirs ++ path).

(** ** The file system in memory *)

Definition mem_ok (fs : Memory) : Prop := map_Forall (fun p e => en_path e = p) (entries fs).

Definition mem_file (fs : Memory) (p : string) : option Z :=
  e ← entries fs !! p; if is_file e then Some (en_size e) else None.

Definition mem_dir (fs : Memory) (path root : string) : Prop :=
  normalize_path path = Ok root /\
  match entries fs !! root with Some e => en_type e = EtDirectory | None => implicit_dir fs root = true end.

Lemma is_file_spec e : is_file e = true <-> en_type e = EtFile.
Proof. unfold is_file. by rewrite bool_decide_eq_true. Qed.

Lemma elem_of_values fs e : mem_ok fs -> e ∈ map_values fs <-> entries fs !! en_path e = Some e.
Proof.
  intros Hok. unfold map_values. split.
  - intros ([p e'] & -> & Hin%elem_of_map_to_list)%list_elem_of_fmap. cbn. by rewrite (Hok _ _ Hin).
  - intros Hin. apply list_elem_of_fmap. exists (en_path e, e). split; [done|]. by apply elem_of_map_to_list.
Qed.

Lemma values_paths fs : mem_ok fs -> map en_path (map_values fs) = map fst (map_to_list (entries fs)).
Proof.
  intros Hok. unfold map_values. rewrite map_map. apply map_ext_in. intros [p e] Hin%list_elem_of_In%elem_of_map_to_list. exact (Hok p e Hin).
Qed.

Lemma NoDup_filter_paths (f : Entry -> bool) l : NoDup (map en_path l) -> NoDup (map en_path (List.filter f l)).
Proof.
  induction l as [|e l IH]; [done|]. cbn. rewrite NoDup_cons. intros [Hn Hl]. destruct (f e); [|by apply IH].
  cbn. apply NoDup_cons. split; [|by apply IH]. intros (e' & He & Hin)%list_elem_of_fmap. apply Hn.
  apply list_elem_of_fmap. exists e'. split; [done|]. by apply list_elem_of_In, filter_In, proj1, list_elem_of_In in Hin.
Qed.

Lemma elem_of_filter_bool {A} (f : A -> bool) l x : x ∈ List.filter f l <-> x ∈ l /\ f x = true.
Proof. by rewrite !list_elem_of_In, filter_In. Qed.

Lemma select_children_spec fs root h e :
  mem_ok fs ->
  e ∈ select_children fs root true h <->
  entries fs !! en_path e = Some e /\ en_path e <> root /\ under (en_path e) root = true /\ h && hidden_under_root (en_path e) root = false.
Proof.
  intros Hok. unfold select_children. rewrite merge_sort_Permutation, !elem_of_filter_bool, elem_of_values, negb_true_iff by done.
  unfold child_path. destruct (String.eqb_spec (en_path e) root); [naive_solver|]. destruct (under (en_path e) root); naive_solver.
Qed.

#[export] Program Instance memory_laws : FileSystemLaws Memory := {| fs_ok := mem_ok; fs_file := mem_file; fs_dir := mem_dir |}.
Next Obligation.
  intros fs path root h Hok [Hn Hd]. unfold fs_exists, fs_list, memory_fs, memory_exists, memory_list. rewrite Hn. cbn [mbind res_bind].
  assert (list_at fs root true h = Ok (select_children fs root true h) /\
    match entries fs !! root with Some _ => true | None => implicit_dir fs root end = true /\ mem_file fs root = None) as (-> & -> & Hroot).
  { unfold list_at, mem_file. destruct (entries fs !! root) as [e|]; cbn; [|by rewrite Hd].
    unfold is_file. rewrite Hd. by split. }
  split; [done|]. eexists. split; [done|]. split.
  - apply NoDup_filter_paths. unfold select_children. rewrite merge_sort_Permutation.
    do 2 apply NoDup_filter_paths. rewrite values_paths by done. apply NoDup_fst_map_to_list.
  - intros p size. unfold mem_file. split.
    + intros (e & (He & Hne & Hu & Hh)%select_children_spec & Hf & <- & <-); [|done]. rewrite He. cbn. by rewrite Hf.
    + intros (Hf & Hu & Hh). destruct (entries fs !! p) as [e|] eqn:E; [|done]. cbn in Hf. destruct (is_file e) eqn:Ef; [|done].
      injection Hf as <-. pose proof (Hok p e E) as Hp. cbn in Hp. subst p. exists e. split; [|done]. apply select_children_spec; [done|].
      split_and!; [done| |done..]. intros Hr. rewrite <- Hr in Hroot. unfold mem_file in Hroot. rewrite E in Hroot. cbn in Hroot. by rewrite Ef in Hroot.
Qed.

Lemma put_new_spec dir m : map_Forall (fun p e => en_path e = p) m ->
  map_Forall (fun p e => en_path e = p) (put_new dir m) /\
  forall p, mem_file (mkMemory (put_new dir m)) p = mem_file (mkMemory m) p.
Proof.
  intros Hok. unfold put_new. destruct (m !! dir) as [e|] eqn:E; [done|]. split; [by apply map_Forall_insert_2|].
  intros p. unfold mem_file. cbn. destruct (decide (p = dir)) as [->|]; [by rewrite lookup_insert_eq, E|by rewrite lookup_insert_ne].
Qed.

Lemma put_dirs_spec dirs m : map_Forall (fun p e => en_path e = p) m ->
  map_Forall (fun p e => en_path e = p) (fold_left (fun m dir => put_new dir m) dirs m) /\
  forall p, mem_file (mkMemory (fold_left (fun m dir => put_new dir m) dirs m)) p = mem_file (mkMemory m) p.
Proof.
  revert m. induction dirs as [|dir dirs IH]; intros m Hok; [done|]. cbn. destruct (put_new_spec dir m Hok) as [Hok' Hf].
  destruct (IH _ Hok') as [Hok'' Hf']. split; [done|]. intros p. by rewrite Hf', Hf.
Qed.

(** Adding a file replaces what was at its path and changes no other file. *)
Lemma put_file_spec fs path size fs' :
  mem_ok fs -> put_file fs path size = Ok fs' ->
  mem_ok fs' /\ exists norm, normalize_path path = Ok norm /\
    forall p, mem_file fs' p = if String.eqb p norm then Some size else mem_file fs p.
Proof.
  intros Hok Hp. apply bind_Ok in Hp as (norm & Hn & Hp). destruct (size <? 0); [done|]. injection Hp as <-.
  destruct (put_dirs_spec (parent_dirs norm) (entries fs) Hok) as [Hok' Hf]. split.
  - by apply map_Forall_insert_2.
  - exists norm. split; [done|]. intros p. unfold mem_file at 1. cbn. destruct (String.eqb_spec p norm) as [->|Hne].
    + rewrite lookup_insert_eq. cbn. done.
    + rewrite lookup_insert_ne by done. exact (Hf p).
Qed.

(** A file system made of a list of files has these files. *)
Section seed.
Context {A : Type} (path norm : A -> string) (size : A -> Z).

Definition seed (l : list A) : list (string * Z) := map (fun x => (path x, size x)) l.

Lemma put_all_ok fs l :
  mem_ok fs -> Forall (fun x => 0 <= size x /\ normalize_path (path x) = Ok (norm x)) l ->
  exists fs', put_all fs (seed l) = Ok fs'.
Proof.
  intros Hok Hl. revert fs Hok. induction Hl as [|x l [Hs Hn] Hl IH]; intros fs Hok; [by eexists|].
  cbn [seed map put_all]. destruct (Z.ltb_spec (size x) 0); [lia|].
  assert (exists fs2, put_file fs (path x) (size x) = Ok fs2) as [fs2 E].
  { unfold put_file. rewrite Hn. cbn [mbind res_bind]. destruct (Z.ltb_spec (size x) 0); [lia|]. by eexists. }
  rewrite E. cbn [mbind res_bind]. apply IH. by apply (put_file_spec fs (path x) (size x)).
Qed.

Lemma put_all_files fs l fs' :
  mem_ok fs -> put_all fs (seed l) = Ok fs' ->
  Forall (fun x => normalize_path (path x) = Ok (norm x)) l -> NoDup (map norm l) ->
  mem_ok fs' /\ forall p s, mem_file fs' p = Some s <->
    (exists x, x ∈ l /\ norm x = p /\ size x = s) \/ (p ∉ map norm l /\ mem_file fs p = Some s).
Proof.
  intros Hok Hp Hl Hn. revert fs Hok Hp. induction Hl as [|x l Hx Hl IH]; intros fs Hok Hp.
  { injection Hp as <-. split; [done|]. intros p s. split; [intros Hm; right; split; [by intros ?%elem_of_nil|done]|]. by intros [(x & ?%elem_of_nil & _)|[_ ?]]. }
  cbn [seed map put_all] in Hp. destruct (size x <? 0); [done|]. apply bind_Ok in Hp as (fs2 & Hput & Hp).
  destruct (put_file_spec fs (path x) (size x) fs2 Hok Hput) as (Hok2 & n & Hn' & Hf). rewrite Hx in Hn'. injection Hn' as <-.
  cbn [map] in Hn. apply NoDup_cons in Hn as [Hni Hn]. destruct (IH Hn fs2 Hok2 Hp) as [Hok' Hf']. split; [done|].
  intros p s. rewrite Hf', Hf. cbn [map]. setoid_rewrite elem_of_cons. destruct (String.eqb_spec p (norm x)) as [->|Hne].
  - split; [|naive_solver]. intros [(y & Hy & Hny & _)|[_ [= <-]]]; [|naive_solver]. exfalso. apply Hni. rewrite <- Hny.
    by apply (list_elem_of_fmap_2 norm).
  - naive_solver.
Qed.
End seed.

(** ** Globs *)

Lemma match_stars_star pat name :
  match_stars (String "*" pat) name =
  match_stars pat name || match name with String c name' => negb (Ascii.eqb c newline) && match_stars (String "*" pat) name' | "" => false end.
Proof. by destruct name. Qed.

Lemma match_stars_spec pat name : match_stars pat name = true <-> Stars pat name.
Proof.
  split.
  - revert name. induction pat as [|p pat IH]; intros name.
    + cbn. destruct (String.eqb_spec name "") as [->|]; [constructor|].
      destruct (String.eqb_spec name (String newline "")) as [->|]; [constructor|done].
    + destruct (Ascii.eqb_spec p "*"%char) as [->|Hp].
      * induction name as [|c name IHn]; rewrite match_stars_star, orb_true_iff.
        { intros [H|]; [|done]. by apply StarsNone, IH. }
        intros [H|[Hc%negb_true_iff%Ascii.eqb_neq H]%andb_true_iff]; [by apply StarsNone, IH|by apply StarsMore, IHn].
      * cbn [match_stars]. rewrite (proj2 (Ascii.eqb_neq p "*") Hp). destruct name as [|c name]; [done|].
        intros [->%Ascii.eqb_eq H]%andb_true_iff. by apply StarsChar, IH.
  - induction 1 as [| |c pat name Hc H IH|pat name H IH|c pat name Hc H IH]; [done..| | |].
    + cbn [match_stars]. rewrite (proj2 (Ascii.eqb_neq c "*") Hc). by rewrite Ascii.eqb_refl.
    + by rewrite match_stars_star, IH.
    + rewrite match_stars_star, IH, (proj2 (Ascii.eqb_neq c newline) Hc). apply orb_true_r.
Qed.

Lemma match_segment_spec name pat : match_segment name pat = true <-> Segment pat name.
Proof.
  unfold match_segment, Segment. destruct (String.eqb_spec pat "*") as [->|Hne]; [by naive_solver|].
  destruct (contains_char ["*"%char] pat).
  - rewrite match_stars_spec. naive_solver.
  - rewrite String.eqb_eq. naive_solver.
Qed.

Lemma match_parts_spec path pat : match_parts path pat = true <-> Glob pat path.
Proof.
  split.
  - revert path. induction pat as [|p pat IH]; intros path; cbn [match_parts].
    { destruct path; [constructor|done]. }
    destruct (String.eqb_spec p "**") as [->|Hp].
    + destruct pat as [|p' pat].
      * intros _. rewrite <- (app_nil_r path). apply GlobDirs, GlobEnd.
      * intros (n & _ & Hm)%existsb_exists. rewrite <- (take_drop n path). by apply GlobDirs, IH.
    + destruct path as [|name path]; [done|]. intros [Hs%match_segment_spec Hm]%andb_true_iff. by apply GlobSegment, IH.
  - induction 1 as [|p pat name path Hp Hs H IH|pat dirs path H IH]; [done| |].
    + cbn [match_parts]. rewrite (proj2 (String.eqb_neq p "**") Hp), IH. by rewrite (proj2 (match_segment_spec name p) Hs).
    + cbn [match_parts]. change (String.eqb "**" "**") with true. cbn match. destruct pat as [|p' pat]; [done|].
      apply existsb_exists. exists (length dirs). split; [|by rewrite drop_app_length].
      apply in_seq. rewrite length_app. lia.
Qed.
