(* ===== verification/ScanRows.v ===== *)
(** * The rows an expression selects of a table

    The row-by-row meaning of an expression as a function of the cells of its
    columns ([expr_at]), whatever batches the rows are cut into; and filtering
    in two steps, first by the reader's filter and then by the residual on
    what the reader delivered, against filtering once by both. *)

From S2P Require Import Prelude Float Utf8 Term Arrow ArrowRef Stream Elixir Compute ComputeEval Expression Parquet ParquetFacts ParquetRows ParquetRead ScanPlan ScanPlanFacts ComputeTyped.

(** ** Selections *)

(** A mask of a mask. *)
Lemma select_twice {A} (f g h : nat -> option bool) ix (l : list A) :
  length l = length ix -> (forall i, h i = Some true <-> f i = Some true /\ g i = Some true) ->
  select l (map h ix) = select (select l (map f ix)) (select (map g ix) (map f ix)).
Proof.
  intros Hl Hh. revert l Hl. induction ix as [|i ix IH]; intros [|x l] Hl; cbn in *; try done.
  specialize (Hh i). rewrite IH by lia.
  destruct (f i) as [[]|], (g i) as [[]|], (h i) as [[]|]; cbn; try done; naive_solver.
Qed.

(** A selection of the cells is a selection of the indices. *)
Lemma map_lookup_seq {A} (l : list A) : map (fun i => l !! i) (seq 0 (length l)) = map Some l.
Proof.
  apply list_eq. intros i. rewrite !list_lookup_fmap. destruct (decide (i < length l)%nat) as [Hi|Hi].
  - rewrite lookup_seq_lt by done. destruct (lookup_lt_is_Some_2 l i Hi) as [x Hx]. cbn. by rewrite Hx.
  - rewrite !(proj2 (lookup_ge_None _ _)); [done| |]; rewrite ?length_seq; lia.
Qed.

Lemma select_lookups {A} (l : list A) mask :
  map Some (select l mask) = map (fun i => l !! i) (select (seq 0 (length l)) mask).
Proof. by rewrite <-!select_map, map_lookup_seq. Qed.

(** The row of index [j] in a selection. *)
Lemma select_lookup {A} (l : list A) mask n i j :
  length l = n -> select (seq 0 n) mask !! j = Some i -> select l mask !! j = l !! i.
Proof.
  intros <- Hj. pose proof (f_equal (fun k => k !! j) (select_lookups l mask)) as E.
  rewrite !list_lookup_fmap, Hj in E. cbn in E. destruct (select l mask !! j); [by injection E as ->|done].
Qed.

Lemma map_selected {B} (f g : nat -> B) n mask :
  (forall i j, select (seq 0 n) mask !! j = Some i -> g j = f i) ->
  map g (seq 0 (length (select (seq 0 n) mask))) = select (map f (seq 0 n)) mask.
Proof.
  intros Hfg. rewrite select_map. set (ix := select (seq 0 n) mask) in *.
  apply list_eq. intros j. rewrite !list_lookup_fmap. destruct (decide (j < length ix)%nat) as [Hj|Hj].
  - rewrite lookup_seq_lt by done. destruct (lookup_lt_is_Some_2 ix j Hj) as [i Hi]. rewrite Hi. cbn. by rewrite (Hfg i j).
  - rewrite !(proj2 (lookup_ge_None _ _)); [done| |]; rewrite ?length_seq; lia.
Qed.

(** ** Expressions on cells *)

Fixpoint expr_columns (e : Expr) : list string :=
  match e with
  | EField n => [n]
  | EScalar _ => []
  | ECall _ args => concat (map expr_columns args)
  end.

Section cells.
Context `{Arrow}.

Definition lit_type_at (types : string -> option DataType) (s : ScalarValue) (other : Expr) : option DataType :=
  match other with
  | EField n => types n
  | EScalar t => match infer_lit_compare_type s t with Ok dt => Some dt | _ => None end
  | ECall _ _ => Some TBoolean
  end.

(** [row_bool] on row [i] of columns given by their types and their cells. *)
Fixpoint expr_at (types : string -> option DataType) (column : string -> list (option Cell)) (e : Expr) (i : nat)
    : option bool :=
  match e with
  | EField n => cell_bool (mjoin (column n !! i))
  | EScalar (SBool v) => Some v
  | EScalar _ => None
  | ECall OpNot [x] => not_cell (expr_at types column x i)
  | ECall OpAnd [x; y] => and_cells (expr_at types column x i) (expr_at types column y i)
  | ECall OpOr [x; y] => or_cells (expr_at types column x i) (expr_at types column y i)
  | ECall op [x; y] =>
      let operand e other :=
        match e with
        | EField n => mjoin (column n !! i)
        | EScalar s => literal_cell s (lit_type_at types s other)
        | ECall _ _ => CBool <$> expr_at types column e i
        end in
      k ← kernel op; cmp_cells k (operand x y) (operand y x)
  | ECall _ _ => None
  end.

(** The operand of a comparison. *)
Definition operand_at (types : string -> option DataType) (column : string -> list (option Cell)) (e other : Expr) (i : nat)
    : option Cell :=
  match e with
  | EField n => mjoin (column n !! i)
  | EScalar s => literal_cell s (lit_type_at types s other)
  | ECall _ _ => CBool <$> expr_at types column e i
  end.

Lemma expr_at_call types column op x y i :
  expr_at types column (ECall op [x; y]) i =
  match op with
  | OpAnd => and_cells (expr_at types column x i) (expr_at types column y i)
  | OpOr => or_cells (expr_at types column x i) (expr_at types column y i)
  | _ => k ← kernel op; cmp_cells k (operand_at types column x y i) (operand_at types column y x i)
  end.
Proof. destruct op; try done; by destruct x, y. Qed.

Lemma row_bool_call b op x y i :
  row_bool b (ECall op [x; y]) i =
  match op with
  | OpAnd => and_cells (row_bool b x i) (row_bool b y i)
  | OpOr => or_cells (row_bool b x i) (row_bool b y i)
  | _ => k ← kernel op; cmp_cells k (operand_cell b x y i) (operand_cell b y x i)
  end.
Proof. destruct op; try done; by destruct x, y. Qed.

Lemma columns_of_arg op args x col : x ∈ args -> col ∈ expr_columns x -> col ∈ expr_columns (ECall op args).
Proof.
  intros Hin Hcol. cbn. apply list_elem_of_In, in_concat. exists (expr_columns x).
  split; [by apply in_map, list_elem_of_In|by apply list_elem_of_In].
Qed.

(** Only the cells of the row, in the columns of the expression, matter. *)
Lemma expr_at_ext types types' column column' e i j :
  (forall col, col ∈ expr_columns e -> types col = types' col /\ column col !! i = column' col !! j) ->
  expr_at types column e i = expr_at types' column' e j.
Proof.
  induction e as [n|s|op args IH] using expr_ind; intros Hc; [|done|].
  { cbn. by destruct (Hc n) as [_ ->]; [left|]. }
  assert (forall x, x ∈ args -> expr_at types column x i = expr_at types' column' x j) as Hx.
  { intros x Hin. rewrite Forall_forall in IH. apply IH; [done|]. intros col Hcol. by eapply Hc, columns_of_arg. }
  assert (forall x y, x ∈ args -> y ∈ args -> operand_at types column x y i = operand_at types' column' x y j) as Hop.
  { intros [n|s|op' l] y Hin Hy; cbn [operand_at].
    - destruct (Hc n) as [_ ->]; [|done]. apply (columns_of_arg _ _ (EField n)); [done|by left].
    - destruct y as [n|t|op' l]; [|done..]. cbn. destruct (Hc n) as [-> _]; [|done]. apply (columns_of_arg _ _ (EField n)); [exact Hy|by left].
    - by rewrite Hx. }
  destruct args as [|x [|y [|z args]]]; [by destruct op| | |by destruct op].
  - destruct op; try done. cbn. by rewrite (Hx x) by (by left).
  - assert (x ∈ [x; y] /\ y ∈ [x; y]) as [? ?] by set_solver.
    rewrite !expr_at_call. rewrite (Hop x y), (Hop y x), (Hx x), (Hx y) by done. done.
Qed.

Context `{!BatchLaws}.

Lemma column_types b n : wf_batch b -> data_type <$> column_by_name b n = schema_types (rb_schema b) n.
Proof.
  intros Hw. unfold schema_types. destruct (field_with_name (rb_schema b) n) as [f|] eqn:Ef.
  - destruct (column_of_field b n f Hw Ef) as (a & -> & Ht & _). cbn. by rewrite Ht.
  - destruct (column_by_name b n) as [a|] eqn:Ea; [|done]. exfalso.
    rewrite column_by_name_index in Ea. rewrite field_with_name_index in Ef.
    apply bind_Some in Ea as (i & Hi & Ha). rewrite Hi in Ef. cbn in Ef.
    destruct Hw as (Hl & _ & _). apply lookup_lt_Some in Ha. apply lookup_ge_None in Ef. lia.
Qed.

Lemma field_cell_at b n i : field_cell b n i = mjoin (column_cells n b !! i).
Proof. unfold field_cell, column_cells. by destruct (column_by_name b n). Qed.

Lemma row_bool_at b e i :
  wf_batch b -> row_bool b e i = expr_at (schema_types (rb_schema b)) (fun c => column_cells c b) e i.
Proof.
  intros Hw. induction e as [n|s|op args IH] using expr_ind; [|done|].
  { cbn. by rewrite field_cell_at. }
  rewrite Forall_forall in IH. destruct args as [|x [|y [|z args]]]; [by destruct op| | |by destruct op].
  { destruct op; try done. cbn. by rewrite (IH x) by (by left). }
  assert (forall u v, u ∈ [x; y] -> operand_cell b u v i =
    operand_at (schema_types (rb_schema b)) (fun c => column_cells c b) u v i) as Hop.
  { intros [n|s|op' l] v Hu; cbn [operand_cell operand_at].
    - apply field_cell_at.
    - destruct v as [n|t|op' l]; [|done..]. cbn. by rewrite column_types.
    - by rewrite IH. }
  rewrite row_bool_call, expr_at_call. rewrite (Hop x y), (Hop y x), (IH x), (IH y) by set_solver. done.
Qed.

(** The masks of the batches of a table, one after the other. *)
Definition expr_mask (e : Expr) (bs : list RecordBatch) : list (option bool) := concat (map (fun b => row_mask b e) bs).

Lemma expr_mask_at s e bs :
  uniform s bs -> (forall col, col ∈ expr_columns e -> field_with_name s col <> None) ->
  expr_mask e bs = map (expr_at (schema_types s) (fun c => column_rows c bs) e) (seq 0 (total_rows bs)).
Proof.
  intros Hu Hc. unfold expr_mask. induction Hu as [|b bs [Hw Hs] _ IH]; [done|].
  assert (forall col, col ∈ expr_columns e -> length (column_cells col b) = rb_num_rows b) as Hlen.
  { intros col Hcol. destruct (field_with_name s col) as [f|] eqn:Ef; [|by destruct (Hc col)].
    eapply column_cells_length; [done|by rewrite Hs]. }
  unfold total_rows in *. cbn [map concat list_sum foldr]. rewrite map_seq_app, IH. f_equal.
  - unfold row_mask. apply map_ext_in. intros i Hi%in_seq. rewrite row_bool_at, Hs by done.
    apply expr_at_ext. intros col Hcol. split; [done|]. unfold column_rows. cbn.
    rewrite lookup_app_l; [done|]. rewrite Hlen by done. lia.
  - apply map_ext. intros i. apply expr_at_ext. intros col Hcol. split; [done|]. unfold column_rows. cbn.
    rewrite lookup_app_r by (rewrite Hlen by done; lia). f_equal. rewrite Hlen by done. lia.
Qed.

(** ** Filtering in two steps *)

Lemma column_rows_length s c bs :
  uniform s bs -> field_with_name s c <> None -> length (column_rows c bs) = total_rows bs.
Proof.
  intros Hu Hc. unfold column_rows, total_rows. induction Hu as [|b bs [Hw Hs] _ IH]; [done|]. cbn.
  rewrite length_app, IH. f_equal. destruct (field_with_name s c) as [f|] eqn:Ef; [|done].
  eapply column_cells_length; [done|by rewrite Hs].
Qed.

(** The rows of a table that an expression selects, in one column. *)
Definition expr_rows (c : string) (e : Expr) (bs : list RecordBatch) : list (option Cell) :=
  concat (map (fun b => select (column_cells c b) (row_mask b e)) bs).

Lemma expr_rows_select s c e bs :
  uniform s bs -> field_with_name s c <> None -> expr_rows c e bs = select (column_rows c bs) (expr_mask e bs).
Proof.
  intros Hu Hc. symmetry. apply select_concat. eapply Forall_impl; [exact Hu|]. intros b [Hw Hs]. cbn.
  rewrite row_mask_length. destruct (field_with_name s c) as [f|] eqn:Ef; [|done].
  eapply column_cells_length; [done|by rewrite Hs].
Qed.

(** A reader delivered, of the columns [keep], the rows of [gs] that [pushed]
    selects; of these the residual [r] selects what [e] selects of [gs]. *)
Lemma filtered_twice s keep e r (pushed : RecordBatch -> nat -> option bool) gs bs c :
  distinct_names s -> uniform s gs -> uniform (project_schema keep s) bs ->
  field_with_name s c <> None -> keep c = true ->
  (forall d, field_with_name s d <> None -> keep d = true ->
     column_rows d bs = concat (map (fun b => select (column_cells d b) (map (pushed b) (seq 0 (rb_num_rows b)))) gs)) ->
  (forall d, d ∈ expr_columns r -> keep d = true /\ field_with_name s d <> None) ->
  (forall b i, b ∈ gs -> row_bool b e i = Some true <-> pushed b i = Some true /\ row_bool b r i = Some true) ->
  expr_rows c r bs = expr_rows c e gs.
Proof.
  intros Hd Hug Hub Hc Hk Hrows Hr He. set (pm b := map (pushed b) (seq 0 (rb_num_rows b))).
  assert (forall d b, field_with_name s d <> None -> b ∈ gs -> length (column_cells d b) = rb_num_rows b) as Hcells.
  { intros d b Hfd Hb. destruct (field_with_name s d) as [f|] eqn:Ef; [|done].
    unfold uniform in Hug. rewrite Forall_forall in Hug. destruct (Hug b Hb) as [Hw Hs].
    eapply column_cells_length; [done|by rewrite Hs]. }
  assert (forall d, field_with_name s d <> None -> keep d = true ->
    column_rows d bs = select (column_rows d gs) (concat (map pm gs))) as Hsel.
  { intros d Hfd Hkd. rewrite Hrows by done. symmetry. apply select_concat, Forall_forall. intros b Hb.
    unfold pm. rewrite length_map, length_seq. by apply Hcells. }
  assert (forall d, field_with_name s d <> None -> keep d = true ->
    field_with_name (project_schema keep s) d = field_with_name s d) as Hproj by (intros; by apply field_of_projection).
  assert (total_rows bs = length (select (seq 0 (total_rows gs)) (concat (map pm gs)))) as Htotal.
  { rewrite <-(column_rows_length _ c bs Hub) by (by rewrite Hproj). rewrite Hsel by done.
    rewrite <-(column_rows_length _ c gs Hug) by done. pose proof (f_equal length (select_lookups (column_rows c gs) (concat (map pm gs)))) as E.
    by rewrite !length_map in E. }
  assert (expr_mask r bs = concat (map (fun b => select (row_mask b r) (pm b)) gs)) as Hmask.
  { rewrite (expr_mask_at _ r bs Hub) by (intros d Hin; destruct (Hr d Hin) as [Hkd Hfd]; by rewrite Hproj).
    rewrite Htotal. rewrite (map_selected (expr_at (schema_types s) (fun c => column_rows c gs) r)).
    - rewrite <-(expr_mask_at s r gs) by (done || by intros d Hin; apply Hr). apply select_concat, Forall_forall.
      intros b _. unfold pm. by rewrite row_mask_length, length_map, length_seq.
    - intros i j Hj. apply expr_at_ext. intros d Hin. destruct (Hr d Hin) as [Hkd Hfd]. split.
      + unfold schema_types. by rewrite Hproj.
      + rewrite Hsel by done. eapply select_lookup; [|exact Hj]. by apply (column_rows_length s). }
  rewrite (expr_rows_select (project_schema keep s)) by (by rewrite ?Hproj). rewrite Hmask, Hrows by done. unfold expr_rows.
  rewrite select_concat.
  - f_equal. apply map_ext_in. intros b Hb%list_elem_of_In. unfold row_mask. symmetry. apply select_twice; [|by intros; apply He].
    by rewrite length_seq, Hcells.
  - apply Forall_forall. intros b Hb. fold (pm b). rewrite !select_length; [done|..]; unfold pm;
      by rewrite ?row_mask_length, length_map, length_seq, ?Hcells.
Qed.

End cells.
