(* ===== verification/Scanner.v ===== *)
(** * Scanning a dataset (lib/ex_arrow/scanner.ex, dataset.ex, dataset/fragment.ex)

    [Scanner.new], [Scanner.to_stream] and the stream behind it: an Agent whose
    state is updated by atomic functions ([ensure_open], [take_inner_batch],
    [advance], [finish_scan]), which [do_next] composes in the caller's process.
    [Panic] is an exception in the Agent's process, which ends it.  [disk] is
    the result of opening the file at a path.  Telemetry is left out, but for
    the number of [:stop] events. *)

From S2P Require Import Prelude Float Utf8 Term Arrow Stream Elixir Compute Expression Parquet ParquetOpts Ipc ScanPlan.

(** ** Datasets *)

Inductive Format := FmtParquet | FmtIpc.

Record Fragment := mkFragment {
  fr_path : string;
  fr_format : Format;
  fr_values : PartitionValues;
  fr_size : Z
}.

(** [:none] or [{:hive, schema}]. *)
Record Dataset := mkDataset {
  ds_format : Format;
  ds_partitioning : option (list (string * string));
  ds_root : string;
  ds_fragments : list Fragment;
  ds_schema : Schema
}.

(** ** Building a scanner *)

Record Scanner := mkScanner {
  sc_dataset : Dataset;
  sc_columns : option (list string);
  sc_filter : option ScanFilter;
  sc_batch_size : option Z;
  sc_partition_keys : list string
}.

Record ScannerOpts := mkScannerOpts {
  so_columns : option (list string);
  so_filter : option ScanFilter;
  so_batch_size : option Z
}.

Inductive ScanError := SeMessage (msg : string) | SeValidate (e : ValidateError).

Definition fetch_columns (cols : option (list string)) : res ScanError (option (list string)) :=
  match cols with
  | Some [] => Err (SeMessage "columns must be a non-empty list of strings")
  | cols => Ok cols
  end.

Definition fetch_batch_size (n : option Z) : res ScanError (option Z) :=
  match n with
  | Some n => if 0 <? n then Ok (Some n) else Err (SeMessage "batch_size must be a positive integer")
  | None => Ok None
  end.

(** [Schema.fields/1]: name and type atom of each field. *)
Definition schema_signature (s : Schema) : list (string * string) :=
  map (fun f => (field_name f, data_type_to_atom (field_type f))) (fields s).

(** [Map.new]: the last of several entries of a key stays. *)
Definition map_new (l : list (string * string)) : gmap string string := list_to_map (rev l).

Definition partition_field_types (d : Dataset) : gmap string string :=
  match ds_partitioning d with Some schema => map_new schema | None => ∅ end.

Definition validate_expression (expr : Node) (d : Dataset) : res ScanError Node :=
  map_err SeValidate (validate expr (partition_field_types d ∪ map_new (schema_signature (ds_schema d)))).

Definition fetch_filter (filter : option ScanFilter) (d : Dataset) : res ScanError (option ScanFilter) :=
  match filter with
  | None => Ok None
  | Some (SfExpr expr) => e ← validate_expression expr d; Ok (Some (SfExpr e))
  | Some (SfTuple tuple) =>
      o ← map_err SeMessage (validate_read (mkReadKeywords None None (Some (FiltersTuple tuple))));
      Ok (SfTuple <$> op_filters o)
  end.

Definition partition_keys (d : Dataset) : list string :=
  match ds_partitioning d with Some schema => map fst schema | None => [] end.

Definition new_scanner (d : Dataset) (opts : ScannerOpts) : res ScanError Scanner :=
  columns ← fetch_columns (so_columns opts);
  filter ← fetch_filter (so_filter opts) d;
  batch_size ← fetch_batch_size (so_batch_size opts);
  Ok (mkScanner d columns filter batch_size (partition_keys d)).

(** ** The stream's state *)

Record Stats := mkStats {
  fragments_discovered : nat;
  fragments_pruned_partition : nat;
  fragments_selected : nat;
  fragments_scanned : nat;
  st_row_groups_selected : Z;
  st_row_groups_skipped : Z;
  rows_emitted : Z
}.

Section scan.
Context `{Rustler Term} `{Arrow, ParquetCrate, IpcCrate}.
Context (disk : string -> res string bytes).

(** The reader of the open fragment; for IPC with the next index and the count. *)
Inductive Inner :=
| InParquet (s : ExArrowParquetStream)
| InIpc (file : ExArrowIpcFile) (index count : Z).

(** [current_inner], [current_path] and [current_fragment] are set and cleared
    together. *)
Record ScanState := mkScan {
  remaining : list Fragment;
  s_format : Format;
  s_columns : option (list string);
  read_opts : ReadOptions;
  residual : option Node;
  current : option (Inner * Fragment);
  schema_sig : option (list (string * string));
  opened_paths : list string;
  stats : Stats;
  scan_finished : bool;
  stop_events : nat
}.

Definition set_current (c : option (Inner * Fragment)) (st : ScanState) : ScanState :=
  mkScan (remaining st) (s_format st) (s_columns st) (read_opts st) (residual st) c (schema_sig st)
    (opened_paths st) (stats st) (scan_finished st) (stop_events st).

Definition set_remaining (l : list Fragment) (st : ScanState) : ScanState :=
  mkScan l (s_format st) (s_columns st) (read_opts st) (residual st) (current st) (schema_sig st)
    (opened_paths st) (stats st) (scan_finished st) (stop_events st).

Definition set_sig (sig : list (string * string)) (st : ScanState) : ScanState :=
  mkScan (remaining st) (s_format st) (s_columns st) (read_opts st) (residual st) (current st) (Some sig)
    (opened_paths st) (stats st) (scan_finished st) (stop_events st).

Definition set_stats (s : Stats) (st : ScanState) : ScanState :=
  mkScan (remaining st) (s_format st) (s_columns st) (read_opts st) (residual st) (current st) (schema_sig st)
    (opened_paths st) s (scan_finished st) (stop_events st).

(** A fragment was opened: its reader, its path and the statistics. *)
Definition opened (inner : Inner) (frag : Fragment) (selected skipped : Z) (st : ScanState) : ScanState :=
  let s := stats st in
  mkScan (remaining st) (s_format st) (s_columns st) (read_opts st) (residual st) (Some (inner, frag)) (schema_sig st)
    (fr_path frag :: opened_paths st)
    (mkStats (fragments_discovered s) (fragments_pruned_partition s) (fragments_selected s) (S (fragments_scanned s))
       (st_row_groups_selected s + selected) (st_row_groups_skipped s + skipped) (rows_emitted s))
    (scan_finished st) (stop_events st).

Definition emitted (rows : nat) (st : ScanState) : ScanState :=
  let s := stats st in
  set_stats (mkStats (fragments_discovered s) (fragments_pruned_partition s) (fragments_selected s) (fragments_scanned s)
               (st_row_groups_selected s) (st_row_groups_skipped s) (rows_emitted s + Z.of_nat rows)) st.

(** ** Starting *)

Definition build_read_opts (sc : Scanner) (pushed : option Filter) : res ScanError ReadOptions :=
  match ds_format (sc_dataset sc) with
  | FmtParquet =>
      map_err SeMessage (validate_read (mkReadKeywords (sc_columns sc) None (FiltersTuple <$> pushed)))
  | FmtIpc => Ok no_read_options
  end.

Definition initial_stats (sc : Scanner) : Stats :=
  let fragments := ds_fragments (sc_dataset sc) in
  let '(selected, pruned) := select_fragments fr_values fragments (sc_filter sc) in
  mkStats (length fragments) pruned (length selected) 0 0 0 0.

Definition to_stream (sc : Scanner) : res ScanError ScanState :=
  let '(pushed, resid) := compile (sc_filter sc) (sc_partition_keys sc) in
  opts ← build_read_opts sc pushed;
  let '(selected, _) := select_fragments fr_values (ds_fragments (sc_dataset sc)) (sc_filter sc) in
  Ok (mkScan selected (ds_format (sc_dataset sc)) (sc_columns sc) opts resid None None [] (initial_stats sc) false 0).

(** ** Opening a fragment *)

Definition prefix_path (path msg : string) : string :=
  if string_contains msg path then msg else path +:+ ": " +:+ msg.

(** The message of an error reply of a NIF. *)
Definition error_text (e : NifError) : string := match e with EMsg m => m | ESql _ _ m => m end.

Definition sig_eqb (a b : list (string * string)) : bool := bool_decide (a = b).

(** [inspect] of the signatures is left out of the message. *)
Definition accept_schema_sig (st : ScanState) (path : string) (sig : list (string * string))
    : res string ScanState :=
  match schema_sig st with
  | None => Ok (set_sig sig st)
  | Some sig' => if sig_eqb sig' sig then Ok st else Err ("schema mismatch in " +:+ path)
  end.

Inductive EnsureReply := EnOpen | EnExhausted | EnError (msg : string).

Definition open_parquet (st : ScanState) (frag : Fragment) : res string (EnsureReply * ScanState) :=
  let path := fr_path frag in
  match reader_from_file (disk path) (as_keywords (read_opts st)) with
  | RErr e => Ok (EnError (prefix_path path (error_text e)), st)
  | ROk inner =>
      match accept_schema_sig st path (schema_signature (ps_schema inner)) with
      | Ok st2 => Ok (EnOpen, opened (InParquet inner) frag (row_groups_selected inner) (row_groups_skipped inner) st2)
      | Err msg => Ok (EnError msg, st)
      | Panic s => Panic s
      end
  | RRaise s => Panic s
  | _ => Panic "case clause"
  end.

Definition open_ipc (st : ScanState) (frag : Fragment) : res string (EnsureReply * ScanState) :=
  let path := fr_path frag in
  match ipc_file_open (disk path) with
  | RErr e => Ok (EnError (prefix_path path (error_text e)), st)
  | ROk file =>
      match ipc_file_schema file with
      | RErr e => Ok (EnError (prefix_path path (error_text e)), st)
      | RBare sch =>
          match accept_schema_sig st path (schema_signature sch) with
          | Ok st2 => Ok (EnOpen, opened (InIpc file 0 (ipc_file_num_batches file)) frag 0 0 st2)
          | Err msg => Ok (EnError msg, st)
          | Panic s => Panic s
          end
      | RRaise s => Panic s
      | _ => Panic "case clause"
      end
  | RRaise s => Panic s
  | _ => Panic "case clause"
  end.

Definition open_fragment (st : ScanState) (frag : Fragment) : res string (EnsureReply * ScanState) :=
  match fr_format frag with
  | FmtParquet => open_parquet st frag
  | FmtIpc => open_ipc st frag
  end.

Definition ensure_open (st : ScanState) : res string (EnsureReply * ScanState) :=
  match current st with
  | Some _ => Ok (EnOpen, st)
  | None =>
      match remaining st with
      | [] => Ok (EnExhausted, st)
      | frag :: _ => open_fragment st frag
      end
  end.

(** ** Taking a batch *)

Inductive InnerReply := InDone | InError (msg : string) | InBatch (b : RecordBatch).

(** The reader behind a handle moves on whatever the reply is; the index of an
    IPC file only with a batch. *)
Definition next_inner (inner : Inner) : res string (InnerReply * Inner) :=
  match inner with
  | InParquet s =>
      let '(r, m) := parquet_stream_next (ps_reader s) in
      let inner' := InParquet (mkParquetStream (ps_schema s) m (row_groups_total s) (row_groups_selected s)
                                 (row_groups_skipped s)) in
      match r with
      | ROk b => Ok (InBatch b, inner')
      | RErr e => Ok (InError (error_text e), inner')
      | RAtom _ => Ok (InDone, inner')
      | RRaise s => Panic s
      | RBare _ => Panic "case clause"
      end
  | InIpc file index count =>
      if count <=? index then Ok (InDone, inner)
      else
        let '(r, file') := ipc_file_get_batch file index in
        match r with
        | ROk b => Ok (InBatch b, InIpc file' (index + 1) count)
        | RErr e => Ok (InError (error_text e), InIpc file' index count)
        | RRaise s => Panic s
        | _ => Panic "case clause"
        end
  end.

(** A reply of a compute NIF in the Agent. *)
Definition nif_result (r : Reply RecordBatch) : res string RecordBatch :=
  match r with
  | ROk b => Ok b
  | RErr e => Err (error_text e)
  | RRaise s => Panic s
  | _ => Panic "case clause"
  end.

Definition maybe_project_ipc (batch : RecordBatch) (st : ScanState) : res string RecordBatch :=
  match s_format st, s_columns st with
  | FmtIpc, Some cols => nif_result (compute_project batch cols)
  | _, _ => Ok batch
  end.

Definition maybe_residual (batch : RecordBatch) (st : ScanState) (frag : Fragment) : res string RecordBatch :=
  match residual st with
  | None => Ok batch
  | Some expr => nif_result (compute_filter_node batch (bind_partitions expr (fr_values frag)))
  end.

Definition postprocess (batch : RecordBatch) (st : ScanState) (frag : Fragment) : res string RecordBatch :=
  b ← maybe_project_ipc batch st;
  maybe_residual b st frag.

Inductive TakeReply := TkAdvance | TkError (msg : string) | TkSkip | TkBatch (b : RecordBatch) (path : string).

(** [Stream.next(nil)] has no clause. *)
Definition take_inner_batch (st : ScanState) : res string (TakeReply * ScanState) :=
  match current st with
  | None => Panic "no function clause matching in ExArrow.Stream.next/1"
  | Some (inner, frag) =>
      let path := fr_path frag in
      '(r, inner') ← next_inner inner;
      let st' := set_current (Some (inner', frag)) st in
      match r with
      | InDone => Ok (TkAdvance, set_current None st)
      | InError msg => Ok (TkError (prefix_path path msg), st')
      | InBatch batch =>
          match postprocess batch st' frag with
          | Ok out =>
              if (rb_num_rows out =? 0)%nat then Ok (TkSkip, st')
              else Ok (TkBatch out path, emitted (rb_num_rows out) st')
          | Err msg => Ok (TkError (prefix_path path msg), st')
          | Panic s => Panic s
          end
      end
  end.

(** ** Advancing and finishing *)

(** [true] is [:ok]: there is another fragment. *)
Definition advance (st : ScanState) : bool * ScanState :=
  match remaining st with
  | [] => (false, set_current None st)
  | _ :: rest => (match rest with [] => false | _ => true end, set_current None (set_remaining rest st))
  end.

Definition finish_scan (st : ScanState) : ScanState :=
  if scan_finished st then st
  else mkScan (remaining st) (s_format st) (s_columns st) (read_opts st) (residual st) (current st) (schema_sig st)
         (opened_paths st) (stats st) true (S (stop_events st)).

(** ** [Stream.next] *)

Inductive NextReply := NxBatch (b : RecordBatch) (path : string) | NxExhausted | NxError (msg : string).

(** One call recurses over batches without rows and over the fragments' ends. *)
Fixpoint do_next (fuel : nat) (st : ScanState) : res string (NextReply * ScanState) :=
  match fuel with
  | O => Panic "out of fuel"
  | S fuel =>
      '(r, st) ← ensure_open st;
      match r with
      | EnExhausted => Ok (NxExhausted, finish_scan st)
      | EnError msg => Ok (NxError msg, finish_scan st)
      | EnOpen =>
          '(t, st) ← take_inner_batch st;
          match t with
          | TkBatch b path => Ok (NxBatch b path, st)
          | TkError msg => Ok (NxError msg, st)
          | TkSkip => do_next fuel st
          | TkAdvance =>
              let '(more, st) := advance st in
              if more then do_next fuel st else Ok (NxExhausted, finish_scan st)
          end
      end
  end.

(** [n] calls in a row, each with fuel [fuel]. *)
Fixpoint scan (fuel n : nat) (st : ScanState) : res string (list NextReply * ScanState) :=
  match n with
  | O => Ok ([], st)
  | S n =>
      '(r, st) ← do_next fuel st;
      '(rs, st) ← scan fuel n st;
      Ok (r :: rs, st)
  end.

(** [Scanner.stream_schema]. *)
Definition stream_schema (st : ScanState) : res string ((Schema + string) * ScanState) :=
  '(r, st) ← ensure_open st;
  match r with
  | EnExhausted => Ok (inr "dataset stream exhausted", st)
  | EnError msg => Ok (inr msg, st)
  | EnOpen =>
      match current st with
      | None => Ok (inr "dataset stream has no open fragment", st)
      | Some (InParquet s, _) => Ok (inl (ps_schema s), st)
      | Some (InIpc file _ _, _) =>
          match ipc_file_schema file with
          | RBare sch => Ok (inl sch, st)
          | RErr e => Ok (inr (error_text e), st)
          | RRaise s => Panic s
          | _ => Panic "case clause"
          end
      end
  end.

End scan.
