(* ===== verification/ScannerFacts.v ===== *)
(** * Facts about scanning a dataset

    One call of [Stream.next] on the state of a scan: what it delivers when
    every selected fragment opens and reads ([pending]), and what it keeps of
    the accounts whatever happens ([accounts]). *)

From S2P Require Import Prelude Float Utf8 Term Arrow Stream Elixir Compute Expression Parquet ParquetOpts Ipc IpcRound ScanPlan Scanner.

Section facts.
Context `{Rustler Term} `{Arrow, ParquetCrate, IpcCrate}.
Context (disk : string -> res string bytes).

Notation open_fragment := (open_fragment disk).
Notation ensure_open := (ensure_open disk).
Notation do_next := (do_next disk).

(** ** Readers *)

(** The reader of a fragment gives these batches and then ends. *)
Inductive inner_gives : Inner -> list RecordBatch -> Prop :=
| gives_end inner inner' : next_inner inner = Ok (InDone, inner') -> inner_gives inner []
| gives_batch inner b inner' bs :
    next_inner inner = Ok (InBatch b, inner') -> inner_gives inner' bs -> inner_gives inner (b :: bs).

Lemma parquet_gives s r bs : ps_reader s = new_mutex r -> reads r bs -> inner_gives (InParquet s) bs.
Proof.
  revert s r. induction bs as [|b bs IH]; intros s r Hm [He Hi]; cbn in He, Hi.
  - destruct (iter_next r) as [[x|] r'] eqn:Er; [done|]. econstructor. cbn. rewrite Hm.
    unfold parquet_stream_next, next_reply. cbn. by rewrite Er.
  - destruct (iter_next r) as [[x|] r'] eqn:Er; [|done]. injection Hi as -> Hi.
    eapply gives_batch; [|eapply (IH _ r')].
    + cbn. rewrite Hm. unfold parquet_stream_next, next_reply. cbn. by rewrite Er.
    + done.
    + by split.
Qed.

(** ** One plan *)

(** The parts of the state that a scan never changes. *)
Definition same_plan (st st' : ScanState) : Prop :=
  s_format st' = s_format st /\ s_columns st' = s_columns st /\ read_opts st' = read_opts st /\ residual st' = residual st.

#[export] Instance same_plan_refl : Reflexive same_plan.
Proof. by intros st. Qed.

Lemma same_plan_trans st1 st2 st3 : same_plan st1 st2 -> same_plan st2 st3 -> same_plan st1 st3.
Proof. intros (? & ? & ? & ?) (? & ? & ? & ?). split_and!; congruence. Qed.

Lemma postprocess_plan b st st' frag : same_plan st st' -> postprocess (Term := Term) b st' frag = postprocess b st frag.
Proof. intros (E1 & E2 & E3 & E4). unfold postprocess, maybe_project_ipc, maybe_residual. by rewrite E1, E2, E4. Qed.

Lemma set_sig_same sig st : schema_sig st = Some sig -> set_sig sig st = st.
Proof. destruct st. cbn. by intros ->. Qed.

Definition sig_allows (sig : list (string * string)) (st : ScanState) : Prop :=
  schema_sig st = None \/ schema_sig st = Some sig.

Lemma accept_sig sig st path : sig_allows sig st -> accept_schema_sig st path sig = Ok (set_sig sig st).
Proof.
  unfold accept_schema_sig, sig_eqb. intros [-> | Hs]; [done|]. rewrite Hs. rewrite bool_decide_eq_true_2 by done.
  by rewrite set_sig_same.
Qed.

(** A fragment opens, with the signature of the scan. *)
Definition opens (st : ScanState) (sig : list (string * string)) (frag : Fragment) (inner : Inner) : Prop :=
  exists selected skipped, forall st', same_plan st st' -> sig_allows sig st' ->
    open_fragment st' frag = Ok (EnOpen, opened inner frag selected skipped (set_sig sig st')).

Lemma parquet_opens st frag s :
  fr_format frag = FmtParquet ->
  reader_from_file (Term := Term) (disk (fr_path frag)) (as_keywords (read_opts st)) = ROk s ->
  opens st (schema_signature (ps_schema s)) frag (InParquet s).
Proof.
  intros Hf Hr. exists (row_groups_selected s), (row_groups_skipped s). intros st' (_ & _ & Hro & _) Hs.
  unfold Scanner.open_fragment, open_parquet. rewrite Hf, Hro, Hr. by rewrite accept_sig.
Qed.

(** A fragment of the plan: its reader's batches, and what becomes of them. *)
Record Delivery := mkDelivery { de_batches : list RecordBatch; de_outs : list RecordBatch }.

Definition fragment_gives (st : ScanState) (sig : list (string * string)) (frag : Fragment) (d : Delivery) : Prop :=
  (exists inner, opens st sig frag inner /\ inner_gives inner (de_batches d)) /\
  Forall2 (fun b o => postprocess (Term := Term) b st frag = Ok o) (de_batches d) (de_outs d).

Definition nonempty (o : RecordBatch) : bool := negb (rb_num_rows o =? 0)%nat.

Definition replies (frag : Fragment) (outs : list RecordBatch) : list NextReply :=
  map (fun o => NxBatch o (fr_path frag)) (List.filter nonempty outs).

Definition all_replies (frags : list Fragment) (ds : list Delivery) : list NextReply :=
  concat (zip_with (fun frag d => replies frag (de_outs d)) frags ds).

(** ** What a scan has yet to deliver *)

Section delivery.
Context (st0 : ScanState) (sig : list (string * string)).

Inductive pending : ScanState -> list NextReply -> nat -> Prop :=
| pending_closed st ds :
    same_plan st0 st -> sig_allows sig st -> current st = None ->
    Forall2 (fragment_gives st0 sig) (remaining st) ds ->
    pending st (all_replies (remaining st) ds) (S (list_sum (map (fun d => S (length (de_batches d))) ds)))
| pending_open st inner frag frags bs outs ds :
    same_plan st0 st -> schema_sig st = Some sig -> current st = Some (inner, frag) -> remaining st = frag :: frags ->
    inner_gives inner bs -> Forall2 (fun b o => postprocess (Term := Term) b st0 frag = Ok o) bs outs ->
    Forall2 (fragment_gives st0 sig) frags ds ->
    pending st (replies frag outs ++ all_replies frags ds)
      (S (S (length bs + list_sum (map (fun d => S (length (de_batches d))) ds)))).

Lemma finish_pending st l w : pending st l w -> pending (finish_scan st) l w.
Proof.
  intros Hp. unfold finish_scan. destruct (scan_finished st); [done|].
  destruct Hp as [st ds Hsp Hsig Hc Hf|st inner frag frags bs outs ds Hsp Hsig Hc Hr Hi Ho Hf].
  - exact (pending_closed (mkScan (remaining st) (s_format st) (s_columns st) (read_opts st) (residual st) (current st)
      (schema_sig st) (opened_paths st) (stats st) true (S (stop_events st))) ds Hsp Hsig Hc Hf).
  - exact (pending_open (mkScan (remaining st) (s_format st) (s_columns st) (read_opts st) (residual st) (current st)
      (schema_sig st) (opened_paths st) (stats st) true (S (stop_events st))) inner frag frags bs outs ds Hsp Hsig Hc Hr Hi Ho Hf).
Qed.

(** The next call delivers the next reply; at the end the scan is exhausted. *)
Definition delivers_next (r : res string (NextReply * ScanState)) (l : list NextReply) (w : nat) : Prop :=
  exists st' w', (w' <= w)%nat /\
    match l with
    | [] => r = Ok (NxExhausted, st') /\ pending st' [] w'
    | x :: l' => r = Ok (x, st') /\ pending st' l' w'
    end.

Lemma delivers_weaken r l w w' : (w <= w')%nat -> delivers_next r l w -> delivers_next r l w'.
Proof. intros Hw (st' & v & Hv & Hd). exists st', v. split; [lia|done]. Qed.

(** With an open fragment. *)
Lemma next_open fuel st inner frag frags bs outs ds :
  (forall st' l w, pending st' l w -> (w <= fuel)%nat -> delivers_next (do_next fuel st') l w) ->
  same_plan st0 st -> schema_sig st = Some sig -> current st = Some (inner, frag) -> remaining st = frag :: frags ->
  inner_gives inner bs -> Forall2 (fun b o => postprocess (Term := Term) b st0 frag = Ok o) bs outs ->
  Forall2 (fragment_gives st0 sig) frags ds ->
  (S (length bs + list_sum (map (fun d => S (length (de_batches d))) ds)) <= fuel)%nat ->
  delivers_next (do_next (S fuel) st) (replies frag outs ++ all_replies frags ds)
    (S (S (length bs + list_sum (map (fun d => S (length (de_batches d))) ds)))).
Proof.
  intros IH Hsp Hsig Hc Hr Hi Ho Hf Hw. set (wd := list_sum _) in *.
  cbn [Scanner.do_next]. unfold Scanner.ensure_open. rewrite Hc. cbn [mbind res_bind].
  unfold take_inner_batch. rewrite Hc.
  destruct Hi as [inner inner' Hn|inner b inner' bs Hn Hi]; rewrite Hn; cbn [mbind res_bind].
  - inversion Ho; subst. cbn [replies map List.filter app]. unfold advance. cbn [remaining set_current]. rewrite Hr.
    assert (pending (set_current None (set_remaining frags (set_current None st))) (all_replies frags ds) (S wd)) as Hp.
    { apply (pending_closed (set_current None (set_remaining frags (set_current None st)))); [done|by right|done|done]. }
    destruct frags as [|f2 frags].
    + inversion Hf; subst. eexists _, (S wd). split; [lia|]. cbn. split; [reflexivity|]. by apply finish_pending.
    + cbn -[all_replies]. eapply delivers_weaken; [|apply IH; [exact Hp|cbn in *; lia]]. lia.
  - inversion Ho as [|? o ? outs' Hb Ho']; subst.
    set (st1 := set_current (Some (inner', frag)) st).
    assert (same_plan st0 st1) as Hsp1 by done.
    rewrite (postprocess_plan b st0 st1 frag Hsp1), Hb.
    assert (forall st2, same_plan st0 st2 -> schema_sig st2 = Some sig -> current st2 = Some (inner', frag) ->
      remaining st2 = frag :: frags -> pending st2 (replies frag outs' ++ all_replies frags ds) (S (S (length bs + wd)))) as Hp.
    { intros. by eapply pending_open. }
    destruct (rb_num_rows o =? 0)%nat eqn:Ez; cbn [mbind res_bind].
    + assert (replies frag (o :: outs') = replies frag outs') as ->.
      { unfold replies. cbn. unfold nonempty at 1. by rewrite Ez. }
      eapply delivers_weaken; [|apply IH; [by apply Hp|cbn in *; lia]]. cbn. lia.
    + assert (replies frag (o :: outs') = NxBatch o (fr_path frag) :: replies frag outs') as ->.
      { unfold replies. cbn. unfold nonempty at 1. by rewrite Ez. }
      eexists _, _. split; [|split; [reflexivity|by apply Hp]]. cbn. lia.
Qed.

Lemma next_pending fuel st l w : pending st l w -> (w <= fuel)%nat -> delivers_next (do_next fuel st) l w.
Proof.
  revert st l w. induction fuel as [|fuel IH]; intros st l w Hp Hw; [inversion Hp; lia|].
  destruct Hp as [st ds Hsp Hsig Hc Hf|st inner frag frags bs outs ds Hsp Hsig Hc Hr Hi Ho Hf].
  - destruct (remaining st) as [|frag frags] eqn:Hr; inversion Hf as [|? d ? ds' Hd Hf']; subst.
    + exists (finish_scan st), 1%nat. split; [cbn; lia|]. split.
      * cbn. unfold Scanner.ensure_open. by rewrite Hc, Hr.
      * apply finish_pending. pose proof (pending_closed st [] Hsp Hsig Hc) as P. rewrite Hr in P. by apply P.
    + destruct Hd as [(inner & (selected & skipped & Hopen) & Hi) Ho]. specialize (Hopen st Hsp Hsig).
      set (st1 := opened inner frag selected skipped (set_sig sig st)) in *.
      assert (do_next (S fuel) st = do_next (S fuel) st1) as ->.
      { cbn [Scanner.do_next]. unfold Scanner.ensure_open at 1. rewrite Hc, Hr, Hopen. cbn [mbind res_bind].
        unfold Scanner.ensure_open. done. }
      unfold all_replies. cbn [zip_with concat map list_sum foldr].
      apply (delivers_weaken _ _ (S (S (length (de_batches d) + list_sum (map (fun d => S (length (de_batches d))) ds'))))).
      { unfold list_sum. lia. }
      eapply next_open; try done. cbn in Hw. unfold list_sum in *. lia.
  - eapply next_open; try done. lia.
Qed.

(** Draining: the pending replies in order, then exhausted for ever. *)
Lemma scan_pending fuel st l w k :
  pending st l w -> (w <= fuel)%nat ->
  exists st' w', scan disk fuel (length l + k) st = Ok (l ++ replicate k NxExhausted, st') /\ pending st' [] w'.
Proof.
  intros Hp Hw. remember (length l + k)%nat as n eqn:Hn. revert st l w k Hp Hw Hn.
  induction n as [|n IH]; intros st l w k Hp Hw Hn.
  - destruct l, k; try done. by exists st, w.
  - destruct (next_pending fuel st l w Hp Hw) as (st1 & w1 & Hw1 & Hx). cbn [scan]. destruct l as [|x l].
    + destruct k as [|k]; [done|]. destruct Hx as [-> Hp1]. cbn [mbind res_bind].
      destruct (IH st1 [] w1 k Hp1 ltac:(lia) ltac:(cbn in *; lia)) as (st2 & w2 & -> & Hp2). by exists st2, w2.
    + destruct Hx as [-> Hp1]. cbn [mbind res_bind].
      destruct (IH st1 l w1 k Hp1 ltac:(lia) ltac:(cbn in *; lia)) as (st2 & w2 & -> & Hp2). by exists st2, w2.
Qed.

End delivery.

(** ** Accounts *)

(** [selected] are the fragments of the plan and [k] of them are done with. *)
Record accounts (selected : list Fragment) (rows : Z) (st : ScanState) : Prop := {
  ac_remaining : exists k, remaining st = drop k selected /\ (k <= length selected)%nat /\
    match current st with
    | Some (_, frag) => (exists frags, remaining st = frag :: frags) /\ opened_paths st = rev (map fr_path (take (S k) selected))
    | None => opened_paths st = rev (map fr_path (take k selected))
    end;
  ac_scanned : fragments_scanned (stats st) = length (opened_paths st);
  ac_rows : rows_emitted (stats st) = rows;
  ac_stop : stop_events st = if scan_finished st then 1%nat else 0%nat
}.

Definition reply_rows (r : NextReply) : Z :=
  match r with NxBatch b _ => Z.of_nat (rb_num_rows b) | _ => 0 end.

(** The state of an exhausted scan: nothing is open and nothing remains. *)
Definition exhausted (st : ScanState) : Prop := current st = None /\ remaining st = [].

Lemma finish_accounts selected rows st : accounts selected rows st -> accounts selected rows (finish_scan st).
Proof.
  intros [Hr Hs Hw Hst]. unfold finish_scan. destruct (scan_finished st) eqn:E; [by split; rewrite ?E|].
  split; cbn; try done. by rewrite Hst.
Qed.

Lemma open_accounts selected rows st frag frags inner a b :
  accounts selected rows st -> current st = None -> remaining st = frag :: frags ->
  accounts selected rows (opened inner frag a b st).
Proof.
  intros [(k & Hr & Hk & Hc) Hs Hw Hst] Hn Hf. rewrite Hn in Hc.
  assert (selected !! k = Some frag) as Hl by (by rewrite <-(Nat.add_0_r k), <-lookup_drop, <-Hr, Hf).
  split; cbn; try done; [|by rewrite Hs]. exists k. split_and!; [done..|by eexists|].
  by rewrite Hc, (take_S_r _ _ _ Hl), map_app, rev_app_distr.
Qed.

Lemma sig_accounts selected rows st sig : accounts selected rows st -> accounts selected rows (set_sig sig st).
Proof. by intros [Hr Hs Hw Hst]. Qed.

Lemma accept_result st path sig st' :
  accept_schema_sig st path sig = Ok st' -> st' = st \/ st' = set_sig sig st.
Proof. unfold accept_schema_sig. repeat case_match; intros [= <-]; auto. Qed.

(** Opening a fragment, or not. *)
Lemma open_fragment_cases st frag r st' :
  open_fragment st frag = Ok (r, st') ->
  (exists inner a b, r = EnOpen /\ (st' = opened inner frag a b st \/ exists sig, st' = opened inner frag a b (set_sig sig st))) \/
  (exists msg, r = EnError msg /\ st' = st).
Proof.
  unfold Scanner.open_fragment, open_parquet, open_ipc. intros Ho.
  repeat case_match; simplify_eq; first [by right; eexists | left];
    match goal with E : accept_schema_sig _ _ _ = Ok _ |- _ => apply accept_result in E as [-> | ->] end;
    eexists _, _, _; (split; [done|]); first [by left | by right; eexists].
Qed.

Lemma ensure_accounts selected rows st r st' :
  accounts selected rows st -> ensure_open st = Ok (r, st') ->
  accounts selected rows st' /\
  match r with EnOpen => is_Some (current st') | EnExhausted => exhausted st' | EnError _ => True end.
Proof.
  intros Ha He. unfold Scanner.ensure_open in He. destruct (current st) as [c|] eqn:Hc; [injection He as <- <-; by rewrite Hc|].
  destruct (remaining st) as [|frag frags] eqn:Hr; [injection He as <- <-; by split|].
  apply open_fragment_cases in He as [(inner & a & b & -> & [-> | [sig ->]])|(msg & -> & ->)]; [..|done];
    (split; [|by eexists]); eapply open_accounts; try done; by apply sig_accounts.
Qed.

(** Taking a batch; at the end of a fragment, advancing too. *)
Lemma take_accounts selected rows st r st' :
  accounts selected rows st -> is_Some (current st) -> take_inner_batch (Term := Term) st = Ok (r, st') ->
  match r with
  | TkBatch b _ => accounts selected (rows + Z.of_nat (rb_num_rows b)) st' /\ (0 < rb_num_rows b)%nat
  | TkAdvance => accounts selected rows (snd (advance st')) /\ (fst (advance st') = false -> exhausted (snd (advance st')))
  | TkSkip | TkError _ => accounts selected rows st'
  end.
Proof.
  intros [(k & Hr & Hk & Hc) Hs Hw Hst] [[inner frag] Hcur] Ht. rewrite Hcur in Hc. destruct Hc as [[frags Hf] Ho].
  unfold take_inner_batch in Ht. rewrite Hcur in Ht. apply bind_Ok in Ht as ([i inner'] & _ & Ht).
  assert (accounts selected rows (set_current (Some (inner', frag)) st)) as Hkeep.
  { split; cbn; try done. exists k. split_and!; [done..|by eexists|done]. }
  destruct i as [|msg|b]; cbn in Ht; [|by injection Ht as <- <-|].
  - injection Ht as <- <-. unfold advance. cbn [remaining set_current]. rewrite Hf. cbn [snd fst]. split.
    + assert (frags = drop (S k) selected) as Hd by (by rewrite <-Nat.add_1_r, <-drop_drop, <-Hr, Hf).
      split; cbn; try done. exists (S k). split_and!; [done| |done].
      assert (length (drop k selected) = S (length frags)) as Hlen by (by rewrite <-Hr, Hf). rewrite length_drop in Hlen. lia.
    + by destruct frags.
  - destruct (postprocess b (set_current (Some (inner', frag)) st) frag) as [o|msg|]; [|by injection Ht as <- <-|done].
    destruct (Nat.eqb_spec (rb_num_rows o) 0); injection Ht as <- <-; [done|]. split; [|lia].
    destruct Hkeep as [Hr' Hs' Hw' Hst']. split; cbn in *; try done. lia.
Qed.

Lemma do_next_accounts fuel selected rows st r st' :
  accounts selected rows st -> do_next fuel st = Ok (r, st') ->
  accounts selected (rows + reply_rows r) st' /\
  match r with
  | NxBatch b _ => (0 < rb_num_rows b)%nat
  | NxExhausted => exhausted st' /\ scan_finished st' = true
  | NxError _ => True
  end.
Proof.
  assert (forall st, exhausted st -> exhausted (finish_scan st) /\ scan_finished (finish_scan st) = true) as Hfin.
  { clear. intros st Hst. unfold finish_scan. by destruct (scan_finished st) eqn:E. }
  revert rows st. induction fuel as [|fuel IH]; intros rows st Ha Hn; [done|]. cbn [Scanner.do_next] in Hn.
  apply bind_Ok in Hn as ([e st1] & He & Hn). destruct (ensure_accounts _ _ _ _ _ Ha He) as [Ha1 Hc].
  destruct e as [| |msg].
  - apply bind_Ok in Hn as ([t st2] & Ht & Hn). pose proof (take_accounts _ _ _ _ _ Ha1 Hc Ht) as Ha2.
    destruct t as [|msg| |b path].
    + destruct (advance st2) as [more st3]. cbn in Ha2. destruct Ha2 as [Ha3 Hex]. destruct more; [by apply (IH rows) in Hn|].
      injection Hn as <- <-. cbn. rewrite Z.add_0_r. split; [by apply finish_accounts|]. by apply Hfin, Hex.
    + injection Hn as <- <-. cbn. by rewrite Z.add_0_r.
    + by apply (IH rows) in Hn.
    + by injection Hn as <- <-.
  - injection Hn as <- <-. cbn. rewrite Z.add_0_r. split; [by apply finish_accounts|]. by apply Hfin.
  - injection Hn as <- <-. cbn. rewrite Z.add_0_r. split; [by apply finish_accounts|done].
Qed.

(** An exhausted scan stays exhausted, and nothing changes any more. *)
Lemma do_next_exhausted fuel st :
  exhausted st -> scan_finished st = true -> do_next (S fuel) st = Ok (NxExhausted, st).
Proof. intros [Hc Hr] Hf. cbn. unfold Scanner.ensure_open. rewrite Hc, Hr. cbn. unfold finish_scan. by rewrite Hf. Qed.

End facts.
