(* ===== verification/ScanRead.v ===== *)
(** * Reading one Parquet fragment of a scan

    From the options of the plan to the batches a fragment delivers: opening
    the file through [ExArrow.Parquet.Reader], the reader's filter, and the
    residual on every batch; together they select what the whole expression
    selects of the file's rows. *)

From S2P Require Import Prelude Float Utf8 Term Arrow ArrowRef Stream Elixir Compute ComputeFacts ComputeEval ComputeTyped ComputeThms Expression ExpressionThms Parquet ParquetFacts ParquetPruning ParquetThms ParquetRows ParquetRead ParquetOpts ParquetOptsThms Ipc IpcRound ScanPlan ScanPlanFacts ScanRows Scanner ScannerFacts.

(** Options that were normalised are accepted as they are. *)
Lemma validate_read_again kw o : validate_read kw = Ok o -> validate_read (as_keywords o) = Ok o.
Proof.
  unfold validate_read. intros (cs & Hc & (rg & Hr & (fs & Hf & [= <-])%bind_Ok)%bind_Ok)%bind_Ok. cbn.
  assert (validate_columns cs = Ok cs) as -> by (unfold validate_columns in *; repeat case_match; by simplify_eq). cbn.
  assert (validate_row_groups rg = Ok rg) as ->.
  { unfold validate_row_groups in *. repeat case_match; simplify_eq; try done; congruence. }
  cbn. destruct fs as [f|]; [|done]. cbn. assert (check_filter f = Ok ()) as ->; [|done].
  unfold validate_filters in Hf. destruct (kw_filters kw) as [[e|g]|]; [| |done].
  - destruct (to_parquet_filters e) as [[p|] [r|]]; try done. by apply bind_Ok in Hf as ([] & Hp & [= ->]).
  - by apply bind_Ok in Hf as ([] & Hp & [= ->]).
Qed.

(** A mask of all rows. *)
Lemma select_all {A} (l : list A) f n : (forall i, f i = Some true) -> (length l <= n)%nat -> select l (map f (seq 0 n)) = l.
Proof.
  intros Hf. generalize 0%nat as k. revert n. induction l as [|x l IH]; intros [|n] k Hl; cbn in *; try done; [lia|].
  rewrite Hf. f_equal. apply IH. lia.
Qed.

Lemma count_true_all f n : (forall i, f i = Some true) -> count_true (map f (seq 0 n)) = n.
Proof. intros Hf. generalize 0%nat as k. induction n as [|n IH]; intros k; [done|]. cbn. rewrite Hf. by rewrite IH. Qed.

(** A part of a filter on the rows of a fragment; no part holds everywhere. *)
Definition bound (pv : PartitionValues) (n : option Node) : Expr :=
  match n with Some n => embed (bind_node pv n) | None => EScalar (SBool true) end.

Section fragment.
Context `{RustlerLaws Term} `{Arrow, !CmpLaws, !BoolLaws, !BatchLaws} `{ParquetCrate, RL : !ReaderLaws} `{IpcCrate}.
Context (disk : string -> res string bytes).

(** ** The residual *)

(** The kernels evaluate the residual on every batch of the schema. *)
Definition residual_ready (s : Schema) (pv : PartitionValues) (resid : option Node) : Prop :=
  forall n, resid = Some n ->
    expr_in_range (embed (bind_node pv n)) /\
    forall b, wf_batch b -> rb_schema b = s -> well_typed b (embed (bind_node pv n)) = true.

Lemma column_cells_bound b c : wf_batch b -> (length (column_cells c b) <= rb_num_rows b)%nat.
Proof.
  intros (_ & Hl & _). unfold column_cells. destruct (column_by_name b c) as [a|] eqn:E; [|cbn; lia].
  rewrite column_by_name_index in E. apply bind_Some in E as (i & _ & Ha). rewrite cells_length.
  rewrite Forall_forall in Hl. rewrite (Hl a); [lia|]. by eapply list_elem_of_lookup_2.
Qed.

Lemma filtered_cells b b' mask c :
  rb_schema b' = rb_schema b ->
  Forall2 (fun c' c => data_type c' = data_type c /\ cells c' = select (cells c) mask) (rb_columns b') (rb_columns b) ->
  column_cells c b' = select (column_cells c b) mask.
Proof.
  intros Hs Hc. unfold column_cells. rewrite !column_by_name_index, Hs. destruct (index_of (rb_schema b) c) as [i|]; [|done].
  cbn. destruct (rb_columns b !! i) as [a|] eqn:E.
  - destruct (Forall2_lookup_r _ _ _ _ _ Hc E) as (a' & -> & _ & Ha). done.
  - apply lookup_ge_None in E. rewrite <-(Forall2_length _ _ _ Hc) in E. by rewrite (lookup_ge_None_2 _ _ E).
Qed.

Lemma postprocess_rows st frag b s :
  s_format st = FmtParquet -> wf_batch b -> rb_schema b = s -> residual_ready s (fr_values frag) (residual st) ->
  exists o, postprocess (Term := Term) b st frag = Ok o /\
    rb_num_rows o = count_true (row_mask b (bound (fr_values frag) (residual st))) /\
    forall c, column_cells c o = select (column_cells c b) (row_mask b (bound (fr_values frag) (residual st))).
Proof.
  intros Hf Hw Hs Hr. unfold postprocess, maybe_project_ipc, maybe_residual. rewrite Hf. cbn [mbind res_bind].
  destruct (residual st) as [n|] eqn:En; cbn [bound].
  - destruct (Hr n eq_refl) as [Hrange Ht]. specialize (Ht b Hw Hs).
    unfold bind_partitions. rewrite compute_filter_node_embed by (by apply in_range_valid).
    destruct (filter_expr_selects b _ Hw Ht Hrange) as (o & -> & Hn & Hso & Hc). exists o. split; [done|]. split; [done|].
    intros c. by apply filtered_cells.
  - exists b. split; [done|]. unfold row_mask. split; [by rewrite count_true_all|].
    intros c. symmetry. by apply select_all, column_cells_bound.
Qed.

(** Batches without a row hold no cell. *)
Lemma count_true_none {A} (l : list A) mask : count_true mask = 0%nat -> select l mask = [].
Proof. revert l. induction mask as [|[[]|] mask IH]; intros [|x l] Hm; cbn in *; try done; auto. Qed.

(** The residual on every batch of a reader. *)
Lemma postprocess_all st frag s bs :
  s_format st = FmtParquet -> uniform s bs -> residual_ready s (fr_values frag) (residual st) ->
  exists outs, Forall2 (fun b o => postprocess (Term := Term) b st frag = Ok o) bs outs /\
    forall c, column_rows c (List.filter nonempty outs) = expr_rows c (bound (fr_values frag) (residual st)) bs.
Proof.
  intros Hf Hu Hr. induction Hu as [|b bs [Hw Hs] Hu (outs & Ho & IH)]; [by exists []|].
  destruct (postprocess_rows st frag b s Hf Hw Hs Hr) as (o & Hb & Hn & Hc). exists (o :: outs). split; [by constructor|].
  intros c. unfold expr_rows. cbn [map concat]. rewrite <-Hc. fold (expr_rows c (bound (fr_values frag) (residual st)) bs).
  rewrite <-IH. cbn [List.filter]. unfold nonempty at 1. destruct (Nat.eqb_spec (rb_num_rows o) 0) as [Hz|Hz]; [|done].
  cbn. by rewrite Hc, count_true_none by congruence.
Qed.

(** ** The file *)

(** A file of schema [s] that the reader's options apply to: readable, with
    statistics that describe it. *)
Definition parquet_file (s : Schema) (o : ReadOpts) (data : bytes) : Prop :=
  exists builder, builder_try_new data = Ok builder /\ readable groups_of builder /\ b_schema builder = s /\
    described (b_metadata builder) (groups_of data) /\ is_ok (apply_read_opts builder o).

Lemma applied_filter_types s o data e :
  parquet_file s o data -> ro_filter o = Some e -> validate_filter_types s e = Ok ().
Proof.
  intros (builder & _ & _ & <- & _ & Ha) He. apply is_ok_spec in Ha as [r Ha]. unfold apply_read_opts in Ha.
  apply bind_Ok in Ha as ([] & Hv & _). by rewrite He in Hv.
Qed.

(** All the groups of a file, in order. *)
Lemma all_groups (groups gs : list RecordBatch) :
  Forall2 (fun i g => groups !! Z.to_nat i = Some g) (seqZ 0 (Z.of_nat (length groups))) gs -> gs = groups.
Proof.
  intros Hg. apply list_eq. intros i. pose proof (Forall2_length _ _ _ Hg) as Hl. rewrite length_seqZ in Hl.
  destruct (gs !! i) as [g|] eqn:E.
  - destruct (Forall2_lookup_r _ _ _ _ _ Hg E) as (z & Hz & Hi). apply lookup_seqZ in Hz as [-> _].
    by replace (Z.to_nat (0 + Z.of_nat i)) with i in Hi by lia.
  - symmetry. apply lookup_ge_None. apply lookup_ge_None in E. lia.
Qed.

(** What the reader's filter says of a row. *)
Definition read_filter (o : ReadOpts) (b : RecordBatch) (i : nat) : option bool :=
  match ro_filter o with Some e => filter_row b e i | None => Some true end.

(** The rows that the options of a plan select of a file. *)
Lemma read_rows o gs c :
  Forall wf_batch gs ->
  expected_rows o gs c = concat (map (fun b => select (column_cells c b) (map (read_filter o b) (seq 0 (rb_num_rows b)))) gs).
Proof.
  intros Hw. unfold expected_rows, selected_rows, read_filter, filter_mask. destruct (ro_filter o) as [e|]; [done|].
  unfold column_rows. f_equal. apply map_ext_in. intros b Hb%list_elem_of_In. symmetry. apply select_all; [done|].
  apply column_cells_bound. rewrite Forall_forall in Hw. by apply Hw.
Qed.

(** A fragment delivers the rows of its file that the whole expression [e] selects. *)
Lemma fragment_delivers st frag s kw ro data e :
  s_format st = FmtParquet -> fr_format frag = FmtParquet -> disk (fr_path frag) = Ok data ->
  validate_read kw = Ok (read_opts st) -> op_row_groups (read_opts st) = None ->
  options_in_range (read_opts st) -> rust_opts (read_opts st) = Some ro ->
  parquet_file s ro data -> (forall f, ro_filter ro = Some f -> ordinary f) ->
  residual_ready (project_schema (wants ro) s) (fr_values frag) (residual st) ->
  (forall d, d ∈ expr_columns (bound (fr_values frag) (residual st)) -> wants ro d = true /\ field_with_name s d <> None) ->
  (forall b i, wf_batch b -> rb_schema b = s ->
     row_bool b e i = Some true <->
     read_filter ro b i = Some true /\ row_bool b (bound (fr_values frag) (residual st)) i = Some true) ->
  exists d, fragment_gives disk st (schema_signature (project_schema (wants ro) s)) frag d /\
    forall c, field_with_name s c <> None -> wants ro c = true ->
      column_rows c (List.filter nonempty (de_outs d)) = expr_rows c e (groups_of data).
Proof.
  intros Hsf Hff Hdisk Hv Hrg Hrange Hro (builder & Hb & Hread & Hs & Hdesc & Happ) Hlit Hres Hcols He.
  apply validate_read_again in Hv. destruct (options_decoded (Term := Term) _ _ Hv Hrange) as (ro' & Hro' & Hdec).
  assert (ro' = ro) as -> by congruence. clear Hro'.
  destruct (open_reader data (read_options_term (read_opts st)) ro builder Hdec Hb Hread) as
    (stream & r & gs & bs & _ & Hopen & Hschema & Hm & Hreads & Hu & Hgs & Hrows); [by intros f Hf; auto|done|].
  rewrite Hs in *. destruct (fresh_builder data builder Hb) as (Hsrc & _ & _).
  pose proof Hread as (_ & Hd & Hlen & Hug). rewrite Hsrc, Hs in *.
  assert (ro_row_groups ro = None) as Hnone.
  { unfold rust_opts in Hro. destruct (op_filters (read_opts st)) as [f|]; [|by injection Hro as <-].
    apply bind_Some in Hro as (fe & _ & [= <-]). done. }
  assert (gs = groups_of data) as ->.
  { apply all_groups. rewrite Hlen. unfold requested in Hgs. by rewrite Hnone in Hgs. }
  destruct (postprocess_all st frag _ bs Hsf Hu Hres) as (outs & Hpost & Houts).
  exists (mkDelivery bs outs). split.
  - split; [|done]. exists (InParquet stream). split; [|by eapply parquet_gives]. rewrite <-Hschema. apply parquet_opens; [done|].
    unfold reader_from_file. by rewrite Hv, Hdisk.
  - intros c Hc Hw. cbn [de_outs]. rewrite Houts. apply (filtered_twice s (wants ro) e _ (read_filter ro)); try done.
    + intros d Hfd Hkd. rewrite Hrows by (done || by apply field_name_elem). apply read_rows.
      eapply Forall_impl; [exact Hug|]. by intros b [? _].
    + intros b i Hin. unfold uniform in Hug. rewrite Forall_forall in Hug. destruct (Hug b Hin). by apply He.
Qed.

End fragment.

(** ** Reading with options from Elixir *)

(** What a [:filters] option says of a row. *)
Definition keyword_filter `{Arrow} (f : option FiltersOpt) (b : RecordBatch) (i : nat) : option bool :=
  match f with
  | None => Some true
  | Some (FiltersExpr e) => row_bool b (embed e) i
  | Some (FiltersTuple t) => tuple_holds ∅ b t i
  end.

Lemma bind_nothing n : bind_node ∅ n = n.
Proof.
  induction n as [c|v|op args IH] using node_ind; cbn; [by rewrite lookup_empty|done|]. f_equal.
  induction IH as [|x l Hx _ IHl]; cbn; [done|]. by rewrite Hx, IHl.
Qed.

(** The filter that is handed on means what the option says. *)
Lemma keyword_filter_tuple `{Arrow} kw o f b i :
  validate_read kw = Ok o -> op_filters o = Some f -> tuple_holds ∅ b f i = keyword_filter (kw_filters kw) b i.
Proof.
  unfold validate_read. intros (cs & _ & (rg & _ & (fs & Hf & [= <-])%bind_Ok)%bind_Ok)%bind_Ok Ho. cbn in Ho. subst fs.
  unfold validate_filters in Hf. destruct (kw_filters kw) as [[e|t]|]; [| |done].
  - destruct (to_parquet_filters e) as [[p|] [r|]] eqn:Es; try done. apply bind_Ok in Hf as ([] & _ & [= ->]).
    destruct (split_spec ∅ b e (Some f) None Es) as (_ & Hw & _). destruct (Hw eq_refl) as (f' & [= <-] & Hh).
    rewrite Hh. unfold row_holds. by rewrite bind_nothing.
  - by apply bind_Ok in Hf as ([] & _ & [= ->]).
Qed.

Lemma keyword_filter_none `{Arrow} kw o : validate_read kw = Ok o -> op_filters o = None -> kw_filters kw = None.
Proof.
  unfold validate_read. intros (cs & _ & (rg & _ & (fs & Hf & [= <-])%bind_Ok)%bind_Ok)%bind_Ok Ho. cbn in Ho. subst fs.
  unfold validate_filters in Hf. destruct (kw_filters kw) as [[e|t]|]; [| |done].
  - destruct (to_parquet_filters e) as [[p|] [r|]]; try done. by apply bind_Ok in Hf as ([] & _ & ?).
  - by apply bind_Ok in Hf as ([] & _ & ?).
Qed.

Section reader.
Context `{RustlerLaws Term} `{Arrow, !CmpLaws, !BoolLaws, !BatchLaws} `{ParquetCrate, RL : !ReaderLaws}.


End reader.

(** [x > 4] as an expression, on the file of two row groups. *)
Definition gt_keywords : ReadKeywords :=
  mkReadKeywords None None (Some (FiltersExpr (NCall OpGt [NField "x"; NScalar (LInt 4)]))).

Lemma x_file o : is_ok (apply_read_opts (H0 := x_parquet) (mkBuilder (x_metadata x_data) x_schema x_data None None None) o) ->
  parquet_file (RL := x_laws) x_schema o x_data.
Proof.
  intros Ho. exists (mkBuilder (x_metadata x_data) x_schema x_data None None None). split_and!; try reflexivity.
  - split_and!; [reflexivity|apply NoDup_singleton|reflexivity|repeat constructor; apply x_batch_wf].
  - exact x_data_described.
  - exact Ho.
Qed.

Lemma gt_in_range : value_in_range (FInt 4) /\ valid_str "x" = true.
Proof. split; [unfold value_in_range, s_range; lia|reflexivity]. Qed.

