(* ===== verification/ScannerThms.v ===== *)
(** * Theorems about dataset scans

    A lazy scan of a Parquet dataset against the scan that opens every file
    and filters every row ([naive_rows]); the accounts of a scan; and what the
    scanner gets wrong: IPC datasets, projected residuals, and two consumers
    of one stream. *)

From S2P Require Import Prelude Float Utf8 Term Arrow ArrowRef Stream Elixir Compute ComputeFacts ComputeEval ComputeTyped ComputeThms Expression ExpressionThms Parquet ParquetFacts ParquetPruning ParquetThms ParquetRows ParquetRead ParquetOpts ParquetOptsThms Ipc IpcRound ScanPlan ScanPlanFacts ScanPlanThms ScanRows Scanner ScannerFacts ScanRead.

Section scan.
Context `{RustlerLaws Term} `{Arrow, !CmpLaws, !BoolLaws, !BatchLaws} `{ParquetCrate, RL : !ReaderLaws} `{IpcCrate}.
Context (disk : string -> res string bytes).

(** ** The reference *)

(** The scanner's filter on the rows of a fragment. *)
Definition filter_of (sc : Scanner) : option Node :=
  match sc_filter sc with Some (SfExpr e) => Some e | _ => None end.

Definition scan_expr (sc : Scanner) (frag : Fragment) : Expr := bound (fr_values frag) (filter_of sc).

Definition fragment_groups (frag : Fragment) : list RecordBatch :=
  match disk (fr_path frag) with Ok data => groups_of data | _ => [] end.

(** The rows of all files of the dataset, in its order, that satisfy the filter. *)
Definition naive_rows (sc : Scanner) (c : string) : list (option Cell) :=
  concat (map (fun frag => expr_rows c (scan_expr sc frag) (fragment_groups frag)) (ds_fragments (sc_dataset sc))).

(** ** Scans that are planned exactly *)

(** A Parquet dataset whose files have the schema [s], and a filter that the
    planner, the reader and the kernels handle.  [pushed], [resid], [o] and
    [o'] are the plan: what goes to the reader, what is left for
    [Compute.filter], the options, and the options as the NIF decodes them. *)
Record scannable (s : Schema) (sc : Scanner) (pushed : option Filter) (resid : option Node) (o : ReadOptions) (o' : ReadOpts)
    : Prop := {
  sn_format : ds_format (sc_dataset sc) = FmtParquet;
  sn_plan : compile (sc_filter sc) (sc_partition_keys sc) = (pushed, resid);
  sn_filter : match sc_filter sc with
              | None => True
              | Some (SfExpr e) => plannable (sc_partition_keys sc) e = true
              | Some (SfTuple _) => False
              end;
  sn_options : build_read_opts sc pushed = Ok o;
  sn_decoded : rust_opts o = Some o';
  sn_range : options_in_range o;
  sn_literals : (forall f, pushed = Some f -> exact_literals s f = true) /\ (forall f, ro_filter o' = Some f -> ordinary f);
  sn_fragments : forall frag, frag ∈ ds_fragments (sc_dataset sc) ->
    fr_format frag = FmtParquet /\
    (exists data, disk (fr_path frag) = Ok data /\ parquet_file s o' data) /\
    (forall c, keys_member (sc_partition_keys sc) c = true <-> is_Some (fr_values frag !! c)) /\
    (forall e, filter_of sc = Some e -> orders_alike (fr_values frag) e = true) /\
    residual_ready (project_schema (wants o') s) (fr_values frag) resid /\
    (forall d, d ∈ expr_columns (bound (fr_values frag) resid) -> wants o' d = true /\ field_with_name s d <> None)
}.

(** ** One fragment *)

Lemma filter_columns_free keys f e c :
  rust_filter f = Some e -> references_partition keys f = false -> c ∈ filter_columns e -> keys_member keys c = false.
Proof.
  assert (forall xs es, Forall (fun f => forall e, rust_filter f = Some e -> references_partition keys f = false ->
      c ∈ filter_columns e -> keys_member keys c = false) xs ->
    collect_opt rust_filter xs = Some es -> existsb (references_partition keys) xs = false ->
    c ∈ concat (map filter_columns es) -> keys_member keys c = false) as Hl.
  { intros xs es IH Hes%collect_opt_Some. revert IH. induction Hes as [|f' e' xs es He _ IHl]; intros IH Hr Hc; cbn in *; [by apply elem_of_nil in Hc|].
    inversion IH; subst. apply orb_false_iff in Hr as [Hr1 Hr2]. apply elem_of_app in Hc as [Hc|Hc]; eauto. }
  revert e. induction f as [op col v|xs IH|xs IH] using tuple_ind; intros e He Hr Hc.
  - apply bind_Some in He as (w & _ & He). cbn in Hr. destruct op; try done; injection He as <-; cbn in *;
      by apply list_elem_of_singleton in Hc as ->.
  - apply fmap_Some in He as (es & Hes & ->). eapply Hl; [exact IH|exact Hes|exact Hr|exact Hc].
  - apply fmap_Some in He as (es & Hes & ->). eapply Hl; [exact IH|exact Hes|exact Hr|exact Hc].
Qed.

Section plan.
Context (s : Schema) (sc : Scanner) (pushed : option Filter) (resid : option Node) (o : ReadOptions) (o' : ReadOpts).
Context (Hsc : scannable s sc pushed resid o o').

Lemma plan_options :
  op_columns o = sc_columns sc /\ op_row_groups o = None /\ op_filters o = pushed /\
  validate_read (mkReadKeywords (sc_columns sc) None (FiltersTuple <$> pushed)) = Ok o.
Proof.
  pose proof (sn_options _ _ _ _ _ _ Hsc) as Ho. unfold build_read_opts in Ho. rewrite (sn_format _ _ _ _ _ _ Hsc) in Ho.
  rewrite map_err_Ok in Ho. destruct (validate_read_spec _ _ Ho) as (Hc & Hr & _). split_and!; [done..| |done].
  unfold validate_read in Ho. apply bind_Ok in Ho as (cs & _ & (rg & _ & (fs & Hf & [= <-])%bind_Ok)%bind_Ok). cbn.
  destruct pushed as [f|]; cbn in Hf; [|by injection Hf as <-]. by apply bind_Ok in Hf as ([] & _ & [= <-]).
Qed.

Lemma plan_filter f : ro_filter o' = Some f <-> exists g, pushed = Some g /\ rust_filter g = Some f.
Proof.
  pose proof (sn_decoded _ _ _ _ _ _ Hsc) as Hd. destruct plan_options as (_ & _ & Hp & _). unfold rust_opts in Hd. rewrite Hp in Hd.
  destruct pushed as [g|].
  - apply bind_Some in Hd as (e & He & [= <-]). cbn. naive_solver.
  - injection Hd as <-. cbn. naive_solver.
Qed.

Lemma plan_columns : ro_columns o' = sc_columns sc.
Proof.
  pose proof (sn_decoded _ _ _ _ _ _ Hsc) as Hd. destruct plan_options as (Hc & _). unfold rust_opts in Hd. rewrite <-Hc.
  destruct (op_filters o) as [g|]; [|by injection Hd as <-]. by apply bind_Some in Hd as (e & _ & [= <-]).
Qed.

(** The reader's filter and the residual, on the rows of a selected fragment. *)
Lemma plan_rows frag b i :
  frag ∈ ds_fragments (sc_dataset sc) -> match sc_filter sc with Some f => may_match f (fr_values frag) = true | None => True end ->
  wf_batch b -> rb_schema b = s ->
  row_bool b (scan_expr sc frag) i = Some true <->
  read_filter o' b i = Some true /\ row_bool b (bound (fr_values frag) resid) i = Some true.
Proof.
  intros Hin Hm Hw Hs. destruct (sn_fragments _ _ _ _ _ _ Hsc frag Hin) as (_ & (data & _ & Hfile) & Hkeys & Ho & _).
  pose proof plan_filter as Hpf. pose proof (sn_filter _ _ _ _ _ _ Hsc) as Hp. pose proof (sn_plan _ _ _ _ _ _ Hsc) as Hc.
  unfold scan_expr, filter_of in *. destruct (sc_filter sc) as [[e|t]|]; [|done|].
  - destruct (compile_exact (fr_values frag) b _ Hkeys e pushed resid Hp (Ho e eq_refl)) as [Hrow Hfree]; [|exact Hc|].
    { cbn in Hm. by destruct (eval _ e). }
    specialize (Hrow i). unfold holds, row_holds in Hrow. cbn [bound]. rewrite Hrow.
    assert (pushed_holds (fr_values frag) b pushed i <-> read_filter o' b i = Some true) as ->.
    { unfold read_filter. destruct (ro_filter o') as [f|] eqn:Ef.
      - pose proof Ef as (g & -> & Hg)%plan_filter. cbn. unfold holds.
        rewrite (tuple_agrees (fr_values frag) b Hw g f i Hg); rewrite ?Hs; [done| | |].
        + intros c Hcol. destruct (Hfree g eq_refl) as [_ Hr]. pose proof (filter_columns_free _ _ _ _ Hg Hr Hcol) as Hk.
          destruct (fr_values frag !! c) eqn:Ev; [|done]. assert (keys_member (sc_partition_keys sc) c = true) by (by apply Hkeys; rewrite Ev).
          congruence.
        + by eapply applied_filter_types.
        + by apply (sn_literals _ _ _ _ _ _ Hsc).
      - destruct plan_options as (_ & _ & Hop & _). pose proof (sn_decoded _ _ _ _ _ _ Hsc) as Hd. unfold rust_opts in Hd.
        rewrite Hop in Hd. destruct pushed as [g|]; [|done]. exfalso. apply bind_Some in Hd as (fe & _ & [= <-]). done. }
    destruct resid; cbn; unfold holds, row_holds; tauto.
  - injection Hc as <- <-. cbn. assert (read_filter o' b i = Some true) as ->; [|tauto].
    unfold read_filter. destruct (ro_filter o') as [f|]; [|done]. by destruct (proj1 (Hpf f) eq_refl) as (? & ? & _).
Qed.

(** A fragment that may match delivers its rows; in another one there are none. *)
Lemma plan_fragment st frag :
  frag ∈ ds_fragments (sc_dataset sc) -> match sc_filter sc with Some f => may_match f (fr_values frag) = true | None => True end ->
  s_format st = FmtParquet -> read_opts st = o -> residual st = resid ->
  exists d, fragment_gives disk st (schema_signature (project_schema (wants o') s)) frag d /\
    forall c, field_with_name s c <> None -> wants o' c = true ->
      column_rows c (List.filter nonempty (de_outs d)) = expr_rows c (scan_expr sc frag) (fragment_groups frag).
Proof.
  intros Hin Hm Hsf Hro Hres. destruct (sn_fragments _ _ _ _ _ _ Hsc frag Hin) as (Hff & (data & Hdata & Hfile) & _ & _ & Hready & Hcols).
  destruct plan_options as (_ & Hrg & _ & Hv). unfold fragment_groups. rewrite Hdata.
  apply (fragment_delivers disk st frag s (mkReadKeywords (sc_columns sc) None (FiltersTuple <$> pushed)) o' data
    (scan_expr sc frag) Hsf Hff Hdata);
    rewrite ?Hro, ?Hres; try done.
  - apply (sn_range _ _ _ _ _ _ Hsc).
  - apply (sn_decoded _ _ _ _ _ _ Hsc).
  - apply (sn_literals _ _ _ _ _ _ Hsc).
  - intros b i Hw Hs. by apply plan_rows.
Qed.

Lemma pruned_fragment f frag c :
  sc_filter sc = Some f -> frag ∈ ds_fragments (sc_dataset sc) -> may_match f (fr_values frag) = false ->
  expr_rows c (scan_expr sc frag) (fragment_groups frag) = [].
Proof.
  intros Hf Hin Hm. destruct (sn_fragments _ _ _ _ _ _ Hsc frag Hin) as (_ & _ & _ & Ho & _).
  pose proof (sn_filter _ _ _ _ _ _ Hsc) as Hp. unfold scan_expr, filter_of in *. rewrite Hf in *. destruct f as [e|t]; [|done].
  unfold expr_rows. apply concat_nil_Forall, Forall_map, Forall_forall. intros b _. apply select_none, Forall_map, Forall_forall.
  intros i _. apply (eval_sound (fr_values frag) b e i (Ho e eq_refl)). cbn in Hm. by destruct (eval _ e).
Qed.

End plan.

(** The selected fragments deliver what the reference finds in the dataset. *)
Lemma selected_deliver (rows : Fragment -> string -> list (option Cell)) (keep : Fragment -> bool) st sig (want : string -> Prop) frags :
  (forall frag, frag ∈ frags -> keep frag = true ->
     exists d, fragment_gives disk st sig frag d /\ forall c, want c -> column_rows c (List.filter nonempty (de_outs d)) = rows frag c) ->
  (forall frag c, frag ∈ frags -> keep frag = false -> rows frag c = []) ->
  exists ds, Forall2 (fragment_gives disk st sig) (List.filter keep frags) ds /\
    forall c, want c ->
      column_rows c (concat (map (fun d => List.filter nonempty (de_outs d)) ds)) = concat (map (fun frag => rows frag c) frags).
Proof.
  intros Hk Hn. induction frags as [|frag frags IH]; [by exists []|].
  destruct IH as (ds & Hds & Hrows); [intros; apply Hk; [by right|done]|intros; apply Hn; [by right|done]|].
  cbn [List.filter map concat]. destruct (keep frag) eqn:E.
  - destruct (Hk frag ltac:(by left) E) as (d & Hd & Hc). exists (d :: ds). split; [by constructor|]. intros c Hw. cbn [map concat].
    by rewrite column_rows_app, Hc, Hrows.
  - exists ds. split; [done|]. intros c Hw. by rewrite (Hn frag c ltac:(by left) E), Hrows.
Qed.

(** The batches of the replies. *)
Definition reply_batches (l : list NextReply) : list RecordBatch :=
  omap (fun r => match r with NxBatch b _ => Some b | _ => None end) l.

Lemma all_replies_batches frags ds :
  length frags = length ds ->
  reply_batches (all_replies frags ds) = concat (map (fun d => List.filter nonempty (de_outs d)) ds) /\
  Forall (fun r => exists b frag, r = NxBatch b (fr_path frag) /\ frag ∈ frags /\ (0 < rb_num_rows b)%nat) (all_replies frags ds).
Proof.
  revert ds. induction frags as [|frag frags IH]; intros [|d ds] Hl; try done; cbn in Hl.
  destruct (IH ds ltac:(lia)) as [Hb Hf]. unfold all_replies in *. cbn [zip_with concat map]. split.
  - unfold reply_batches in *. rewrite omap_app, Hb. f_equal. unfold replies. clear.
    induction (List.filter nonempty (de_outs d)) as [|o l IH]; [done|]. cbn. by f_equal.
  - apply Forall_app. split.
    + unfold replies. apply Forall_map, Forall_forall. intros b [_ Hb']%list_elem_of_In%filter_In. exists b, frag.
      split_and!; [done|by left|]. unfold nonempty in Hb'. destruct (Nat.eqb_spec (rb_num_rows b) 0); [done|lia].
    + eapply Forall_impl; [exact Hf|]. intros r (b & f & -> & ? & ?). exists b, f. split_and!; [done|by right|done].
Qed.

(** What the calls of a scan deliver. *)
Lemma scan_delivers s sc pushed resid o o' :
  scannable s sc pushed resid o o' ->
  exists st l fuel, to_stream sc = Ok st /\
    (forall fuel' k, (fuel <= fuel')%nat ->
       exists st', scan disk fuel' (length l + k) st = Ok (l ++ replicate k NxExhausted, st')) /\
    Forall (fun r => exists b frag, r = NxBatch b (fr_path frag) /\ frag ∈ ds_fragments (sc_dataset sc) /\ (0 < rb_num_rows b)%nat) l /\
    forall c, field_with_name s c <> None -> wants o' c = true -> column_rows c (reply_batches l) = naive_rows sc c.
Proof.
  intros Hsc. pose proof (sn_plan _ _ _ _ _ _ Hsc) as Hc. pose proof (sn_options _ _ _ _ _ _ Hsc) as Ho.
  set (keep frag := match sc_filter sc with Some f => may_match f (fr_values frag) | None => true end).
  assert (fst (select_fragments fr_values (ds_fragments (sc_dataset sc)) (sc_filter sc))
    = List.filter keep (ds_fragments (sc_dataset sc))) as Hsel.
  { rewrite select_fragments_spec. unfold keep. destruct (sc_filter sc); [done|]. cbn.
    induction (ds_fragments (sc_dataset sc)) as [|x l IH]; [done|]. cbn. by rewrite <-IH. }
  destruct (select_fragments fr_values (ds_fragments (sc_dataset sc)) (sc_filter sc)) as [selected pruned] eqn:Es.
  set (st := mkScan selected (ds_format (sc_dataset sc)) (sc_columns sc) o resid None None [] (initial_stats sc) false 0).
  assert (to_stream sc = Ok st) as Hst by (unfold to_stream; rewrite Hc, Ho; cbn [mbind res_bind]; by rewrite Es).
  destruct (selected_deliver (fun frag c => expr_rows c (scan_expr sc frag) (fragment_groups frag)) keep st
    (schema_signature (project_schema (wants o') s)) (fun c => field_with_name s c <> None /\ wants o' c = true)
    (ds_fragments (sc_dataset sc))) as (ds & Hds & Hrows).
  { intros frag Hin Hk. destruct (plan_fragment s sc pushed resid o o' Hsc st frag Hin) as (d & Hd & Hr); try done.
    - unfold keep in Hk. by destruct (sc_filter sc).
    - apply (sn_format _ _ _ _ _ _ Hsc).
    - exists d. split; [done|]. intros c [? ?]. by apply Hr. }
  { intros frag c Hin Hk. unfold keep in Hk. destruct (sc_filter sc) as [f|] eqn:Ef; [|done].
    by apply (pruned_fragment s sc pushed resid o o' Hsc f). }
  cbn in Hsel. subst selected.
  destruct (all_replies_batches (List.filter keep (ds_fragments (sc_dataset sc))) ds (Forall2_length _ _ _ Hds)) as [Hb Hf].
  assert (pending disk st (schema_signature (project_schema (wants o') s)) st (all_replies (remaining st) ds)
    (S (list_sum (map (fun d => S (length (de_batches d))) ds)))) as Hp.
  { apply pending_closed; [done|by left|done|exact Hds]. }
  exists st, (all_replies (remaining st) ds), (S (list_sum (map (fun d => S (length (de_batches d))) ds))).
  split; [done|]. split; [|split].
  - intros fuel' k Hfuel. destruct (scan_pending disk st _ fuel' st _ _ k Hp Hfuel) as (st' & w & Hs & _). by exists st'.
  - eapply Forall_impl; [exact Hf|]. intros r (b & frag & -> & Hin & Hn). exists b, frag. split_and!; [done| |done].
    apply list_elem_of_In, filter_In in Hin as [Hin _]. by apply list_elem_of_In.
  - intros c Hcol Hw. cbn [remaining st]. rewrite Hb. by apply Hrows.
Qed.

(** C1: A lazy scan of a Parquet dataset is the naive scan.  For a scanner whose
    filter the planner, the reader and the kernels handle (the conditions of
    [scannable]: a plannable expression over values of one order, exact and
    ordinary literals, statistics that describe the files, names without dots
    where the reader has to project or filter): the stream starts,
    and for every fuel from some bound on its calls deliver non-empty batches,
    each with the path of a fragment, and then are exhausted for ever; and of
    every column that was asked for these batches hold, in order, exactly the
    cells of the rows of all files of the dataset that satisfy the filter.
    Partition pruning, row-group pruning, the reader's row filter, the residual
    filter, and the way the files are cut into groups and batches cannot be
    observed. *)
Theorem dataset_scan_exact s sc pushed resid o o' :
  scannable s sc pushed resid o o' ->
  exists st l fuel, to_stream sc = Ok st /\
    (forall fuel' k, (fuel <= fuel')%nat ->
       exists st', scan disk fuel' (length l + k) st = Ok (l ++ replicate k NxExhausted, st')) /\
    Forall (fun r => exists b frag, r = NxBatch b (fr_path frag) /\ frag ∈ ds_fragments (sc_dataset sc) /\ (0 < rb_num_rows b)%nat) l /\
    forall c, field_with_name s c <> None -> wants o' c = true -> column_rows c (reply_batches l) = naive_rows sc c.
Proof. apply scan_delivers. Qed.

End scan.

(** ** The accounts of any scan *)

Section accounting.
Context `{Rustler Term} `{Arrow, ParquetCrate, IpcCrate}.
Context (disk : string -> res string bytes).

Definition rows_of (l : list NextReply) : Z := foldr (fun r n => reply_rows r + n) 0 l.

Lemma scan_accounts fuel n selected rows st l st' :
  accounts selected rows st -> scan disk fuel n st = Ok (l, st') ->
  accounts selected (rows + rows_of l) st' /\
  Forall (fun r => match r with NxBatch b _ => (0 < rb_num_rows b)%nat | _ => True end) l /\
  forall i j r, (i <= j)%nat -> l !! i = Some NxExhausted -> l !! j = Some r -> r = NxExhausted.
Proof.
  assert (forall n st l st', exhausted st -> scan_finished st = true -> scan disk fuel n st = Ok (l, st') ->
    Forall (eq NxExhausted) l) as Hex.
  { clear. induction n as [|n IH]; intros st l st' Hx Hf Hs; cbn in Hs; [injection Hs as <- _; constructor|].
    destruct fuel as [|fuel]; [done|]. rewrite do_next_exhausted in Hs by done. cbn [mbind res_bind] in Hs.
    apply bind_Ok in Hs as ([l' st2] & Hs & [= <- <-]). constructor; [done|]. by eapply IH. }
  revert rows st l. induction n as [|n IH]; intros rows st l Ha Hs.
  - injection Hs as <- <-. cbn. rewrite Z.add_0_r. split_and!; [done|constructor|done].
  - cbn in Hs. apply bind_Ok in Hs as ([r st1] & Hr & ([l' st2] & Hl & [= <- <-])%bind_Ok).
    destruct (do_next_accounts disk _ _ _ _ _ _ Ha Hr) as [Ha1 Hc]. destruct (IH _ _ _ Ha1 Hl) as (Ha2 & Hf & Hj).
    cbn [rows_of foldr]. rewrite Z.add_assoc. split_and!; [done| |].
    + constructor; [|done]. by destruct r.
    + intros [|i] [|j] r' Hij Hi Hr'; cbn in Hi, Hr'; [congruence| |lia|eapply (Hj i j); [lia|done..]].
      injection Hi as ->. destruct Hc as [Hx Hfin]. pose proof (Hex n st1 l' st2 Hx Hfin Hl) as Hall.
      rewrite Forall_forall in Hall. symmetry. by eapply Hall, list_elem_of_lookup_2.
Qed.

(** C14: The accounts of a scan, whatever the files hold and however the calls
    end: the fragments that were opened are the first ones of the selected
    fragments, each once and in order, and [fragments_scanned] is their number;
    [rows_emitted] is the number of rows that were delivered, and no delivered
    batch is empty; the [:stop] event is sent at most once, when the scan is
    finished; and after [nil] every later call returns [nil]. *)
Theorem scan_accounting sc st fuel n l st' :
  to_stream sc = Ok st -> scan disk fuel n st = Ok (l, st') ->
  let selected := fst (select_fragments fr_values (ds_fragments (sc_dataset sc)) (sc_filter sc)) in
  (exists m, (m <= length selected)%nat /\ rev (opened_paths st') = map fr_path (take m selected) /\
     fragments_scanned (stats st') = m) /\
  rows_emitted (stats st') = rows_of l /\
  Forall (fun r => match r with NxBatch b _ => (0 < rb_num_rows b)%nat | _ => True end) l /\
  stop_events st' = (if scan_finished st' then 1%nat else 0%nat) /\
  forall i j r, (i <= j)%nat -> l !! i = Some NxExhausted -> l !! j = Some r -> r = NxExhausted.
Proof.
  intros Ht Hs selected. assert (remaining st = selected /\ accounts selected 0 st) as [_ Ha].
  { unfold to_stream in Ht. destruct (compile _ _) as [pushed resid]. apply bind_Ok in Ht as (o & _ & Ht). subst selected.
    destruct (select_fragments _ _ _) as [selected pruned] eqn:E. injection Ht as <-. split; [done|].
    split; cbn; try done; unfold initial_stats; rewrite ?E; try done. exists 0%nat. split_and!; [done|lia|done]. }
  destruct (scan_accounts _ _ _ _ _ _ _ Ha Hs) as ([(k & Hr & Hk & Hc) Hsc Hrows Hst] & Hf & Hj).
  split_and!; [|done..]. assert (exists m, (m <= length selected)%nat /\ opened_paths st' = rev (map fr_path (take m selected))) as (m & Hm & Ho).
  { destruct (current st') as [[inner frag]|]; [|by exists k]. destruct Hc as [[frags Hf'] Ho]. exists (S k). split; [|done].
    assert (length (drop k selected) = S (length frags)) as Hlen by (by rewrite <-Hr, Hf'). rewrite length_drop in Hlen. lia. }
  exists m. rewrite Hsc, Ho, rev_involutive. split_and!; [done..|].
  rewrite length_rev, length_map, length_take. lia.
Qed.

End accounting.

(** ** Two files, by year *)

(** The files of 2025 and 2026 hold 1, 4 | 5, 7, 2 in two row groups. *)
Definition year_fragment (path : string) (y : Z) : Fragment := mkFragment path FmtParquet (year_of y) 7.

Definition year_dataset : Dataset :=
  mkDataset FmtParquet (Some [("year", "int32")]) "root" [year_fragment "root/year=2025/a" 2025; year_fragment "root/year=2026/b" 2026]
    x_schema.

Definition year_disk (path : string) : res string bytes := Ok x_data.

(** [year >= 2026 and x > 4 and not (x == 7)]. *)
Definition year_filter : Node :=
  NCall OpAnd [NCall OpAnd [NCall OpGte [NField "year"; NScalar (LInt 2026)]; NCall OpGt [NField "x"; NScalar (LInt 4)]];
               NCall OpNot [NCall OpEq [NField "x"; NScalar (LInt 7)]]].

Definition year_residual : Node := NCall OpNot [NCall OpEq [NField "x"; NScalar (LInt 7)]].

Definition year_scanner : Scanner :=
  mkScanner year_dataset (Some ["x"]) (Some (SfExpr year_filter)) None ["year"].

Lemma year_scanner_new :
  new_scanner year_dataset (mkScannerOpts (Some ["x"]) (Some (SfExpr year_filter)) None) = Ok year_scanner.
Proof. vm_compute. reflexivity. Qed.

(** A comparison of a column with a literal of its type is well typed. *)
Lemma comparison_well_typed `{Arrow, !BatchLaws} b op k c v dt :
  wf_batch b -> schema_types (rb_schema b) c = Some dt -> kernel op = Some k -> comparable dt = true ->
  is_ok (make_scalar_array v dt) -> well_typed b (ECall op [EField c; EScalar v]) = true.
Proof.
  intros Hw Hs Hk Hc Hv. rewrite <-(column_types b c Hw) in Hs.
  assert (well_typed b (ECall op [EField c; EScalar v]) =
    same_comparable (operand_dt (well_typed b) b (EField c) (EScalar v)) (operand_dt (well_typed b) b (EScalar v) (EField c))) as ->
    by (by destruct op).
  unfold operand_dt, lit_type, operand_type. rewrite Hs. cbn. destruct (make_scalar_array v dt); try done.
  by apply same_comparable_refl.
Qed.

Definition year_options : ReadOptions := mkReadOptions (Some ["x"]) None (Some (TCmp OpGt "x" (LInt 4))).
Definition year_opts : ReadOpts := mkReadOpts (Some ["x"]) None (Some (FGt "x" (FInt 4))).

Lemma year_residual_ready v :
  residual_ready (project_schema (wants year_opts) x_schema) v (Some year_residual) \/ is_Some (v !! "x").
Proof.
  destruct (v !! "x") eqn:E; [right; by eexists|left]. intros n [= <-].
  assert (bind_node v year_residual = year_residual) as -> by (cbn; by rewrite E). split; [by vm_compute|].
  intros b Hw Hs. apply (comparison_well_typed b OpEq CEq "x" (SInt 7) TInt64); try done. by rewrite Hs.
Qed.

Lemma year_scannable :
  scannable (RL := x_laws) year_disk x_schema year_scanner
    (Some (TCmp OpGt "x" (LInt 4))) (Some year_residual) year_options year_opts.
Proof.
  split; [reflexivity|vm_compute; reflexivity|vm_compute; reflexivity|vm_compute; reflexivity|vm_compute; reflexivity|..].
  - split; [|split].
    + intros l [= <-]. apply Forall_singleton. vm_compute. reflexivity.
    + intros l [=].
    + intros f e [= <-] [= <-]. split; apply Forall_singleton; apply gt_in_range.
  - split; [by intros f [= <-]|intros f [= <-]; exact gt_4_ordinary].
  - assert (parquet_file (RL := x_laws) x_schema year_opts x_data) as Hfile by (apply x_file; vm_compute; exact I).
    intros frag Hin.
    assert (exists p y, frag = year_fragment p y /\ (y = 2025 \/ y = 2026)) as (p & y & -> & Hy).
    { apply elem_of_cons in Hin as [-> | ->%list_elem_of_singleton]; eexists _, _; split; try reflexivity; auto. }
    split_and!; [done|by exists x_data|apply year_keys|intros e [= <-]; by destruct Hy as [-> | ->]; vm_compute| |].
    + by destruct (year_residual_ready (year_of y)) as [?|[v Hv]].
    + by intros d ->%list_elem_of_singleton.
Qed.

(** The scan delivers the row 5 of the second file. *)
Lemma dataset_scan_exact_witness :
  exists st l fuel, to_stream (H1 := x_parquet) year_scanner = Ok st /\
    (exists st', scan (Term := beam) (H1 := x_parquet) year_disk fuel (length l + 1) st = Ok (l ++ [NxExhausted], st')) /\
    column_rows "x" (reply_batches l) = [Some (CInt 5)].
Proof.
  destruct (dataset_scan_exact (Term := beam) (RL := x_laws) year_disk x_schema year_scanner _ _ _ _ year_scannable)
    as (st & l & fuel & Hst & Hs & _ & Hr).
  exists st, l, fuel. split; [exact Hst|]. split; [exact (Hs fuel 1%nat (le_n fuel))|].
  rewrite (Hr "x") by (vm_compute; congruence). vm_compute. reflexivity.
Defined.

(** The two files without a filter. *)
Definition plain_scan : ScanState (H1 := x_parquet) :=
  mkScan (H1 := x_parquet) (ds_fragments year_dataset) FmtParquet (Some ["x"]) (mkReadOptions (Some ["x"]) None None)
    None None None [] (mkStats 2 0 2 0 0 0 0) false 0.

Lemma plain_scan_starts :
  to_stream (H1 := x_parquet) (mkScanner year_dataset (Some ["x"]) None None ["year"]) = Ok plain_scan.
Proof. reflexivity. Qed.

(** Five calls: two batches of each file, and the end. *)
Lemma scan_accounting_witness :
  match scan (Term := beam) (H1 := x_parquet) year_disk 9 5 plain_scan with
  | Ok (l, st) => length l = 5%nat /\ rows_emitted (stats st) = rows_of l /\
      stop_events st = (if scan_finished st then 1%nat else 0%nat) /\
      exists m, rev (opened_paths st) = map fr_path (take m (ds_fragments year_dataset)) /\ fragments_scanned (stats st) = m
  | _ => False
  end.
Proof.
  assert (match scan (Term := beam) (H1 := x_parquet) year_disk 9 5 plain_scan with Ok (l, _) => length l = 5%nat | _ => False end)
    as Hok by (vm_compute; reflexivity).
  destruct (scan (Term := beam) (H1 := x_parquet) year_disk 9 5 plain_scan) as [[l st]| |] eqn:E; [|contradiction..].
  destruct (scan_accounting (Term := beam) (H1 := x_parquet) year_disk _ _ _ _ _ _ plain_scan_starts E)
    as ((m & _ & Hp & Hm) & Hr & _ & Hst & _).
  split; [exact Hok|]. split; [exact Hr|]. split; [exact Hst|]. exists m. split; [exact Hp|exact Hm].
Defined.
