(* ===== verification/ScanLimits.v ===== *)
(** * What dataset scans get wrong

    An IPC dataset scanned with a filter that goes to the Parquet reader, a
    residual filter on a column that was not asked for, and two consumers of
    one stream. *)

From S2P Require Import Prelude Float Utf8 Term Arrow ArrowRef Stream Elixir Compute ComputeFacts ComputeEval ComputeThms Expression ExpressionThms Parquet ParquetRows ParquetRead ParquetOpts Ipc IpcRound ScanPlan ScanPlanFacts ScanPlanThms ScanRows Scanner ScannerFacts ScanRead ScannerThms.

Section limits.
Context `{RustlerLaws Term} `{Arrow, !CmpLaws, !BoolLaws, !BatchLaws} `{ParquetCrate, IpcCrate}.

(** A filter that leaves nothing to the residual: every tuple, and an expression
    of which something is pushed and nothing is left over. *)
Definition all_pushed (keys : list string) (f : ScanFilter) : Prop :=
  match f with
  | SfTuple _ => True
  | SfExpr e => exists p, to_parquet_filters e = (Some p, None) /\ is_Some (strip_pushed keys p)
  end.

(** On an IPC dataset such a filter is ignored.  The scan of an IPC dataset
    hands no options to a reader, and nothing is left to filter with: every
    batch is delivered as it is, but for the projection, whatever the filter
    says of its rows. *)
Theorem ipc_filter_ignored sc st f :
  ds_format (sc_dataset sc) = FmtIpc -> sc_filter sc = Some f -> all_pushed (sc_partition_keys sc) f -> to_stream sc = Ok st ->
  read_opts st = no_read_options /\
  forall st' b frag, same_plan st st' ->
    postprocess (Term := Term) b st' frag =
    match sc_columns sc with Some cols => nif_result (compute_project b cols) | None => Ok b end.
Proof.
  intros Hf Hs Hp Ht. unfold to_stream, build_read_opts in Ht. rewrite Hf, Hs in Ht.
  assert (snd (compile (Some f) (sc_partition_keys sc)) = None) as Hres.
  { destruct f as [e|t]; [|done]. destruct Hp as (p & Hp & [g Hg]). unfold compile, compile_expr. rewrite Hp. cbn.
    rewrite Hg. by destruct (partition_only_node _ _). }
  destruct (compile (Some f) (sc_partition_keys sc)) as [pushed resid]. cbn in Hres. subst resid.
  destruct (select_fragments _ _ _) as [selected pruned]. injection Ht as <-. split; [done|].
  intros st' b frag Hsp. rewrite (postprocess_plan b _ st' frag Hsp).
  unfold postprocess, maybe_project_ipc, maybe_residual. cbn. destruct (sc_columns sc); [|done]. by destruct (nif_result _).
Qed.

(** ** A residual on a column that is not there *)

(** The evaluator evaluates every operand: a missing column is an error. *)
Lemma missing_column b e c :
  wf_expr e -> c ∈ expr_columns e -> column_by_name b c = None -> forall v, Compute.eval_value b e <> Ok v.
Proof.
  intros He Hc Hn. induction He as [n|s|x Hx IHx|op x y Hop Hx IHx Hy IHy]; intros v Hv.
  - apply list_elem_of_singleton in Hc as <-. cbn in Hv. by rewrite Hn in Hv.
  - by apply elem_of_nil in Hc.
  - cbn in Hc. rewrite app_nil_r in Hc. cbn in Hv. apply bind_Ok in Hv as (m & (w & Hw & _)%bind_Ok & _). by eapply IHx.
  - cbn in Hc. rewrite app_nil_r in Hc. apply elem_of_app in Hc as [Hc|Hc].
    + assert (exists w, Compute.eval_value b x = Ok w) as [w Hw]; [|by eapply IHx].
      destruct op; try done; cbn in Hv; apply bind_Ok in Hv as (u & Hu & _); first [by eexists | apply bind_Ok in Hu as (w & Hw & _); by eexists].
    + assert (exists w, Compute.eval_value b y = Ok w) as [w Hw]; [|by eapply IHy].
      destruct op; try done; cbn in Hv; apply bind_Ok in Hv as (u & _ & (w & Hw & _)%bind_Ok); first [by eexists | apply bind_Ok in Hw as (w' & Hw' & _); by eexists].
Qed.

(** A residual filter can only use the columns that were asked for.  The
    options of a Parquet scan project the requested columns, and the residual
    is evaluated on the projected batch: if it mentions a data column outside
    the projection, no batch is delivered; every call that reaches one is an
    error and leaves the scan where it is, past that batch. *)
Theorem residual_outside_projection st frag inner inner' b n c :
  current st = Some (inner, frag) -> next_inner inner = Ok (InBatch b, inner') ->
  s_format st = FmtParquet -> wf_batch b ->
  residual st = Some n -> wf_expr (embed (bind_node (fr_values frag) n)) -> expr_in_range (embed (bind_node (fr_values frag) n)) ->
  c ∈ expr_columns (embed (bind_node (fr_values frag) n)) -> column_by_name b c = None ->
  exists msg, take_inner_batch (Term := Term) st = Ok (TkError msg, set_current (Some (inner', frag)) st).
Proof.
  intros Hcur Hnext Hf Hw Hres Hwf Hr Hc Hn. unfold take_inner_batch. rewrite Hcur, Hnext. cbn [mbind res_bind].
  unfold postprocess, maybe_project_ipc, maybe_residual. cbn [s_format s_columns residual set_current]. rewrite Hf, Hres. cbn [mbind res_bind].
  unfold bind_partitions. rewrite compute_filter_node_embed by (by apply in_range_valid).
  unfold compute_filter_expr, reply. rewrite decode_encode_expr by (lia || done). cbn [mbind res_bind].
  pose proof (eval_to_bool_no_panic b _ Hwf) as Hnp.
  destruct (eval_to_bool b (embed (bind_node (fr_values frag) n))) as [m|msg|] eqn:E; [exfalso| |done].
  - unfold eval_to_bool in E. apply bind_Ok in E as (v & Hv & _). by eapply missing_column.
  - cbn. by eexists.
Qed.

End limits.

(** ** The callers of a stream

    A call of [Stream.next] runs in its caller's process, and only its steps are
    functions of the Agent, one after the other: between two of them another
    caller may take its own. *)

Section callers.
Context `{Rustler Term} `{Arrow, ParquetCrate, IpcCrate}.
Context (disk : string -> res string bytes).

(** Where a caller is in [do_next]. *)
Inductive Caller :=
| CaEnsure
| CaTake
| CaAdvance
| CaFinish (r : NextReply)
| CaDone (r : NextReply).

Definition caller_step (ca : Caller) (st : ScanState) : res string (Caller * ScanState) :=
  match ca with
  | CaEnsure =>
      '(r, st) ← ensure_open disk st;
      Ok (match r with
          | EnExhausted => CaFinish NxExhausted
          | EnError msg => CaFinish (NxError msg)
          | EnOpen => CaTake
          end, st)
  | CaTake =>
      '(t, st) ← take_inner_batch (Term := Term) st;
      Ok (match t with
          | TkBatch b path => CaDone (NxBatch b path)
          | TkError msg => CaDone (NxError msg)
          | TkSkip => CaEnsure
          | TkAdvance => CaAdvance
          end, st)
  | CaAdvance => let '(more, st) := advance st in Ok (if more then CaEnsure else CaFinish NxExhausted, st)
  | CaFinish r => Ok (CaDone r, finish_scan st)
  | CaDone r => Ok (CaDone r, st)
  end.

Fixpoint caller_steps (n : nat) (ca : Caller) (st : ScanState) : res string (Caller * ScanState) :=
  match n with
  | O => Ok (ca, st)
  | S n => '(ca, st) ← caller_step ca st; caller_steps n ca st
  end.

(** Two callers, and who takes the next step. *)
Fixpoint interleave (who : list bool) (a b : Caller) (st : ScanState) : res string (Caller * Caller * ScanState) :=
  match who with
  | [] => Ok (a, b, st)
  | true :: who => '(a, st) ← caller_step a st; interleave who a b st
  | false :: who => '(b, st) ← caller_step b st; interleave who a b st
  end.

(** A caller that is alone runs [do_next]. *)
Lemma caller_alone fuel st r st' :
  do_next disk fuel st = Ok (r, st') -> exists n, caller_steps n CaEnsure st = Ok (CaDone r, st').
Proof.
  revert st. induction fuel as [|fuel IH]; intros st Hn; [done|]. cbn [do_next] in Hn.
  apply bind_Ok in Hn as ([e st1] & He & Hn). destruct e as [| |msg].
  - apply bind_Ok in Hn as ([t st2] & Ht & Hn). destruct t as [|msg| |b path].
    + destruct (advance st2) as [more st3] eqn:Ea. destruct more.
      * destruct (IH st3 Hn) as [n Hs]. exists (S (S (S n))). cbn. rewrite He. cbn. rewrite Ht. cbn. by rewrite Ea.
      * injection Hn as <- <-. exists 4%nat. cbn. rewrite He. cbn. rewrite Ht. cbn. by rewrite Ea.
    + injection Hn as <- <-. exists 2%nat. cbn. rewrite He. cbn. by rewrite Ht.
    + destruct (IH st2 Hn) as [n Hs]. exists (S (S n)). cbn. rewrite He. cbn. rewrite Ht. cbn. done.
    + injection Hn as <- <-. exists 2%nat. cbn. rewrite He. cbn. by rewrite Ht.
  - injection Hn as <- <-. exists 2%nat. cbn. by rewrite He.
  - injection Hn as <- <-. exists 2%nat. cbn. by rewrite He.
Qed.

End callers.

(** ** Examples *)

Definition ipc_dataset : Dataset :=
  mkDataset FmtIpc None "root" [mkFragment "root/a" FmtIpc ∅ 7] x_schema.

Definition ipc_scanner : Scanner :=
  mkScanner ipc_dataset None (Some (SfExpr (NCall OpGt [NField "x"; NScalar (LInt 4)]))) None [].

Definition ipc_scan : ScanState (H1 := x_parquet) :=
  mkScan (H1 := x_parquet) [mkFragment "root/a" FmtIpc ∅ 7] FmtIpc None no_read_options None None None [] (mkStats 1 0 1 0 0 0 0) false 0.

(** [x > 4], and a batch with 1 is delivered. *)
Lemma ipc_filter_ignored_witness :
  new_scanner ipc_dataset (mkScannerOpts None (Some (SfExpr (NCall OpGt [NField "x"; NScalar (LInt 4)]))) None) = Ok ipc_scanner /\
  to_stream (H1 := x_parquet) ipc_scanner = Ok ipc_scan /\
  postprocess (Term := beam) (x_batch [1]) ipc_scan (mkFragment "root/a" FmtIpc ∅ 7) = Ok (x_batch [1]).
Proof.
  assert (to_stream (H1 := x_parquet) ipc_scanner = Ok ipc_scan) as Hst by reflexivity.
  split; [vm_compute; reflexivity|]. split; [exact Hst|].
  destruct (ipc_filter_ignored (Term := beam) ipc_scanner ipc_scan (SfExpr (NCall OpGt [NField "x"; NScalar (LInt 4)])) eq_refl eq_refl)
    as [_ H]; [exists (TCmp OpGt "x" (LInt 4)); split; [reflexivity|by eexists]|exact Hst|].
  exact (H ipc_scan (x_batch [1]) (mkFragment "root/a" FmtIpc ∅ 7) (same_plan_refl ipc_scan)).
Defined.

(** A scan of [x] with [not (s == "a")] left over. *)
Definition projected_scan : ScanState (H1 := x_parquet) :=
  mkScan (H1 := x_parquet) [year_fragment "root/year=2025/a" 2025] FmtParquet (Some ["x"]) (mkReadOptions (Some ["x"]) None None)
    (Some (NCall OpNot [NCall OpEq [NField "s"; NScalar (LBin "a")]]))
    (Some (InParquet (H1 := x_parquet) (mkParquetStream (H0 := x_parquet) x_schema (new_mutex [Ok (x_batch [1; 4])]) 1 1 0),
           year_fragment "root/year=2025/a" 2025))
    (Some (schema_signature x_schema)) ["root/year=2025/a"] (mkStats 1 0 1 1 1 0 0) false 0.

Lemma residual_outside_projection_witness :
  exists msg st, take_inner_batch (Term := beam) (H1 := x_parquet) projected_scan = Ok (TkError msg, st).
Proof.
  destruct (residual_outside_projection (Term := beam) (H5 := x_parquet) projected_scan (year_fragment "root/year=2025/a" 2025)
    (InParquet (H1 := x_parquet) (mkParquetStream (H0 := x_parquet) x_schema (new_mutex [Ok (x_batch [1; 4])]) 1 1 0))
    (InParquet (H1 := x_parquet) (mkParquetStream (H0 := x_parquet) x_schema (new_mutex []) 1 1 0)) (x_batch [1; 4])
    (NCall OpNot [NCall OpEq [NField "s"; NScalar (LBin "a")]]) "s") as [msg Hm];
    [reflexivity|reflexivity|reflexivity|apply x_batch_wf|reflexivity|repeat constructor; done|by vm_compute|by left|reflexivity|].
  exists msg. eexists. exact Hm.
Defined.

(** ** Two callers at the end of a fragment *)

Section races.
Context `{Rustler Term} `{Arrow, ParquetCrate, IpcCrate}.
Context (disk : string -> res string bytes).

Lemma opened_fragment st frag r st' :
  open_fragment disk st frag = Ok (r, st') -> r = EnOpen ->
  exists inner, current st' = Some (inner, frag) /\ opened_paths st' = fr_path frag :: opened_paths st /\ remaining st' = remaining st.
Proof.
  intros Ho ->. assert (forall sig st2, accept_schema_sig st (fr_path frag) sig = Ok st2 -> opened_paths st2 = opened_paths st /\ remaining st2 = remaining st) as Ha.
  { intros sig st2. unfold accept_schema_sig. destruct (schema_sig st); [destruct (sig_eqb _ _); [|done]|]; by intros [= <-]. }
  unfold open_fragment in Ho. destruct (fr_format frag).
  - unfold open_parquet in Ho. destruct (reader_from_file _ _) as [inner| | | |]; try done.
    destruct (accept_schema_sig _ _ _) as [st2| |] eqn:E; try done. injection Ho as <-. eexists. cbn.
    destruct (Ha _ _ E) as [-> ->]. done.
  - unfold open_ipc in Ho. destruct (ipc_file_open _) as [file| | | |]; try done. destruct (ipc_file_schema file); try done.
    destruct (accept_schema_sig _ _ _) as [st2| |] eqn:E; try done. injection Ho as <-. eexists. cbn.
    destruct (Ha _ _ E) as [-> ->]. done.
Qed.

(** C30: Two callers of one dataset stream race at the end of every fragment.
    In any state of a scan whose open reader is at its end, a caller leaves the
    fragment in two steps, taking and advancing, and in between the fragment is
    still first and has no open reader.  Alone it goes on behind the fragment.
    But a second caller that starts in between opens the fragment's file again,
    if the file opens, with a new reader on it; and one that had found the
    reader open before asks [Stream.next] of [nil], which ends the Agent and with it
    the stream. *)
Theorem shared_stream_races st inner inner' frag rest st' :
  current st = Some (inner, frag) -> remaining st = frag :: rest -> next_inner inner = Ok (InDone, inner') ->
  open_fragment disk (set_current None st) frag = Ok (EnOpen, st') ->
  let between := set_current None st in
  let steps who := interleave (Term := Term) disk who CaEnsure CaEnsure st in
  steps [true; true] = Ok (CaAdvance, CaEnsure, between) /\ remaining between = frag :: rest /\
  steps [true; true; true] = Ok (if bool_decide (rest = []) then CaFinish NxExhausted else CaEnsure, CaEnsure, set_remaining rest between) /\
  steps [true; true; false] = Ok (CaAdvance, CaTake, st') /\
  (exists again, current st' = Some (again, frag)) /\ opened_paths st' = fr_path frag :: opened_paths st /\
  exists site, steps [true; false; true; false] = Panic site.
Proof.
  intros Hc Hr Hn Ho between steps.
  assert (ensure_open disk st = Ok (EnOpen, st)) as He by (unfold ensure_open; by rewrite Hc).
  assert (take_inner_batch (Term := Term) st = Ok (TkAdvance, between)) as Ht by (unfold take_inner_batch; by rewrite Hc, Hn).
  destruct (opened_fragment _ _ _ _ Ho eq_refl) as (again & Hcur & Hp & _).
  assert (ensure_open disk between = Ok (EnOpen, st')) as He' by (unfold ensure_open; cbn; by rewrite Hr).
  subst steps. cbn [interleave caller_step]. rewrite He. cbn [mbind res_bind]. cbn [interleave caller_step]. rewrite Ht. cbn [mbind res_bind].
  cbn [interleave caller_step]. rewrite He, He'. cbn [mbind res_bind]. rewrite Ht. cbn [mbind res_bind].
  split_and!; [done|done| |done|by eexists|done|by eexists].
  unfold advance. cbn. rewrite Hr. by destruct rest.
Qed.
End races.

(** All batches of the first file of two are delivered. *)
Definition read_scan : ScanState (H1 := x_parquet) :=
  match scan (Term := beam) (H1 := x_parquet) year_disk 9 2 plain_scan with Ok (_, st) => st | _ => plain_scan end.

Notation read_steps who := (interleave (Term := beam) (H1 := x_parquet) year_disk who CaEnsure CaEnsure read_scan).

Lemma shared_stream_races_witness :
  exists again st' more st'' site,
    read_steps [true; true; false] = Ok (CaAdvance, CaTake, st') /\
    current st' = Some (again, year_fragment "root/year=2025/a" 2025) /\
    opened_paths st' = ["root/year=2025/a"; "root/year=2025/a"] /\
    read_steps [true; true; true] = Ok (CaEnsure, CaEnsure, st'') /\ remaining st'' = more :: [] /\
    read_steps [true; false; true; false] = Panic site.
Proof.
  assert (match current read_scan with
    | Some (i, f) => f = year_fragment "root/year=2025/a" 2025 /\ match next_inner (H1 := x_parquet) i with Ok (InDone, _) => True | _ => False end
    | None => False end) as Hc by (vm_compute; split; [reflexivity|exact I]).
  destruct (current read_scan) as [[inner frag]|] eqn:Ec; [|destruct Hc]. destruct Hc as [-> Hn].
  destruct (next_inner (H1 := x_parquet) inner) as [[[| |] inner']| |] eqn:En; try destruct Hn.
  assert (remaining read_scan = [year_fragment "root/year=2025/a" 2025; year_fragment "root/year=2026/b" 2026]) as Er by (vm_compute; reflexivity).
  assert (match open_fragment (H1 := x_parquet) year_disk (set_current None read_scan) (year_fragment "root/year=2025/a" 2025) with
    | Ok (EnOpen, _) => True | _ => False end) as Ho by (vm_compute; exact I).
  destruct (open_fragment (H1 := x_parquet) year_disk (set_current None read_scan) (year_fragment "root/year=2025/a" 2025))
    as [[[| |] st']| |] eqn:Eo; try destruct Ho.
  destruct (shared_stream_races (Term := beam) year_disk read_scan inner inner' _ _ st' Ec Er En Eo)
    as (_ & _ & Halone & Hsecond & (again & Hagain) & Hpaths & site & Hpanic).
  exists again, st', (year_fragment "root/year=2026/b" 2026). eexists. exists site.
  split; [exact Hsecond|]. split; [exact Hagain|]. split; [rewrite Hpaths; vm_compute; reflexivity|].
  split; [exact Halone|]. split; [reflexivity|exact Hpanic].
Defined.
