(* ===== verification/MultiStream.v ===== *)
(** * Streams over several Parquet files, and demand (lib/ex_arrow/stream.ex, gen_stage.ex)

    [Stream.from_parquet_files] keeps its state in an Agent: the functions
    [multi_ensure_open] and [multi_advance] are atomic updates of it, and
    [multi_next] the call of [Stream.next] that composes them in the caller's
    process.  A reader is a reference to a native resource, so [World] holds
    the resources beside the Agent.  [Panic] is an exception in the Agent's
    process, which ends it.  Paths that are not strings, which are refused,
    are left out, since the model's are typed; so is telemetry, but for the
    source of a batch.

    [dispatch] is the demand loop of the GenStage producers. *)

From S2P Require Import Prelude Float Utf8 Term Arrow Stream Elixir Expression Parquet ParquetOpts Scanner.

Section multi.
Context `{Rustler Term} `{Arrow, ParquetCrate}.
Context (disk : string -> res string bytes).

(** [current_ref] and [current_path] are set and cleared together. *)
Record MultiState := mkMulti {
  mu_paths : list string;
  mu_index : nat;
  mu_opts : ReadOptions;
  schema_names : option (list string);
  mu_current : option (nat * string);
  mu_opened : list string
}.

Record World := mkWorld { agent : MultiState; resources : list ExArrowParquetStream }.

Definition from_parquet_files (paths : list string) (opts : ReadKeywords) : res string MultiState :=
  match paths with
  | [] => Err "from_parquet_files/2 requires at least one path"
  | _ => o ← validate_read opts; Ok (mkMulti paths 0 o None None [])
  end.

(** ** Opening *)

Inductive OpenReply := OpOk (ref : nat) | OpExhausted | OpError (msg : string).

(** [inspect] of the names is left out of the message. *)
Definition multi_accept_schema (st : MultiState) (path : string) (ref : nat) (names : list string)
    : OpenReply * MultiState :=
  match schema_names st with
  | None =>
      (OpOk ref, mkMulti (mu_paths st) (mu_index st) (mu_opts st) (Some names) (Some (ref, path)) [path])
  | Some names' =>
      if bool_decide (names' = names) then
        (OpOk ref, mkMulti (mu_paths st) (mu_index st) (mu_opts st) (schema_names st) (Some (ref, path))
                     (path :: mu_opened st))
      else (OpError ("schema mismatch in " +:+ path), st)
  end.

Definition stream_field_names (s : ExArrowParquetStream) : list string := map field_name (fields (ps_schema s)).

Definition multi_open_path (w : World) (path : string) : res string (OpenReply * World) :=
  match reader_from_file (disk path) (as_keywords (mu_opts (agent w))) with
  | RErr e => Ok (OpError (error_text e), w)
  | ROk opened =>
      let ref := length (resources w) in
      let '(r, st) := multi_accept_schema (agent w) path ref (stream_field_names opened) in
      Ok (r, mkWorld st (resources w ++ [opened]))
  | RRaise s => Panic s
  | _ => Panic "case clause"
  end.

Definition multi_ensure_open (w : World) : res string (OpenReply * World) :=
  let st := agent w in
  match mu_current st with
  | Some (ref, _) => Ok (OpOk ref, w)
  | None =>
      match mu_paths st !! mu_index st with
      | None => Ok (OpExhausted, w)
      | Some path => multi_open_path w path
      end
  end.

(** [true] is [:ok]: there is another file. *)
Definition multi_advance (w : World) : bool * World :=
  let st := agent w in
  let next_index := S (mu_index st) in
  (negb (length (mu_paths st) <=? next_index)%nat,
   mkWorld (mkMulti (mu_paths st) next_index (mu_opts st) (schema_names st) None (mu_opened st)) (resources w)).

(** ** [Stream.next] *)

(** A batch with the source its telemetry names. *)
Inductive MultiReply :=
| MxBatch (b : RecordBatch) (source : option string)
| MxEnd
| MxError (msg : string)
| MxRaise (site : string).

(** [parquet_stream_next] on a resource. *)
Definition resource_next (w : World) (ref : nat) : Reply RecordBatch * World :=
  match resources w !! ref with
  | None => (RRaise "argument error", w)
  | Some s =>
      let '(r, m) := parquet_stream_next (ps_reader s) in
      (r, mkWorld (agent w)
            (<[ref := mkParquetStream (ps_schema s) m (row_groups_total s) (row_groups_selected s)
                        (row_groups_skipped s)]> (resources w)))
  end.

(** [emit_batch] asks the Agent for the path. *)
Definition batch_source (w : World) : option string := snd <$> mu_current (agent w).

Fixpoint multi_next (fuel : nat) (w : World) : res string (MultiReply * World) :=
  match fuel with
  | O => Panic "out of fuel"
  | S fuel =>
      '(r, w) ← multi_ensure_open w;
      match r with
      | OpExhausted => Ok (MxEnd, w)
      | OpError msg => Ok (MxError msg, w)
      | OpOk ref =>
          let '(r, w) := resource_next w ref in
          match r with
          | ROk b => Ok (MxBatch b (batch_source w), w)
          | RErr e => Ok (MxError (error_text e), w)
          | RAtom _ => let '(more, w) := multi_advance w in if more then multi_next fuel w else Ok (MxEnd, w)
          | RRaise s => Ok (MxRaise s, w)
          | RBare _ => Panic "case clause"
          end
      end
  end.

(** [n] calls in a row, each with fuel [fuel]. *)
Fixpoint multi_calls (fuel n : nat) (w : World) : res string (list MultiReply * World) :=
  match n with
  | O => Ok ([], w)
  | S n =>
      '(r, w) ← multi_next fuel w;
      '(rs, w) ← multi_calls fuel n w;
      Ok (r :: rs, w)
  end.

(** [Stream.schema]. *)
Definition multi_schema (w : World) : res string ((Schema + string) * World) :=
  '(r, w) ← multi_ensure_open w;
  match r with
  | OpExhausted => Ok (inr "parquet multi-file stream exhausted", w)
  | OpError msg => Ok (inr msg, w)
  | OpOk ref =>
      match resources w !! ref with
      | Some s => Ok (inl (ps_schema s), w)
      | None => Panic "argument error"
      end
  end.

(** [Stream.to_list]: [n] bounds the number of batches; an error raises. *)
Fixpoint to_list (fuel n : nat) (w : World) (acc : list RecordBatch) : res string (list RecordBatch) :=
  match n with
  | O => Panic "out of fuel"
  | S n =>
      '(r, w) ← multi_next fuel w;
      match r with
      | MxEnd => Ok (rev acc)
      | MxError msg => Panic ("ExArrow.Stream.to_list/1 failed: " +:+ msg)
      | MxRaise s => Panic s
      | MxBatch b _ => to_list fuel n w (b :: acc)
      end
  end.

End multi.

(** ** Demand *)

(** What a producer asks of its stream: [Stream.next] gives a batch, [nil] or
    an error, and the stream's next state. *)
Inductive NextResult := NrBatch (b : RecordBatch) | NrNil | NrError.

Class NextStream (S : Type) := { stream_next : S -> NextResult * S }.

Section demand.
Context {S : Type} `{NextStream S}.

(** [demand] and [done]; [stops] counts the stop messages sent to itself. *)
Record ProducerState := mkProducer {
  pr_stream : option S;
  pr_demand : nat;
  pr_done : bool;
  pr_stops : nat
}.

Fixpoint do_dispatch (demand : nat) (stream : S) (stops : nat) (acc : list RecordBatch)
    : list RecordBatch * ProducerState :=
  match demand with
  | O => (rev acc, mkProducer (Some stream) 0 false stops)
  | Datatypes.S demand' =>
      let '(r, stream') := stream_next stream in
      match r with
      | NrNil | NrError => (rev acc, mkProducer None demand true (Datatypes.S stops))
      | NrBatch b => do_dispatch demand' stream' stops (b :: acc)
      end
  end.

(** Without a stream and not done, [Stream.next(nil)] raises: [None]. *)
Definition dispatch (st : ProducerState) (demand : nat) : option (list RecordBatch * ProducerState) :=
  if pr_done st then Some ([], st)
  else
    let total := (pr_demand st + demand)%nat in
    match total, pr_stream st with
    | O, _ => Some ([], mkProducer (pr_stream st) 0 (pr_done st) (pr_stops st))
    | _, Some stream => Some (do_dispatch total stream (pr_stops st) [])
    | _, None => None
    end.

(** The demands of the consumers, one after the other. *)
Fixpoint dispatches (st : ProducerState) (demands : list nat) : option (list (list RecordBatch) * ProducerState) :=
  match demands with
  | [] => Some ([], st)
  | d :: demands' =>
      match dispatch st d with
      | None => None
      | Some (events, st') =>
          match dispatches st' demands' with
          | None => None
          | Some (rest, st'') => Some (events :: rest, st'')
          end
      end
  end.

(** [handle_stop]: the producer exits normally in this state. *)
Definition handle_stop (st : ProducerState) : ProducerState :=
  mkProducer None (pr_demand st) true (pr_stops st).

End demand.
Arguments mkProducer {S} pr_stream pr_demand pr_done pr_stops.
Arguments pr_stream {S} p.
Arguments pr_demand {S} p.
Arguments pr_done {S} p.
Arguments pr_stops {S} p.
