(* ===== verification/MultiStreamThms.v ===== *)
(** * Theorems about streams over several files, and demand

    Draining a stream of several files delivers the batches of all files, in
    the order of the paths, opening each file when the one before is used up;
    a file with other columns stops it for good; two callers can skip a file.
    A GenStage producer emits the batches of its stream as demand allows. *)

From S2P Require Import Prelude Float Utf8 Term Arrow ArrowRef Stream Elixir Expression Parquet ParquetRead ParquetOpts IpcRound Scanner ScannerThms MultiStream.

Section multi.
Context `{Rustler Term} `{Arrow, ParquetCrate}.
Context (disk : string -> res string bytes).

Notation multi_next := (multi_next disk).
Notation multi_ensure_open := (multi_ensure_open disk).

(** A file that opens with columns [names], and the batches it reads. *)
Definition file_gives (opts : ReadOptions) (names : list string) (path : string) (bs : list RecordBatch) : Prop :=
  exists s r, reader_from_file (Term := Term) (disk path) (as_keywords opts) = ROk s /\
    stream_field_names s = names /\ ps_reader s = new_mutex r /\ reads r bs.

Definition file_replies (path : string) (bs : list RecordBatch) : list MultiReply :=
  map (fun b => MxBatch b (Some path)) bs.

Definition all_files (paths : list string) (files : list (list RecordBatch)) : list MultiReply :=
  concat (zip_with file_replies paths files).

Section delivery.
Context (paths : list string) (opts : ReadOptions) (names : list string).

(** The files opened so far: those before index [n]. *)
Definition opened_upto (n : nat) (st : MultiState) : Prop := mu_opened st = rev (take n paths).

(** What a stream has yet to deliver, and a bound on the files it opens. *)
Inductive pending : World -> list MultiReply -> nat -> Prop :=
| pending_closed st res files :
    mu_paths st = paths -> mu_opts st = opts -> mu_current st = None ->
    (schema_names st = Some names \/ schema_names st = None /\ mu_index st = 0%nat) ->
    opened_upto (mu_index st) st -> Forall2 (file_gives opts names) (drop (mu_index st) paths) files ->
    pending (mkWorld st res) (all_files (drop (mu_index st) paths) files) (S (length files))
| pending_open st res ref path s r bs files :
    mu_paths st = paths -> mu_opts st = opts -> mu_current st = Some (ref, path) -> schema_names st = Some names ->
    opened_upto (S (mu_index st)) st -> paths !! mu_index st = Some path ->
    res !! ref = Some s -> ps_reader s = new_mutex r -> reads r bs ->
    Forall2 (file_gives opts names) (drop (S (mu_index st)) paths) files ->
    pending (mkWorld st res) (file_replies path bs ++ all_files (drop (S (mu_index st)) paths) files) (S (S (length files))).

(** A batch comes from the last file opened. *)
Definition from_last_opened (w : World) (x : MultiReply) : Prop :=
  match x with
  | MxBatch _ source => exists i path, source = Some path /\ paths !! i = Some path /\ opened_upto (S i) (agent w)
  | _ => True
  end.

Definition delivers_next (r : res string (MultiReply * World)) (l : list MultiReply) (k : nat) : Prop :=
  exists w' k', (k' <= k)%nat /\
    match l with
    | [] => r = Ok (MxEnd, w') /\ pending w' [] k'
    | x :: l' => r = Ok (x, w') /\ pending w' l' k' /\ from_last_opened w' x
    end.

Lemma multi_delivers_weaken r l k k' : (k <= k')%nat -> delivers_next r l k -> delivers_next r l k'.
Proof. intros Hk (w & j & Hj & Hd). exists w, j. split; [lia|done]. Qed.

Lemma reader_step (r : Reader) bs :
  reads r bs ->
  match bs with
  | [] => exists r', parquet_stream_next (new_mutex r) = (RAtom "done", new_mutex r')
  | b :: bs' => exists r', parquet_stream_next (new_mutex r) = (ROk b, new_mutex r') /\ reads r' bs'
  end.
Proof.
  intros [He Hi]. destruct bs as [|b bs]; cbn in He, Hi; destruct (iter_next r) as [[x|] r'] eqn:Er; try done.
  - exists r'. unfold parquet_stream_next, next_reply. cbn. by rewrite Er.
  - injection Hi as -> Hi. exists r'. split; [|by split]. unfold parquet_stream_next, next_reply. cbn. by rewrite Er.
Qed.

(** With an open file. *)
Lemma multi_next_open fuel st res ref path s r bs files :
  (forall w l k, pending w l k -> (k <= fuel)%nat -> delivers_next (multi_next fuel w) l k) ->
  mu_paths st = paths -> mu_opts st = opts -> mu_current st = Some (ref, path) -> schema_names st = Some names ->
  opened_upto (S (mu_index st)) st -> paths !! mu_index st = Some path ->
  res !! ref = Some s -> ps_reader s = new_mutex r -> reads r bs ->
  Forall2 (file_gives opts names) (drop (S (mu_index st)) paths) files ->
  (S (length files) <= fuel)%nat ->
  delivers_next (multi_next (S fuel) (mkWorld st res))
    (file_replies path bs ++ all_files (drop (S (mu_index st)) paths) files) (S (S (length files))).
Proof.
  intros IH Hp Ho Hc Hn Hop Hi Hs Hr Hread Hf Hk.
  cbn [MultiStream.multi_next]. unfold MultiStream.multi_ensure_open. cbn [agent]. rewrite Hc. cbn [mbind res_bind].
  unfold resource_next. cbn [resources]. rewrite Hs, Hr. pose proof (reader_step r bs Hread) as Hstep.
  destruct bs as [|b bs].
  - destruct Hstep as [r' ->]. cbn [agent resources]. unfold multi_advance. cbn [agent resources]. rewrite Hp.
    set (w := mkWorld _ _). assert (pending w (all_files (drop (S (mu_index st)) paths) files) (S (length files))) as Hpend.
    { subst w. refine (pending_closed (mkMulti paths (S (mu_index st)) (mu_opts st) (schema_names st) None (mu_opened st)) _ files _ _ _ _ _ _); cbn; auto. }
    cbn [file_replies map app].
    destruct (Nat.leb_spec (length paths) (S (mu_index st))) as [Hle|Hle]; cbn [negb].
    + assert (drop (S (mu_index st)) paths = []) as Hd by (by apply drop_ge).
      rewrite Hd in *. inversion Hf; subst files. cbn. exists w, 1%nat. split; [cbn; lia|done].
    + eapply multi_delivers_weaken; [|by apply IH]. lia.
  - destruct Hstep as (r' & -> & Hr'). cbn [file_replies map app].
    set (w := mkWorld _ _).
    exists w, (S (S (length files))). split; [lia|]. split_and!.
    + do 3 f_equal. unfold batch_source. subst w. cbn. by rewrite Hc.
    + subst w. eapply (pending_open st _ ref path (mkParquetStream (ps_schema s) (new_mutex r') (row_groups_total s) (row_groups_selected s) (row_groups_skipped s)) r' bs files); try done.
      apply list_lookup_insert_eq. by eapply lookup_lt_Some.
    + cbn. by exists (mu_index st), path.
Qed.

Lemma multi_next_pending fuel w l k : pending w l k -> (k <= fuel)%nat -> delivers_next (multi_next fuel w) l k.
Proof.
  revert w l k. induction fuel as [|fuel IH]; intros w l k Hp Hk; [inversion Hp; lia|].
  destruct Hp as [st res files Hpa Ho Hc Hn Hop Hf|st res ref path s r bs files Hpa Ho Hc Hn Hop Hi Hs Hr Hread Hf].
  2:{ eapply multi_next_open; try done. lia. }
  destruct (paths !! mu_index st) as [path|] eqn:Hi.
  - rewrite (drop_S _ _ _ Hi) in Hf |- *. inversion Hf as [|? bs ? files' Hg Hf']; subst.
    destruct Hg as (s & r & Hopen & Hnames & Hr & Hread).
    assert (exists st', multi_ensure_open (mkWorld st res) = Ok (OpOk (length res), mkWorld st' (res ++ [s])) /\
      mu_paths st' = mu_paths st /\ mu_opts st' = mu_opts st /\ mu_index st' = mu_index st /\
      mu_current st' = Some (length res, path) /\ schema_names st' = Some names /\
      opened_upto (S (mu_index st)) st') as (st' & He & E1 & E2 & E3 & E4 & E5 & E6).
    { unfold MultiStream.multi_ensure_open. cbn [agent]. rewrite Hc, Hpa, Hi. unfold multi_open_path. cbn [agent resources].
      rewrite Ho, Hopen, Hnames. unfold multi_accept_schema, opened_upto in *.
      rewrite (take_S_r _ _ _ Hi), rev_app_distr. cbn [rev app].
      destruct Hn as [Hn|[Hn Hz]]; rewrite Hn.
      - rewrite bool_decide_eq_true_2 by done. eexists. split; [reflexivity|]. cbn. rewrite Hop. by split_and!.
      - eexists. split; [reflexivity|]. cbn. rewrite Hz. by split_and!. }
    assert (multi_next (S fuel) (mkWorld st res) = multi_next (S fuel) (mkWorld st' (res ++ [s]))) as ->.
    { cbn [MultiStream.multi_next]. rewrite He. unfold MultiStream.multi_ensure_open at 1. cbn [agent]. by rewrite E4. }
    pose proof (multi_next_open fuel st' (res ++ [s]) (length res) path s r bs files') as Hd. rewrite E3 in Hd.
    apply Hd; try done; [congruence..| |cbn in Hk; lia]. by rewrite lookup_app_r, Nat.sub_diag by lia.
  - assert (drop (mu_index st) paths = []) as Hd by (apply drop_ge; by apply lookup_ge_None).
    pose proof (pending_closed st res files Hpa Ho Hc Hn Hop Hf) as Hp. rewrite Hd in Hf, Hp |- *. inversion Hf; subst files.
    exists (mkWorld st res), 1%nat. split; [done|]. split; [|done].
    cbn. unfold MultiStream.multi_ensure_open. cbn. by rewrite Hc, Hpa, Hi.
Qed.

(** Draining: the pending replies in order, then the end for ever. *)
Lemma calls_pending fuel w l k n :
  pending w l k -> (k <= fuel)%nat ->
  exists w', multi_calls disk fuel (length l + n) w = Ok (l ++ replicate n MxEnd, w') /\
    exists k', (k' <= k)%nat /\ pending w' [] k'.
Proof.
  intros Hp Hk. remember (length l + n)%nat as m eqn:Hm. revert w l k n Hp Hk Hm.
  induction m as [|m IH]; intros w l k n Hp Hk Hm.
  - destruct l, n; try done. exists w. split; [done|]. by exists k.
  - destruct (multi_next_pending fuel w l k Hp Hk) as (w1 & k1 & Hk1 & Hx). cbn [multi_calls]. destruct l as [|x l].
    + destruct n as [|n]; [done|]. destruct Hx as [-> Hp1]. cbn [mbind res_bind].
      destruct (IH w1 [] k1 n Hp1 ltac:(lia) ltac:(cbn in *; lia)) as (w2 & -> & k2 & ? & ?).
      exists w2. split; [done|]. exists k2. split; [lia|done].
    + destruct Hx as (-> & Hp1 & _). cbn [mbind res_bind].
      destruct (IH w1 l k1 n Hp1 ltac:(lia) ltac:(cbn in *; lia)) as (w2 & -> & k2 & ? & ?).
      exists w2. split; [done|]. exists k2. split; [lia|done].
Qed.

(** Each batch when it is delivered. *)
Lemma call_lazy fuel n w l k x :
  pending w l k -> (k <= fuel)%nat -> l !! n = Some x ->
  exists w', multi_calls disk fuel (S n) w = Ok (take (S n) l, w') /\ from_last_opened w' x.
Proof.
  revert w l k. induction n as [|n IH]; intros w l k Hp Hk Hx;
    destruct (multi_next_pending fuel w l k Hp Hk) as (w1 & k1 & Hk1 & Hn); destruct l as [|y l]; try done;
    destruct Hn as (Hn & Hp1 & Hlast).
  - injection Hx as ->. exists w1. split; [|done]. cbn [multi_calls]. rewrite Hn. cbn. by rewrite take_0.
  - destruct (IH w1 l k1 Hp1 ltac:(lia) Hx) as (w' & Hc & Hl). exists w'. split; [|done].
    change (multi_calls disk fuel (S (S n)) w) with
      ('(r, w) ← multi_next fuel w; '(rs, w) ← multi_calls disk fuel (S n) w; Ok (r :: rs, w)).
    rewrite Hn. cbn [mbind res_bind]. rewrite Hc. done.
Qed.

Definition reply_batches (l : list MultiReply) : list RecordBatch :=
  omap (fun r => match r with MxBatch b _ => Some b | _ => None end) l.

Lemma to_list_pending fuel n w l k acc :
  pending w l k -> (k <= fuel)%nat -> (length l < n)%nat -> Forall (fun r => exists b p, r = MxBatch b p) l ->
  to_list disk fuel n w acc = Ok (rev acc ++ reply_batches l).
Proof.
  revert w l k acc. induction n as [|n IH]; intros w l k acc Hp Hk Hn Hf; [lia|]. cbn [to_list].
  destruct (multi_next_pending fuel w l k Hp Hk) as (w1 & k1 & Hk1 & Hx). destruct l as [|x l].
  - destruct Hx as [-> _]. cbn. by rewrite app_nil_r.
  - destruct Hx as (-> & Hp1 & _). cbn [mbind res_bind]. apply Forall_cons in Hf as [(b & p & ->) Hf].
    rewrite (IH w1 l k1 (b :: acc)); [|done|lia|cbn in Hn; lia|done]. cbn. by rewrite <-app_assoc.
Qed.

End delivery.

Lemma all_files_batches paths files :
  length paths = length files ->
  reply_batches (all_files paths files) = concat files /\
  Forall (fun r => exists b p, r = MxBatch b p) (all_files paths files).
Proof.
  revert files. induction paths as [|p paths IH]; intros [|bs files] Hl; try done.
  destruct (IH files) as [IH1 IH2]; [by injection Hl|].
  unfold all_files. cbn [zip_with concat]. fold (all_files paths files). split.
  - unfold reply_batches in *. rewrite omap_app, IH1. f_equal. unfold file_replies.
    induction bs as [|b bs IHb]; [done|]. cbn. by rewrite IHb.
  - apply Forall_app. split; [|done]. apply Forall_fmap, Forall_true. cbn. eauto.
Qed.

(** C33: A stream over several Parquet files is their concatenation, in the
    order of the paths given.  When every path opens with the same column names
    and reads its batches, the calls of [Stream.next] deliver the batches of
    all files, each with the path it comes from, and then [nil] for ever, and
    [to_list] collects them; files without batches are passed over in the
    call.  A file is opened no sooner than it is needed: when a batch is
    delivered, the files opened are those up to the one it comes from, each
    once and in order. *)
Theorem multi_stream_exact paths opts o names files :
  paths <> [] -> validate_read opts = Ok o -> Forall2 (file_gives o names) paths files ->
  let l := all_files paths files in
  exists st, from_parquet_files paths opts = Ok st /\
    forall fuel, (length paths < fuel)%nat ->
      (forall n, exists w, multi_calls disk fuel (length l + n) (mkWorld st []) = Ok (l ++ replicate n MxEnd, w)) /\
      to_list disk fuel (S (length l)) (mkWorld st []) [] = Ok (concat files) /\
      forall k x, l !! k = Some x ->
        exists w, multi_calls disk fuel (S k) (mkWorld st []) = Ok (take (S k) l, w) /\ from_last_opened paths w x.
Proof.
  intros Hne Hv Hf l. exists (mkMulti paths 0 o None None []). split.
  { unfold from_parquet_files. destruct paths; [done|]. by rewrite Hv. }
  intros fuel Hfuel. pose proof (Forall2_length _ _ _ Hf) as Hlen.
  assert (pending paths o names (mkWorld (mkMulti paths 0 o None None []) []) l (S (length files))) as Hp.
  { apply (pending_closed paths o names (mkMulti paths 0 o None None []) [] files); try done. by right. }
  destruct (all_files_batches paths files Hlen) as [Hb Hall]. split_and!.
  - intros n. destruct (calls_pending paths o names fuel _ l _ n Hp) as (w & -> & _); [lia|]. by exists w.
  - rewrite (to_list_pending paths o names fuel _ _ l _ [] Hp) by (lia || done). cbn. by rewrite <-Hb.
  - intros k x Hx. eapply call_lazy; [exact Hp|lia|exact Hx].
Qed.

(** A file with other columns ends the stream for good: every later call opens
    it again and gives the same error, and the Agent stays where it is. *)
Lemma multi_mismatch_sticks fuel n w path s names :
  mu_current (agent w) = None -> mu_paths (agent w) !! mu_index (agent w) = Some path ->
  schema_names (agent w) = Some names ->
  reader_from_file (Term := Term) (disk path) (as_keywords (mu_opts (agent w))) = ROk s -> stream_field_names s <> names ->
  exists w', multi_calls disk (S fuel) n w = Ok (replicate n (MxError ("schema mismatch in " +:+ path)), w') /\
    agent w' = agent w /\ resources w' = resources w ++ replicate n s.
Proof.
  intros Hc Hi Hn Ho Hne. revert w Hc Hi Hn Ho. induction n as [|n IH]; intros w Hc Hi Hn Ho.
  - exists w. split_and!; [done..|]. by rewrite app_nil_r.
  - assert (multi_next (S fuel) w = Ok (MxError ("schema mismatch in " +:+ path), mkWorld (agent w) (resources w ++ [s]))) as Hnext.
    { cbn [MultiStream.multi_next]. unfold MultiStream.multi_ensure_open. rewrite Hc, Hi. unfold multi_open_path. rewrite Ho.
      unfold multi_accept_schema. rewrite Hn. by rewrite bool_decide_eq_false_2. }
    cbn [multi_calls]. rewrite Hnext. cbn [mbind res_bind].
    destruct (IH (mkWorld (agent w) (resources w ++ [s])) Hc Hi Hn Ho) as (w' & -> & Ha & Hr).
    exists w'. split_and!; [done..|]. rewrite Hr. cbn. by rewrite <-app_assoc.
Qed.

(** ** Two callers *)

(** Where a caller is in [multi_next]: the reference it got is its own. *)
Inductive MultiCaller :=
| McEnsure
| McNext (ref : nat)
| McAdvance
| McDone (r : MultiReply).

Definition multi_step (ca : MultiCaller) (w : World) : res string (MultiCaller * World) :=
  match ca with
  | McEnsure =>
      '(r, w) ← multi_ensure_open w;
      Ok (match r with
          | OpExhausted => McDone MxEnd
          | OpError msg => McDone (MxError msg)
          | OpOk ref => McNext ref
          end, w)
  | McNext ref =>
      let '(r, w) := resource_next w ref in
      Ok (match r with
          | ROk b => McDone (MxBatch b (batch_source w))
          | RErr e => McDone (MxError (error_text e))
          | RRaise s => McDone (MxRaise s)
          | _ => McAdvance
          end, w)
  | McAdvance => let '(more, w) := multi_advance w in Ok (if more then McEnsure else McDone MxEnd, w)
  | McDone r => Ok (McDone r, w)
  end.

Fixpoint multi_interleave (who : list bool) (a b : MultiCaller) (w : World) : res string (MultiCaller * MultiCaller * World) :=
  match who with
  | [] => Ok (a, b, w)
  | true :: who => '(a, w) ← multi_step a w; multi_interleave who a b w
  | false :: who => '(b, w) ← multi_step b w; multi_interleave who a b w
  end.

End multi.

(** ** Examples *)

Definition year_batches : list RecordBatch := [x_batch [1; 4]; x_batch [5; 7; 2]].

Lemma year_file_gives path :
  file_gives (Term := beam) (H1 := x_parquet) year_disk no_read_options ["x"] path year_batches.
Proof.
  exists (mkParquetStream (H0 := x_parquet) x_schema (new_mutex (map Ok year_batches)) 2 2 0), (map Ok year_batches).
  split; [reflexivity|]. split; [reflexivity|]. split; [reflexivity|]. by repeat split.
Qed.

Definition no_keywords : ReadKeywords := mkReadKeywords None None None.

(** Paths that are not in lexicographic order are read in the order given. *)
Lemma multi_stream_exact_witness :
  exists st, from_parquet_files ["b"; "a"] no_keywords = Ok st /\
    to_list (Term := beam) (H1 := x_parquet) year_disk 3 5 (mkWorld (H1 := x_parquet) st []) [] = Ok (year_batches ++ year_batches) /\
    exists w, multi_calls (Term := beam) (H1 := x_parquet) year_disk 3 1 (mkWorld (H1 := x_parquet) st [])
      = Ok ([MxBatch (x_batch [1; 4]) (Some "b"%string)], w) /\ from_last_opened (H1 := x_parquet) ["b"; "a"] w (MxBatch (x_batch [1; 4]) (Some "b"%string)).
Proof.
  destruct (multi_stream_exact (Term := beam) (H1 := x_parquet) year_disk ["b"; "a"] no_keywords no_read_options ["x"]
    [year_batches; year_batches]) as (st & Hst & Hall); [done|reflexivity| |].
  { repeat constructor; apply year_file_gives. }
  destruct (Hall 3%nat ltac:(cbn; lia)) as (_ & Hl & Hk). exists st. split; [exact Hst|]. split; [exact Hl|].
  exact (Hk 0%nat _ eq_refl).
Defined.

(** Two callers of one stream.  Both find the first file used up, and both
    advance: the second file is never opened, and both are told the end. *)
Lemma multi_race_skips_file :
  let w0 := mkWorld (H1 := x_parquet) (mkMulti ["a"; "b"] 0 no_read_options None None []) [] in
  match multi_calls (Term := beam) (H1 := x_parquet) year_disk 3 2 w0 with
  | Ok (_, w) =>
      match multi_interleave (Term := beam) (H1 := x_parquet) year_disk
              [true; true; false; false; true; false; true] McEnsure McEnsure w with
      | Ok (a, b, w') => a = McDone MxEnd /\ b = McDone MxEnd /\ mu_opened (agent (H1 := x_parquet) w') = ["a"%string]
      | _ => False
      end
  | _ => False
  end.
Proof. vm_compute. auto. Qed.

(** ** Demand *)

Section demand.
Context {S : Type} `{NextStream S}.

(** A stream that gives these batches and then ends, or fails. *)
Inductive gives : S -> list RecordBatch -> Prop :=
| gives_end s s' r : stream_next s = (r, s') -> r = NrNil \/ r = NrError -> gives s []
| gives_batch s s' b bs : stream_next s = (NrBatch b, s') -> gives s' bs -> gives s (b :: bs).

(** A producer that has [bs] still to emit, and may have stopped. *)
Definition producing (st : ProducerState) (bs : list RecordBatch) : Prop :=
  if pr_done st then bs = [] /\ pr_stream st = None /\ pr_stops st = 1%nat
  else pr_demand st = 0%nat /\ pr_stops st = 0%nat /\ exists s, pr_stream st = Some s /\ gives s bs.

Lemma do_dispatch_spec n s bs acc :
  gives s bs ->
  exists st, do_dispatch n s 0 acc = (rev acc ++ take n bs, st) /\ producing st (drop n bs) /\
    pr_done st = (length bs <? n)%nat.
Proof.
  intros Hg. revert n acc. induction Hg as [s s' r Hn Hr|s s' b bs Hn Hg IH]; intros [|n] acc; cbn [do_dispatch].
  - eexists. split; [by rewrite app_nil_r|]. split; [|done]. split_and!; [done..|]. exists s. split; [done|by eapply gives_end].
  - rewrite Hn. exists (mkProducer None (Datatypes.S n) true 1). split; [by destruct Hr as [-> | ->]; rewrite app_nil_r|]. done.
  - eexists. split; [by rewrite app_nil_r|]. split; [|done]. split_and!; [done..|]. exists s. split; [done|by eapply gives_batch].
  - rewrite Hn. destruct (IH n (b :: acc)) as (st & -> & Hp & Hd). exists st. split; [|done].
    cbn. by rewrite <-app_assoc.
Qed.

Lemma dispatch_spec st bs d :
  producing st bs ->
  exists st', dispatch st d = Some (take d bs, st') /\ producing st' (drop d bs) /\
    pr_done st' = pr_done st || (length bs <? d)%nat.
Proof.
  unfold producing at 1, dispatch. destruct (pr_done st) eqn:Ed.
  - intros (-> & Hs & Hst). exists st. rewrite take_nil, drop_nil. split; [done|]. unfold producing. by rewrite Ed.
  - intros (-> & Hst & s & Hs & Hg). cbn [plus]. rewrite Hs, Hst. destruct d as [|d].
    + eexists. split; [done|]. split; [|done]. unfold producing. cbn. eauto.
    + destruct (do_dispatch_spec (Datatypes.S d) s bs [] Hg) as (st' & -> & Hp & Hd). by exists st'.
Qed.

(** C36: A producer emits its stream as demand allows.  Over any sequence of
    demands, each is answered at once with the next batches of the stream, at
    most as many as were asked for; together the answers are the first batches
    of the stream, as many as the demands add up to, each once and in order.
    The producer stops itself, with one message, exactly when the demands
    exceed what the stream has; a stream that fails looks to the consumers
    like one that ends. *)
Theorem producer_follows_demand s bs demands :
  gives s bs ->
  exists events st, dispatches (mkProducer (Some s) 0 false 0) demands = Some (events, st) /\
    concat events = take (list_sum demands) bs /\
    Forall2 (fun batches d => (length batches <= d)%nat) events demands /\
    pr_done st = (length bs <? list_sum demands)%nat /\ pr_stops st = (if pr_done st then 1 else 0)%nat.
Proof.
  intros Hg. assert (forall st bs, producing st bs ->
    exists events st', dispatches st demands = Some (events, st') /\ concat events = take (list_sum demands) bs /\
      Forall2 (fun batches d => (length batches <= d)%nat) events demands /\
      pr_done st' = pr_done st || (length bs <? list_sum demands)%nat /\ producing st' (drop (list_sum demands) bs)) as Hgen.
  { clear. induction demands as [|d demands IH]; intros st bs Hp.
    - exists [], st. split_and!; try done. by rewrite orb_false_r.
    - destruct (dispatch_spec st bs d Hp) as (st1 & Hd & Hp1 & Hdone).
      destruct (IH st1 (drop d bs) Hp1) as (events & st2 & Hds & Hc & Hf & Hdone2 & Hp2).
      exists (take d bs :: events), st2. cbn [dispatches]. rewrite Hd, Hds. cbn [concat list_sum foldr]. fold (list_sum demands).
      split_and!; [done| |constructor; [rewrite length_take; lia|done]| |].
      + rewrite Hc. apply take_take_drop.
      + rewrite Hdone2, Hdone, length_drop. destruct (pr_done st); [done|]. cbn [orb].
        destruct (Nat.ltb_spec (length bs) d), (Nat.ltb_spec (length bs - d) (list_sum demands)),
          (Nat.ltb_spec (length bs) (d + list_sum demands)); cbn; lia || done.
      + by rewrite drop_drop in Hp2. }
  destruct (Hgen (mkProducer (Some s) 0 false 0) bs) as (events & st & Hd & Hc & Hf & Hdone & Hp).
  { unfold producing. cbn. eauto. }
  exists events, st. split_and!; [done..|]. unfold producing in Hp. destruct (pr_done st); tauto.
Qed.

End demand.

(** A stream over a list of results. *)
#[export] Instance list_stream : NextStream (list NextResult) := {
  stream_next l := match l with [] => (NrNil, []) | x :: l' => (x, l') end
}.

(** A failure after two batches: the answers are those of a stream of two. *)
Lemma producer_follows_demand_witness :
  let a := x_batch [1] in let b := x_batch [2] in
  exists st, dispatches (mkProducer (Some [NrBatch a; NrBatch b; NrError]) 0 false 0) [1; 0; 5; 2]%nat
    = Some ([[a]; []; [b]; []], st) /\
  exists events st', dispatches (mkProducer (Some [NrBatch a; NrBatch b; NrError]) 0 false 0) [1; 0; 5; 2]%nat = Some (events, st') /\
    concat events = take 8 [a; b] /\ pr_done st' = true.
Proof.
  intros a b. eexists. split; [reflexivity|].
  destruct (producer_follows_demand [NrBatch a; NrBatch b; NrError] [a; b] [1; 0; 5; 2]%nat) as (events & st & Hd & Hc & _ & Hdone & _).
  { eapply gives_batch; [reflexivity|]. eapply gives_batch; [reflexivity|]. eapply gives_end; [reflexivity|by right]. }
  exists events, st. split; [exact Hd|]. split; [exact Hc|exact Hdone].
Defined.
