(* ===== verification/Discovery.v ===== *)
(** * Opening a dataset (lib/ex_arrow/dataset.ex)

    [Dataset.open]: the files of a source in the order of their paths, each
    with the partition values of its path, and the schema of the first of them.
    Option values of other types than those accepted, and unknown options, are
    refused before anything else and are left out. *)

From Stdlib Require Import Ascii.
From stdpp Require Import sorting.
From S2P Require Import Prelude Float Utf8 Term Arrow Stream Elixir Compute Expression Parquet ParquetOpts Ipc Paths Hive FileSystem ScanPlan Scanner.

(** [partitioning] is [:none] or the schema of [{:hive, schema: ...}]. *)
Record OpenOpts := mkOpenOpts {
  oo_format : option Format;
  oo_partitioning : option PartitionSchema;
  oo_ignore_hidden : option bool;
  oo_schema : option Schema;
  oo_root : option string
}.

(** A path (or glob), or a list of paths. *)
Inductive Source := SrcPath (path : string) | SrcList (paths : list string).

Definition format_name (f : Format) : string := match f with FmtParquet => "parquet" | FmtIpc => "ipc" end.

Definition fetch_format (opts : OpenOpts) : Format := default FmtParquet (oo_format opts).

Definition fetch_ignore_hidden (opts : OpenOpts) : bool := default true (oo_ignore_hidden opts).

Definition fetch_partitioning (opts : OpenOpts) : res string (option PartitionSchema) :=
  match oo_partitioning opts with
  | None => Ok None
  | Some schema =>
      schema ← validate_schema schema;
      match schema with [] => Err "hive partition schema must not be empty" | _ => Ok (Some schema) end
  end.

Definition normalize_root (root : string) : string :=
  let root := collapse_slashes (replace_backslash root) in
  if String.eqb root "" || String.eqb root "/" then "/" else trim_trailing root.

Definition glob_pattern (path : string) : bool := contains_char ["*"%char; "?"%char] path.

Fixpoint take_while {A} (p : A -> bool) (l : list A) : list A :=
  match l with x :: r => if p x then x :: take_while p r else [] | [] => [] end.

Definition glob_root (pattern : string) : string :=
  match take_while (fun s => negb (glob_pattern s)) (path_split pattern) with
  | [] => "/"
  | first :: rest => fold_left path_join rest first
  end.

Definition format_match (path : string) (f : Format) : bool :=
  match f with
  | FmtParquet => ends_with ".parquet" path
  | FmtIpc => ends_with ".arrow" path || ends_with ".ipc" path
  end.

Definition inferred_root (path : string) (f : Format) : string := if format_match path f then dirname path else path.

Definition resolve_root (opts : OpenOpts) (inferred : string) : string :=
  normalize_root (default inferred (oo_root opts)).

(** [Enum.uniq] of the directories is a single one. *)
Definition resolve_list_root (opts : OpenOpts) (paths : list string) : res string string :=
  match oo_root opts with
  | Some root => Ok (normalize_root root)
  | None =>
      match map (fun p => dirname (normalize_root p)) paths with
      | only :: rest => if forallb (String.eqb only) rest then Ok only else Err "cannot infer dataset root from path list; pass root:"
      | [] => Err "cannot infer dataset root from path list; pass root:"
      end
  end.

(** A path and its size, ordered by the path. *)
Definition SizedPath : Type := string * Z.

Definition sized_le (a b : SizedPath) : Prop := String.le (fst a) (fst b).

#[export] Instance sized_le_dec a b : Decision (sized_le a b).
Proof. unfold sized_le. apply _. Defined.

Definition non_empty (msg : string) (sized : list SizedPath) (root : string) : res string (list SizedPath * string) :=
  match sized with [] => Err msg | _ => Ok (sized, root) end.

Section discovery.
Context `{FileSystem Fs}.

(** Hidden names are left out by default. *)
Definition lookup_size (fs : Fs) (path : string) : res string Z :=
  l ← fs_list fs path false true;
  match l with
  | [e] => if is_file e then Ok (en_size e) else Err ("expected a file at " +:+ path)
  | [] => Err ("path does not exist: " +:+ path)
  | _ => Err ("expected a file at " +:+ path)
  end.

Fixpoint attach_sizes (paths : list string) (fs : Fs) : res string (list SizedPath) :=
  match paths with
  | [] => Ok []
  | path :: rest => size ← lookup_size fs path; l ← attach_sizes rest fs; Ok ((path, size) :: l)
  end.

Definition discover_list (paths : list string) (fs : Fs) (f : Format) (ignore_hidden : bool) (opts : OpenOpts)
    : res string (list SizedPath * string) :=
  match paths with
  | [] => Err "path list must not be empty"
  | _ =>
      root ← resolve_list_root opts paths;
      sized ← attach_sizes paths fs;
      let filtered :=
        merge_sort sized_le
          (List.filter (fun '(path, _) => negb (ignore_hidden && path_has_hidden_component path))
             (List.filter (fun '(path, _) => format_match path f) sized)) in
      non_empty ("no " +:+ format_name f +:+ " files found in path list") filtered root
  end.

Definition discover_glob (pattern : string) (fs : Fs) (f : Format) (ignore_hidden : bool) (opts : OpenOpts)
    : res string (list SizedPath * string) :=
  let root := resolve_root opts (glob_root pattern) in
  paths ← fs_glob fs pattern ignore_hidden;
  sized ← attach_sizes (List.filter (fun p => format_match p f) paths) fs;
  non_empty ("no " +:+ format_name f +:+ " files matching " +:+ pattern) (merge_sort sized_le sized) root.

Definition discover_single_source (path : string) (fs : Fs) (f : Format) (ignore_hidden : bool) (opts : OpenOpts)
    : res string (list SizedPath * string) :=
  if fs_exists fs path then
    let root := resolve_root opts (inferred_root path f) in
    l ← fs_list fs path true ignore_hidden;
    let sized :=
      merge_sort sized_le
        (map (fun e => (en_path e, en_size e)) (List.filter (fun e => format_match (en_path e) f) (List.filter is_file l))) in
    non_empty ("no " +:+ format_name f +:+ " files under " +:+ path) sized root
  else Err ("path does not exist: " +:+ path).

Definition discover_paths (source : Source) (fs : Fs) (f : Format) (ignore_hidden : bool) (opts : OpenOpts)
    : res string (list SizedPath * string) :=
  match source with
  | SrcList paths => discover_list paths fs f ignore_hidden opts
  | SrcPath path =>
      if glob_pattern path then discover_glob path fs f ignore_hidden opts
      else discover_single_source path fs f ignore_hidden opts
  end.

Definition finalize_root (root : string) (fs : Fs) (sized : list SizedPath) : string :=
  match fs_local fs, sized with
  | Some expand, (path, _) :: _ =>
      let expanded := normalize_root (expand root) in
      if String.eqb path expanded || (match drop_prefix (expanded +:+ "/") path with Some _ => true | None => false end)
      then expanded else normalize_root root
  | _, _ => normalize_root root
  end.

(** ** Fragments *)

Context (float_parse : string -> option f64).

Fixpoint hive_fragments (sized : list SizedPath) (root : string) (f : Format) (schema : PartitionSchema) : res string (list Fragment) :=
  match sized with
  | [] => Ok []
  | (path, size) :: rest =>
      values ← parse_path float_parse path root schema;
      frags ← hive_fragments rest root f schema;
      Ok (mkFragment path f values size :: frags)
  end.

Definition build_fragments (sized : list SizedPath) (root : string) (f : Format) (partitioning : option PartitionSchema)
    : res string (list Fragment) :=
  match partitioning with
  | None => Ok (map (fun '(path, size) => mkFragment path f ∅ size) sized)
  | Some schema => hive_fragments sized root f schema
  end.

(** ** The schema *)

Context `{Rustler Term} `{Arrow, ParquetCrate, IpcCrate}.
Context (disk : string -> res string bytes).

Definition read_error (path msg : string) : string := "cannot read schema from " +:+ path +:+ ": " +:+ msg.

Definition read_schema (path : string) (f : Format) : res string Schema :=
  match f with
  | FmtParquet =>
      match reader_from_file (disk path) (as_keywords no_read_options) with
      | ROk stream => Ok (ps_schema stream)
      | RErr e => Err (read_error path (error_text e))
      | RRaise s => Panic s
      | _ => Panic "case clause"
      end
  | FmtIpc =>
      match ipc_file_open (disk path) with
      | ROk file =>
          match ipc_file_schema file with
          | RBare sch => Ok sch
          | RErr e => Err (read_error path (error_text e))
          | RRaise s => Panic s
          | _ => Panic "case clause"
          end
      | RErr e => Err (read_error path (error_text e))
      | RRaise s => Panic s
      | _ => Panic "case clause"
      end
  end.

Definition resolve_schema (fragments : list Fragment) (f : Format) (opts : OpenOpts) : res string Schema :=
  match oo_schema opts with
  | Some schema => Ok schema
  | None => match fragments with frag :: _ => read_schema (fr_path frag) f | [] => Err "cannot resolve schema: no fragments" end
  end.

(** ** [Dataset.open] *)

Definition open_dataset (source : Source) (fs : Fs) (opts : OpenOpts) : res string Dataset :=
  let f := fetch_format opts in
  partitioning ← fetch_partitioning opts;
  let ignore_hidden := fetch_ignore_hidden opts in
  '(sized, root) ← discover_paths source fs f ignore_hidden opts;
  let root := finalize_root root fs sized in
  fragments ← build_fragments sized root f partitioning;
  schema ← resolve_schema fragments f opts;
  Ok (mkDataset f partitioning root fragments schema).

End discovery.
