(* ===== verification/DiscoveryThms.v ===== *)
(** * Theorems about discovery

    A dataset opened from a directory has the files below it, in the order of
    their paths, with the typed values of their directories; a dataset laid out
    by the Hive convention opens as what was laid out; and the files that an
    explicit list or a glob cannot reach. *)

From Stdlib Require Import Ascii.
From stdpp Require Import sorting.
From S2P Require Import Prelude Float Utf8 Term Arrow ArrowRef Stream Elixir Compute Expression Parquet ParquetRead ParquetOpts Ipc IpcThms Paths Hive HiveThms HiveRound FileSystem FileSystemFacts ScanPlan Scanner Discovery.

(** ** Sorting *)

#[export] Instance sized_le_total : Total sized_le.
Proof. intros a b. unfold sized_le. apply String.le_total. Qed.

#[export] Instance sized_le_trans : Transitive sized_le.
Proof. intros a b c. unfold sized_le. by apply transitivity. Qed.

(** Distinct and sorted: strictly increasing. *)
Definition increasing (l : list string) : Prop := NoDup l /\ StronglySorted String.le l.

Lemma sorted_paths (l : list SizedPath) : StronglySorted String.le (map fst (merge_sort sized_le l)).
Proof.
  apply (StronglySorted_fmap fst sized_le String.le); [done|]. apply StronglySorted_merge_sort; apply _.
Qed.

(** ** Memory globs *)

(** C31: The files that a glob finds in the file system in memory.  In
    increasing order of their paths, these are exactly the files whose segments
    match the segments of the (normalised) pattern, where [**] stands for any
    number of directories and a star for any characters of a segment, and
    which, when hidden names are ignored, have none. *)
Theorem memory_glob_exact fs pattern h paths :
  mem_ok fs -> memory_glob fs pattern h = Ok paths ->
  exists pat, normalize_path pattern = Ok pat /\ increasing paths /\
    forall p, p ∈ paths <-> is_Some (mem_file fs p) /\ Glob (path_split pat) (path_split p) /\ h && path_has_hidden_component p = false.
Proof.
  intros Hok Hg. apply bind_Ok in Hg as (pat & Hn & [= <-]). exists pat. split; [done|]. split; [split|].
  - rewrite merge_sort_Permutation. do 2 apply NoDup_ListNoDup, List.NoDup_filter, NoDup_ListNoDup.
    apply NoDup_filter_paths. rewrite values_paths by done. apply NoDup_fst_map_to_list.
  - apply StronglySorted_merge_sort; apply _.
  - intros p. rewrite merge_sort_Permutation, !elem_of_filter_bool, negb_true_iff, list_elem_of_fmap.
    unfold match_glob. rewrite match_parts_spec. unfold mem_file. split.
    + intros (((e & -> & [He Hf]%elem_of_filter_bool) & Hm) & Hh). apply elem_of_values in He; [|done].
      rewrite He. cbn. rewrite Hf. by split; [eexists|].
    + intros ([s Hs] & Hm & Hh). destruct (entries fs !! p) as [e|] eqn:E; [|done]. cbn in Hs. destruct (is_file e) eqn:Ef; [|done].
      pose proof (Hok p e E) as Hp. cbn in Hp. subst p. split_and!; [|done..]. exists e. split; [done|].
      apply elem_of_filter_bool. split; [by apply elem_of_values|done].
Qed.

(** ** Opening a directory *)

Section directory.
Context `{FileSystemLaws Fs}.
Context (float_parse : string -> option f64).

Definition pair_of (e : Entry) : SizedPath := (en_path e, en_size e).

(** The files of a directory, as discovery wants them. *)
Definition wanted (fs : Fs) (root : string) (f : Format) (ignore_hidden : bool) (p : string) (size : Z) : Prop :=
  fs_file fs p = Some size /\ under p root = true /\ format_match p f = true /\ ignore_hidden && hidden_under_root p root = false.

Lemma single_source_directory fs path root f h opts :
  fs_ok fs -> fs_dir fs path root ->
  exists sized, discover_single_source path fs f h opts
      = non_empty ("no " +:+ format_name f +:+ " files under " +:+ path) sized (resolve_root opts (inferred_root path f)) /\
    increasing (map fst sized) /\ forall p size, (p, size) ∈ sized <-> wanted fs root f h p size.
Proof.
  intros Hok Hd. destruct (fs_list_dir fs path root h Hok Hd) as (He & l & Hl & Hn & Hspec).
  eexists. unfold discover_single_source. rewrite He, Hl. cbn [mbind res_bind]. split; [reflexivity|]. split; [split|].
  - rewrite merge_sort_Permutation, map_map. by apply NoDup_filter_paths.
  - apply sorted_paths.
  - intros p size. rewrite merge_sort_Permutation, list_elem_of_fmap. setoid_rewrite elem_of_filter_bool. setoid_rewrite elem_of_filter_bool.
    unfold wanted. specialize (Hspec p size). split.
    + intros (e & [= -> ->] & (Hin & Hf) & Hm). destruct (proj1 Hspec) as (? & ? & ?); [by exists e|]. done.
    + intros (Hf & Hu & Hm & Hh). destruct (proj2 Hspec) as (e & Hin & Hfile & <- & <-); [done|]. by exists e.
Qed.

(** Fragments and the paths they were built from. *)
Definition fragment_of (f : Format) (root : string) (partitioning : option PartitionSchema) (ps : SizedPath) (frag : Fragment) : Prop :=
  fr_path frag = fst ps /\ fr_size frag = snd ps /\ fr_format frag = f /\
  match partitioning with
  | None => fr_values frag = ∅
  | Some schema => parse_path float_parse (fst ps) root schema = Ok (fr_values frag)
  end.

Lemma build_fragments_spec sized root f partitioning frags :
  build_fragments float_parse sized root f partitioning = Ok frags -> Forall2 (fragment_of f root partitioning) sized frags.
Proof.
  unfold build_fragments, fragment_of. destruct partitioning as [schema|].
  - revert frags. induction sized as [|[path size] sized IH]; intros frags; [by intros [= <-]; constructor|]. cbn [hive_fragments].
    intros (values & Hv & (frags' & Hf & [= <-])%bind_Ok)%bind_Ok. constructor; [done|by apply IH].
  - intros [= <-]. induction sized as [|[path size] sized IH]; by constructor.
Qed.

Lemma fragments_paths sized root f partitioning frags :
  Forall2 (fragment_of f root partitioning) sized frags -> map (fun frag => (fr_path frag, fr_size frag)) frags = sized.
Proof. induction 1 as [|[p s] frag sized frags (Hp & Hs & _) Hf IH]; [done|]. cbn in *. by rewrite Hp, Hs, IH. Qed.

Context `{Rustler Term} `{Arrow, ParquetCrate, IpcCrate}.
Context (disk : string -> res string bytes).

(** A value for exactly the partition columns, each of its declared type. *)
Definition values_typed (ds : Dataset) (frag : Fragment) : Prop :=
  (forall c, keys_member (partition_keys ds) c = true <-> is_Some (fr_values frag !! c)) /\
  forall c, c ∈ partition_keys ds -> exists t v, (c, t) ∈ default [] (ds_partitioning ds) /\
    fr_values frag !! c = Some v /\ scalar_matches_type v t = true.

(** C16: Opening a directory, over any file system that lists directories
    faithfully.  The fragments of the dataset are in increasing order of their
    paths, at least one, and they are exactly the files below the directory
    that have the format's extension and, when hidden names are ignored, none
    below the directory, with their sizes.  Each has a value for exactly the
    columns of the partition schema, of the types that expressions accept. *)
Theorem dataset_open_exact fs path root opts ds :
  fs_ok fs -> fs_dir fs path root -> glob_pattern path = false ->
  open_dataset float_parse disk (SrcPath path) fs opts = Ok ds ->
  ds_fragments ds <> [] /\ increasing (map fr_path (ds_fragments ds)) /\
  (forall p size, (exists frag, frag ∈ ds_fragments ds /\ fr_path frag = p /\ fr_size frag = size) <->
    wanted fs root (fetch_format opts) (fetch_ignore_hidden opts) p size) /\
  Forall (fun frag => fr_format frag = fetch_format opts /\ values_typed ds frag) (ds_fragments ds).
Proof.
  intros Hok Hd Hg Ho. apply bind_Ok in Ho as (part & Hpart & Ho). apply bind_Ok in Ho as ([sized root'] & Hdisc & Ho).
  apply bind_Ok in Ho as (frags & Hb & (schema & _ & [= <-])%bind_Ok). cbn [ds_fragments].
  unfold discover_paths in Hdisc. rewrite Hg in Hdisc.
  destruct (single_source_directory fs path root (fetch_format opts) (fetch_ignore_hidden opts) opts Hok Hd) as (sized' & E & Hinc & Hw).
  rewrite E in Hdisc. assert (sized' = sized /\ sized <> []) as [-> Hne] by (by destruct sized'; [|injection Hdisc as <- <-]).
  apply build_fragments_spec in Hb. pose proof (fragments_paths _ _ _ _ _ Hb) as Hp. split_and!.
  - intros ->. by apply Forall2_nil_inv_r in Hb.
  - rewrite <- Hp, map_map in Hinc. exact Hinc.
  - intros p size. rewrite <- Hw, <- Hp, list_elem_of_fmap. naive_solver.
  - apply Forall_forall. intros frag Hin. apply list_elem_of_lookup in Hin as [i Hi].
    destruct (Forall2_lookup_r _ _ _ _ _ Hb Hi) as ([p s] & _ & (Hpath & Hs & Hf & Hv)). split; [done|].
    unfold values_typed, partition_keys. cbn [ds_partitioning]. destruct part as [ps|]; cbn [default].
    + by destruct (hive_values_typed float_parse _ _ _ _ Hv).
    + rewrite Hv. cbn. split; [|by intros c ?%elem_of_nil]. intros c. rewrite lookup_empty. by split; [|intros []].
Qed.
End directory.

(** ** Hidden files by name *)

Section hidden.
Context (float_parse : string -> option f64).
Context `{Rustler Term} `{Arrow, ParquetCrate, IpcCrate}.
Context (disk : string -> res string bytes).

(** A file with a hidden name on its path cannot be opened by name in a
    list.  It exists, and with [ignore_hidden: false] it is found when its path
    is the source; but when a list of paths has it first, the dataset is
    refused because the file does not exist, whatever the options are, since
    its size is looked up with the default of [ignore_hidden]. *)
Theorem hidden_files_unlisted (fs : Memory) p norm size rest opts part root f :
  normalize_path p = Ok norm -> entries fs !! norm = Some (mkEntry norm EtFile size) -> path_has_hidden_component norm = true ->
  fetch_partitioning opts = Ok part -> resolve_list_root opts (p :: rest) = Ok root ->
  fs_exists fs p = true /\
  open_dataset float_parse disk (SrcList (p :: rest)) fs opts = Err ("path does not exist: " +:+ p) /\
  (format_match norm f = true ->
   discover_single_source p fs f false opts = Ok ([(norm, size)], resolve_root opts (inferred_root p f))).
Proof.
  intros Hn He Hh Hp Hr. cbn [fs_exists fs_list memory_fs].
  assert (memory_exists fs p = true) as Hex by (unfold memory_exists; by rewrite Hn, He).
  split; [done|]. split.
  - unfold open_dataset. rewrite Hp. cbn [mbind res_bind discover_paths]. unfold discover_list. rewrite Hr. cbn [mbind res_bind attach_sizes].
    unfold lookup_size. cbn [fs_list memory_fs]. unfold memory_list, list_at. rewrite Hn. cbn [mbind res_bind]. by rewrite He, Hh.
  - intros Hf. unfold discover_single_source. cbn [fs_exists fs_list memory_fs]. rewrite Hex.
    unfold memory_list, list_at. rewrite Hn. cbn [mbind res_bind]. rewrite He. cbn [en_type andb mbind res_bind].
    change (List.filter is_file [mkEntry norm EtFile size]) with [mkEntry norm EtFile size]. cbn [List.filter en_path]. by rewrite Hf.
Qed.
End hidden.

(** ** A small file system *)

Definition demo_files : list (string * Z) :=
  [("/data/year=2026/b.parquet", 20); ("/data/year=2025/a.parquet", 10); ("/data/year=2026/_tmp/c.parquet", 5); ("/data/notes.txt", 1)].

Definition demo_fs : Memory := match new_memory demo_files with Ok fs => fs | _ => mkMemory ∅ end.

Lemma demo_ok : mem_ok demo_fs.
Proof. apply (bool_decide_unpack _). by vm_compute. Qed.

Lemma demo_dir : mem_dir demo_fs "data/" "/data".
Proof. split; vm_compute; reflexivity. Qed.

Lemma memory_glob_exact_witness :
  memory_glob demo_fs "/data/**/*.parquet" true = Ok ["/data/year=2025/a.parquet"; "/data/year=2026/b.parquet"] /\
  exists pat, increasing ["/data/year=2025/a.parquet"; "/data/year=2026/b.parquet"] /\
    Glob (path_split pat) (path_split "/data/year=2025/a.parquet").
Proof.
  assert (memory_glob demo_fs "/data/**/*.parquet" true = Ok ["/data/year=2025/a.parquet"; "/data/year=2026/b.parquet"]) as E by by vm_compute.
  split; [exact E|]. destruct (memory_glob_exact demo_fs _ _ _ demo_ok E) as (pat & _ & Hi & Hs). exists pat. split; [exact Hi|].
  apply (proj1 (Hs "/data/year=2025/a.parquet")). by left.
Defined.

(** The source is [data/], which the file system makes absolute; the root has
    to be given.  The schema is read from the footer of the first file. *)
Definition demo_opts : OpenOpts := mkOpenOpts None (Some [("year", "int32")]) None None (Some "/data").

Notation demo_open :=
  (open_dataset (Term := beam) (H2 := x_parquet) (fun _ => None) (fun _ => Ok x_data) (SrcPath "data/") demo_fs demo_opts).

Lemma dataset_open_exact_witness :
  exists ds, demo_open = Ok ds /\ map fr_path (ds_fragments ds) = ["/data/year=2025/a.parquet"; "/data/year=2026/b.parquet"] /\
    increasing (map fr_path (ds_fragments ds)) /\ Forall (fun frag => fr_format frag = FmtParquet /\ values_typed ds frag) (ds_fragments ds).
Proof.
  assert (exists ds, demo_open = Ok ds /\ map fr_path (ds_fragments ds) = ["/data/year=2025/a.parquet"; "/data/year=2026/b.parquet"])
    as (ds & E & Hp) by (eexists; split; vm_compute; reflexivity).
  exists ds. split; [exact E|]. split; [exact Hp|].
  destruct (dataset_open_exact (H0 := memory_laws) (Term := beam) (H3 := x_parquet) (fun _ => None) (fun _ => Ok x_data) demo_fs "data/" "/data"
    demo_opts ds demo_ok demo_dir eq_refl E) as (_ & Hi & _ & Hf).
  by split.
Defined.

Lemma hidden_files_unlisted_witness :
  fs_exists demo_fs "/data/year=2026/_tmp/c.parquet" = true /\
  open_dataset (Term := beam) (H2 := x_parquet) (fun _ => None) (fun _ => Ok x_data) (SrcList ["/data/year=2026/_tmp/c.parquet"]) demo_fs
    (mkOpenOpts None None (Some false) (Some x_schema) None) = Err "path does not exist: /data/year=2026/_tmp/c.parquet".
Proof.
  destruct (hidden_files_unlisted (Term := beam) (H1 := x_parquet) (fun _ => None) (fun _ => Ok x_data) demo_fs
    "/data/year=2026/_tmp/c.parquet" "/data/year=2026/_tmp/c.parquet" 5 [] (mkOpenOpts None None (Some false) (Some x_schema) None)
    None "/data/year=2026/_tmp" FmtParquet) as (He & Ho & _); [by vm_compute..|]. exact (conj He Ho).
Defined.

(** Discovery from Elixir's side of the limits: a question mark makes a source
    a glob, in which it stands for itself; a directory in a list of paths with
    a single visible file is taken for a file; and a relative directory of the
    file system in memory is not the root of its own files. *)
Example glob_question_mark : glob_pattern "/data/year=202?" = true /\ match_glob "/data/year=2026" "/data/year=202?" = false.
Proof. by vm_compute. Qed.

Example directory_as_file :
  (fs ← new_memory [("/out.parquet/part-0.parquet", 7); ("/out.parquet/_SUCCESS", 0)]; lookup_size fs "/out.parquet") = Ok 7.
Proof. by vm_compute. Qed.

Example relative_root :
  open_dataset (Term := beam) (H2 := x_parquet) (fun _ => None) (fun _ => Ok x_data) (SrcPath "data") demo_fs
    (mkOpenOpts None (Some [("year", "int32")]) None None None)
  = Err "path /data/year=2025/a.parquet is not under dataset root data".
Proof. by vm_compute. Qed.
