(* ===== verification/DiscoveryRound.v ===== *)
(** * A dataset that was laid out opens as it was laid out

    Files written below a root by the Hive convention, in the file system in
    memory, are discovered with the values they were laid out by: the path
    handling of the layout, the file system, the discovery and the partition
    parser fit together. *)

From Stdlib Require Import Ascii.
From stdpp Require Import sorting.
From S2P Require Import Prelude Float Utf8 Term Arrow ArrowRef Stream Elixir Compute Expression Parquet ParquetRead ParquetOpts Ipc IpcThms Paths Hive HiveThms HiveRound FileSystem FileSystemFacts ScanPlan Scanner Discovery DiscoveryThms.

(** ** The layout *)

Record HiveFile := mkHiveFile { hf_cols : list Column; hf_name : string; hf_size : Z }.

Definition hf_relative (x : HiveFile) : string := relative_to_root (hf_cols x) (hf_name x).

Definition hf_path (root : string) (x : HiveFile) : string := hive_path root (hf_cols x) (hf_name x).

(** The path as the file system keeps it. *)
Definition hf_norm (root : string) (x : HiveFile) : string := normalize root +:+ "/" +:+ hf_relative x.

Definition hf_fragment (root : string) (x : HiveFile) : Fragment :=
  mkFragment (hf_norm root x) FmtParquet (list_to_map (column_values (hf_cols x))) (hf_size x).

(** A file of a dataset with the given partition schema: its columns are those
    of the schema, and neither its name nor a key is hidden. *)
Record laid_out (root : string) (schema : PartitionSchema) (x : HiveFile) : Prop := {
  lo_columns : Forall (fun c => column_ok c = true) (hf_cols x);
  lo_keys : NoDup (map c_key (hf_cols x));
  lo_schema : schema ≡ₚ map (fun c => (c_key c, c_type c)) (hf_cols x);
  lo_flat : flat (hf_name x) = true;
  lo_parquet : ends_with ".parquet" (hf_name x) = true;
  lo_visible : Forall (fun s => hidden_basename s = false) (map segment (hf_cols x) ++ [hf_name x]);
  lo_size : 0 <= hf_size x;
  lo_valid : string_valid (hf_path root x) = true
}.

(** A dataset: some files with distinct paths below an absolute root, which is
    neither a glob nor named like a file. *)
Record hive_layout (root : string) (schema : PartitionSchema) (files : list HiveFile) : Prop := {
  hl_files : Forall (laid_out root schema) files;
  hl_distinct : NoDup (map (hf_norm root) files);
  hl_some : files <> [];
  hl_schema : schema <> [];
  hl_absolute : starts_slash (replace_backslash root) = true;
  hl_valid : string_valid root = true;
  hl_plain : glob_pattern root = false;
  hl_directory : format_match root FmtParquet = false
}.

Definition open_opts (schema : PartitionSchema) (sch : Schema) : OpenOpts := mkOpenOpts None (Some schema) None (Some sch) None.

(** ** Roots *)

Lemma root_starts root : starts_slash (replace_backslash root) = true -> starts_slash (collapse_slashes (replace_backslash root)) = true.
Proof. by rewrite starts_collapse. Qed.

Lemma normalize_root_cases root :
  starts_slash (replace_backslash root) = true ->
  (normalize_root root = "/" /\ normalize root = "") \/ (normalize_root root = normalize root /\ normalize root <> "").
Proof.
  intros Hs%root_starts. unfold normalize_root, normalize. set (c := collapse_slashes (replace_backslash root)) in *.
  destruct (String.eqb_spec c "") as [E|Hne]; [by rewrite E in Hs|]. destruct (String.eqb_spec c "/") as [E|Hne']; [left; by rewrite E|].
  right. split; [done|]. intros Ht. destruct (trim_to_nothing c) as [?|?]; [apply collapse_idem|done|done|done].
Qed.

Lemma normalize_root_normal root : starts_slash (replace_backslash root) = true -> normalize (normalize_root root) = normalize root.
Proof. intros [[-> ->]|[-> _]]%normalize_root_cases; [done|apply normalize_idem]. Qed.

Lemma normalize_root_starts root : starts_slash (replace_backslash root) = true -> starts_slash (replace_backslash (normalize_root root)) = true.
Proof.
  intros Hs. destruct (normalize_root_cases root Hs) as [[-> _]|[-> Hne]]; [done|].
  unfold normalize in *. rewrite replace_trim by apply replace_collapse, replace_idem.
  apply root_starts in Hs. destruct (collapse_slashes (replace_backslash root)) as [|c r]; [done|].
  cbn [trim_trailing] in *. destruct (trim_trailing r); [destruct (Ascii.eqb c "/"%char); done|done].
Qed.

Lemma normalize_path_root root :
  starts_slash (replace_backslash root) = true -> string_valid root = true -> normalize_path root = Ok (normalize_root root).
Proof.
  intros Hs Hv. pose proof (normalize_root_cases root Hs) as Hc. apply root_starts in Hs.
  unfold normalize_path, ensure_absolute. rewrite Hv, Hs.
  assert (trim_trailing_slash (collapse_slashes (replace_backslash root)) = normalize_root root) as ->.
  { unfold trim_trailing_slash, normalize_root. destruct (String.eqb_spec (collapse_slashes (replace_backslash root)) "") as [E|_]; [by rewrite E in Hs|].
    cbn [orb]. by destruct (String.eqb _ "/"). }
  by destruct (String.eqb_spec (normalize_root root) "") as [E|]; [destruct Hc as [[? _]|[Hr ?]]; congruence|].
Qed.

(** A path below the root, as the file system keeps it. *)
Section below.
Context (root rest : string) (Hroot : starts_slash (replace_backslash root) = true).
Context (Hn : normalised rest) (Hs : starts_slash rest = false) (He : rest <> "").

Lemma below_longer s : (String.length s <= 1 + String.length (normalize root))%nat -> normalize root +:+ "/" +:+ rest <> s.
Proof. intros Hl <-. rewrite !string_length_app in Hl. destruct rest; [done|]. cbn in Hl. lia. Qed.

Lemma below_not_root : normalize root +:+ "/" +:+ rest <> normalize_root root.
Proof. apply below_longer. destruct (normalize_root_cases root Hroot) as [[-> _]|[-> _]]; cbn; lia. Qed.

Lemma normalize_path_below :
  string_valid (root +:+ "/" +:+ rest) = true ->
  normalize_path (root +:+ "/" +:+ rest) = Ok (normalize root +:+ "/" +:+ rest).
Proof.
  intros Hv. unfold normalize_path, ensure_absolute. rewrite Hv.
  assert (starts_slash (collapse_slashes (replace_backslash (root +:+ "/" +:+ rest))) = true) as ->.
  { rewrite starts_collapse, replace_app. by apply starts_append. }
  assert (collapse_slashes (replace_backslash (root +:+ "/" +:+ rest)) = normalize root +:+ "/" +:+ rest) as ->.
  { rewrite !replace_app. destruct Hn as (-> & Hc & _). change (replace_backslash "/") with "/". by apply collapse_any. }
  unfold trim_trailing_slash. destruct (String.eqb_spec (normalize root +:+ "/" +:+ rest) "/") as [E|_]; [by apply below_longer in E; [|cbn; lia]|].
  rewrite trim_app; [|done|by apply (trim_app "/"), Hn].
  by destruct (String.eqb_spec (normalize root +:+ "/" +:+ rest) "") as [E|_]; [apply below_longer in E; [|cbn; lia]|].
Qed.

Lemma under_below : under (normalize root +:+ "/" +:+ rest) (normalize_root root) = true.
Proof.
  unfold under. destruct (normalize_root_cases root Hroot) as [[-> _]|[-> _]]; [done|].
  by rewrite (string_app_assoc (normalize root) "/" rest), drop_prefix_app, orb_true_r.
Qed.

(** Below the root, what is hidden is hidden in the rest of the path. *)
Lemma hidden_below :
  hidden_under_root (normalize root +:+ "/" +:+ rest) (normalize_root root) = existsb hidden_basename (path_split rest).
Proof.
  unfold hidden_under_root. destruct (normalize_root_cases root Hroot) as [[-> ->]|[-> Hne]].
  - change (String.eqb "/" "/") with true. cbn match. change ("" +:+ "/" +:+ rest) with (String "/" rest).
    unfold path_split. cbn [starts_slash]. rewrite Hs. cbn [split_slash]. by cbn.
  - destruct (String.eqb_spec (normalize root) "/") as [E|_].
    { exfalso. pose proof (normalize_idem root) as Hi. by rewrite E in Hi. }
    by rewrite (string_app_assoc (normalize root) "/" rest), drop_prefix_app.
Qed.
End below.

(** ** One file *)

Lemma name_nonempty x : ends_with ".parquet" x = true -> x <> "".
Proof. by intros H ->. Qed.

Section file.
Context (root : string) (schema : PartitionSchema) (Hroot : starts_slash (replace_backslash root) = true).
Context (x : HiveFile) (Hx : laid_out root schema x).

Lemma relative_ok :
  normalised (hf_relative x) /\ starts_slash (hf_relative x) = false /\ hf_relative x <> "".
Proof. destruct Hx. apply relative_normalised; [done..|]. by apply name_nonempty. Qed.

Lemma relative_segments : path_split (hf_relative x) = map segment (hf_cols x) ++ [hf_name x].
Proof.
  destruct relative_ok as (_ & Hs & _). unfold path_split. rewrite Hs. cbn [app]. destruct Hx as [Hc _ _ Hf Hp _ _ _].
  assert (Forall (fun s => flat s = true /\ s <> "") (map segment (hf_cols x) ++ [hf_name x])) as Hsegs.
  { apply Forall_app. split; [|constructor; [|constructor]; split; [done|by apply name_nonempty]].
    apply Forall_map. eapply Forall_impl; [exact Hc|]. intros c Hok. by destruct (column_segment c Hok) as (? & ? & _). }
  unfold hf_relative, relative_to_root. rewrite split_concat; [|by destruct (hf_cols x)|by eapply Forall_impl; [exact Hsegs|intros ? []]].
  induction Hsegs as [|s l [_ Hs'] Hl IH]; [done|]. cbn. destruct (String.eqb_spec s ""); [done|]. cbn. by rewrite IH.
Qed.

Lemma file_path_kept : normalize_path (hf_path root x) = Ok (hf_norm root x).
Proof.
  destruct relative_ok as (Hn & Hs & He). unfold hf_path, hive_path. apply normalize_path_below; [done..|].
  exact (lo_valid _ _ _ Hx).
Qed.

Lemma file_visible : hidden_under_root (hf_norm root x) (normalize_root root) = false.
Proof.
  destruct relative_ok as (Hn & Hs & He). unfold hf_norm. rewrite hidden_below, relative_segments by done.
  pose proof (lo_visible _ _ _ Hx) as Hv. induction Hv as [|s l Hh Hl IH]; [done|]. cbn. by rewrite Hh.
Qed.

Lemma file_format : format_match (hf_norm root x) FmtParquet = true.
Proof.
  cbn [format_match]. unfold hf_norm, hf_relative, relative_to_root. do 2 apply ends_with_app.
  pose proof (lo_parquet _ _ _ Hx) as Hp. induction (map segment (hf_cols x)) as [|s l IH]; [done|].
  cbn [app]. destruct (l ++ [hf_name x]) as [|s' r] eqn:E; [by destruct l|].
  change (String.concat "/" (s :: s' :: r)) with (s +:+ "/" +:+ String.concat "/" (s' :: r)). by do 2 apply ends_with_app.
Qed.

Lemma file_parses float_parse :
  parse_path float_parse (hf_norm root x) (normalize_root (normalize_root root)) schema = Ok (list_to_map (column_values (hf_cols x))).
Proof.
  destruct relative_ok as (Hn & Hs & He). destruct Hx as [Hc Hk Hsch Hf _ _ _ _].
  eapply parse_path_columns; [done..|]. unfold hf_norm. rewrite normalize_under by done.
  by rewrite normalize_idem, normalize_root_normal, normalize_root_normal by (by try apply normalize_root_starts).
Qed.
End file.

(** ** The dataset *)

Lemma hive_fragments_ok float_parse root schema files :
  Forall (laid_out root schema) files -> starts_slash (replace_backslash root) = true ->
  hive_fragments float_parse (map (fun x => (hf_norm root x, hf_size x)) files) (normalize_root (normalize_root root)) FmtParquet schema
    = Ok (map (hf_fragment root) files).
Proof.
  intros Hf Hr. induction Hf as [|x files Hx Hf IH]; [done|]. cbn [map hive_fragments].
  rewrite (file_parses root schema Hr x Hx), IH. done.
Qed.

(** The files of the file system below the root. *)
Lemma memory_laid_out root schema files :
  Forall (laid_out root schema) files -> NoDup (map (hf_norm root) files) ->
  starts_slash (replace_backslash root) = true -> string_valid root = true -> files <> [] ->
  exists fs, new_memory (seed (hf_path root) hf_size files) = Ok fs /\ mem_ok fs /\ mem_dir fs root (normalize_root root) /\
    forall p s, mem_file fs p = Some s <-> exists x, x ∈ files /\ hf_norm root x = p /\ hf_size x = s.
Proof.
  intros Hf Hn Hr Hv Hne. assert (mem_ok (mkMemory ∅)) as Hok0 by apply map_Forall_empty.
  assert (Forall (fun x => normalize_path (hf_path root x) = Ok (hf_norm root x)) files) as Hnorm.
  { eapply Forall_impl; [exact Hf|]. intros x Hx. by apply (file_path_kept root schema). }
  destruct (put_all_ok (hf_path root) (hf_norm root) hf_size (mkMemory ∅) files Hok0) as [fs Hfs].
  { apply Forall_forall. intros x Hx. rewrite Forall_forall in Hf, Hnorm. split; [exact (lo_size _ _ _ (Hf x Hx))|by apply Hnorm]. }
  destruct (put_all_files _ (hf_norm root) _ _ _ _ Hok0 Hfs Hnorm Hn) as [Hok Hfiles].
  assert (forall p s, mem_file fs p = Some s <-> exists x, x ∈ files /\ hf_norm root x = p /\ hf_size x = s) as Hfiles'.
  { intros p s. rewrite Hfiles. split; [|by left]. intros [|[_ Hm]]; [done|]. unfold mem_file in Hm. cbn in Hm. by rewrite lookup_empty in Hm. }
  exists fs. split_and!; [done|done| |done]. split; [by apply normalize_path_root|].
  destruct (entries fs !! normalize_root root) as [e|] eqn:E.
  - destruct (en_type e) eqn:Et; [exfalso|done].
    assert (mem_file fs (normalize_root root) = Some (en_size e)) as Hm by (unfold mem_file; rewrite E; cbn; by rewrite (proj2 (is_file_spec e) Et)).
    apply Hfiles' in Hm as (x & Hx & Hp & _). rewrite Forall_forall in Hf. destruct (relative_ok root schema x (Hf x Hx)) as (Hnr & Hs & He).
    by eapply (below_not_root root (hf_relative x)).
  - destruct files as [|x files]; [done|]. rewrite Forall_forall in Hf. destruct (relative_ok root schema x (Hf x ltac:(by left))) as (Hnr & Hs & He).
    destruct (entries fs !! hf_norm root x) as [e|] eqn:Ex.
    + unfold implicit_dir. apply existsb_exists. exists (hf_norm root x, e). split; [by apply list_elem_of_In, elem_of_map_to_list|].
      by apply under_below.
    + assert (mem_file fs (hf_norm root x) = Some (hf_size x)) as Hm by (apply Hfiles'; exists x; split; [by left|done]).
      unfold mem_file in Hm. by rewrite Ex in Hm.
Qed.

Section dataset.
Context (float_parse : string -> option f64).
Context `{Rustler Term} `{Arrow, ParquetCrate, IpcCrate}.
Context (disk : string -> res string bytes).

(** What [Dataset.open] makes of the layout. *)
Lemma laid_out_opens root schema sch files :
  hive_layout root schema files ->
  exists fs ds files', new_memory (seed (hf_path root) hf_size files) = Ok fs /\
    open_dataset float_parse disk (SrcPath root) fs (open_opts schema sch) = Ok ds /\
    files' ≡ₚ files /\ increasing (map (hf_norm root) files') /\ ds_fragments ds = map (hf_fragment root) files' /\
    ds_partitioning ds = Some schema /\ ds_schema ds = sch.
Proof.
  intros [Hf Hn Hne Hsne Hr Hv Hg Hm]. destruct (memory_laid_out root schema files Hf Hn Hr Hv Hne) as (fs & Hfs & Hok & Hd & Hfiles).
  destruct (@single_source_directory Memory memory_fs memory_laws fs root (normalize_root root) FmtParquet true (open_opts schema sch) Hok Hd) as (sized & Hdisc & [Hnd Hst] & Hw).
  assert (sized ≡ₚ map (fun x => (hf_norm root x, hf_size x)) files) as Hperm.
  { apply NoDup_Permutation; [by eapply NoDup_fmap_1 with (f := fst)| |].
    - apply (NoDup_fmap_1 fst). change (NoDup (map fst (map (fun x => (hf_norm root x, hf_size x)) files))). by rewrite map_map.
    - intros [p s]. rewrite Hw, list_elem_of_fmap. unfold wanted. change (fs_file fs p) with (mem_file fs p). rewrite Hfiles. split.
      + intros ((x & Hx & <- & <-) & _). by exists x.
      + intros (x & [= -> ->] & Hx). rewrite Forall_forall in Hf. split; [by exists x|].
        destruct (relative_ok root schema x (Hf x Hx)) as (? & ? & ?).
        split_and!; [by apply under_below|by eapply file_format, Hf|by rewrite (file_visible root schema Hr x (Hf x Hx))]. }
  apply Permutation_map_inv in Hperm as (files' & -> & Hp). rewrite map_map in Hnd, Hst. cbn [fst] in Hnd, Hst.
  exists fs, (mkDataset FmtParquet (Some schema) (normalize_root (normalize_root root)) (map (hf_fragment root) files') sch), files'. split; [done|]. split; [|split; [by rewrite Hp|split; [by split|split; [reflexivity|by split]]]].
  assert (validate_schema schema = Ok schema) as Hvs.
  { destruct files as [|x files]; [done|]. apply Forall_inv in Hf. apply validate_supported. rewrite (lo_schema _ _ _ Hf).
    apply Forall_map. eapply Forall_impl; [exact (lo_columns _ _ _ Hf)|]. intros c [_ Hs]%andb_true_iff. by eapply storable_supported. }
  unfold open_dataset, fetch_partitioning. cbn [oo_partitioning open_opts]. rewrite Hvs. cbn [mbind res_bind].
  destruct schema as [|s schema]; [done|]. cbn [mbind res_bind]. unfold discover_paths. rewrite Hg.
  change (fetch_format (open_opts (s :: schema) sch)) with FmtParquet. change (fetch_ignore_hidden (open_opts (s :: schema) sch)) with true.
  rewrite Hdisc. unfold inferred_root. rewrite Hm.
  destruct files' as [|x files']; [by apply Permutation_nil_r in Hp|]. cbn [non_empty map mbind res_bind].
  unfold finalize_root. change (fs_local fs) with (@None (string -> string)). cbn match.
  change (resolve_root (open_opts (s :: schema) sch) root) with (normalize_root root).
  cbn [build_fragments]. change ((hf_norm root x, hf_size x) :: map (fun x => (hf_norm root x, hf_size x)) files') with
    (map (fun x => (hf_norm root x, hf_size x)) (x :: files')).
  rewrite hive_fragments_ok; [done| |done]. by rewrite <- Hp.
Qed.

(** C15: A dataset that was laid out opens as it was laid out.  Parquet files
    are written below an absolute root, each in the directories [key=value] of
    its values of the partition columns (in any order, percent-encoded), under
    names and keys that are not hidden.  Then the file system in memory accepts
    them, [Dataset.open] of the root finds all of them and nothing else, in
    increasing order of their paths, and gives each fragment exactly the values
    and the size it was laid out with. *)
Theorem hive_dataset_opens root schema sch files :
  hive_layout root schema files ->
  exists fs ds files', new_memory (seed (hf_path root) hf_size files) = Ok fs /\
    open_dataset float_parse disk (SrcPath root) fs (open_opts schema sch) = Ok ds /\
    files' ≡ₚ files /\ increasing (map (hf_norm root) files') /\ ds_fragments ds = map (hf_fragment root) files' /\
    ds_partitioning ds = Some schema /\ ds_schema ds = sch.
Proof. apply laid_out_opens. Qed.
End dataset.

(** ** Two files *)

Definition shop_schema : PartitionSchema := [("year", "int32"); ("shop", "utf8")].

Definition shop_file (shop name : string) (year size : Z) : HiveFile :=
  mkHiveFile [mkColumn "year" "int32" (LInt year); mkColumn "shop" "utf8" (LBin shop)] name size.

Definition shop_files : list HiveFile := [shop_file "b/c" "2.parquet" 2026 7; shop_file "a=1" "1.parquet" 2025 9].

Lemma shop_layout : hive_layout "\data/" shop_schema shop_files.
Proof.
  split; try done; [|by apply (bool_decide_unpack _); vm_compute].
  repeat constructor; try by vm_compute.
  all: apply (bool_decide_unpack _); by vm_compute.
Qed.

(** The directories are [year=2025/shop=a%3D1] and [year=2026/shop=b%2Fc]. *)
Lemma hive_dataset_opens_witness :
  exists fs ds files', open_dataset (Term := beam) (H2 := x_parquet) (fun _ => None) (fun _ => Ok x_data) (SrcPath "\data/") fs
      (open_opts shop_schema x_schema) = Ok ds /\
    files' ≡ₚ shop_files /\ ds_fragments ds = map (hf_fragment "\data/") files'.
Proof.
  destruct (hive_dataset_opens (fun _ => None) (Term := beam) (H1 := x_parquet) (fun _ => Ok x_data) "\data/" shop_schema x_schema
    shop_files shop_layout) as (fs & ds & files' & _ & Ho & Hp & _ & Hf & _).
  exists fs, ds, files'. exact (conj Ho (conj Hp Hf)).
Defined.
