(* ===== verification/HiveScan.v ===== *)
(** * A laid-out dataset scanned by its partitions

    The layout, the discovery, the scanner's plan and its stream together: a
    filter over partition columns selects whole files. *)

From S2P Require Import Prelude Float Utf8 Term Arrow ArrowRef Stream Elixir Compute ComputeFacts ComputeEval ComputeThms Expression ExpressionThms Parquet ParquetRows ParquetRead ParquetOpts ParquetOptsThms Ipc IpcRound Paths Hive HiveThms HiveRound FileSystem FileSystemFacts ScanPlan ScanPlanFacts ScanPlanThms ScanRows Scanner ScannerFacts ScanRead ScannerThms Discovery DiscoveryThms DiscoveryRound.

(** The partition values of a file. *)
Definition hf_values (x : HiveFile) : PartitionValues := list_to_map (column_values (hf_cols x)).

(** ** What a filter says of partition values

    On its own terms, not the planner's: a filter of comparisons between
    partition columns and literals, in integers, booleans or strings, under
    [and], [or] and [not].  It has no truth value where a comparison relates
    dates, values of two kinds or columns that the fragment has no value of. *)

Definition operand (pv : PartitionValues) (n : Node) : option Lit :=
  match n with NField c => pv !! c | NScalar v => Some v | NCall _ _ => None end.

Definition value_order (a v : Lit) : option Datatypes.comparison :=
  match a, v with
  | LInt x, LInt y => Some (x ?= y)
  | LBool x, LBool y => Some (Bool.compare x y)
  | LBin s, LBin t => Some (String.compare s t)
  | _, _ => None
  end.

Definition relates (op : Op) (c : Datatypes.comparison) : option bool :=
  match op with
  | OpEq => Some (bool_decide (c = Eq))
  | OpNe => Some (bool_decide (c <> Eq))
  | OpLt => Some (bool_decide (c = Lt))
  | OpLte => Some (bool_decide (c <> Gt))
  | OpGt => Some (bool_decide (c = Gt))
  | OpGte => Some (bool_decide (c <> Lt))
  | _ => None
  end.

Fixpoint truth (pv : PartitionValues) (n : Node) : option bool :=
  match n with
  | NCall OpAnd [x; y] => a ← truth pv x; v ← truth pv y; Some (a && v)
  | NCall OpOr [x; y] => a ← truth pv x; v ← truth pv y; Some (a || v)
  | NCall OpNot [x] => negb <$> truth pv x
  | NCall op [x; y] => a ← operand pv x; v ← operand pv y; c ← value_order a v; relates op c
  | _ => None
  end.

Lemma value_order_compare op a v c y :
  value_order a v = Some c -> relates op c = Some y -> is_compare_op op = true /\ same_order a v = true /\ compare op a v = y.
Proof.
  intros Ha Hr. assert (same_order a v = true /\ term_compare a v = c) as [Hs Hc].
  { destruct a as [| |[]| | | |], v as [| |[]| | | |]; cbn in Ha |- *; simplify_eq; done. }
  unfold compare. rewrite Hc. destruct op, c; cbn in Hr; simplify_eq; done.
Qed.

(** Such a filter is over partition keys alone, and the pruner decides it so. *)
Lemma truth_spec (pv : PartitionValues) keys n y :
  (forall c, keys_member keys c = true <-> is_Some (pv !! c)) -> truth pv n = Some y ->
  partition_only_node keys n = true /\ decided keys n = true /\ orders_alike pv n = true /\ eval pv n = tri_bool y.
Proof.
  intros Hk. revert y. induction n as [c|v|op args IH] using node_ind; intros y Hy; [done..|].
  assert (forall m v, operand pv m = Some v -> partition_only_node keys m = true /\ resolved keys m = true /\ eval pv m = TriValue v) as Hop.
  { intros [c|w|] v; cbn; [|by intros [= ->]|done]. intros Hc. rewrite Hc. split_and!; [apply Hk; by eexists..|done]. }
  destruct args as [|a [|v [|w l]]]; [by destruct op| | |by destruct op].
  - destruct op; try done. cbn in Hy. apply fmap_Some in Hy as (y' & Ha & ->).
    destruct (Forall_inv IH y' Ha) as (? & ? & ? & E). cbn. rewrite E. split_and!; [done..|by destruct y'].
  - pose proof (Forall_inv IH) as IHa. pose proof (Forall_inv (Forall_inv_tail IH)) as IHv.
    destruct (is_compare_op op) eqn:Hcmp.
    + assert (exists a' v' c, operand pv a = Some a' /\ operand pv v = Some v' /\ value_order a' v' = Some c /\ relates op c = Some y)
        as (a' & v' & c & (Pa & Ra & Ea)%Hop & (Pv & Rv & Ev)%Hop & Hc & Hr).
      { destruct op; try done; cbn in Hy; apply bind_Some in Hy as (a' & Ha & (v' & Hv & (c & Hc & Hr)%bind_Some)%bind_Some);
          by exists a', v', c. }
      destruct (value_order_compare op a' v' c y Hc Hr) as (_ & Hs & <-).
      rewrite decided_call, orders_alike_call, eval_compare, Hcmp, Ra, Rv, Ea, Ev by done. split_and!; [|done..].
      destruct op; try done; cbn; by rewrite Pa, Pv.
    + assert (op <> OpNot) as Hnot.
      { intros ->. cbn in Hy. by destruct (operand pv a) as [a'|], (operand pv v) as [v'|]; cbn in Hy; try destruct (value_order a' v'). }
      destruct op; try done; cbn in Hy; apply bind_Some in Hy as (a' & Ha & (v' & Hv & Hy)%bind_Some); injection Hy as <-;
        destruct (IHa a' Ha) as (Pa & Da & Oa & Ea), (IHv v' Hv) as (Pv & Dv & Ov & Ev);
        cbn [partition_only_node forallb]; rewrite decided_call, orders_alike_call; cbn [is_compare_op eval];
        rewrite Pa, Pv, Da, Dv, Oa, Ov, Ea, Ev; by destruct a', v'.
Qed.

Section scan.
Context `{RustlerLaws Term} `{Arrow, !CmpLaws, !BoolLaws, !BatchLaws} `{ParquetCrate, RL : !ReaderLaws} `{IpcCrate}.
Context (disk : string -> res string bytes).

(** Nothing is left out of the files. *)
Definition all_opts : ReadOpts := mkReadOpts None None None.

Definition file_rows (c path : string) : list (option Cell) :=
  match disk path with Ok data => column_rows c (groups_of data) | _ => [] end.

Lemma partition_only_compile (pv : PartitionValues) keys e :
  (forall c, keys_member keys c = true <-> is_Some (pv !! c)) -> partition_only_node keys e = true -> compile_expr e keys = (None, None).
Proof.
  intros Hk He. unfold compile_expr, to_parquet_filters. destruct (split_node e) as [p r] eqn:Es. rewrite He. f_equal.
  destruct p as [f|]; [|done]. cbn.
  destruct (split_spec pv (mkBatch (mkSchema []) [] 0) e _ r Es) as (Hw & _).
  destruct (split_pushed pv (mkBatch (mkSchema []) [] 0) keys Hk e f r Es) as [_ _ _ _ Hok]. by apply strip_all; [apply Hw|apply Hok].
Qed.

Lemma hf_keys root schema x c : laid_out root schema x -> keys_member (map fst schema) c = true <-> is_Some (hf_values x !! c).
Proof.
  intros [_ Hk Hs _ _ _ _ _]. rewrite keys_member_spec, Hs, map_map. cbn [fst]. unfold hf_values, column_values. split.
  - intros (y & -> & Hy)%list_elem_of_fmap. exists (c_value y). by apply (lookup_columns c_value).
  - intros [v Hv]. apply elem_of_list_to_map_2 in Hv. apply list_elem_of_fmap in Hv as (y & [= -> ->] & Hy).
    by apply (list_elem_of_fmap_2 c_key).
Qed.

(** Such a filter is true of all rows of a file or of none. *)
Lemma partition_rows root schema x e y c bs :
  laid_out root schema x -> truth (hf_values x) e = Some y ->
  expr_rows c (bound (hf_values x) (Some e)) bs = if y then expr_rows c (EScalar (SBool true)) bs else [].
Proof.
  intros Hx Ht. pose proof (fun c => hf_keys root schema x c Hx) as Hk.
  destruct (truth_spec _ _ e y Hk Ht) as (_ & Hd & Ho & He).
  assert (forall b i, row_holds (hf_values x) b e i = Some y) as Hrow.
  { intros b i. destruct (decided_spec (hf_values x) b _ Hk e i Hd Ho) as (y' & Hy & ->).
    rewrite He in Hy. by destruct y, y'. }
  unfold expr_rows. cbn [bound]. destruct y.
  - f_equal. apply map_ext. intros b. f_equal. unfold row_mask. apply map_ext. intros i. exact (Hrow b i).
  - apply concat_nil_Forall, Forall_map, Forall_forall. intros b _. apply select_none, Forall_map, Forall_forall.
    intros i _. unfold row_holds in Hrow. by rewrite Hrow.
Qed.

Lemma all_rows s data c : parquet_file s all_opts data -> expr_rows c (EScalar (SBool true)) (groups_of data) = column_rows c (groups_of data).
Proof.
  intros (builder & Hb & Hread & _). destruct (fresh_builder data builder Hb) as (Hsrc & _ & _).
  pose proof Hread as (_ & _ & _ & Hu). rewrite Hsrc in Hu. unfold expr_rows, column_rows. f_equal. apply map_ext_in.
  intros b Hin%list_elem_of_In. unfold uniform in Hu. rewrite Forall_forall in Hu. destruct (Hu b Hin) as [Hw _].
  by apply select_all, column_cells_bound.
Qed.

(** The filter validates against the declared fields, so the scanner starts. *)
Definition filter_fields (schema : PartitionSchema) (sch : Schema) : gmap string string :=
  map_new schema ∪ map_new (schema_signature sch).

Definition partition_scanner (ds : Dataset) (schema : PartitionSchema) (e : Node) : Scanner :=
  mkScanner ds None (Some (SfExpr e)) None (map fst schema).

Lemma partition_scanner_new schema sch ds e :
  ds_partitioning ds = Some schema -> ds_schema ds = sch -> validate e (filter_fields schema sch) = Ok e ->
  new_scanner ds (mkScannerOpts None (Some (SfExpr e)) None) = Ok (partition_scanner ds schema e).
Proof.
  intros Hp Hs Hv. unfold new_scanner. cbn [fetch_columns so_columns so_filter so_batch_size mbind res_bind fetch_filter].
  unfold validate_expression, partition_field_types, partition_keys. rewrite Hp, Hs. unfold filter_fields in Hv. by rewrite Hv.
Qed.

(** What is asked of the files: Parquet files of the schema, and values that
    the filter says something of. *)
Definition filtered_file (root : string) (sch : Schema) (e : Node) (x : HiveFile) : Prop :=
  is_Some (truth (hf_values x) e) /\ exists data, disk (hf_norm root x) = Ok data /\ parquet_file sch all_opts data.

(** The scanner of such a filter is within the scope of [scan_delivers]. *)
Lemma partition_scannable root schema sch ds files e :
  Forall (laid_out root schema) files -> files <> [] ->
  ds_fragments ds = map (hf_fragment root) files -> ds_format ds = FmtParquet ->
  (forall x, x ∈ files -> filtered_file root sch e x) ->
  scannable disk sch (partition_scanner ds schema e) None None no_read_options all_opts.
Proof.
  intros Hf Hne Hfr Hfmt Hx. rewrite Forall_forall in Hf.
  assert (forall x, x ∈ files -> partition_only_node (map fst schema) e = true /\ decided (map fst schema) e = true /\
    orders_alike (hf_values x) e = true) as Hspec.
  { intros x Hin. destruct (Hx x Hin) as [[y Ht] _]. pose proof (fun c => hf_keys root schema x c (Hf x Hin)) as Hk.
    by destruct (truth_spec _ _ e y Hk Ht) as (? & ? & ? & _). }
  assert (exists x, x ∈ files) as [x0 Hin0] by (destruct files as [|x0 l]; [done|exists x0; by left]).
  destruct (Hspec x0 Hin0) as (He & Hd & _).
  split; cbn [sc_dataset sc_filter sc_partition_keys sc_columns partition_scanner]; try done.
  - cbn [compile]. eapply partition_only_compile; [|exact He]. intros c. exact (hf_keys root schema x0 c (Hf x0 Hin0)).
  - unfold plannable. by rewrite He.
  - unfold build_read_opts. cbn [sc_dataset partition_scanner]. by rewrite Hfmt.
  - intros frag Hin. rewrite Hfr in Hin. apply list_elem_of_fmap in Hin as (x & -> & Hin).
    destruct (Hspec x Hin) as (_ & _ & Ho), (Hx x Hin) as [_ Hdata].
    split_and!; [done|exact Hdata| |by intros ? [= <-]|done|by intros d ?%elem_of_nil].
    intros c. exact (hf_keys root schema x c (Hf x Hin)).
Qed.

Context (float_parse : string -> option f64).

(** C2: Laid out, discovered, planned and scanned.  A dataset is written below
    a root by the Hive convention, its files Parquet files of one schema.  Then
    it opens; and for a filter that validates against the declared fields and
    has a truth value on the partition values of each file (comparisons of
    partition columns and literals under [and], [or] and [not], relating two
    integers, two booleans or two strings: no dates, no floats, no mixed kinds)
    the scanner starts, and for every fuel from some bound on its calls deliver
    batches and then are exhausted for ever: of every column, in the order of
    the paths, all rows of the files of which the filter is true, and none of
    the others.  That truth value is the filter's own, defined without the
    planner, the pruner or the reader. *)
Theorem hive_scan_selects_files root schema sch files e :
  hive_layout root schema files ->
  validate e (filter_fields schema sch) = Ok e ->
  (forall x, x ∈ files -> filtered_file root sch e x) ->
  exists fs ds files' sc, new_memory (seed (hf_path root) hf_size files) = Ok fs /\
    open_dataset float_parse disk (SrcPath root) fs (open_opts schema sch) = Ok ds /\
    files' ≡ₚ files /\ increasing (map (hf_norm root) files') /\
    new_scanner ds (mkScannerOpts None (Some (SfExpr e)) None) = Ok sc /\
    exists st l fuel, to_stream sc = Ok st /\
      (forall fuel' k, (fuel <= fuel')%nat -> exists st', scan disk fuel' (length l + k) st = Ok (l ++ replicate k NxExhausted, st')) /\
      forall c, field_with_name sch c <> None ->
        column_rows c (reply_batches l) =
        concat (map (fun x => if bool_decide (truth (hf_values x) e = Some true) then file_rows c (hf_norm root x) else []) files').
Proof.
  intros Hl Hv Hx. destruct (laid_out_opens float_parse disk root schema sch files Hl) as (fs & ds & files' & Hfs & Ho & Hp & Hi & Hfr & Hpart & Hsch).
  exists fs, ds, files', (partition_scanner ds schema e). split_and!; [done..|by eapply partition_scanner_new|].
  assert (ds_format ds = FmtParquet) as Hfmt.
  { apply bind_Ok in Ho as (? & _ & ([? ?] & _ & (? & _ & (? & _ & [= <-])%bind_Ok)%bind_Ok)%bind_Ok). done. }
  pose proof (hl_files _ _ _ Hl) as Hf. rewrite <- Hp in Hf.
  assert (forall x, x ∈ files' -> filtered_file root sch e x) as Hx' by (intros x; rewrite Hp; apply Hx).
  assert (files' <> []) as Hne.
  { intros ->. apply Permutation_nil_l in Hp. by apply (hl_some _ _ _ Hl). }
  pose proof (partition_scannable root schema sch ds files' e Hf Hne Hfr Hfmt Hx') as Hscan.
  destruct (scan_delivers disk sch _ _ _ _ _ Hscan) as (st & l & fuel & Hst & Hruns & _ & Hrows).
  exists st, l, fuel. split_and!; [done..|]. intros c Hc. rewrite Hrows by done. unfold naive_rows. cbn [sc_dataset partition_scanner].
  rewrite Hfr, map_map. f_equal. apply map_ext_in. intros x Hin%list_elem_of_In. rewrite Forall_forall in Hf.
  destruct (Hx' x Hin) as ([y Ht] & data & Hdata & Hfile).
  unfold fragment_groups, file_rows. cbn [fr_path hf_fragment]. rewrite Hdata. unfold scan_expr. cbn [fr_values hf_fragment filter_of sc_filter].
  change (list_to_map (column_values (hf_cols x))) with (hf_values x). rewrite (partition_rows root schema x e y), Ht by auto.
  rewrite (all_rows sch) by done. by destruct y.
Qed.
End scan.

(** ** Two files, of which one is of 2026 *)

Definition recent_shops : Node := NCall OpGte [NField "year"; NScalar (LInt 2026)].

Lemma recent_premises x :
  x ∈ shop_files -> filtered_file (H5 := x_parquet) (RL := x_laws) year_disk "\data/" x_schema recent_shops x.
Proof.
  intros Hx. split.
  - apply elem_of_cons in Hx as [->|Hx]; [by eexists; vm_compute|]. apply list_elem_of_singleton in Hx as ->. by eexists; vm_compute.
  - exists x_data. split; [done|]. apply x_file. vm_compute. exact I.
Qed.

Definition shop_fs : Memory :=
  match new_memory (seed (hf_path "\data/") hf_size shop_files) with Ok fs => fs | _ => mkMemory ∅ end.

Notation shop_open :=
  (open_dataset (Term := beam) (H2 := x_parquet) (fun _ => None) year_disk (SrcPath "\data/") shop_fs (open_opts shop_schema x_schema)).

Definition shop_dataset : Dataset := match shop_open with Ok ds => ds | _ => year_dataset end.

Lemma shop_opens : new_memory (seed (hf_path "\data/") hf_size shop_files) = Ok shop_fs /\ shop_open = Ok shop_dataset.
Proof. split; vm_compute; reflexivity. Qed.

(** All of [x_data], once. *)
Lemma hive_scan_selects_files_witness :
  exists sc st l fuel, new_scanner shop_dataset (mkScannerOpts None (Some (SfExpr recent_shops)) None) = Ok sc /\
    to_stream (H1 := x_parquet) sc = Ok st /\
    (exists st', scan (Term := beam) (H1 := x_parquet) year_disk fuel (length l + 1) st = Ok (l ++ [NxExhausted], st')) /\
    column_rows "x" (reply_batches l) = map (fun i => Some (CInt i)) [1; 4; 5; 7; 2].
Proof.
  destruct (hive_scan_selects_files (Term := beam) (RL := x_laws) year_disk (fun _ => None) "\data/" shop_schema x_schema shop_files recent_shops
    shop_layout ltac:(vm_compute; reflexivity) recent_premises) as (fs & ds & files' & sc & Hfs & Ho & Hp & _ & Hnew & st & l & fuel & Hst & Hruns & Hrows).
  destruct shop_opens as [Efs Eds]. assert (shop_fs = fs) as <- by congruence. assert (shop_dataset = ds) as <- by congruence.
  exists sc, st, l, fuel. split; [exact Hnew|]. split; [exact Hst|]. split; [exact (Hruns fuel 1%nat (le_n fuel))|].
  rewrite (Hrows "x") by (vm_compute; congruence).
  symmetry in Hp. apply Permutation_length_2_inv in Hp as [-> | ->]; vm_compute; reflexivity.
Defined.
